(** * Moment estimators of lingvo's normalization layers

    A shallow embedding of [lingvo/core/bn_layers.py]: the windowed
    cumulative sum, the batch moment estimator [ComputeMoments] and the
    group-normalization layer with its two streaming moment estimators.

    Numbers.  The program computes on floating-point tensors.  The
    embedding computes on exact rationals ([Qc], canonical fractions with
    Leibniz equality): rounding is not modelled, so an equality proved here
    is the "equal up to floating-point tolerance" of the program.  Integer
    tensors hold integral rationals.

    Tensors.  A dense tensor is its shape together with a total function
    from multi-indices to values; only the values at indices inside the
    shape are meaningful.  Every reduction keeps the reduced axis with
    extent 1 (all callers in the file pass [keepdims=True]). *)

From Stdlib Require Import String.
From Stdlib Require Import List Arith ZArith QArith Qcanon Qround Lia Bool.
Import ListNotations.

Close Scope Qc_scope.
Close Scope Q_scope.
Open Scope nat_scope.

(** ** Scalars *)

Module Scalar.

Definition Qcmax (x y : Qc) : Qc :=
  match (x ?= y)%Qc with Lt => y | _ => x end.

Definition Qcmin (x y : Qc) : Qc :=
  match (x ?= y)%Qc with Gt => y | _ => x end.

Definition Qcltb (x y : Qc) : bool :=
  match (x ?= y)%Qc with Lt => true | _ => false end.

Definition Qc_of_nat (n : nat) : Qc := Q2Qc (inject_Z (Z.of_nat n)).

(** A float to [int32] cast followed by its use as a Python index: the
    integral part (counts are never negative). *)
Definition Qc_to_nat (q : Qc) : nat := Z.to_nat (Qfloor q).

Definition sqr (x : Qc) : Qc := (x * x)%Qc.

(** [sum_n n f] is [f 0 + ... + f (n-1)]. *)
Fixpoint sum_n (n : nat) (f : nat -> Qc) : Qc :=
  match n with
  | O => 0%Qc
  | S k => (sum_n k f + f k)%Qc
  end.

Fixpoint prod_list (l : list nat) : nat :=
  match l with
  | [] => 1
  | d :: r => d * prod_list r
  end.

End Scalar.
Export Scalar.

(** ** Tensors and the TensorFlow operations the file uses *)

Module Tensor.

Definition Index := list nat.

(** Element types.  A cast to a floating type keeps the value (rounding is
    not modelled); a cast to [int32] truncates toward zero. *)
Inductive DType : Type := float32 | bfloat16 | int32.

Definition dtype_eqb (a b : DType) : bool :=
  match a, b with
  | float32, float32 | bfloat16, bfloat16 | int32, int32 => true
  | _, _ => false
  end.

Record Tensor : Type :=
  mkTensor { dtype : DType; shape : list nat; data : Index -> Qc }.

(** [upd a v l] replaces position [a] of [l] by [v]. *)
Fixpoint upd (a v : nat) (l : list nat) : list nat :=
  match l, a with
  | [], _ => []
  | _ :: r, O => v :: r
  | x :: r, S a' => x :: upd a' v r
  end.

Definition extent (a : nat) (s : list nat) : nat := nth a s 1.
Definition ix (a : nat) (idx : Index) : nat := nth a idx 0.

Definition InRange (s : list nat) (idx : Index) : Prop := Forall2 lt idx s.

(** Two tensors are equal when they have one shape and one value at every
    index inside it. *)
Definition teq (x y : Tensor) : Prop :=
  shape x = shape y /\ forall idx, InRange (shape x) idx -> data x idx = data y idx.

(** *** Broadcasting *)

Definition clampi (d i : nat) : nat := if d =? 1 then 0 else i.

Fixpoint clamp (s : list nat) (idx : Index) : Index :=
  match s, idx with
  | d :: s', i :: idx' => clampi d i :: clamp s' idx'
  | _, _ => []
  end.

(** Reading [x] at an index of a broadcast result: shapes are aligned on
    their last axes, and an axis of extent 1 is read at 0. *)
Definition bget (x : Tensor) (idx : Index) : Qc :=
  data x (rev (clamp (rev (shape x)) (rev idx))).

(** The broadcast extent of two extents; extents that do not broadcast (an
    error in TensorFlow) give the empty extent. *)
Definition bdim (d1 d2 : nat) : nat :=
  if d1 =? 1 then d2 else if d2 =? 1 then d1 else if d1 =? d2 then d1 else 0.

Fixpoint bshape_rev (s1 s2 : list nat) : list nat :=
  match s1, s2 with
  | [], s => s
  | s, [] => s
  | d1 :: r1, d2 :: r2 => bdim d1 d2 :: bshape_rev r1 r2
  end.

Definition bshape (s1 s2 : list nat) : list nat :=
  rev (bshape_rev (rev s1) (rev s2)).

Definition tf_map2 (f : Qc -> Qc -> Qc) (x y : Tensor) : Tensor :=
  mkTensor (dtype x) (bshape (shape x) (shape y)) (fun idx => f (bget x idx) (bget y idx)).

Definition tf_fill (s : list nat) (q : Qc) : Tensor := mkTensor float32 s (fun _ => q).
(** A Python number used as an operand. *)
Definition tf_scalar (q : Qc) : Tensor := tf_fill [] q.
Definition tf_zeros (s : list nat) : Tensor := tf_fill s 0%Qc.
Definition tf_ones (s : list nat) : Tensor := tf_fill s 1%Qc.

Definition tf_add := tf_map2 Qcplus.
Definition tf_sub := tf_map2 Qcminus.
Definition tf_mul := tf_map2 Qcmult.
Definition tf_div := tf_map2 Qcdiv.
Definition tf_maximum := tf_map2 Qcmax.
Definition tf_minimum := tf_map2 Qcmin.
Definition tf_squared_difference := tf_map2 (fun a b => sqr (a - b)%Qc).

(** *** Reductions and scans *)

Definition reduce_axis (a : nat) (x : Tensor) : Tensor :=
  mkTensor (dtype x) (upd a 1 (shape x))
           (fun idx => sum_n (extent a (shape x)) (fun k => data x (upd a k idx))).

(** [tf.reduce_sum(x, dims, keepdims=True)]. *)
Definition tf_reduce_sum (x : Tensor) (dims : list nat) : Tensor :=
  fold_right reduce_axis x dims.

(** [tf.math.cumsum(x, axis=a)]. *)
Definition tf_cumsum (x : Tensor) (a : nat) : Tensor :=
  mkTensor (dtype x) (shape x)
           (fun idx => sum_n (S (ix a idx)) (fun k => data x (upd a k idx))).

(** [tf.roll(x, shift, axis=a)]: the element at [i] moves to
    [(i + shift) mod T]. *)
Definition tf_roll (x : Tensor) (shift a : nat) : Tensor :=
  let T := extent a (shape x) in
  mkTensor (dtype x) (shape x)
           (fun idx => data x (upd a ((ix a idx + (T - shift mod T)) mod T) idx)).

(** *** Reshaping: row-major flat positions *)

Fixpoint ravel_rev (s idx : list nat) : nat :=
  match s, idx with
  | d :: s', i :: idx' => i + d * ravel_rev s' idx'
  | _, _ => 0
  end.

Definition ravel (s : list nat) (idx : Index) : nat := ravel_rev (rev s) (rev idx).

Fixpoint unravel_rev (s : list nat) (flat : nat) : list nat :=
  match s with
  | [] => []
  | d :: s' => flat mod d :: unravel_rev s' (flat / d)
  end.

Definition unravel (s : list nat) (flat : nat) : Index := rev (unravel_rev (rev s) flat).

Definition tf_reshape (x : Tensor) (s : list nat) : Tensor :=
  mkTensor (dtype x) s (fun idx => data x (unravel (shape x) (ravel s idx))).

Fixpoint remove_at (a : nat) (l : list nat) : list nat :=
  match l, a with
  | [], _ => []
  | _ :: r, O => r
  | x :: r, S a' => x :: remove_at a' r
  end.

Fixpoint insert_at (a v : nat) (l : list nat) : list nat :=
  match a, l with
  | O, _ => v :: l
  | S a', x :: r => x :: insert_at a' v r
  | S _, [] => [v]
  end.

(** [tf.squeeze(x, axis=axes)] for ascending [axes], and
    [tf.expand_dims(x, a)]. *)
Definition remove_axes (axes : list nat) (s : list nat) : list nat :=
  fold_right remove_at s axes.
Definition tf_squeeze (x : Tensor) (axes : list nat) : Tensor :=
  tf_reshape x (remove_axes axes (shape x)).
Definition tf_expand_dims (x : Tensor) (a : nat) : Tensor :=
  tf_reshape x (insert_at a 1 (shape x)).

(** Dropping the axis [a], of extent 1. *)
Definition squeeze_axis (a : nat) (x : Tensor) : Tensor :=
  mkTensor (dtype x) (remove_at a (shape x)) (fun idx => data x (insert_at a 0 idx)).

(** Dropping, among the axes below [n], those listed in [dims], the last
    first. *)
Fixpoint drop_axes_below (n : nat) (dims : list nat) (x : Tensor) : Tensor :=
  match n with
  | O => x
  | S a => drop_axes_below a dims (if existsb (Nat.eqb a) dims then squeeze_axis a x else x)
  end.

(** [tf.reduce_sum(x, dims, keepdims=keepdims)]: without [keepdims] the
    reduced axes are dropped from the result. *)
Definition tf_reduce_sum_keepdims (x : Tensor) (dims : list nat) (keepdims : bool)
  : Tensor :=
  let r := tf_reduce_sum x dims in
  if keepdims then r else drop_axes_below (length (shape r)) dims r.

(** *** Casts *)

Definition trunc (v : Qc) : Qc :=
  Q2Qc (inject_Z (Z.quot (Qnum v) (Zpos (Qden v)))).

Definition tf_cast (x : Tensor) (dt : DType) : Tensor :=
  mkTensor dt (shape x)
           (fun idx => match dt with
                       | int32 => trunc (data x idx)
                       | _ => data x idx
                       end).

(** *** Slicing and concatenation along one axis *)

(** [x[..., start:stop, ...]] on axis [a], with Python's clamping of the
    bounds to the extent. *)
Definition slice_axis (a start stop : nat) (x : Tensor) : Tensor :=
  let T := extent a (shape x) in
  let lo := Nat.min start T in
  let hi := Nat.min stop T in
  mkTensor (dtype x) (upd a (hi - lo) (shape x))
           (fun idx => data x (upd a (lo + ix a idx) idx)).

(** [x[..., k, ...]]: axis [a] is indexed away. *)
Definition select_axis (a k : nat) (x : Tensor) : Tensor :=
  mkTensor (dtype x) (remove_at a (shape x)) (fun idx => data x (insert_at a k idx)).

Definition concat2 (a : nat) (x y : Tensor) : Tensor :=
  let Tx := extent a (shape x) in
  mkTensor (dtype x) (upd a (Tx + extent a (shape y)) (shape x))
           (fun idx => if ix a idx <? Tx then data x idx
                       else data y (upd a (ix a idx - Tx) idx)).

(** [tf.concat(xs, axis=a)]. *)
Fixpoint tf_concat (xs : list Tensor) (a : nat) : Tensor :=
  match xs with
  | [] => tf_fill [] 0%Qc
  | [x] => x
  | x :: r => concat2 a x (tf_concat r a)
  end.

(** [tf.reverse_sequence(x, seq_lengths, seq_axis=1, batch_axis=0)]: in
    example [i] the first [seq_lengths[i]] steps are reversed, the rest is
    kept. *)
Definition tf_reverse_sequence (x seq_lengths : Tensor) : Tensor :=
  mkTensor (dtype x) (shape x)
           (fun idx =>
              let L := Qc_to_nat (data seq_lengths [ix 0 idx]) in
              if ix 1 idx <? L then data x (upd 1 (L - 1 - ix 1 idx) idx)
              else data x idx).

(** [tf.gather_nd(x, index, batch_dims=1)] for [index] of shape [b, 1]:
    example [i] is indexed at position [index[i, 0]] of axis 1. *)
Definition tf_gather_nd (x index : Tensor) : Tensor :=
  mkTensor (dtype x) (remove_at 1 (shape x))
           (fun idx => data x (insert_at 1 (Qc_to_nat (data index [ix 0 idx; 0])) idx)).

End Tensor.
Export Tensor.

(** ** The helpers of [py_utils] the file calls *)

Module PyUtils.

(** Modelled from the spec: [py_utils.ApplyPadding(padding, x)] is not
    among the sources.  A padding mask holds 0 at a valid position and 1
    at a padded one, and a padded position contributes exactly zero: the
    result is 0 where the (broadcast) mask is positive and [x] elsewhere. *)
Definition ApplyPadding (padding x : Tensor) : Tensor :=
  mkTensor (dtype x) (bshape (shape padding) (shape x))
           (fun idx => if Qcltb 0%Qc (bget padding idx) then 0%Qc else bget x idx).

(** Modelled from the spec: [py_utils.PaddingsFromLengths(lengths, maxlen)]
    is not among the sources.  For lengths of shape [b] it is the mask of
    shape [b, maxlen] that is 0 (valid) at the positions before the length
    and 1 (padded) from the length on. *)
Definition PaddingsFromLengths (lengths : Tensor) (maxlen : nat) : Tensor :=
  mkTensor float32 [extent 0 (shape lengths); maxlen]
           (fun idx => if Qcltb (Qc_of_nat (ix 1 idx)) (data lengths [ix 0 idx])
                       then 0%Qc else 1%Qc).

(** The number of steps up to and including the last valid one. *)
Fixpoint unpadded_length (T : nat) (p : nat -> Qc) : nat :=
  match T with
  | O => O
  | S k => if Qcltb 0%Qc (p k) then unpadded_length k p else S k
  end.

(** Modelled from the spec: [py_utils.LengthsFromPaddings(paddings)] is
    not among the sources.  For a mask of shape [b, t] it is, per example,
    the length of the sequence without its trailing padding. *)
Definition LengthsFromPaddings (paddings : Tensor) : Tensor :=
  mkTensor int32 [extent 0 (shape paddings)]
           (fun idx => Qc_of_nat (unpadded_length (extent 1 (shape paddings))
                                    (fun j => data paddings [ix 0 idx; j]))).

End PyUtils.
Export PyUtils.

(** ** The batch estimator *)

(** Python exceptions: a failed [assert], an operation that is not
    implemented for an element type, a method called on [None]. *)
Inductive Exn : Type := AssertionError | NotImplemented | TypeError.

Inductive Result (A : Type) : Type :=
| Ok (a : A)
| Raise (e : Exn).
Arguments Ok {A} a.
Arguments Raise {A} e.

Definition bind {A B : Type} (r : Result A) (k : A -> Result B) : Result B :=
  match r with
  | Ok a => k a
  | Raise e => Raise e
  end.

Definition assert (c : bool) : Result unit :=
  if c then Ok tt else Raise AssertionError.

Notation "x <- r ;; k" := (bind r (fun x => k))
  (at level 61, r at next level, right associativity).
Notation "r ;;; k" := (bind r (fun _ => k))
  (at level 61, right associativity).

Section Program.

(** [py_utils.use_tpu()]: whether the computation runs on a TPU. *)
Variable use_tpu : bool.

(** [py_utils.testonly_skip_norm_layers()]: the test-only switch that turns
    the normalization layers into the identity. *)
Variable testonly_skip_norm_layers : bool.

(** The square root of the element type; [tf.math.rsqrt] is its
    reciprocal.  (An exact square root is not rational in general.) *)
Variable tf_sqrt : Qc -> Qc.

(** What [py_utils.ConcatenatePaddedSequences] leaves in the padded tail of
    its result, as a function of its two inputs. *)
Variable tail_fill : Tensor -> Tensor -> Index -> Qc.

(** [tf.tpu.cross_replica_sum] with one participant: the additive
    combination across the participants is the value itself. *)
Definition cross_replica_sum (x : Tensor) : Tensor := x.

Definition _WindowedCumSum (x padding : Tensor) (window_size cumulative_axis : nat)
  : Tensor :=
  let x_shape := shape x in
  let shifted_x := tf_roll x window_size cumulative_axis in
  let shift_mask :=
    PaddingsFromLengths (tf_fill [extent 0 x_shape] (Qc_of_nat window_size))
                        (extent 1 x_shape) in
  let shift_mask := tf_reshape shift_mask (shape padding) in
  let shift_mask := ApplyPadding padding shift_mask in
  let shifted_x := tf_mul shifted_x shift_mask in
  tf_sub x shifted_x.

(** [cumulative_axis] is [None] or an axis; [cumsum_window_size = 0] stands
    for both falsy values of the source ([None] and [0]).  The two run-time
    assertion ops (the ranks of inputs and mask are equal, the sum of
    squares is not negative) return their argument when they pass; the
    embedding is that path. *)
Definition ComputeMoments (inputs padding : Tensor) (reduce_over_dims : list nat)
    (cumulative_axis : option nat) (enable_cross_replica_sum_on_tpu : bool)
    (keepdims : bool) (cumsum_window_size : nat) : Tensor * Tensor :=
  let mask := ApplyPadding padding (tf_ones []) in
  let sum_v :=
    tf_reduce_sum_keepdims (ApplyPadding padding inputs) reduce_over_dims keepdims in
  let count_v := tf_reduce_sum_keepdims mask reduce_over_dims keepdims in
  let window_size := Nat.min cumsum_window_size (extent 1 (shape inputs)) in
  let windowed := negb (cumsum_window_size =? 0) in
  let sum_v :=
    match cumulative_axis with
    | Some ax =>
        let sum_v := tf_cumsum sum_v ax in
        if windowed then _WindowedCumSum sum_v padding window_size ax else sum_v
    | None => sum_v
    end in
  let count_v :=
    match cumulative_axis with
    | Some ax =>
        let count_v := tf_cumsum count_v ax in
        if windowed then _WindowedCumSum count_v padding window_size ax else count_v
    | None => count_v
    end in
  let input_size_on_reduced_dims :=
    prod_list (map (fun a => extent a (shape inputs)) reduce_over_dims) in
  let mask_size_on_reduced_dims :=
    prod_list (map (fun a => extent a (shape mask)) reduce_over_dims) in
  let mask_multiplier :=
    (Qc_of_nat input_size_on_reduced_dims / Qc_of_nat mask_size_on_reduced_dims)%Qc in
  let count_v := tf_mul count_v (tf_scalar mask_multiplier) in
  let sum_v :=
    if use_tpu && enable_cross_replica_sum_on_tpu then cross_replica_sum sum_v
    else sum_v in
  let count_v :=
    if use_tpu && enable_cross_replica_sum_on_tpu then cross_replica_sum count_v
    else count_v in
  let count_v := tf_maximum count_v (tf_scalar 1%Qc) in
  let mean := tf_div sum_v count_v in
  let sum_vv :=
    tf_reduce_sum_keepdims (ApplyPadding padding (tf_squared_difference inputs mean))
                           reduce_over_dims keepdims in
  let sum_vv :=
    match cumulative_axis with
    | Some ax =>
        let sum_vv := tf_cumsum sum_vv ax in
        if windowed then _WindowedCumSum sum_vv padding window_size ax else sum_vv
    | None => sum_vv
    end in
  let sum_vv :=
    if use_tpu && enable_cross_replica_sum_on_tpu then cross_replica_sum sum_vv
    else sum_vv in
  let variance := tf_div sum_vv count_v in
  (mean, variance).



(** ** The group-normalization layer *)

(** [GroupNormLayer.Params()]; [p_dtype] is the element type the layer
    computes in ([py_utils.FPropDtype(p)]). *)
Record Params : Type := mkParams {
  p_name : string;
  p_dim : Z;
  p_num_groups : Z;
  p_min_group_size : Z;
  p_cumulative : bool;
  p_window_size : Z;
  p_enable_cross_replica_sum_on_tpu : bool;
  p_input_rank : Z;
  p_epsilon : Qc;
  p_dtype : DType
}.

Definition default_params : Params :=
  mkParams EmptyString 0 32 1 false 0 false 4 (Q2Qc (1 # 1000)) float32.

Definition FPropDtype (p : Params) : DType := p_dtype p.

(** [GroupNormLayer.__init__]: the assertions a configuration must pass. *)
Definition __init__ (p : Params) : Result Params :=
  assert (negb (String.eqb (p_name p) EmptyString)) ;;;
  assert (0 <? p_num_groups p)%Z ;;;
  assert (0 <? p_min_group_size p)%Z ;;;
  assert (p_dim p mod p_min_group_size p =? 0)%Z ;;;
  (if (p_num_groups p <=? p_dim p)%Z
   then assert (p_dim p mod p_num_groups p =? 0)%Z
   else Ok tt) ;;;
  (if (0 <? p_window_size p)%Z
   then assert (p_cumulative p) ;;; assert (1 <? p_window_size p)%Z
   else Ok tt) ;;;
  Ok p.

Definition group_size (p : Params) : Result Z :=
  assert (p_min_group_size p <=? p_dim p)%Z ;;;
  Ok (Z.max (p_dim p / p_num_groups p) (p_min_group_size p)).

Definition num_groups (p : Params) : Result Z :=
  gs <- group_size p ;;
  Ok (p_dim p / gs)%Z.

(** The layer's variables. *)
Record Theta : Type := mkTheta { gamma : Tensor; beta : Tensor }.

(** The streaming state ([py_utils.NestedMap]): empty, the running triple,
    or the window cache. *)
Record Cached : Type :=
  mkCached { cached_sum : Tensor; cached_count : Tensor; cached_var : Tensor }.
Record CachedWindow : Type :=
  mkCachedWindow { cached_sums : Tensor; cached_vars : Tensor; cached_count_w : Tensor }.

Inductive NestedMap : Type :=
| NoState
| Running (s : Cached)
| Windowed (s : CachedWindow).

Definition zero_state (p : Params) (batch_size : nat) : Result NestedMap :=
  n <- num_groups p ;;
  if negb (p_cumulative p) then Ok NoState else
  let cached_count_shape := [batch_size; 1; 1; 1] in
  let cached_count := tf_cast (tf_zeros cached_count_shape) (FPropDtype p) in
  if (1 <? p_window_size p)%Z then
    let cached_moment_shape := [batch_size; Z.to_nat (p_window_size p); Z.to_nat n; 1] in
    let cached_sums := tf_cast (tf_zeros cached_moment_shape) (FPropDtype p) in
    let cached_vars := tf_cast (tf_zeros cached_moment_shape) (FPropDtype p) in
    Ok (Windowed (mkCachedWindow cached_sums cached_vars cached_count))
  else
    let cached_moment_shape := [batch_size; 1; Z.to_nat n; 1] in
    let cached_sum := tf_cast (tf_zeros cached_moment_shape) (FPropDtype p) in
    let cached_var := tf_cast (tf_zeros cached_moment_shape) (FPropDtype p) in
    Ok (Running (mkCached cached_sum cached_count cached_var)).

(** [tf.math.rsqrt], which is not implemented for [bfloat16]. *)
Definition tf_rsqrt (x : Tensor) : Result Tensor :=
  match dtype x with
  | float32 => Ok (mkTensor float32 (shape x) (fun idx => (/ tf_sqrt (data x idx))%Qc))
  | _ => Raise NotImplemented
  end.

Definition _ApplyGammaBeta (p : Params) (theta : Theta) (outputs : Tensor) : Tensor :=
  let real_gamma :=
    tf_cast (tf_reshape (tf_add (gamma theta) (tf_scalar 1%Qc)) [Z.to_nat (p_dim p)])
            (dtype outputs) in
  let real_beta :=
    tf_cast (tf_reshape (beta theta) [Z.to_nat (p_dim p)]) (dtype outputs) in
  tf_add (tf_mul outputs real_gamma) real_beta.

(** [py_utils.CheckNumerics], [py_utils.HasShape] and the run-time
    assertion ops return their argument when they pass; the embedding is
    that path. *)
Definition _Normalize (p : Params) (grouped_inputs group_mean group_variance : Tensor)
  : Result Tensor :=
  group_stddev_inv <-
    (if dtype_eqb (dtype group_variance) bfloat16 then
       r <- tf_rsqrt (tf_cast (tf_add group_variance (tf_scalar (p_epsilon p))) float32) ;;
       Ok (tf_cast r (dtype group_mean))
     else tf_rsqrt (tf_add group_variance (tf_scalar (p_epsilon p)))) ;;
  let output := tf_mul (tf_sub grouped_inputs group_mean) group_stddev_inv in
  Ok output.

(** [tf.nn.moments(x, axes, keepdims=True)]. *)
Definition tf_nn_moments (x : Tensor) (axes : list nat) : Tensor * Tensor :=
  let size := tf_scalar (Qc_of_nat (prod_list (map (fun a => extent a (shape x)) axes))) in
  let mean := tf_div (tf_reduce_sum x axes) size in
  let variance := tf_div (tf_reduce_sum (tf_squared_difference x mean) axes) size in
  (mean, variance).

(** [l[lo:hi]] for non-negative bounds. *)
Definition py_slice {A : Type} (l : list A) (lo hi : nat) : list A :=
  firstn (hi - lo) (skipn lo l).

(** Modelled from the spec: [BaseLayer._CastToFPropDtype] is not among the
    sources.  It casts a floating-point tensor to the element type the
    layer computes in and leaves the other tensors as they are. *)
Definition _CastToFPropDtype (p : Params) (x : Tensor) : Tensor :=
  match dtype x with
  | int32 => x
  | _ => tf_cast x (FPropDtype p)
  end.

Definition FProp (p : Params) (theta : Theta) (inputs : Tensor) (paddings : option Tensor)
  : Result (Tensor * option Tensor) :=
  let inputs := _CastToFPropDtype p inputs in
  let paddings := option_map (_CastToFPropDtype p) paddings in
  if testonly_skip_norm_layers then Ok (inputs, paddings) else
  let input_rank := length (shape inputs) in
  assert ((input_rank =? 3) || (input_rank =? 4)) ;;;
  num_groups <- num_groups p ;;
  group_size <- group_size p ;;
  let input_shape := shape inputs in
  let expanded_inputs :=
    tf_reshape inputs (removelast input_shape ++ [Z.to_nat num_groups; Z.to_nat group_size]) in
  let expanded_rank := input_rank + 1 in
  let all_dims := seq 0 expanded_rank in
  let reduce_over_dims :=
    match paddings with
    | Some _ =>
        if negb (p_cumulative p)
        then py_slice all_dims 1 (expanded_rank - 2) ++ py_slice all_dims (expanded_rank - 1) expanded_rank
        else py_slice all_dims 2 (expanded_rank - 2) ++ py_slice all_dims (expanded_rank - 1) expanded_rank
    | None =>
        py_slice all_dims 1 (expanded_rank - 2) ++ py_slice all_dims (expanded_rank - 1) expanded_rank
    end in
  moments <-
    match paddings with
    | None =>
        if negb (p_cumulative p)
        then Ok (tf_nn_moments expanded_inputs reduce_over_dims)
        else Raise TypeError
    | Some paddings =>
        let expanded_paddings :=
          tf_reshape paddings (firstn 2 input_shape ++ repeat 1 (expanded_rank - 2)) in
        Ok (ComputeMoments expanded_inputs expanded_paddings reduce_over_dims (Some 1)
              (p_enable_cross_replica_sum_on_tpu p) true (Z.to_nat (p_window_size p)))
    end ;;
  let '(group_mean, group_variance) := moments in
  outputs <- _Normalize p expanded_inputs group_mean group_variance ;;
  let outputs := tf_reshape outputs (shape inputs) in
  let outputs := _ApplyGammaBeta p theta outputs in
  Ok (outputs, paddings).

(** Modelled from the spec: [py_utils.ConcatenatePaddedSequences(input0,
    input1, padding0, padding1, seq_dim=1)] is not among the sources.  It
    concatenates, per example, the unpadded part of the first sequence
    (its length read from [padding0]) with the second sequence; the
    positions after them are padding (mask 1) and hold [tail_fill]. *)
Definition ConcatenatePaddedSequences (input0 input1 padding0 padding1 : Tensor)
  : Tensor * Tensor :=
  let T0 := extent 1 (shape input0) in
  let T1 := extent 1 (shape input1) in
  let seq_length0 := LengthsFromPaddings padding0 in
  let len0 idx := Qc_to_nat (data seq_length0 [ix 0 idx]) in
  (mkTensor (dtype input0) (upd 1 (T0 + T1) (shape input0))
     (fun idx =>
        if ix 1 idx <? len0 idx then data input0 idx
        else if ix 1 idx <? len0 idx + T1 then data input1 (upd 1 (ix 1 idx - len0 idx) idx)
        else tail_fill input0 input1 idx),
   mkTensor (dtype padding0) (upd 1 (T0 + T1) (shape padding0))
     (fun idx =>
        if ix 1 idx <? len0 idx then data padding0 idx
        else if ix 1 idx <? len0 idx + T1 then data padding1 (upd 1 (ix 1 idx - len0 idx) idx)
        else 1%Qc)).

(** The local functions of [_StreamWindowedMoments], with the variables
    they capture as leading parameters.  [slicing] is the test [b == 1]
    that selects the direct-slicing branches; [rank5] is
    [input_rank == 5]. *)

Definition _GetUpdatedCount (inputs_dtype : DType) (b window_size : nat)
    (previous_count current_paddings : Tensor) : Tensor :=
  let reduce_over_dims := [3] in
  let seq_axis := 1 in
  let count_v := tf_cast (tf_scalar 1%Qc) inputs_dtype in
  let count_v := ApplyPadding current_paddings count_v in
  let count_v := tf_reduce_sum count_v reduce_over_dims in
  let count_v := tf_cumsum count_v seq_axis in
  tf_minimum (tf_add count_v (tf_reshape previous_count [b; 1; 1; 1]))
             (tf_scalar (Qc_of_nat window_size)).

Definition _TrimFromTheFront (slicing : bool) (b n : nat)
    (x trim_len keep_len : Tensor) (output_len : nat) : Tensor :=
  let trim_len := tf_cast trim_len int32 in
  let keep_len := tf_cast keep_len int32 in
  if slicing then
    let trim0 := Qc_to_nat (data trim_len [0]) in
    let trimmed_x := slice_axis 1 trim0 (trim0 + output_len) x in
    tf_reshape trimmed_x [b; output_len; n; 1]
  else
    let total_len := tf_add trim_len keep_len in
    let max_seq_len := extent 1 (shape x) in
    let rev_x := tf_reverse_sequence x total_len in
    let trim_paddings := PaddingsFromLengths keep_len max_seq_len in
    let trim_paddings := tf_reshape trim_paddings [b; max_seq_len; 1; 1] in
    let trimmed_rev_x := ApplyPadding trim_paddings rev_x in
    let trimmed_x := tf_reverse_sequence trimmed_rev_x keep_len in
    slice_axis 1 0 output_len trimmed_x.

Definition _ComputeWindowedCumSum (slicing rank5 : bool) (b t n window_size : nat)
    (cached_count last_index current_input_lenghts : Tensor)
    (current_input current_paddings cached cached_paddings : Tensor)
  : Tensor * Tensor * Tensor :=
  let seq_axis := 1 in
  let sum_input_over_dims := if rank5 then [2; 4] else [3] in
  let current_input :=
    if rank5 then ApplyPadding (tf_expand_dims current_paddings 4) current_input
    else ApplyPadding current_paddings current_input in
  let current_paddings := tf_squeeze current_paddings [2; 3] in
  let current_input := tf_reduce_sum current_input sum_input_over_dims in
  let current_input := if rank5 then tf_squeeze current_input [2] else current_input in
  let current_input := tf_cumsum current_input seq_axis in
  let '(concat, concat_paddings) :=
    if slicing then
      let last := select_axis 1 (Qc_to_nat (data last_index [0; 0])) cached in
      let last := tf_reshape last [b; 1; n; 1] in
      let current_input := tf_add current_input last in
      let cached_count_int32 := tf_cast cached_count int32 in
      let cc0 := Qc_to_nat (data cached_count_int32 [0]) in
      let len0 := Qc_to_nat (data current_input_lenghts [0]) in
      let num_padded_frames := window_size + t - cc0 - len0 in
      let concat :=
        tf_concat [slice_axis 1 0 cc0 cached;
                   slice_axis 1 0 len0 current_input;
                   tf_cast (tf_zeros [b; num_padded_frames; n; 1]) (dtype cached)]
                  seq_axis in
      let concat_paddings :=
        tf_concat [slice_axis 1 0 cc0 cached_paddings;
                   slice_axis 1 0 len0 current_paddings;
                   tf_cast (tf_ones [b; num_padded_frames]) (dtype cached_paddings)]
                  seq_axis in
      (tf_reshape concat [b; window_size + t; n; 1],
       tf_reshape concat_paddings [b; window_size + t])
    else
      let last := tf_gather_nd cached last_index in
      let last := tf_reshape last [b; 1; n; 1] in
      let current_input := tf_add current_input last in
      ConcatenatePaddedSequences cached current_input cached_paddings current_paddings in
  let concat_paddings :=
    tf_reshape concat_paddings [b; prod_list (shape concat_paddings) / b; 1; 1] in
  let windowed_cumsum := _WindowedCumSum concat concat_paddings window_size seq_axis in
  let cumsum :=
    _TrimFromTheFront slicing b n windowed_cumsum cached_count current_input_lenghts t in
  (cumsum, concat, concat_paddings).

Definition _StreamWindowedMoments_path (slicing : bool) (p : Params)
    (inputs : Tensor) (paddings : option Tensor) (state : CachedWindow)
  : Result (Tensor * Tensor * CachedWindow) :=
  let window_size := Z.to_nat (p_window_size p) in
  let input_rank := length (shape inputs) in
  let input_shape := shape inputs in
  assert ((input_rank =? 4) || (input_rank =? 5)) ;;;
  let rank5 := negb (input_rank =? 4) in
  let b := extent 0 input_shape in
  let t := extent 1 input_shape in
  let f := extent 2 input_shape in
  let n := if rank5 then extent 3 input_shape else extent 2 input_shape in
  let g := if rank5 then extent 4 input_shape else extent 3 input_shape in
  let paddings :=
    match paddings with
    | Some paddings => paddings
    | None => tf_zeros (if rank5 then [b; t; 1; 1; 1] else [b; t; 1; 1])
    end in
  let paddings := if rank5 then tf_squeeze paddings [2] else paddings in
  let multiplier := if rank5 then f * g else g in
  let cached_count := cached_count_w state in
  let cached_sums := cached_sums state in
  let cached_vars := cached_vars state in
  let cached_count := tf_squeeze cached_count [1; 2; 3] in
  let cached_paddings := PaddingsFromLengths cached_count window_size in
  let last_index := tf_maximum (tf_sub cached_count (tf_scalar 1%Qc)) (tf_fill [1] 0%Qc) in
  let last_index := tf_expand_dims last_index 1 in
  let last_index := tf_cast last_index int32 in
  let current_input_lenghts :=
    LengthsFromPaddings (select_axis 2 0 (select_axis 2 0 paddings)) in
  let current_input_lenghts := tf_cast current_input_lenghts int32 in
  let '(sum_v, concat_sum_v, concat_paddings) :=
    _ComputeWindowedCumSum slicing rank5 b t n window_size cached_count last_index
      current_input_lenghts inputs paddings cached_sums cached_paddings in
  let count_v := _GetUpdatedCount (dtype inputs) b window_size cached_count paddings in
  let denom := tf_maximum (tf_mul count_v (tf_scalar (Qc_of_nat multiplier))) (tf_scalar 1%Qc) in
  let mean := tf_div sum_v denom in
  let mean := if rank5 then tf_expand_dims mean 2 else mean in
  let '(sum_vv, concat_sum_vv, _) :=
    _ComputeWindowedCumSum slicing rank5 b t n window_size cached_count last_index
      current_input_lenghts (tf_squared_difference inputs mean) paddings cached_vars
      cached_paddings in
  let variance := tf_div sum_vv denom in
  let variance := if rank5 then tf_expand_dims variance 2 else variance in
  let input_len := LengthsFromPaddings (select_axis 2 0 (select_axis 2 0 concat_paddings)) in
  let input_len := tf_cast input_len float32 in
  let new_cached_count := tf_minimum input_len (tf_scalar (Qc_of_nat window_size)) in
  let new_cached_sums :=
    _TrimFromTheFront slicing b n concat_sum_v (tf_sub input_len new_cached_count)
                      new_cached_count window_size in
  let new_cached_vars :=
    _TrimFromTheFront slicing b n concat_sum_vv (tf_sub input_len new_cached_count)
                      new_cached_count window_size in
  let new_cached_count := tf_reshape new_cached_count [b; 1; 1; 1] in
  Ok (mean, variance, mkCachedWindow new_cached_sums new_cached_vars new_cached_count).

Definition _StreamWindowedMoments (p : Params) (inputs : Tensor) (paddings : option Tensor)
    (state : CachedWindow) : Result (Tensor * Tensor * CachedWindow) :=
  _StreamWindowedMoments_path (extent 0 (shape inputs) =? 1) p inputs paddings state.

Definition _StreamMoments (inputs : Tensor) (paddings : option Tensor) (state : Cached)
  : Result (Tensor * Tensor * Cached) :=
  let input_rank := length (shape inputs) in
  let input_shape := shape inputs in
  assert ((input_rank =? 4) || (input_rank =? 5)) ;;;
  let rank5 := negb (input_rank =? 4) in
  let b := extent 0 input_shape in
  let t := extent 1 input_shape in
  let reduce_over_dims := if rank5 then [2; 4] else [3] in
  let multiplier :=
    if rank5 then extent 2 input_shape * extent 4 input_shape else extent 3 input_shape in
  let cached_sum := cached_sum state in
  let cached_count := cached_count state in
  let cached_var := cached_var state in
  let cached_sum := if rank5 then tf_expand_dims cached_sum 2 else cached_sum in
  let cached_count := if rank5 then tf_expand_dims cached_count 2 else cached_count in
  let cached_var := if rank5 then tf_expand_dims cached_var 2 else cached_var in
  let sum_v := inputs in
  let sum_v :=
    match paddings with
    | Some paddings => ApplyPadding paddings sum_v
    | None => sum_v
    end in
  let sum_v := tf_reduce_sum sum_v reduce_over_dims in
  let sum_v := tf_cumsum sum_v 1 in
  let sum_v := tf_add sum_v cached_sum in
  let count_v := tf_cast (tf_scalar (Qc_of_nat multiplier)) (dtype inputs) in
  let count_v :=
    match paddings with
    | Some paddings => ApplyPadding paddings count_v
    | None =>
        mkTensor (dtype count_v) (if rank5 then [b; t; 1; 1; 1] else [b; t; 1; 1])
                 (fun idx => bget count_v idx)
    end in
  let count_v := tf_reduce_sum count_v reduce_over_dims in
  let count_v := tf_cumsum count_v 1 in
  let count_v := tf_add count_v cached_count in
  let mean := tf_div sum_v (tf_maximum count_v (tf_scalar 1%Qc)) in
  let sum_vv := tf_squared_difference inputs mean in
  let sum_vv :=
    match paddings with
    | Some paddings => ApplyPadding paddings sum_vv
    | None => sum_vv
    end in
  let sum_vv := tf_reduce_sum sum_vv reduce_over_dims in
  let sum_vv := tf_cumsum sum_vv 1 in
  let sum_vv := tf_add sum_vv cached_var in
  let cached_sum := slice_axis 1 (t - 1) t sum_v in
  let cached_count := slice_axis 1 (t - 1) t count_v in
  let cached_var := slice_axis 1 (t - 1) t sum_vv in
  let cached_sum := if rank5 then tf_squeeze cached_sum [2] else cached_sum in
  let cached_count := if rank5 then tf_squeeze cached_count [2] else cached_count in
  let cached_var := if rank5 then tf_squeeze cached_var [2] else cached_var in
  let variance := tf_div sum_vv (tf_maximum count_v (tf_scalar 1%Qc)) in
  Ok (mean, variance, mkCached cached_sum cached_count cached_var).

Definition StreamStep (p : Params) (theta : Theta) (inputs : Tensor)
    (paddings : option Tensor) (state0 : NestedMap)
  : Result (Tensor * option Tensor * NestedMap) :=
  if testonly_skip_norm_layers then Ok (inputs, paddings, state0) else
  assert (p_cumulative p) ;;;
  let input_rank := length (shape inputs) in
  assert ((input_rank =? 3) || (input_rank =? 4)) ;;;
  group_size <- group_size p ;;
  num_groups <- num_groups p ;;
  let input_shape := shape inputs in
  let expanded_inputs :=
    tf_reshape inputs (removelast input_shape ++ [Z.to_nat num_groups; Z.to_nat group_size]) in
  let expanded_rank := input_rank + 1 in
  let expanded_paddings :=
    option_map (fun paddings =>
                  tf_reshape paddings (firstn 2 input_shape ++ repeat 1 (expanded_rank - 2)))
               paddings in
  moments <-
    (if negb (p_window_size p =? 0)%Z then
       match state0 with
       | Windowed s =>
           r <- _StreamWindowedMoments p expanded_inputs expanded_paddings s ;;
           let '(m, v, s1) := r in Ok (m, v, Windowed s1)
       | _ => Raise TypeError
       end
     else
       match state0 with
       | Running s =>
           r <- _StreamMoments expanded_inputs expanded_paddings s ;;
           let '(m, v, s1) := r in Ok (m, v, Running s1)
       | _ => Raise TypeError
       end) ;;
  let '(group_mean, group_variance, state1) := moments in
  outputs <- _Normalize p expanded_inputs group_mean group_variance ;;
  let outputs := tf_reshape outputs input_shape in
  let outputs := _ApplyGammaBeta p theta outputs in
  Ok (outputs, paddings, state1).

End Program.

(** * Properties *)

(** ** Arithmetic of the scalars *)

Module ScalarFacts.

Lemma Q2Qc_correct (x : Q) : (Q2Qc x == x)%Q.
Proof. simpl. apply Qred_correct. Qed.

Lemma Qcltb_lt x y : Qcltb x y = true <-> (x < y)%Qc.
Proof. unfold Qcltb. rewrite Qclt_alt. destruct (x ?= y)%Qc; split; congruence. Qed.

Lemma Qcltb_irrefl x : Qcltb x x = false.
Proof.
  unfold Qcltb. replace (x ?= x)%Qc with Eq; [reflexivity|].
  symmetry. apply Qceq_alt. reflexivity.
Qed.

Lemma Qcmax_ge_r x y : (y <= Qcmax x y)%Qc.
Proof.
  unfold Qcmax. destruct (x ?= y)%Qc eqn:E.
  - apply Qceq_alt in E. subst. apply Qcle_refl.
  - apply Qcle_refl.
  - apply Qcgt_alt in E. apply Qclt_le_weak. exact E.
Qed.

Lemma Qcmax_1_neq_0 x : Qcmax x 1%Qc <> 0%Qc.
Proof.
  intros H. pose proof (Qcmax_ge_r x 1%Qc) as G. rewrite H in G.
  apply (Qcle_not_lt _ _ G). reflexivity.
Qed.

Lemma Qc_of_nat_add a b : Qc_of_nat (a + b) = (Qc_of_nat a + Qc_of_nat b)%Qc.
Proof.
  unfold Qc_of_nat, Qcplus. apply Q2Qc_eq_iff.
  rewrite !Q2Qc_correct, Nat2Z.inj_add, inject_Z_plus. reflexivity.
Qed.

Lemma Qc_of_nat_mul a b : Qc_of_nat (a * b) = (Qc_of_nat a * Qc_of_nat b)%Qc.
Proof.
  unfold Qc_of_nat, Qcmult. apply Q2Qc_eq_iff.
  rewrite !Q2Qc_correct, Nat2Z.inj_mul, inject_Z_mult. reflexivity.
Qed.

Lemma Qc_of_nat_0 : Qc_of_nat 0 = 0%Qc.
Proof. reflexivity. Qed.

Lemma Qc_of_nat_1 : Qc_of_nat 1 = 1%Qc.
Proof. apply Qc_is_canon. reflexivity. Qed.

Lemma Qc_to_nat_of_nat n : Qc_to_nat (Qc_of_nat n) = n.
Proof.
  unfold Qc_to_nat, Qc_of_nat.
  rewrite Q2Qc_correct, Qfloor_Z. apply Nat2Z.id.
Qed.

Lemma Qc_of_nat_lt a b : (Qc_of_nat a < Qc_of_nat b)%Qc <-> a < b.
Proof.
  unfold Qc_of_nat, Qclt. rewrite !Q2Qc_correct, <- Zlt_Qlt. lia.
Qed.

Lemma Qc_of_nat_compare a b : (Qc_of_nat a ?= Qc_of_nat b)%Qc = (a ?= b).
Proof.
  destruct (Nat.compare_spec a b).
  - subst. apply Qceq_alt. reflexivity.
  - apply Qclt_alt. apply Qc_of_nat_lt; auto.
  - apply Qcgt_alt. apply Qc_of_nat_lt; auto.
Qed.

Lemma Qcltb_of_nat a b : Qcltb (Qc_of_nat a) (Qc_of_nat b) = (a <? b).
Proof.
  unfold Qcltb. rewrite Qc_of_nat_compare.
  destruct (Nat.compare_spec a b); symmetry.
  - apply Nat.ltb_ge. lia.
  - apply Nat.ltb_lt. lia.
  - apply Nat.ltb_ge. lia.
Qed.

Lemma Qcmin_of_nat a b : Qcmin (Qc_of_nat a) (Qc_of_nat b) = Qc_of_nat (Nat.min a b).
Proof.
  unfold Qcmin. rewrite Qc_of_nat_compare.
  destruct (Nat.compare_spec a b); f_equal; lia.
Qed.

Lemma Qcmax_of_nat a b : Qcmax (Qc_of_nat a) (Qc_of_nat b) = Qc_of_nat (Nat.max a b).
Proof.
  unfold Qcmax. rewrite Qc_of_nat_compare.
  destruct (Nat.compare_spec a b); f_equal; lia.
Qed.

Lemma Qc_of_nat_sub a b : b <= a -> Qc_of_nat (a - b) = (Qc_of_nat a - Qc_of_nat b)%Qc.
Proof.
  intros H. replace a with ((a - b) + b) at 2 by lia.
  rewrite Qc_of_nat_add. ring.
Qed.

Lemma trunc_of_nat n : trunc (Qc_of_nat n) = Qc_of_nat n.
Proof.
  unfold trunc, Qc_of_nat. apply Q2Qc_eq_iff.
  assert (H : Qred (inject_Z (Z.of_nat n)) = inject_Z (Z.of_nat n)).
  { apply Qred_iff. simpl. apply Z.gcd_1_r. }
  unfold Q2Qc. cbn [this]. rewrite H. cbn [Qnum Qden inject_Z].
  rewrite Z.quot_1_r. reflexivity.
Qed.

(** Finite sums. *)

Lemma sum_n_ext n f g :
  (forall k, k < n -> f k = g k) -> sum_n n f = sum_n n g.
Proof.
  induction n as [|n IH]; intros H; cbn; [reflexivity|].
  rewrite IH, (H n) by auto with arith. reflexivity.
Qed.

Lemma sum_n_zero n f : (forall k, k < n -> f k = 0%Qc) -> sum_n n f = 0%Qc.
Proof.
  induction n as [|n IH]; intros H; cbn; [reflexivity|].
  rewrite IH, (H n) by auto with arith. ring.
Qed.

Lemma sum_n_one f : sum_n 1 f = f 0.
Proof. cbn. ring. Qed.

Lemma sum_n_plus n f g :
  sum_n n (fun k => (f k + g k)%Qc) = (sum_n n f + sum_n n g)%Qc.
Proof. induction n as [|n IH]; cbn; [ring|]. rewrite IH. ring. Qed.

Lemma sum_n_app n m f :
  sum_n (n + m) f = (sum_n n f + sum_n m (fun k => f (n + k)%nat))%Qc.
Proof.
  induction m as [|m IH].
  - rewrite Nat.add_0_r. cbn. ring.
  - rewrite Nat.add_succ_r. cbn. rewrite IH. ring.
Qed.

Lemma sum_n_const n c : sum_n n (fun _ => c) = (Qc_of_nat n * c)%Qc.
Proof.
  induction n as [|n IH]; cbn [sum_n].
  - rewrite Qc_of_nat_0. ring.
  - rewrite IH. replace (S n) with (n + 1) by lia.
    rewrite Qc_of_nat_add, Qc_of_nat_1. ring.
Qed.

End ScalarFacts.
Import ScalarFacts.

(** ** Construction *)

(** C8.  A configuration whose [dim] is not divisible by
    [min_group_size], or whose [dim] is at least [num_groups] and not
    divisible by it, or whose [window_size] is positive while [cumulative]
    is off, or whose [window_size] is 1, is rejected by [__init__] itself:
    the constructor raises an assertion error and no layer exists on which
    a later call could be made. *)
Theorem init_rejects_bad_configuration (p : Params) :
  ((p_dim p mod p_min_group_size p <> 0)%Z
   \/ ((p_num_groups p <= p_dim p)%Z /\ (p_dim p mod p_num_groups p <> 0)%Z)
   \/ ((0 < p_window_size p)%Z /\ p_cumulative p = false)
   \/ p_window_size p = 1%Z) ->
  __init__ p = Raise AssertionError.
Proof.
  intros H. unfold __init__, assert, bind.
  destruct (String.eqb (p_name p) EmptyString); cbn; [reflexivity|].
  destruct (0 <? p_num_groups p)%Z; [|reflexivity].
  destruct (0 <? p_min_group_size p)%Z; [|reflexivity].
  destruct (p_dim p mod p_min_group_size p =? 0)%Z eqn:E1; [|reflexivity].
  apply Z.eqb_eq in E1.
  destruct (p_num_groups p <=? p_dim p)%Z eqn:E2.
  - destruct (p_dim p mod p_num_groups p =? 0)%Z eqn:E3; [|reflexivity].
    apply Z.eqb_eq in E3.
    destruct (0 <? p_window_size p)%Z eqn:E4.
    + destruct (p_cumulative p) eqn:E5.
      * destruct (1 <? p_window_size p)%Z eqn:E6; [|reflexivity].
        apply Z.ltb_lt in E6. exfalso.
        destruct H as [H|[[_ H]|[[_ H]|H]]]; try congruence; lia.
      * reflexivity.
    + apply Z.ltb_ge in E4. exfalso.
      destruct H as [H|[[_ H]|[[H _]|H]]]; try congruence; lia.
  - apply Z.leb_gt in E2.
    destruct (0 <? p_window_size p)%Z eqn:E4.
    + destruct (p_cumulative p) eqn:E5.
      * destruct (1 <? p_window_size p)%Z eqn:E6; [|reflexivity].
        apply Z.ltb_lt in E6. exfalso.
        destruct H as [H|[[H _]|[[_ H]|H]]]; try congruence; lia.
      * reflexivity.
    + apply Z.ltb_ge in E4. exfalso.
      destruct H as [H|[[H _]|[[H _]|H]]]; try congruence; lia.
Qed.

Definition window_one_params : Params :=
  mkParams "gn" 8 4 1 true 1 false 4 (Q2Qc (1 # 1000)) float32.

Lemma init_rejects_bad_configuration_witness :
  __init__ window_one_params = Raise AssertionError.
Proof.
  apply (init_rejects_bad_configuration window_one_params).
  right. right. right. reflexivity.
Defined.

(** ** The group partition *)

Lemma init_ok_inv (p p' : Params) :
  __init__ p = Ok p' ->
  p' = p /\ (0 < p_num_groups p)%Z /\ (0 < p_min_group_size p)%Z
  /\ (p_dim p mod p_min_group_size p = 0)%Z
  /\ ((p_num_groups p <= p_dim p)%Z -> (p_dim p mod p_num_groups p = 0)%Z).
Proof.
  unfold __init__, assert, bind.
  destruct (String.eqb (p_name p) EmptyString); cbn; [discriminate|].
  destruct (0 <? p_num_groups p)%Z eqn:E0; [|discriminate].
  destruct (0 <? p_min_group_size p)%Z eqn:E1; [|discriminate].
  destruct (p_dim p mod p_min_group_size p =? 0)%Z eqn:E2; [|discriminate].
  apply Z.ltb_lt in E0. apply Z.ltb_lt in E1. apply Z.eqb_eq in E2.
  destruct (p_num_groups p <=? p_dim p)%Z eqn:E3.
  - destruct (p_dim p mod p_num_groups p =? 0)%Z eqn:E4; [|discriminate].
    apply Z.eqb_eq in E4. intros H.
    assert (p' = p).
    { destruct (0 <? p_window_size p)%Z; [|congruence].
      destruct (p_cumulative p); [|discriminate].
      destruct (1 <? p_window_size p)%Z; [congruence|discriminate]. }
    auto.
  - apply Z.leb_gt in E3. intros H.
    assert (p' = p).
    { destruct (0 <? p_window_size p)%Z; [|congruence].
      destruct (p_cumulative p); [|discriminate].
      destruct (1 <? p_window_size p)%Z; [congruence|discriminate]. }
    repeat split; auto. lia.
Qed.

Lemma group_size_divides (p p' : Params) :
  __init__ p = Ok p' ->
  (p_dim p mod Z.max (p_dim p / p_num_groups p) (p_min_group_size p) = 0)%Z.
Proof.
  intros H. destruct (init_ok_inv _ _ H) as (_ & Hn & Hm & Hdm & Hdn).
  destruct (Z.max_spec (p_dim p / p_num_groups p) (p_min_group_size p))
    as [[Hlt ->]|[Hle ->]]; [exact Hdm|].
  destruct (Z_lt_le_dec (p_dim p) (p_num_groups p)) as [Hs|Hs].
  - destruct (Z_lt_le_dec (p_dim p) 0) as [Hneg|Hpos].
    + assert (p_dim p / p_num_groups p < 0)%Z by (apply Z.div_lt_upper_bound; lia).
      lia.
    + rewrite Z.div_small in Hle by lia. lia.
  - specialize (Hdn Hs). apply Z.mod_divide in Hdn; [|lia].
    destruct Hdn as [k Hk]. rewrite Hk, Z.div_mul by lia.
    rewrite Z.mul_comm. apply Z.mod_mul. intros ->. lia.
Qed.

Definition unset_dim_params : Params :=
  mkParams "gn" 0 32 1 false 0 false 4 (Q2Qc (1 # 1000)) float32.



Definition eight_by_four_params : Params :=
  mkParams "gn" 8 4 1 true 0 false 4 (Q2Qc (1 # 1000)) float32.


(** ** The concrete scenario *)

Definition frac (a : Z) (b : positive) : Qc := Q2Qc (a # b).

(** A tensor from its row-major list of values, and back. *)
Definition of_flat (s : list nat) (l : list Qc) : Tensor :=
  mkTensor float32 s (fun idx => nth (ravel s idx) l 0%Qc).
Definition to_flat (x : Tensor) : list Qc :=
  map (fun k => data x (unravel (shape x) k)) (seq 0 (prod_list (shape x))).

Fixpoint Qc_list_eqb (l1 l2 : list Qc) : bool :=
  match l1, l2 with
  | [], [] => true
  | a :: r1, b :: r2 => Qc_eq_bool a b && Qc_list_eqb r1 r2
  | _, _ => false
  end.

Lemma Qc_list_eqb_sound l1 l2 : Qc_list_eqb l1 l2 = true -> l1 = l2.
Proof.
  revert l2. induction l1 as [|a r1 IH]; intros [|b r2]; cbn; try discriminate; auto.
  intros H. apply andb_true_iff in H. destruct H as [Hab Hr].
  apply Qc_eq_bool_correct in Hab. f_equal; auto.
Qed.

(** The input [[1,2,3,4]] (batch 1, time 4, feature 1), nothing padded. *)
Definition scenario_inputs : Tensor :=
  of_flat [1; 4; 1] [frac 1 1; frac 2 1; frac 3 1; frac 4 1].
Definition scenario_padding : Tensor := tf_zeros [1; 4; 1].

Definition scenario_moments (use_tpu : bool) : Tensor * Tensor :=
  ComputeMoments use_tpu scenario_inputs scenario_padding [2] (Some 1) false true 2.

(** C2, as stated, fails on the code: at [t = 1] the variance is 1/8, not
    1/4.  The squared deviation of a step is taken from the windowed mean
    of that same step, so the window {1, 2} contributes
    [(1 - 1)^2 + (2 - 3/2)^2 = 1/4] over a count of 2. *)
Lemma scenario_variance_at_1_is_not_a_quarter :
  data (snd (scenario_moments false)) [0; 1; 0] = frac 1 8
  /\ data (snd (scenario_moments false)) [0; 1; 0] <> frac 1 4.
Proof.
  assert (H : data (snd (scenario_moments false)) [0; 1; 0] = frac 1 8).
  { apply Qc_is_canon. vm_compute. reflexivity. }
  split; [exact H|]. rewrite H. intros E. apply Qceq_alt in E. vm_compute in E. discriminate.
Qed.

(** C2, amended.  On [[1,2,3,4]] with no padding, [cumulative_axis=1] and
    [cumsum_window_size=2], the per-step means are 1, 3/2, 5/2, 7/2 and the
    per-step variances are 0, 1/8, 1/4, 1/4. *)
Theorem scenario_means_and_variances (use_tpu : bool) :
  to_flat (fst (scenario_moments use_tpu)) = [frac 1 1; frac 3 2; frac 5 2; frac 7 2]
  /\ to_flat (snd (scenario_moments use_tpu)) = [frac 0 1; frac 1 8; frac 1 4; frac 1 4].
Proof.
  destruct use_tpu; split; apply Qc_list_eqb_sound; vm_compute; reflexivity.
Qed.

(** ** Facts about tensors *)

Module TensorFacts.

Lemma teq_refl x : teq x x.
Proof. split; auto. Qed.

Lemma teq_sym x y : teq x y -> teq y x.
Proof. intros [Hs Hd]. split; [auto|]. intros idx H. rewrite <- Hs in H. symmetry. auto. Qed.

Lemma teq_trans x y z : teq x y -> teq y z -> teq x z.
Proof.
  intros [Hs Hd] [Hs' Hd']. split; [congruence|].
  intros idx H. rewrite Hd by auto. apply Hd'. rewrite <- Hs. auto.
Qed.

Lemma InRange_length s idx : InRange s idx -> length idx = length s.
Proof. apply Forall2_length. Qed.

Lemma upd_length a v l : length (upd a v l) = length l.
Proof. revert a. induction l as [|x r IH]; intros [|a]; cbn; auto. Qed.

Lemma InRange_upd a d k s idx :
  InRange (upd a d s) idx -> (a < length s -> k < extent a s) ->
  InRange s (upd a k idx).
Proof.
  unfold InRange, extent. revert a idx.
  induction s as [|x r IH]; intros a idx H Hk.
  - destruct a; cbn in H; inversion H; subst; constructor.
  - destruct a as [|a]; cbn in H; inversion H; subst; cbn.
    + constructor; [apply Hk; cbn; lia|assumption].
    + constructor; [assumption|]. apply IH; [assumption|].
      intros Ha. apply Hk. cbn. lia.
Qed.

Lemma upd_same_shape a s : upd a (extent a s) s = s \/ length s <= a.
Proof.
  unfold extent. revert a. induction s as [|x r IH]; intros a.
  - right. cbn. lia.
  - destruct a as [|a]; cbn; [left; reflexivity|].
    destruct (IH a) as [->|H]; [left; reflexivity|right; lia].
Qed.

Lemma upd_beyond a v l : length l <= a -> upd a v l = l.
Proof.
  revert a. induction l as [|x r IH]; intros a H; destruct a; cbn in *; auto; try lia.
  f_equal. apply IH. lia.
Qed.

Lemma InRange_ix a s idx : InRange s idx -> a < length s -> ix a idx < extent a s.
Proof.
  unfold InRange, ix, extent. intros H. revert a.
  induction H as [|i d idx s Hid H IH]; intros a Ha; cbn in *; [lia|].
  destruct a; [assumption|]. apply IH. lia.
Qed.

Lemma ix_beyond a idx : length idx <= a -> ix a idx = 0.
Proof. intros H. unfold ix. apply nth_overflow. exact H. Qed.

Lemma extent_beyond a s : length s <= a -> extent a s = 1.
Proof. intros H. unfold extent. apply nth_overflow. exact H. Qed.

(** An in-range index stays in range when one coordinate is replaced by a
    smaller-than-extent value. *)
Lemma InRange_upd_same a k s idx :
  InRange s idx -> (a < length s -> k < extent a s) -> InRange s (upd a k idx).
Proof.
  intros H Hk. apply InRange_upd with (d := extent a s); [|exact Hk].
  destruct (upd_same_shape a s) as [->|Hb]; [exact H|].
  rewrite upd_beyond by exact Hb. exact H.
Qed.

Lemma Forall2_rev {A B : Type} (R : A -> B -> Prop) l1 l2 :
  Forall2 R l1 l2 -> Forall2 R (rev l1) (rev l2).
Proof.
  induction 1; cbn; [constructor|].
  apply Forall2_app; [assumption|]. constructor; [assumption|constructor].
Qed.

Lemma clamp_in_range s idx : InRange s idx -> clamp s idx = idx.
Proof.
  unfold InRange. induction 1 as [|i d idx s Hid H IH]; cbn; [reflexivity|].
  rewrite IH. unfold clampi. destruct (Nat.eqb_spec d 1); [f_equal; lia|reflexivity].
Qed.

Lemma bget_in_range x idx : InRange (shape x) idx -> bget x idx = data x idx.
Proof.
  intros H. unfold bget. rewrite clamp_in_range.
  - rewrite rev_involutive. reflexivity.
  - apply Forall2_rev. exact H.
Qed.

Lemma clampi_bdim_l d1 d2 i : i < bdim d1 d2 -> clampi d1 i < d1.
Proof.
  unfold bdim, clampi.
  destruct (Nat.eqb_spec d1 1); [lia|].
  destruct (Nat.eqb_spec d2 1); [lia|].
  destruct (Nat.eqb_spec d1 d2); lia.
Qed.

Lemma clampi_bdim_r d1 d2 i : i < bdim d1 d2 -> clampi d2 i < d2.
Proof.
  unfold bdim, clampi.
  destruct (Nat.eqb_spec d1 1); destruct (Nat.eqb_spec d2 1); try lia.
  destruct (Nat.eqb_spec d1 d2); lia.
Qed.

Lemma clampi_lt d i : i < d -> clampi d i < d.
Proof. unfold clampi. destruct (Nat.eqb_spec d 1); lia. Qed.

Lemma clamp_bshape_rev_l s1 : forall s2 idx,
  Forall2 lt idx (bshape_rev s1 s2) -> Forall2 lt (clamp s1 idx) s1.
Proof.
  induction s1 as [|d1 r1 IH]; intros s2 idx H; [constructor|].
  destruct s2 as [|d2 r2]; cbn in H.
  - inversion H; subst. cbn. constructor; [apply clampi_lt; assumption|].
    apply (IH [] l). destruct r1; assumption.
  - inversion H; subst. cbn. constructor; [eapply clampi_bdim_l; eassumption|].
    eapply IH; eassumption.
Qed.

Lemma bshape_rev_nil_r s : bshape_rev s [] = s.
Proof. destruct s; reflexivity. Qed.

Lemma clamp_bshape_rev_r s2 : forall s1 idx,
  Forall2 lt idx (bshape_rev s1 s2) -> Forall2 lt (clamp s2 idx) s2.
Proof.
  induction s2 as [|d2 r2 IH]; intros s1 idx H; [constructor|].
  destruct s1 as [|d1 r1]; cbn in H.
  - inversion H; subst. cbn. constructor; [apply clampi_lt; assumption|].
    apply (IH [] l). assumption.
  - inversion H; subst. cbn. constructor; [eapply clampi_bdim_r; eassumption|].
    eapply IH; eassumption.
Qed.

Definition bidx (s : list nat) (idx : Index) : Index := rev (clamp (rev s) (rev idx)).

Lemma bget_bidx x idx : bget x idx = data x (bidx (shape x) idx).
Proof. reflexivity. Qed.

Lemma InRange_rev s idx : Forall2 lt (rev idx) (rev s) -> InRange s idx.
Proof.
  intros H. apply Forall2_rev in H. rewrite !rev_involutive in H. exact H.
Qed.

Lemma bidx_in_range_l s1 s2 idx :
  InRange (bshape s1 s2) idx -> InRange s1 (bidx s1 idx).
Proof.
  intros H. unfold bidx. apply InRange_rev. rewrite rev_involutive.
  apply clamp_bshape_rev_l with (s2 := rev s2).
  apply Forall2_rev in H. unfold bshape in H. rewrite rev_involutive in H. exact H.
Qed.

Lemma bidx_in_range_r s1 s2 idx :
  InRange (bshape s1 s2) idx -> InRange s2 (bidx s2 idx).
Proof.
  intros H. unfold bidx. apply InRange_rev. rewrite rev_involutive.
  apply clamp_bshape_rev_r with (s1 := rev s1).
  apply Forall2_rev in H. unfold bshape in H. rewrite rev_involutive in H. exact H.
Qed.

(** Congruence of the operations for [teq]. *)

Lemma teq_bget x y s idx :
  teq x y -> InRange (bshape (shape x) s) idx -> bget x idx = bget y idx.
Proof.
  intros [Hs Hd] H. rewrite !bget_bidx, <- Hs. apply Hd.
  eapply bidx_in_range_l. exact H.
Qed.

Lemma teq_bget_r x y s idx :
  teq x y -> InRange (bshape s (shape x)) idx -> bget x idx = bget y idx.
Proof.
  intros [Hs Hd] H. rewrite !bget_bidx, <- Hs. apply Hd.
  eapply bidx_in_range_r. exact H.
Qed.

Lemma teq_map2 f x x' y y' :
  teq x x' -> teq y y' -> teq (tf_map2 f x y) (tf_map2 f x' y').
Proof.
  intros Hx Hy. split; cbn.
  - destruct Hx as [-> _], Hy as [-> _]. reflexivity.
  - intros idx H. f_equal.
    + eapply teq_bget; eassumption.
    + eapply teq_bget_r; eassumption.
Qed.

Lemma teq_reduce_axis a x y : teq x y -> teq (reduce_axis a x) (reduce_axis a y).
Proof.
  intros [Hs Hd]. split; cbn; [congruence|].
  intros idx H. rewrite <- Hs. apply sum_n_ext. intros k Hk.
  apply Hd. eapply InRange_upd; [exact H|]. intros _. exact Hk.
Qed.

Lemma teq_reduce_sum dims x y : teq x y -> teq (tf_reduce_sum x dims) (tf_reduce_sum y dims).
Proof.
  intros H. induction dims as [|a r IH]; cbn; [exact H|].
  apply teq_reduce_axis. exact IH.
Qed.

Lemma teq_cumsum a x y : teq x y -> teq (tf_cumsum x a) (tf_cumsum y a).
Proof.
  intros [Hs Hd]. unfold tf_cumsum. split; cbn [shape data]; [congruence|].
  intros idx H. apply sum_n_ext. intros k Hk.
  apply Hd. apply InRange_upd_same; [exact H|].
  intros Ha. pose proof (InRange_ix a _ _ H Ha). lia.
Qed.

Lemma teq_roll a w x y : teq x y -> teq (tf_roll x w a) (tf_roll y w a).
Proof.
  intros [Hs Hd]. split; cbn; [congruence|].
  intros idx H. rewrite <- Hs. apply Hd. apply InRange_upd_same; [exact H|].
  intros Ha. pose proof (InRange_ix a _ _ H Ha).
  apply Nat.mod_upper_bound. lia.
Qed.


(** *** Masks *)

(** [padding] broadcasts into a tensor of shape [s]: same rank, and every
    extent is 1 or the extent of [s]. *)
Definition broadcasts_into (sp s : list nat) : Prop :=
  Forall2 (fun dp d => dp = 1 \/ dp = d) sp s.

Lemma bdim_same d : bdim d d = d.
Proof.
  unfold bdim. destruct (Nat.eqb_spec d 1); [auto|].
  rewrite Nat.eqb_refl. reflexivity.
Qed.

Lemma bdim_one_l d : bdim 1 d = d.
Proof. reflexivity. Qed.

Lemma bdim_one_r d : bdim d 1 = d.
Proof. unfold bdim. destruct (Nat.eqb_spec d 1); auto. Qed.

Lemma bshape_rev_into sp s :
  broadcasts_into sp s -> bshape_rev sp s = s.
Proof.
  induction 1 as [|dp d sp s [->| ->] H IH]; cbn; [reflexivity| |].
  - rewrite IH. reflexivity.
  - rewrite IH, bdim_same. reflexivity.
Qed.

Lemma bshape_into sp s : broadcasts_into sp s -> bshape sp s = s.
Proof.
  intros H. unfold bshape. rewrite bshape_rev_into.
  - apply rev_involutive.
  - apply Forall2_rev. exact H.
Qed.

Lemma clampi_idem d i : clampi d (clampi d i) = clampi d i.
Proof. unfold clampi. destruct (d =? 1); reflexivity. Qed.

Lemma clampi_through dp d dm i :
  dp = 1 \/ dp = d -> clampi dp (clampi d (clampi (bdim d dm) i)) = clampi dp i.
Proof.
  intros [->| ->]; [reflexivity|]. unfold clampi, bdim.
  destruct (Nat.eqb_spec d 1) as [|Hd]; [reflexivity|].
  destruct (Nat.eqb_spec dm 1); [rewrite (proj2 (Nat.eqb_neq d 1) Hd); reflexivity|].
  destruct (Nat.eqb_spec d dm); [rewrite (proj2 (Nat.eqb_neq d 1) Hd); reflexivity|].
  reflexivity.
Qed.

Lemma clamp_through sp s : broadcasts_into sp s -> forall sm idx,
  clamp sp (clamp s (clamp (bshape_rev s sm) idx)) = clamp sp idx.
Proof.
  induction 1 as [|dp d sp s Hd H IH]; intros sm idx; [reflexivity|].
  destruct idx as [|i idx]; [destruct sm; reflexivity|].
  destruct sm as [|dm sm]; cbn.
  - f_equal.
    + destruct Hd as [->| ->]; [reflexivity|]. rewrite !clampi_idem. reflexivity.
    + specialize (IH [] idx). rewrite bshape_rev_nil_r in IH. exact IH.
  - f_equal; [apply clampi_through; exact Hd|apply IH].
Qed.

Lemma bidx_through sp s sm idx :
  broadcasts_into sp s ->
  bidx sp (bidx s (bidx (bshape s sm) idx)) = bidx sp idx.
Proof.
  intros H. unfold bidx, bshape. rewrite !rev_involutive.
  rewrite clamp_through; [reflexivity|]. apply Forall2_rev. exact H.
Qed.

(** [x] and [y] agree wherever [padding] marks a position valid. *)
Definition agree_off_padding (padding x y : Tensor) : Prop :=
  shape x = shape y
  /\ forall idx, InRange (shape x) idx ->
                 Qcltb 0%Qc (bget padding idx) = false -> data x idx = data y idx.

Lemma bget_map2 f x y idx :
  bget (tf_map2 f x y) idx =
  f (bget x (bidx (bshape (shape x) (shape y)) idx))
    (bget y (bidx (bshape (shape x) (shape y)) idx)).
Proof. reflexivity. Qed.

Lemma data_ApplyPadding padding x idx :
  data (ApplyPadding padding x) idx =
  if Qcltb 0%Qc (bget padding idx) then 0%Qc else bget x idx.
Proof. reflexivity. Qed.

Lemma shape_ApplyPadding padding x :
  shape (ApplyPadding padding x) = bshape (shape padding) (shape x).
Proof. reflexivity. Qed.

Lemma shape_map2 f x y : shape (tf_map2 f x y) = bshape (shape x) (shape y).
Proof. reflexivity. Qed.

Lemma data_map2 f x y idx : data (tf_map2 f x y) idx = f (bget x idx) (bget y idx).
Proof. reflexivity. Qed.

Lemma teq_ApplyPadding_map2 f padding x x' m m' :
  broadcasts_into (shape padding) (shape x) ->
  agree_off_padding padding x x' -> teq m m' ->
  teq (ApplyPadding padding (tf_map2 f x m)) (ApplyPadding padding (tf_map2 f x' m')).
Proof.
  intros Hb [Hs Hd] [Hsm Hdm]. split.
  - rewrite !shape_ApplyPadding, !shape_map2, Hs, Hsm. reflexivity.
  - intros idx H. rewrite shape_ApplyPadding, shape_map2 in H.
    rewrite !data_ApplyPadding.
    destruct (Qcltb 0%Qc (bget padding idx)) eqn:E; [reflexivity|].
    rewrite !bget_map2, <- Hs, <- Hsm.
    pose proof (bidx_in_range_r _ _ _ H) as H2.
    f_equal.
    + rewrite !bget_bidx, <- Hs. apply Hd.
      * eapply bidx_in_range_l. exact H2.
      * rewrite bget_bidx, bidx_through by exact Hb. rewrite <- bget_bidx. exact E.
    + rewrite !bget_bidx, <- Hsm. apply Hdm. eapply bidx_in_range_r. exact H2.
Qed.

Lemma teq_ApplyPadding padding x x' :
  broadcasts_into (shape padding) (shape x) ->
  agree_off_padding padding x x' ->
  teq (ApplyPadding padding x) (ApplyPadding padding x').
Proof.
  intros Hb [Hs Hd]. split.
  - rewrite !shape_ApplyPadding, Hs. reflexivity.
  - intros idx H. rewrite shape_ApplyPadding in H. rewrite !data_ApplyPadding.
    destruct (Qcltb 0%Qc (bget padding idx)) eqn:E; [reflexivity|].
    rewrite bshape_into in H by exact Hb.
    rewrite !bget_in_range; [auto|rewrite <- Hs; exact H|exact H].
Qed.

Lemma teq_WindowedCumSum x y padding w a :
  teq x y -> teq (_WindowedCumSum x padding w a) (_WindowedCumSum y padding w a).
Proof.
  intros H. unfold _WindowedCumSum. destruct H as [Hs Hd].
  rewrite <- Hs. apply teq_map2; [split; assumption|].
  apply teq_map2; [apply teq_roll; split; assumption|apply teq_refl].
Qed.

Lemma if_same {A : Type} (c : bool) (x : A) : (if c then x else x) = x.
Proof. destruct c; reflexivity. Qed.

Lemma teq_accumulate (ca : option nat) (windowed : bool) w padding x y :
  teq x y ->
  teq (match ca with
       | Some ax => let v := tf_cumsum x ax in
                    if windowed then _WindowedCumSum v padding w ax else v
       | None => x end)
      (match ca with
       | Some ax => let v := tf_cumsum y ax in
                    if windowed then _WindowedCumSum v padding w ax else v
       | None => y end).
Proof.
  intros H. destruct ca as [ax|]; [|exact H]. cbv zeta.
  destruct windowed; [apply teq_WindowedCumSum|]; apply teq_cumsum; exact H.
Qed.

Definition is_zero (x : Tensor) : Prop :=
  forall idx, InRange (shape x) idx -> data x idx = 0%Qc.

Definition all_padded (padding : Tensor) : Prop :=
  forall idx, InRange (shape padding) idx -> Qcltb 0%Qc (data padding idx) = true.

Lemma is_zero_ApplyPadding padding x : all_padded padding -> is_zero (ApplyPadding padding x).
Proof.
  intros Hp idx H. rewrite shape_ApplyPadding in H. rewrite data_ApplyPadding.
  rewrite bget_bidx, Hp; [reflexivity|]. eapply bidx_in_range_l. exact H.
Qed.

Lemma is_zero_ApplyPadding_zero padding x : is_zero x -> is_zero (ApplyPadding padding x).
Proof.
  intros Hx idx H. rewrite shape_ApplyPadding in H. rewrite data_ApplyPadding.
  destruct (Qcltb 0%Qc (bget padding idx)); [reflexivity|].
  rewrite bget_bidx. apply Hx. eapply bidx_in_range_r. exact H.
Qed.

Lemma is_zero_reduce_axis a x : is_zero x -> is_zero (reduce_axis a x).
Proof.
  intros Hx idx H. unfold reduce_axis in *. cbn [shape data] in *.
  apply sum_n_zero. intros k Hk. apply Hx.
  eapply InRange_upd; [exact H|]. intros _. exact Hk.
Qed.

Lemma is_zero_reduce_sum dims x : is_zero x -> is_zero (tf_reduce_sum x dims).
Proof.
  intros H. induction dims as [|a r IH]; cbn; [exact H|].
  apply is_zero_reduce_axis. exact IH.
Qed.

Lemma is_zero_cumsum a x : is_zero x -> is_zero (tf_cumsum x a).
Proof.
  intros Hx idx H. unfold tf_cumsum in *. cbn [shape data] in *.
  apply sum_n_zero. intros k Hk. apply Hx. apply InRange_upd_same; [exact H|].
  intros Ha. pose proof (InRange_ix a _ _ H Ha). lia.
Qed.

Lemma is_zero_roll a w x : is_zero x -> is_zero (tf_roll x w a).
Proof.
  intros Hx idx H. unfold tf_roll in *. cbn [shape data] in *.
  apply Hx. apply InRange_upd_same; [exact H|].
  intros Ha. pose proof (InRange_ix a _ _ H Ha).
  apply Nat.mod_upper_bound. lia.
Qed.

Lemma is_zero_map2_l f x y :
  (forall v, f 0%Qc v = 0%Qc) -> is_zero x -> is_zero (tf_map2 f x y).
Proof.
  intros Hf Hx idx H. rewrite shape_map2 in H. rewrite data_map2.
  rewrite (bget_bidx x), Hx; [apply Hf|]. eapply bidx_in_range_l. exact H.
Qed.

Lemma is_zero_map2 f x y :
  f 0%Qc 0%Qc = 0%Qc -> is_zero x -> is_zero y -> is_zero (tf_map2 f x y).
Proof.
  intros Hf Hx Hy idx H. rewrite shape_map2 in H. rewrite data_map2.
  rewrite (bget_bidx x), Hx by (eapply bidx_in_range_l; exact H).
  rewrite (bget_bidx y), Hy by (eapply bidx_in_range_r; exact H).
  exact Hf.
Qed.

Lemma Qcdiv_0_l v : (0 / v)%Qc = 0%Qc.
Proof. unfold Qcdiv. apply Qcmult_0_l. Qed.

Lemma is_zero_WindowedCumSum x padding w a :
  is_zero x -> is_zero (_WindowedCumSum x padding w a).
Proof.
  intros Hx. unfold _WindowedCumSum.
  apply is_zero_map2; [ring|exact Hx|].
  apply is_zero_map2_l; [intros; ring|]. apply is_zero_roll. exact Hx.
Qed.

Lemma is_zero_accumulate (ca : option nat) (windowed : bool) w padding x :
  is_zero x ->
  is_zero (match ca with
           | Some ax => let v := tf_cumsum x ax in
                        if windowed then _WindowedCumSum v padding w ax else v
           | None => x end).
Proof.
  intros H. destruct ca as [ax|]; [|exact H]. cbv zeta.
  destruct windowed; [apply is_zero_WindowedCumSum|]; apply is_zero_cumsum; exact H.
Qed.

Lemma maximum_one_ge_1 x idx : (1 <= data (tf_maximum x (tf_scalar 1%Qc)) idx)%Qc.
Proof. unfold tf_maximum. rewrite data_map2. apply Qcmax_ge_r. Qed.

Lemma unravel_rev_ravel_rev rs : forall ridx,
  Forall2 lt ridx rs -> unravel_rev rs (ravel_rev rs ridx) = ridx.
Proof.
  induction rs as [|d rs IH]; intros ridx H; inversion H; subst; [reflexivity|].
  cbn [ravel_rev unravel_rev]. f_equal.
  - rewrite Nat.mul_comm, Nat.Div0.mod_add. apply Nat.mod_small. assumption.
  - rewrite Nat.mul_comm, Nat.div_add by lia. rewrite Nat.div_small by assumption.
    cbn. apply IH. assumption.
Qed.

Lemma unravel_ravel s idx : InRange s idx -> unravel s (ravel s idx) = idx.
Proof.
  intros H. unfold unravel, ravel. rewrite unravel_rev_ravel_rev.
  - apply rev_involutive.
  - apply Forall2_rev. exact H.
Qed.

(** A reshape that keeps the flat position of every index. *)
Lemma data_reshape x s idx idx0 :
  InRange (shape x) idx0 -> ravel s idx = ravel (shape x) idx0 ->
  data (tf_reshape x s) idx = data x idx0.
Proof.
  intros H E. unfold tf_reshape. cbn [data]. rewrite E, unravel_ravel by exact H.
  reflexivity.
Qed.

Lemma clampi_id d i : i < d -> clampi d i = i.
Proof. unfold clampi. destruct (Nat.eqb_spec d 1); lia. Qed.

Lemma bidx_id s idx : InRange s idx -> bidx s idx = idx.
Proof.
  intros H. unfold bidx. rewrite clamp_in_range.
  - apply rev_involutive.
  - apply Forall2_rev. exact H.
Qed.

Lemma InRange4 d0 d1 d2 d3 idx :
  InRange [d0; d1; d2; d3] idx ->
  exists i j l k, idx = [i; j; l; k] /\ i < d0 /\ j < d1 /\ l < d2 /\ k < d3.
Proof.
  intros H. inversion H as [|i ? r0 ? Hi H0]; subst.
  inversion H0 as [|j ? r1 ? Hj H1]; subst.
  inversion H1 as [|l ? r2 ? Hl H2]; subst.
  inversion H2 as [|k ? r3 ? Hk H3]; subst.
  inversion H3; subst. exists i, j, l, k. auto.
Qed.

Lemma InRange4_intro d0 d1 d2 d3 i j l k :
  i < d0 -> j < d1 -> l < d2 -> k < d3 -> InRange [d0; d1; d2; d3] [i; j; l; k].
Proof. intros. repeat constructor; assumption. Qed.


Lemma clamp_app s1 s2 i1 i2 :
  length s1 = length i1 -> clamp (s1 ++ s2) (i1 ++ i2) = clamp s1 i1 ++ clamp s2 i2.
Proof.
  revert i1. induction s1 as [|d s1 IH]; intros [|i i1] H; cbn in *; try discriminate.
  - reflexivity.
  - rewrite IH by lia. reflexivity.
Qed.

Lemma clamp_rev s : forall idx,
  length s = length idx -> clamp (rev s) (rev idx) = rev (clamp s idx).
Proof.
  induction s as [|d s IH]; intros [|i idx] H; cbn in *; try discriminate; [reflexivity|].
  rewrite clamp_app by (rewrite !length_rev; lia).
  rewrite IH by lia. reflexivity.
Qed.

Lemma bidx_clamp s idx : length s = length idx -> bidx s idx = clamp s idx.
Proof. intros H. unfold bidx. rewrite clamp_rev by exact H. apply rev_involutive. Qed.

Lemma clamp_ones r idx : length idx = r -> clamp (repeat 1 r) idx = repeat 0 r.
Proof.
  revert idx. induction r as [|r IH]; intros [|i idx] H; cbn in *; try discriminate.
  - reflexivity.
  - rewrite IH by lia. reflexivity.
Qed.

Lemma rev_repeat {A : Type} (a : A) r : rev (repeat a r) = repeat a r.
Proof.
  induction r as [|r IH]; cbn; [reflexivity|]. rewrite IH.
  change [a] with (repeat a 1). rewrite <- repeat_app.
  replace (r + 1) with (S r) by lia. reflexivity.
Qed.

Lemma ravel_rev_ones r rs ridx :
  ravel_rev (repeat 1 r ++ rs) (repeat 0 r ++ ridx) = ravel_rev rs ridx.
Proof. induction r as [|r IH]; cbn [repeat app ravel_rev]; [reflexivity|]. rewrite IH. lia. Qed.

Lemma ravel_ones s idx r :
  ravel (s ++ repeat 1 r) (idx ++ repeat 0 r) = ravel s idx.
Proof.
  unfold ravel. rewrite !rev_app_distr, !rev_repeat. apply ravel_rev_ones.
Qed.

Lemma broadcasts_into_refl s : broadcasts_into s s.
Proof. induction s; constructor; auto. Qed.

Lemma bshape_same s : bshape s s = s.
Proof. apply bshape_into, broadcasts_into_refl. Qed.

Lemma bshape_rev_into_r sp s : broadcasts_into sp s -> bshape_rev s sp = s.
Proof.
  induction 1 as [|dp d sp s [->| ->] H IH]; cbn; [reflexivity| |].
  - rewrite IH, bdim_one_r. reflexivity.
  - rewrite IH, bdim_same. reflexivity.
Qed.

Lemma bshape_into_r sp s : broadcasts_into sp s -> bshape s sp = s.
Proof.
  intros H. unfold bshape. rewrite bshape_rev_into_r.
  - apply rev_involutive.
  - apply Forall2_rev. exact H.
Qed.

Lemma broadcasts_into_ones r s : length s = r -> broadcasts_into (repeat 1 r) s.
Proof.
  revert s. induction r as [|r IH]; intros [|d s] H; cbn in *; try discriminate.
  - constructor.
  - constructor; [auto|]. apply IH. lia.
Qed.

Lemma InRange_zeros r : InRange (repeat 1 r) (repeat 0 r).
Proof. induction r; cbn; constructor; auto. Qed.

(** *** Reductions that drop the reduced axes *)

Fixpoint drop_shape (n : nat) (dims s : list nat) : list nat :=
  match n with
  | O => s
  | S a => drop_shape a dims (if existsb (Nat.eqb a) dims then remove_at a s else s)
  end.

Fixpoint undrop_index (n : nat) (dims : list nat) (idx : Index) : Index :=
  match n with
  | O => idx
  | S a =>
      let idx' := undrop_index a dims idx in
      if existsb (Nat.eqb a) dims then insert_at a 0 idx' else idx'
  end.

Lemma shape_drop_axes_below n dims : forall x,
  shape (drop_axes_below n dims x) = drop_shape n dims (shape x).
Proof.
  induction n as [|a IH]; intros x; cbn [drop_axes_below drop_shape]; [reflexivity|].
  rewrite IH. destruct (existsb (Nat.eqb a) dims); reflexivity.
Qed.

Lemma data_drop_axes_below n dims : forall x idx,
  data (drop_axes_below n dims x) idx = data x (undrop_index n dims idx).
Proof.
  induction n as [|a IH]; intros x idx; cbn [drop_axes_below undrop_index]; [reflexivity|].
  rewrite IH. destruct (existsb (Nat.eqb a) dims); reflexivity.
Qed.

Lemma remove_at_length a s : a < length s -> length (remove_at a s) = length s - 1.
Proof.
  revert a. induction s as [|x r IH]; intros a H; cbn in H; [lia|].
  destruct a as [|a]; cbn [remove_at length]; [lia|].
  rewrite IH by lia. lia.
Qed.

Lemma extent_remove_at_below a a' s : a' < a -> extent a' (remove_at a s) = extent a' s.
Proof.
  unfold extent. revert a a'. induction s as [|x r IH]; intros a a' H;
    [destruct a; reflexivity|].
  destruct a as [|a]; [lia|]. cbn [remove_at].
  destruct a' as [|a']; [reflexivity|]. cbn [nth]. apply IH. lia.
Qed.

Lemma InRange_insert_at a : forall s idx,
  a < length s -> 0 < extent a s ->
  InRange (remove_at a s) idx -> InRange s (insert_at a 0 idx).
Proof.
  unfold InRange, extent.
  induction a as [|a IH]; intros s idx Hlen Hpos H; destruct s as [|x r]; cbn in Hlen; try lia.
  - cbn [remove_at] in H. cbn [insert_at nth] in *. constructor; assumption.
  - cbn [remove_at] in H. inversion H as [|i ? idx' ? Hi Hrest]; subst.
    cbn [insert_at]. constructor; [exact Hi|]. apply IH; [lia|exact Hpos|exact Hrest].
Qed.

Lemma InRange_undrop n dims : forall s idx,
  n <= length s ->
  (forall a, a < n -> existsb (Nat.eqb a) dims = true -> 0 < extent a s) ->
  InRange (drop_shape n dims s) idx -> InRange s (undrop_index n dims idx).
Proof.
  induction n as [|a IH]; intros s idx Hlen Hpos H; cbn [drop_shape undrop_index] in *;
    [exact H|].
  destruct (existsb (Nat.eqb a) dims) eqn:E.
  - apply InRange_insert_at; [lia|apply Hpos; [lia|exact E]|].
    apply IH; [rewrite remove_at_length by lia; lia| |exact H].
    intros a' Ha' E'. rewrite extent_remove_at_below by exact Ha'. apply Hpos; [lia|exact E'].
  - apply IH; [lia| |exact H]. intros a' Ha' E'. apply Hpos; [lia|exact E'].
Qed.

Lemma extent_upd_one a s : a < length s -> extent a (upd a 1 s) = 1.
Proof.
  unfold extent. revert a. induction s as [|x r IH]; intros a H; cbn in H; [lia|].
  destruct a as [|a]; cbn [upd nth]; [reflexivity|]. apply IH. lia.
Qed.

Lemma extent_upd_other a a' v s : a <> a' -> extent a (upd a' v s) = extent a s.
Proof.
  unfold extent. revert a a'. induction s as [|x r IH]; intros a a' H;
    [destruct a'; reflexivity|].
  destruct a' as [|a']; destruct a as [|a]; cbn [upd nth]; try reflexivity; try lia.
  apply IH. lia.
Qed.

Lemma length_shape_reduce_sum dims x : length (shape (tf_reduce_sum x dims)) = length (shape x).
Proof.
  induction dims as [|a r IH]; cbn [tf_reduce_sum fold_right]; [reflexivity|].
  unfold reduce_axis. cbn [shape]. rewrite upd_length. exact IH.
Qed.

Lemma extent_reduce_sum dims x a :
  existsb (Nat.eqb a) dims = true -> a < length (shape x) ->
  extent a (shape (tf_reduce_sum x dims)) = 1.
Proof.
  intros E Ha. induction dims as [|a0 r IH]; cbn [existsb] in E; [discriminate|].
  change (tf_reduce_sum x (a0 :: r)) with (reduce_axis a0 (tf_reduce_sum x r)).
  unfold reduce_axis. cbn [shape].
  destruct (Nat.eqb_spec a a0) as [Heq|Hne].
  - rewrite <- Heq. apply extent_upd_one. rewrite length_shape_reduce_sum. exact Ha.
  - rewrite extent_upd_other by exact Hne. apply IH. exact E.
Qed.

Lemma undrop_reduce_sum_in_range dims x idx :
  let r := tf_reduce_sum x dims in
  InRange (drop_shape (length (shape r)) dims (shape r)) idx ->
  InRange (shape r) (undrop_index (length (shape r)) dims idx).
Proof.
  intros r H. apply InRange_undrop; [lia| |exact H].
  intros a Ha E. unfold r in *. rewrite length_shape_reduce_sum in Ha.
  rewrite extent_reduce_sum by assumption. lia.
Qed.

Lemma teq_reduce_sum_keepdims dims k x y :
  teq x y -> teq (tf_reduce_sum_keepdims x dims k) (tf_reduce_sum_keepdims y dims k).
Proof.
  intros H. pose proof (teq_reduce_sum dims x y H) as [Hs Hd].
  unfold tf_reduce_sum_keepdims. cbv zeta. destruct k; [split; assumption|].
  split.
  - rewrite !shape_drop_axes_below, Hs. reflexivity.
  - intros idx Hin. rewrite shape_drop_axes_below in Hin.
    rewrite !data_drop_axes_below, <- Hs. apply Hd.
    apply undrop_reduce_sum_in_range. exact Hin.
Qed.

Lemma is_zero_reduce_sum_keepdims dims k x :
  is_zero x -> is_zero (tf_reduce_sum_keepdims x dims k).
Proof.
  intros H. pose proof (is_zero_reduce_sum dims x H) as Hz.
  unfold tf_reduce_sum_keepdims. cbv zeta. destruct k; [exact Hz|].
  intros idx Hin. rewrite shape_drop_axes_below in Hin.
  rewrite data_drop_axes_below. apply Hz.
  apply undrop_reduce_sum_in_range. exact Hin.
Qed.

End TensorFacts.
Import TensorFacts.

(** ** The windowed cumulative sum *)

Section WindowedCumSumSpec.
Variables (x padding : Tensor) (W b T : nat) (srest : list nat).
Hypothesis Hx : shape x = b :: T :: srest.
Hypothesis Hp : shape padding = b :: T :: repeat 1 (length srest).

Let Hinto : broadcasts_into (shape padding) (shape x).
Proof.
  rewrite Hx, Hp. constructor; [auto|]. constructor; [auto|].
  apply broadcasts_into_ones. reflexivity.
Qed.

Lemma shape_WindowedCumSum : shape (_WindowedCumSum x padding W 1) = shape x.
Proof.
  unfold _WindowedCumSum, tf_sub, tf_mul. rewrite !shape_map2, shape_ApplyPadding.
  cbn [shape tf_reshape tf_roll]. rewrite bshape_same, (bshape_into_r _ _ Hinto).
  apply bshape_same.
Qed.

Lemma data_WindowedCumSum i j rest :
  InRange (shape x) (i :: j :: rest) ->
  data (_WindowedCumSum x padding W 1) (i :: j :: rest) =
  (data x (i :: j :: rest)
   - data x (i :: (j + (T - W mod T)) mod T :: rest)
     * (if Qcltb 0%Qc (data padding (i :: j :: repeat O (length rest)))
        then 0 else if (j <? W)%nat then 0 else 1))%Qc.
Proof.
  intros H. pose proof H as H'. rewrite Hx in H'.
  inversion H' as [|? ? ? ? Hi H1]; subst. inversion H1 as [|? ? ? ? Hj H2]; subst.
  pose proof (Forall2_length H2) as Hlen.
  unfold _WindowedCumSum, tf_sub, tf_mul.
  rewrite data_map2, bget_in_range by exact H.
  f_equal. f_equal.
  rewrite bget_bidx, shape_map2, shape_ApplyPadding.
  cbn [shape tf_reshape tf_roll]. rewrite bshape_same, (bshape_into_r _ _ Hinto).
  rewrite bidx_id by exact H.
  rewrite data_map2, bget_in_range by exact H.
  unfold tf_roll at 1. cbn [data]. rewrite Hx. cbn [extent nth ix upd].
  f_equal.
  rewrite bget_bidx, shape_ApplyPadding. cbn [shape tf_reshape].
  rewrite bshape_same, Hp, bidx_clamp by (cbn; rewrite repeat_length; lia).
  cbn [clamp]. rewrite clamp_ones, !clampi_id by assumption.
  rewrite data_ApplyPadding.
  assert (Hin : InRange (shape padding) (i :: j :: repeat 0 (length srest))).
  { rewrite Hp. constructor; [assumption|]. constructor; [assumption|].
    apply InRange_zeros. }
  rewrite bget_in_range by exact Hin. rewrite Hlen.
  destruct (Qcltb 0%Qc (data padding (i :: j :: repeat 0 (length srest)))); [reflexivity|].
  rewrite bget_bidx. cbn [shape tf_reshape]. rewrite bidx_id by (rewrite <- Hp; exact Hin).
  rewrite (data_reshape _ _ _ [i; j]).
  - unfold PaddingsFromLengths. cbn [data ix nth tf_fill].
    rewrite Qcltb_of_nat. reflexivity.
  - unfold PaddingsFromLengths. cbn [shape tf_fill]. cbn [extent nth].
    repeat constructor; assumption.
  - unfold PaddingsFromLengths. cbn [shape tf_fill]. cbn [extent nth].
    apply (ravel_ones [b; T] [i; j]).
Qed.

End WindowedCumSumSpec.

(** ** Masking *)

(** The values of [x] at the padded positions replaced by those of [v]. *)
Definition overwrite_padded (padding x : Tensor) (v : Index -> Qc) : Tensor :=
  mkTensor (dtype x) (shape x)
           (fun idx => if Qcltb 0%Qc (bget padding idx) then v idx else data x idx).

Lemma agree_overwrite_padded padding x v :
  agree_off_padding padding x (overwrite_padded padding x v).
Proof.
  split; [reflexivity|]. intros idx _ E. unfold overwrite_padded. cbn [data].
  rewrite E. reflexivity.
Qed.

(** C4.  Two inputs of one shape that differ only where the mask marks a
    position padded have the same mean and the same variance, for every
    set of reduction axes, with or without the cumulative sum and the
    window: a padded element contributes exactly zero. *)
Theorem padded_values_do_not_matter (use_tpu : bool) (inputs inputs' padding : Tensor)
    (reduce_over_dims : list nat) (cumulative_axis : option nat)
    (enable_cross_replica_sum_on_tpu keepdims : bool) (cumsum_window_size : nat) :
  broadcasts_into (shape padding) (shape inputs) ->
  agree_off_padding padding inputs inputs' ->
  teq (fst (ComputeMoments use_tpu inputs padding reduce_over_dims cumulative_axis
              enable_cross_replica_sum_on_tpu keepdims cumsum_window_size))
      (fst (ComputeMoments use_tpu inputs' padding reduce_over_dims cumulative_axis
              enable_cross_replica_sum_on_tpu keepdims cumsum_window_size))
  /\ teq (snd (ComputeMoments use_tpu inputs padding reduce_over_dims cumulative_axis
                 enable_cross_replica_sum_on_tpu keepdims cumsum_window_size))
         (snd (ComputeMoments use_tpu inputs' padding reduce_over_dims cumulative_axis
                 enable_cross_replica_sum_on_tpu keepdims cumsum_window_size)).
Proof.
  intros Hb Hagree. pose proof Hagree as [Hs Hd].
  unfold ComputeMoments, cross_replica_sum. cbv zeta. cbn [fst snd].
  rewrite !if_same, <- Hs.
  assert (Hsum : teq (tf_reduce_sum_keepdims (ApplyPadding padding inputs)
                        reduce_over_dims keepdims)
                     (tf_reduce_sum_keepdims (ApplyPadding padding inputs')
                        reduce_over_dims keepdims)).
  { apply teq_reduce_sum_keepdims, teq_ApplyPadding; assumption. }
  set (w := Nat.min cumsum_window_size (extent 1 (shape inputs))).
  set (windowed := negb (cumsum_window_size =? 0)).
  pose proof (teq_accumulate cumulative_axis windowed w padding _ _ Hsum) as Hacc.
  cbv zeta in Hacc.
  match goal with |- teq (tf_div ?s ?c) (tf_div ?s' ?c) /\ _ =>
    assert (Hmean : teq (tf_div s c) (tf_div s' c))
      by (apply teq_map2; [exact Hacc|apply teq_refl])
  end.
  split; [exact Hmean|].
  apply teq_map2; [|apply teq_refl].
  apply teq_accumulate with (x := tf_reduce_sum_keepdims _ _ _)
                            (y := tf_reduce_sum_keepdims _ _ _).
  apply teq_reduce_sum_keepdims, teq_ApplyPadding_map2; assumption.
Qed.


Definition masked_inputs : Tensor := of_flat [1; 3; 1] [frac 1 1; frac 5 1; frac 7 1].
Definition masked_padding : Tensor := of_flat [1; 3; 1] [frac 0 1; frac 1 1; frac 1 1].

Lemma padded_values_do_not_matter_witness :
  teq (fst (ComputeMoments false masked_inputs masked_padding [2] (Some 1) false true 2))
      (fst (ComputeMoments false
              (overwrite_padded masked_padding masked_inputs (fun _ => frac 99 1))
              masked_padding [2] (Some 1) false true 2))
  /\ teq (snd (ComputeMoments false masked_inputs masked_padding [2] (Some 1) false true 2))
         (snd (ComputeMoments false
                 (overwrite_padded masked_padding masked_inputs (fun _ => frac 99 1))
                 masked_padding [2] (Some 1) false true 2)).
Proof.
  apply padded_values_do_not_matter.
  - unfold broadcasts_into. repeat (apply Forall2_cons; [auto|]). apply Forall2_nil.
  - apply agree_overwrite_padded.
Defined.

(** ** All-padded inputs *)

Lemma ComputeMoments_all_padded (use_tpu : bool) (inputs padding : Tensor)
    (reduce_over_dims : list nat) (cumulative_axis : option nat)
    (enable_cross_replica_sum_on_tpu keepdims : bool) (cumsum_window_size : nat) :
  all_padded padding ->
  is_zero (fst (ComputeMoments use_tpu inputs padding reduce_over_dims cumulative_axis
                  enable_cross_replica_sum_on_tpu keepdims cumsum_window_size))
  /\ is_zero (snd (ComputeMoments use_tpu inputs padding reduce_over_dims cumulative_axis
                     enable_cross_replica_sum_on_tpu keepdims cumsum_window_size)).
Proof.
  intros Hp. unfold ComputeMoments, cross_replica_sum. cbv zeta. cbn [fst snd].
  rewrite !if_same.
  split; apply is_zero_map2_l; try apply Qcdiv_0_l; apply is_zero_accumulate;
    apply is_zero_reduce_sum_keepdims, is_zero_ApplyPadding; exact Hp.
Qed.


Lemma roll_back_index j W T : W <= j -> j < T -> (j + (T - W mod T)) mod T = j - W.
Proof.
  intros H1 H2. rewrite (Nat.mod_small W T) by lia.
  replace (j + (T - W)) with ((j - W) + 1 * T) by lia.
  rewrite Nat.Div0.mod_add. apply Nat.mod_small. lia.
Qed.

(** C3.  For a cumulative sum [x] of shape [b, T, ...], a mask of shape
    [b, T, 1, ...] and a window [W <= T], [_WindowedCumSum] keeps the shape
    and returns, at every position [t] of every example: [x[t]] when
    [t < W]; [x[t] - x[t - W]] when [t >= W] and step [t] is valid; and
    [x[t]] when step [t] is padded, the shifted term being zeroed there
    before the subtraction. *)
Theorem WindowedCumSum_is_sliding_window (x padding : Tensor) (W b T : nat)
    (srest : list nat) (i j : nat) (rest : list nat) :
  shape x = b :: T :: srest ->
  shape padding = b :: T :: repeat 1 (length srest) ->
  W <= T ->
  InRange (shape x) (i :: j :: rest) ->
  let padded := Qcltb 0%Qc (data padding (i :: j :: repeat 0 (length rest))) in
  let out := _WindowedCumSum x padding W 1 in
  shape out = shape x
  /\ (j < W -> data out (i :: j :: rest) = data x (i :: j :: rest))
  /\ (W <= j -> padded = false ->
      data out (i :: j :: rest)
      = Qcminus (data x (i :: j :: rest)) (data x (i :: j - W :: rest)))
  /\ (padded = true -> data out (i :: j :: rest) = data x (i :: j :: rest)).
Proof.
  intros Hx Hp HW H padded out.
  assert (Hj : j < T).
  { rewrite Hx in H. inversion H as [|? ? ? ? _ H1]; subst.
    inversion H1; subst. assumption. }
  pose proof (data_WindowedCumSum x padding W b T srest Hx Hp i j rest H) as E.
  fold padded in E. fold out in E.
  split; [apply (shape_WindowedCumSum x padding W b T srest Hx Hp)|].
  split; [|split].
  - intros Hlt. rewrite E. destruct padded; [ring|].
    replace (j <? W) with true by (symmetry; apply Nat.ltb_lt; exact Hlt). ring.
  - intros Hge Hv. rewrite E, Hv.
    replace (j <? W) with false by (symmetry; apply Nat.ltb_ge; exact Hge).
    rewrite roll_back_index by assumption. ring.
  - intros Hpad. rewrite E, Hpad. ring.
Qed.

Definition window_cumsum : Tensor :=
  of_flat [1; 4; 1; 1] [frac 1 1; frac 3 1; frac 6 1; frac 10 1].
Definition window_padding : Tensor :=
  of_flat [1; 4; 1; 1] [frac 0 1; frac 0 1; frac 0 1; frac 1 1].

Lemma WindowedCumSum_is_sliding_window_witness :
  let padded := Qcltb 0%Qc (data window_padding [0; 2; 0; 0]) in
  let out := _WindowedCumSum window_cumsum window_padding 2 1 in
  shape out = shape window_cumsum
  /\ (2 < 2 -> data out [0; 2; 0; 0] = data window_cumsum [0; 2; 0; 0])
  /\ (2 <= 2 -> padded = false ->
      data out [0; 2; 0; 0]
      = Qcminus (data window_cumsum [0; 2; 0; 0]) (data window_cumsum [0; 2 - 2; 0; 0]))
  /\ (padded = true -> data out [0; 2; 0; 0] = data window_cumsum [0; 2; 0; 0]).
Proof.
  apply (WindowedCumSum_is_sliding_window window_cumsum window_padding 2 1 4 [1; 1]
           0 2 [0; 0]).
  - reflexivity.
  - reflexivity.
  - lia.
  - repeat constructor.
Defined.

(** ** Closed forms on rank-4 inputs *)

Lemma bget4 x d0 d1 d2 d3 i j l k :
  shape x = [d0; d1; d2; d3] ->
  bget x [i; j; l; k] = data x [clampi d0 i; clampi d1 j; clampi d2 l; clampi d3 k].
Proof. intros H. unfold bget. rewrite H. reflexivity. Qed.

Lemma bget_scalar v idx : bget (tf_scalar v) idx = v.
Proof. reflexivity. Qed.

Lemma clampi_one i : clampi 1 i = 0.
Proof. reflexivity. Qed.

Lemma bshape_nil_r s : bshape s [] = s.
Proof. unfold bshape. cbn [rev]. rewrite bshape_rev_nil_r. apply rev_involutive. Qed.

Lemma bshape4 a0 a1 a2 a3 b0 b1 b2 b3 :
  bshape [a0; a1; a2; a3] [b0; b1; b2; b3]
  = [bdim a0 b0; bdim a1 b1; bdim a2 b2; bdim a3 b3].
Proof. reflexivity. Qed.

Definition pad_at (P : Tensor) (i s : nat) : bool := Qcltb 0%Qc (data P [i; s; 0; 0]).

(** The sum over the group axis of the masked values of one step. *)
Definition cell_sum (X P : Tensor) (g i l s : nat) : Qc :=
  sum_n g (fun k => if pad_at P i s then 0%Qc else data X [i; s; l; k]).

Definition cell_cnt (P : Tensor) (i s : nat) : Qc :=
  if pad_at P i s then 0%Qc else 1%Qc.

(** The sliding-window form of a cumulative sequence [c], as
    [_WindowedCumSum] computes it on a time axis of extent [T]. *)
Definition win (W T : nat) (P : Tensor) (i : nat) (c : nat -> Qc) (j : nat) : Qc :=
  (c j - c ((j + (T - W mod T)) mod T)
         * (if pad_at P i j then 0 else if (j <? W)%nat then 0 else 1))%Qc.

(** The cumulative, possibly windowed, sum of a per-step sequence [f]. *)
Definition acc (Wc T : nat) (P : Tensor) (i : nat) (f : nat -> Qc) (j : nat) : Qc :=
  if Wc =? 0 then sum_n (S j) f
  else win (Nat.min Wc T) T P i (fun q => sum_n (S q) f) j.

Section BatchRank4.
Variables (use_tpu crs : bool) (X P : Tensor) (b T n g Wc : nat).
Hypothesis HX : shape X = [b; T; n; g].
Hypothesis HP : shape P = [b; T; 1; 1].

Definition batch_denom (i j : nat) : Qc :=
  Qcmax (acc Wc T P i (cell_cnt P i) j * (Qc_of_nat (g * 1) / Qc_of_nat (1 * 1)))%Qc 1%Qc.

Definition batch_mean (i l j : nat) : Qc :=
  (acc Wc T P i (cell_sum X P g i l) j / batch_denom i j)%Qc.

Definition batch_sq (i l s : nat) : Qc :=
  sum_n g (fun k => if pad_at P i s then 0%Qc
                    else sqr (data X [i; s; l; k] - batch_mean i l s)%Qc).

Definition batch_var (i l j : nat) : Qc :=
  (acc Wc T P i (batch_sq i l) j / batch_denom i j)%Qc.

Let CM := ComputeMoments use_tpu X P [3] (Some 1) crs true Wc.

(** The accumulation step of [ComputeMoments] on a tensor [[b, T, m, 1]]. *)
Lemma accumulate_rank4 (v : Tensor) (m : nat) (f : nat -> nat -> nat -> Qc) :
  shape v = [b; T; m; 1] ->
  (forall i j l, i < b -> j < T -> l < m -> data v [i; j; l; 0] = f i l j) ->
  let r := (let v1 := tf_cumsum v 1 in
            if negb (Wc =? 0) then _WindowedCumSum v1 P (Nat.min Wc (extent 1 (shape X))) 1
            else v1) in
  shape r = [b; T; m; 1]
  /\ forall i j l, i < b -> j < T -> l < m ->
       data r [i; j; l; 0] = acc Wc T P i (f i l) j.
Proof.
  intros Hv Hd. cbv zeta.
  assert (Hc : forall i j l, i < b -> j < T -> l < m ->
             data (tf_cumsum v 1) [i; j; l; 0] = sum_n (S j) (f i l)).
  { intros i j l Hi Hj Hl. unfold tf_cumsum. cbn [data ix nth upd].
    apply sum_n_ext. intros s Hs. apply Hd; lia. }
  unfold acc. destruct (Nat.eqb_spec Wc 0) as [E|E]; cbn [negb].
  - split; [exact Hv|exact Hc].
  - assert (Hs1 : shape (tf_cumsum v 1) = b :: T :: [m; 1]) by exact Hv.
    assert (Hp1 : shape P = b :: T :: repeat 1 (length [m; 1])) by exact HP.
    split.
    + rewrite (shape_WindowedCumSum _ _ _ _ _ _ Hs1 Hp1). exact Hv.
    + intros i j l Hi Hj Hl.
      rewrite (data_WindowedCumSum _ _ _ _ _ _ Hs1 Hp1)
        by (rewrite Hs1; repeat constructor; assumption).
      rewrite HX. cbn [extent nth length repeat].
      unfold win, pad_at. rewrite !Hc; try assumption; [reflexivity|].
      apply Nat.mod_upper_bound. lia.
Qed.


Lemma masked_sum_rank4 (Y : Tensor) :
  shape Y = [b; T; n; g] ->
  shape (tf_reduce_sum (ApplyPadding P Y) [3]) = [b; T; n; 1]
  /\ forall i j l, i < b -> j < T -> l < n ->
       data (tf_reduce_sum (ApplyPadding P Y) [3]) [i; j; l; 0]
       = sum_n g (fun k => if pad_at P i j then 0%Qc else data Y [i; j; l; k]).
Proof.
  intros HY. cbn [tf_reduce_sum fold_right]. unfold reduce_axis. cbn [shape data].
  rewrite shape_ApplyPadding, HY, HP, bshape4, !bdim_same, !bdim_one_l.
  cbn [upd extent nth]. split; [reflexivity|].
  intros i j l Hi Hj Hl. apply sum_n_ext. intros k Hk.
  rewrite data_ApplyPadding, (bget4 P _ _ _ _ _ _ _ _ HP), (bget4 Y _ _ _ _ _ _ _ _ HY).
  rewrite !clampi_one, !clampi_id by assumption. reflexivity.
Qed.

Lemma mask_count_rank4 :
  shape (tf_reduce_sum (ApplyPadding P (tf_ones [])) [3]) = [b; T; 1; 1]
  /\ forall i j l, i < b -> j < T -> l < 1 ->
       data (tf_reduce_sum (ApplyPadding P (tf_ones [])) [3]) [i; j; l; 0] = cell_cnt P i j.
Proof.
  cbn [tf_reduce_sum fold_right]. unfold reduce_axis. cbn [shape data].
  rewrite shape_ApplyPadding. cbn [shape tf_ones tf_fill]. rewrite bshape_nil_r, HP.
  cbn [upd extent nth]. split; [reflexivity|].
  intros i j l Hi Hj Hl. rewrite sum_n_one.
  rewrite data_ApplyPadding, (bget4 P _ _ _ _ _ _ _ _ HP).
  rewrite !clampi_one, !clampi_id by assumption. reflexivity.
Qed.

Lemma ComputeMoments_rank4 :
  shape (fst CM) = [b; T; n; 1] /\ shape (snd CM) = [b; T; n; 1]
  /\ forall i j l, i < b -> j < T -> l < n ->
       data (fst CM) [i; j; l; 0] = batch_mean i l j
       /\ data (snd CM) [i; j; l; 0] = batch_var i l j.
Proof.
  unfold CM, ComputeMoments, cross_replica_sum, tf_reduce_sum_keepdims.
  cbv beta iota zeta. cbn [fst snd].
  rewrite !if_same.
  destruct (masked_sum_rank4 X HX) as [Hs0 Hd0].
  destruct mask_count_rank4 as [Hc0 Hcd0].
  destruct (accumulate_rank4 _ n (fun i l j => cell_sum X P g i l j) Hs0 Hd0) as [Hs1 Hd1].
  destruct (accumulate_rank4 _ 1 (fun i l j => cell_cnt P i j) Hc0 Hcd0) as [Hc1 Hcd1].
  cbv zeta in Hs1, Hd1, Hc1, Hcd1.
  set (sum_v := if negb (Wc =? 0)
                then _WindowedCumSum (tf_cumsum (tf_reduce_sum (ApplyPadding P X) [3]) 1) P _ 1
                else _) in *.
  set (cnt := if negb (Wc =? 0)
              then _WindowedCumSum
                     (tf_cumsum (tf_reduce_sum (ApplyPadding P (tf_ones [])) [3]) 1) P _ 1
              else _) in *.
  assert (Hmm : (Qc_of_nat (prod_list (map (fun a : nat => extent a (shape X)) [3]))
                 / Qc_of_nat (prod_list
                      (map (fun a : nat => extent a (shape (ApplyPadding P (tf_ones [])))) [3])))%Qc
                = (Qc_of_nat (g * 1) / Qc_of_nat (1 * 1))%Qc).
  { rewrite shape_ApplyPadding. cbn [shape tf_ones tf_fill]. rewrite bshape_nil_r, HX, HP.
    reflexivity. }
  rewrite Hmm. clear Hmm.
  set (denom := tf_maximum (tf_mul cnt (tf_scalar _)) (tf_scalar 1%Qc)).
  assert (Hden : shape denom = [b; T; 1; 1]
                 /\ forall i j, i < b -> j < T -> data denom [i; j; 0; 0] = batch_denom i j).
  { unfold denom, tf_maximum, tf_mul. rewrite !shape_map2. cbn [shape tf_scalar tf_fill].
    rewrite !bshape_nil_r. split; [exact Hc1|].
    intros i j Hi Hj. rewrite !data_map2, !bget_scalar.
    rewrite bget_bidx, shape_map2. cbn [shape tf_scalar tf_fill].
    rewrite bshape_nil_r, Hc1, bidx_id by (repeat constructor; assumption).
    rewrite data_map2, bget_scalar, bget_in_range
      by (rewrite Hc1; repeat constructor; assumption).
    rewrite Hcd1 by (assumption || lia). reflexivity. }
  destruct Hden as [Hds Hdd].
  set (mean := tf_div sum_v denom).
  assert (Hmean : shape mean = [b; T; n; 1]
                  /\ forall i j l, i < b -> j < T -> l < n ->
                       data mean [i; j; l; 0] = batch_mean i l j).
  { unfold mean, tf_div. rewrite shape_map2, Hs1, Hds, bshape4, !bdim_same, bdim_one_r.
    split; [reflexivity|]. intros i j l Hi Hj Hl.
    rewrite data_map2, (bget4 sum_v _ _ _ _ _ _ _ _ Hs1), (bget4 denom _ _ _ _ _ _ _ _ Hds).
    rewrite !clampi_one, !clampi_id by assumption.
    rewrite Hd1, Hdd by assumption. reflexivity. }
  destruct Hmean as [Hms Hmd].
  split; [exact Hms|].
  set (sqd := tf_squared_difference X mean).
  assert (Hsq : shape sqd = [b; T; n; g]).
  { unfold sqd, tf_squared_difference.
    rewrite shape_map2, HX, Hms, bshape4, !bdim_same, bdim_one_r. reflexivity. }
  destruct (masked_sum_rank4 sqd Hsq) as [Hv0 Hvd0].
  assert (Hvd0' : forall i j l, i < b -> j < T -> l < n ->
            data (tf_reduce_sum (ApplyPadding P sqd) [3]) [i; j; l; 0] = batch_sq i l j).
  { intros i j l Hi Hj Hl. rewrite Hvd0 by assumption. unfold batch_sq.
    apply sum_n_ext. intros k Hk. destruct (pad_at P i j); [reflexivity|].
    unfold sqd, tf_squared_difference.
    rewrite data_map2, (bget4 X _ _ _ _ _ _ _ _ HX), (bget4 mean _ _ _ _ _ _ _ _ Hms).
    rewrite !clampi_one, !clampi_id by assumption.
    rewrite Hmd by assumption. reflexivity. }
  destruct (accumulate_rank4 _ n batch_sq Hv0 Hvd0') as [Hv1 Hvd1].
  cbv zeta in Hv1, Hvd1.
  set (sum_vv := if negb (Wc =? 0)
                 then _WindowedCumSum (tf_cumsum (tf_reduce_sum (ApplyPadding P sqd) [3]) 1) P _ 1
                 else _) in *.
  assert (Hvar : shape (tf_div sum_vv denom) = [b; T; n; 1]
                 /\ forall i j l, i < b -> j < T -> l < n ->
                      data (tf_div sum_vv denom) [i; j; l; 0] = batch_var i l j).
  { unfold tf_div. rewrite shape_map2, Hv1, Hds, bshape4, !bdim_same, bdim_one_r.
    split; [reflexivity|]. intros i j l Hi Hj Hl.
    rewrite data_map2, (bget4 sum_vv _ _ _ _ _ _ _ _ Hv1), (bget4 denom _ _ _ _ _ _ _ _ Hds).
    rewrite !clampi_one, !clampi_id by assumption.
    rewrite Hvd1, Hdd by assumption. reflexivity. }
  destruct Hvar as [Hvs Hvd].
  split; [exact Hvs|]. intros i j l Hi Hj Hl. split; [apply Hmd|apply Hvd]; assumption.
Qed.

End BatchRank4.

Lemma data_cast_float x dt idx : dt <> int32 -> data (tf_cast x dt) idx = data x idx.
Proof. intros H. destruct dt; try reflexivity. congruence. Qed.

Lemma data_cast_nat x dt idx m :
  data x idx = Qc_of_nat m -> data (tf_cast x dt) idx = Qc_of_nat m.
Proof. intros H. destruct dt; cbn [tf_cast data]; rewrite H; auto using trunc_of_nat. Qed.

Lemma bget_cast_scalar_nat m dt idx : bget (tf_cast (tf_scalar (Qc_of_nat m)) dt) idx = Qc_of_nat m.
Proof. unfold bget. apply data_cast_nat. reflexivity. Qed.

Lemma shape_slice_axis1 x d0 T rest lo hi :
  shape x = d0 :: T :: rest -> lo <= hi -> hi <= T ->
  shape (slice_axis 1 lo hi x) = d0 :: (hi - lo) :: rest.
Proof.
  intros H H1 H2. unfold slice_axis. cbn [shape]. rewrite H. cbn [extent nth upd].
  rewrite !Nat.min_l by lia. reflexivity.
Qed.

Lemma data_slice_axis1 x d0 T rest lo hi i j r :
  shape x = d0 :: T :: rest -> lo <= T ->
  data (slice_axis 1 lo hi x) (i :: j :: r) = data x (i :: lo + j :: r).
Proof.
  intros H H1. unfold slice_axis. cbn [data]. rewrite H. cbn [extent nth upd ix].
  rewrite Nat.min_l by lia. reflexivity.
Qed.

Section StreamRank4.
Variables (Xc Pc : Tensor) (st : Cached) (b t n g : nat).
Hypothesis HX : shape Xc = [b; t; n; g].
Hypothesis HP : shape Pc = [b; t; 1; 1].
Hypothesis Hcs : shape (cached_sum st) = [b; 1; n; 1].
Hypothesis Hcc : shape (cached_count st) = [b; 1; 1; 1].
Hypothesis Hcv : shape (cached_var st) = [b; 1; n; 1].
Hypothesis Ht : 0 < t.

Definition stream_sum (i l j : nat) : Qc :=
  (sum_n (S j) (cell_sum Xc Pc g i l) + data (cached_sum st) [i; 0; l; 0]%nat)%Qc.

Definition stream_count (i j : nat) : Qc :=
  (sum_n (S j) (fun s => if pad_at Pc i s then 0 else Qc_of_nat g)
   + data (cached_count st) [i; 0; 0; 0]%nat)%Qc.

Definition stream_mean (i l j : nat) : Qc :=
  (stream_sum i l j / Qcmax (stream_count i j) 1)%Qc.

Definition stream_sq (i l s : nat) : Qc :=
  sum_n g (fun k => if pad_at Pc i s then 0%Qc
                    else sqr (data Xc [i; s; l; k] - stream_mean i l s)%Qc).

Definition stream_sqsum (i l j : nat) : Qc :=
  (sum_n (S j) (stream_sq i l) + data (cached_var st) [i; 0; l; 0]%nat)%Qc.

Definition stream_var (i l j : nat) : Qc :=
  (stream_sqsum i l j / Qcmax (stream_count i j) 1)%Qc.

(** [cumsum(x, axis=1) + cached] on a tensor [[b, t, m, 1]]. *)
Lemma carry_rank4 (v c : Tensor) (m : nat) (f : nat -> nat -> nat -> Qc) :
  shape v = [b; t; m; 1] -> shape c = [b; 1; m; 1] ->
  (forall i j l, i < b -> j < t -> l < m -> data v [i; j; l; 0] = f i l j) ->
  shape (tf_add (tf_cumsum v 1) c) = [b; t; m; 1]
  /\ forall i j l, i < b -> j < t -> l < m ->
       data (tf_add (tf_cumsum v 1) c) [i; j; l; 0]
       = (sum_n (S j) (f i l) + data c [i; 0; l; 0]%nat)%Qc.
Proof.
  intros Hv Hc Hd. unfold tf_add. rewrite shape_map2. cbn [shape tf_cumsum].
  rewrite Hv, Hc, bshape4, !bdim_same, bdim_one_r. split; [reflexivity|].
  intros i j l Hi Hj Hl.
  rewrite data_map2, (bget4 _ b t m 1), (bget4 c _ _ _ _ _ _ _ _ Hc) by exact Hv.
  rewrite !clampi_one, !clampi_id by assumption.
  unfold tf_cumsum. cbn [data ix nth upd]. f_equal.
  apply sum_n_ext. intros s Hs. apply Hd; lia.
Qed.

Lemma last_step_rank4 (v : Tensor) (m : nat) :
  shape v = [b; t; m; 1] ->
  shape (slice_axis 1 (t - 1) t v) = [b; 1; m; 1]
  /\ forall i l, data (slice_axis 1 (t - 1) t v) [i; 0; l; 0] = data v [i; t - 1; l; 0].
Proof.
  intros Hv. split.
  - rewrite (shape_slice_axis1 _ _ _ _ _ _ Hv) by lia. f_equal. f_equal. lia.
  - intros i l. rewrite (data_slice_axis1 _ _ _ _ _ _ _ _ _ Hv) by lia.
    rewrite Nat.add_0_r. reflexivity.
Qed.

Lemma StreamMoments_rank4 :
  exists mean var st',
    _StreamMoments Xc (Some Pc) st = Ok (mean, var, st')
    /\ shape mean = [b; t; n; 1] /\ shape var = [b; t; n; 1]
    /\ (forall i j l, i < b -> j < t -> l < n ->
          data mean [i; j; l; 0] = stream_mean i l j
          /\ data var [i; j; l; 0] = stream_var i l j)
    /\ shape (cached_sum st') = [b; 1; n; 1]
    /\ shape (cached_count st') = [b; 1; 1; 1]
    /\ shape (cached_var st') = [b; 1; n; 1]
    /\ (forall i l, i < b -> l < n ->
          data (cached_sum st') [i; 0; l; 0] = stream_sum i l (t - 1)
          /\ data (cached_var st') [i; 0; l; 0] = stream_sqsum i l (t - 1))
    /\ (forall i, i < b -> data (cached_count st') [i; 0; 0; 0] = stream_count i (t - 1)).
Proof.
  unfold _StreamMoments. rewrite HX. cbn [length Nat.eqb orb assert bind negb extent nth].
  cbv beta iota zeta.
  destruct (masked_sum_rank4 Pc b t n g HP Xc HX) as [Hs0 Hd0].
  destruct (carry_rank4 _ (cached_sum st) n (cell_sum Xc Pc g) Hs0 Hcs Hd0) as [Hs1 Hd1].
  set (sum_v := tf_add (tf_cumsum (tf_reduce_sum (ApplyPadding Pc Xc) [3]) 1) (cached_sum st)) in *.
  assert (Hc0 : shape (tf_reduce_sum
                         (ApplyPadding Pc (tf_cast (tf_scalar (Qc_of_nat g)) (dtype Xc))) [3])
                = [b; t; 1; 1]
                /\ forall i j l, i < b -> j < t -> l < 1 ->
                     data (tf_reduce_sum
                             (ApplyPadding Pc (tf_cast (tf_scalar (Qc_of_nat g)) (dtype Xc)))
                             [3]) [i; j; l; 0]
                     = (fun i (_ : nat) s => if pad_at Pc i s then 0%Qc else Qc_of_nat g) i l j).
  { cbn [tf_reduce_sum fold_right]. unfold reduce_axis. cbn [shape data].
    rewrite shape_ApplyPadding. cbn [shape tf_cast tf_scalar tf_fill].
    rewrite bshape_nil_r, HP. cbn [upd extent nth]. split; [reflexivity|].
    intros i j l Hi Hj Hl. rewrite sum_n_one.
    rewrite data_ApplyPadding, (bget4 Pc _ _ _ _ _ _ _ _ HP), bget_cast_scalar_nat.
    rewrite !clampi_one, !clampi_id by assumption. reflexivity. }
  destruct Hc0 as [Hc0 Hcd0].
  destruct (carry_rank4 _ (cached_count st) 1 _ Hc0 Hcc Hcd0) as [Hc1 Hcd1].
  set (count_v := tf_add (tf_cumsum (tf_reduce_sum (ApplyPadding Pc _) [3]) 1)
                         (cached_count st)) in *.
  set (denom := tf_maximum count_v (tf_scalar 1%Qc)).
  assert (Hden : shape denom = [b; t; 1; 1]
                 /\ forall i j, i < b -> j < t ->
                      data denom [i; j; 0; 0] = Qcmax (stream_count i j) 1%Qc).
  { unfold denom, tf_maximum. rewrite shape_map2. cbn [shape tf_scalar tf_fill].
    rewrite bshape_nil_r. split; [exact Hc1|].
    intros i j Hi Hj. rewrite data_map2, bget_scalar, bget_in_range
      by (rewrite Hc1; repeat constructor; assumption).
    rewrite Hcd1 by (assumption || lia). reflexivity. }
  destruct Hden as [Hds Hdd].
  set (mean := tf_div sum_v denom).
  assert (Hmean : shape mean = [b; t; n; 1]
                  /\ forall i j l, i < b -> j < t -> l < n ->
                       data mean [i; j; l; 0] = stream_mean i l j).
  { unfold mean, tf_div. rewrite shape_map2, Hs1, Hds, bshape4, !bdim_same, bdim_one_r.
    split; [reflexivity|]. intros i j l Hi Hj Hl.
    rewrite data_map2, (bget4 sum_v _ _ _ _ _ _ _ _ Hs1), (bget4 denom _ _ _ _ _ _ _ _ Hds).
    rewrite !clampi_one, !clampi_id by assumption.
    rewrite Hd1, Hdd by assumption. reflexivity. }
  destruct Hmean as [Hms Hmd].
  set (sqd := tf_squared_difference Xc mean).
  assert (Hsq : shape sqd = [b; t; n; g]).
  { unfold sqd, tf_squared_difference.
    rewrite shape_map2, HX, Hms, bshape4, !bdim_same, bdim_one_r. reflexivity. }
  destruct (masked_sum_rank4 Pc b t n g HP sqd Hsq) as [Hv0 Hvd0].
  assert (Hvd0' : forall i j l, i < b -> j < t -> l < n ->
            data (tf_reduce_sum (ApplyPadding Pc sqd) [3]) [i; j; l; 0] = stream_sq i l j).
  { intros i j l Hi Hj Hl. rewrite Hvd0 by assumption. unfold stream_sq.
    apply sum_n_ext. intros k Hk. destruct (pad_at Pc i j); [reflexivity|].
    unfold sqd, tf_squared_difference.
    rewrite data_map2, (bget4 Xc _ _ _ _ _ _ _ _ HX), (bget4 mean _ _ _ _ _ _ _ _ Hms).
    rewrite !clampi_one, !clampi_id by assumption.
    rewrite Hmd by assumption. reflexivity. }
  destruct (carry_rank4 _ (cached_var st) n stream_sq Hv0 Hcv Hvd0') as [Hv1 Hvd1].
  set (sum_vv := tf_add (tf_cumsum (tf_reduce_sum (ApplyPadding Pc sqd) [3]) 1)
                        (cached_var st)) in *.
  destruct (last_step_rank4 sum_v n Hs1) as [Hn1 Hn2].
  destruct (last_step_rank4 count_v 1 Hc1) as [Hn3 Hn4].
  destruct (last_step_rank4 sum_vv n Hv1) as [Hn5 Hn6].
  eexists _, _, _. split; [reflexivity|]. cbn [cached_sum cached_count cached_var].
  split; [exact Hms|].
  split.
  { unfold tf_div. rewrite shape_map2, Hv1, Hds, bshape4, !bdim_same, bdim_one_r.
    reflexivity. }
  split.
  { intros i j l Hi Hj Hl. split; [apply Hmd; assumption|].
    unfold tf_div.
    rewrite data_map2, (bget4 sum_vv _ _ _ _ _ _ _ _ Hv1), (bget4 denom _ _ _ _ _ _ _ _ Hds).
    rewrite !clampi_one, !clampi_id by assumption.
    rewrite Hvd1, Hdd by assumption. reflexivity. }
  split; [exact Hn1|]. split; [exact Hn3|]. split; [exact Hn5|].
  split.
  - intros i l Hi Hl. rewrite Hn2, Hn6, Hd1, Hvd1 by (assumption || lia).
    split; reflexivity.
  - intros i Hi. rewrite Hn4, Hcd1 by (assumption || lia). reflexivity.
Qed.
End StreamRank4.

(** ** Streaming in chunks against the batch estimator *)

(** Feeding the chunks of [X] (lengths [chunks], from step [off] on)
    through [_StreamMoments]; the per-chunk means and variances. *)
Fixpoint stream_chunks (X P : Tensor) (off : nat) (chunks : list nat) (st : Cached)
  : Result (list (Tensor * Tensor)) :=
  match chunks with
  | [] => Ok []
  | t :: rest =>
      r <- _StreamMoments (slice_axis 1 off (off + t) X)
                          (Some (slice_axis 1 off (off + t) P)) st ;;
      let '(mean, var, st') := r in
      outs <- stream_chunks X P (off + t) rest st' ;;
      Ok ((mean, var) :: outs)
  end.

(** The batch result cut at the same chunk boundaries. *)
Fixpoint batch_chunks (M V : Tensor) (off : nat) (chunks : list nat)
  : list (Tensor * Tensor) :=
  match chunks with
  | [] => []
  | t :: rest =>
      (slice_axis 1 off (off + t) M, slice_axis 1 off (off + t) V)
        :: batch_chunks M V (off + t) rest
  end.

Definition same_moments (o e : Tensor * Tensor) : Prop :=
  teq (fst o) (fst e) /\ teq (snd o) (snd e).

Lemma sum_n_scale n (c : nat -> bool) (G : Qc) :
  sum_n n (fun s => if c s then 0%Qc else G)
  = (sum_n n (fun s => if c s then 0%Qc else 1%Qc) * G)%Qc.
Proof.
  induction n as [|n IH]; cbn [sum_n]; [ring|]. rewrite IH.
  destruct (c n); ring.
Qed.

Lemma mask_multiplier_rank4 g : (Qc_of_nat (g * 1) / Qc_of_nat (1 * 1))%Qc = Qc_of_nat g.
Proof.
  rewrite Nat.mul_1_r. cbn [Nat.mul Nat.add]. rewrite Qc_of_nat_1. field.
  intros H. discriminate H.
Qed.

Section UnwindowedEquivalence.
Variables (use_tpu crs : bool) (X P : Tensor) (b T n g : nat).
Hypothesis HX : shape X = [b; T; n; g].
Hypothesis HP : shape P = [b; T; 1; 1].

Let CM := ComputeMoments use_tpu X P [3] (Some 1) crs true 0.

Definition count_g (i s : nat) : Qc := if pad_at P i s then 0%Qc else Qc_of_nat g.

(** The state after the first [off] steps holds the running sums of the
    batch estimator. *)
Definition carries (off : nat) (st : Cached) : Prop :=
  shape (cached_sum st) = [b; 1; n; 1]
  /\ shape (cached_count st) = [b; 1; 1; 1]
  /\ shape (cached_var st) = [b; 1; n; 1]
  /\ (forall i l, i < b -> l < n ->
        data (cached_sum st) [i; 0; l; 0] = sum_n off (cell_sum X P g i l)
        /\ data (cached_var st) [i; 0; l; 0] = sum_n off (batch_sq X P T g 0 i l))
  /\ (forall i, i < b -> data (cached_count st) [i; 0; 0; 0] = sum_n off (count_g i)).

Section Step.
Variables (off t : nat) (st : Cached).
Hypothesis Ht : 0 < t.
Hypothesis Hoff : off + t <= T.
Hypothesis Hst : carries off st.

Let Xc := slice_axis 1 off (off + t) X.
Let Pc := slice_axis 1 off (off + t) P.

Lemma shape_Xc : shape Xc = [b; t; n; g].
Proof.
  unfold Xc. rewrite (shape_slice_axis1 _ _ _ _ _ _ HX) by lia.
  f_equal. f_equal. lia.
Qed.

Lemma shape_Pc : shape Pc = [b; t; 1; 1].
Proof.
  unfold Pc. rewrite (shape_slice_axis1 _ _ _ _ _ _ HP) by lia.
  f_equal. f_equal. lia.
Qed.

Lemma pad_at_chunk i s : pad_at Pc i s = pad_at P i (off + s).
Proof.
  unfold pad_at, Pc. rewrite (data_slice_axis1 _ _ _ _ _ _ _ _ _ HP) by lia. reflexivity.
Qed.

Lemma cell_sum_chunk i l s : cell_sum Xc Pc g i l s = cell_sum X P g i l (off + s).
Proof.
  unfold cell_sum. rewrite pad_at_chunk. apply sum_n_ext. intros k _.
  unfold Xc. rewrite (data_slice_axis1 _ _ _ _ _ _ _ _ _ HX) by lia. reflexivity.
Qed.

Lemma stream_sum_chunk i l j : i < b -> l < n ->
  stream_sum Xc Pc st g i l j = sum_n (off + S j) (cell_sum X P g i l).
Proof.
  intros Hi Hl. destruct Hst as (_ & _ & _ & Hd & _).
  unfold stream_sum. rewrite (proj1 (Hd i l Hi Hl)), sum_n_app.
  rewrite Qcplus_comm. f_equal. apply sum_n_ext. intros s _. apply cell_sum_chunk.
Qed.

Lemma stream_count_chunk i j : i < b ->
  stream_count Pc st g i j = sum_n (off + S j) (count_g i).
Proof.
  intros Hi. destruct Hst as (_ & _ & _ & _ & Hd).
  unfold stream_count. rewrite (Hd i Hi), sum_n_app.
  rewrite Qcplus_comm. f_equal. apply sum_n_ext. intros s _.
  unfold count_g. rewrite pad_at_chunk. reflexivity.
Qed.

Lemma batch_denom_unwindowed i q :
  batch_denom P T g 0 i q = Qcmax (sum_n (S q) (count_g i)) 1%Qc.
Proof.
  unfold batch_denom, acc, count_g, cell_cnt. cbn [Nat.eqb].
  rewrite mask_multiplier_rank4, <- sum_n_scale. reflexivity.
Qed.

Lemma stream_mean_chunk i l j : i < b -> l < n ->
  stream_mean Xc Pc st g i l j = batch_mean X P T g 0 i l (off + j).
Proof.
  intros Hi Hl. unfold stream_mean, batch_mean.
  rewrite stream_sum_chunk, stream_count_chunk, batch_denom_unwindowed by assumption.
  unfold acc. cbn [Nat.eqb]. rewrite Nat.add_succ_r. reflexivity.
Qed.

Lemma stream_sq_chunk i l s : i < b -> l < n ->
  stream_sq Xc Pc st g i l s = batch_sq X P T g 0 i l (off + s).
Proof.
  intros Hi Hl. unfold stream_sq, batch_sq. rewrite pad_at_chunk.
  apply sum_n_ext. intros k _. rewrite stream_mean_chunk by assumption.
  unfold Xc. rewrite (data_slice_axis1 _ _ _ _ _ _ _ _ _ HX) by lia. reflexivity.
Qed.

Lemma stream_sqsum_chunk i l j : i < b -> l < n ->
  stream_sqsum Xc Pc st g i l j = sum_n (off + S j) (batch_sq X P T g 0 i l).
Proof.
  intros Hi Hl. destruct Hst as (_ & _ & _ & Hd & _).
  unfold stream_sqsum. rewrite (proj2 (Hd i l Hi Hl)), sum_n_app.
  rewrite Qcplus_comm. f_equal. apply sum_n_ext. intros s _.
  apply stream_sq_chunk; assumption.
Qed.

Lemma stream_var_chunk i l j : i < b -> l < n ->
  stream_var Xc Pc st g i l j = batch_var X P T g 0 i l (off + j).
Proof.
  intros Hi Hl. unfold stream_var, batch_var.
  rewrite stream_sqsum_chunk, stream_count_chunk, batch_denom_unwindowed by assumption.
  unfold acc. cbn [Nat.eqb]. rewrite Nat.add_succ_r. reflexivity.
Qed.

Lemma stream_step_matches_batch :
  exists mean var st',
    _StreamMoments Xc (Some Pc) st = Ok (mean, var, st')
    /\ same_moments (mean, var)
         (slice_axis 1 off (off + t) (fst CM), slice_axis 1 off (off + t) (snd CM))
    /\ carries (off + t) st'.
Proof.
  destruct Hst as (Hcs & Hcc & Hcv & _).
  destruct (StreamMoments_rank4 Xc Pc st b t n g shape_Xc shape_Pc Hcs Hcc Hcv Ht)
    as (mean & var & st' & E & Hms & Hvs & Hd & Hs1 & Hs2 & Hs3 & Hd1 & Hd2).
  destruct (ComputeMoments_rank4 use_tpu crs X P b T n g 0 HX HP) as (Hbm & Hbv & Hbd).
  fold CM in Hbm, Hbv, Hbd.
  exists mean, var, st'. split; [exact E|]. split.
  - split; cbn [fst snd].
    + split.
      * rewrite Hms, (shape_slice_axis1 _ _ _ _ _ _ Hbm) by lia. f_equal. f_equal. lia.
      * intros idx Hin. rewrite Hms in Hin.
        destruct (InRange4 _ _ _ _ _ Hin) as (i & j & l & k & -> & Hi & Hj & Hl & Hk).
        assert (k = 0) by lia. subst k.
        rewrite (data_slice_axis1 _ _ _ _ _ _ _ _ _ Hbm) by lia.
        rewrite (proj1 (Hd i j l Hi Hj Hl)), (proj1 (Hbd i (off + j) l Hi ltac:(lia) Hl)).
        apply stream_mean_chunk; assumption.
    + split.
      * rewrite Hvs, (shape_slice_axis1 _ _ _ _ _ _ Hbv) by lia. f_equal. f_equal. lia.
      * intros idx Hin. rewrite Hvs in Hin.
        destruct (InRange4 _ _ _ _ _ Hin) as (i & j & l & k & -> & Hi & Hj & Hl & Hk).
        assert (k = 0) by lia. subst k.
        rewrite (data_slice_axis1 _ _ _ _ _ _ _ _ _ Hbv) by lia.
        rewrite (proj2 (Hd i j l Hi Hj Hl)), (proj2 (Hbd i (off + j) l Hi ltac:(lia) Hl)).
        apply stream_var_chunk; assumption.
  - unfold carries. repeat split; try assumption.
    + rewrite (proj1 (Hd1 i l H H0)), stream_sum_chunk by assumption.
      f_equal. lia.
    + rewrite (proj2 (Hd1 i l H H0)), stream_sqsum_chunk by assumption.
      f_equal. lia.
    + intros i Hi. rewrite (Hd2 i Hi), stream_count_chunk by assumption.
      f_equal. lia.
Qed.

End Step.

Lemma stream_chunks_match_batch (chunks : list nat) : forall off st,
  Forall (lt 0) chunks -> off + list_sum chunks <= T -> carries off st ->
  exists outs,
    stream_chunks X P off chunks st = Ok outs
    /\ Forall2 same_moments outs (batch_chunks (fst CM) (snd CM) off chunks).
Proof.
  induction chunks as [|t rest IH]; intros off st Hpos Hsum Hst.
  - exists []. split; [reflexivity|constructor].
  - inversion Hpos as [|? ? Ht Hrest]; subst.
    unfold list_sum in *. cbn [fold_right] in Hsum.
    assert (Hoff : off + t <= T) by lia.
    assert (Hrem : off + t + fold_right Nat.add 0 rest <= T) by lia.
    destruct (stream_step_matches_batch off t st Ht Hoff Hst)
      as (mean & var & st' & E & Hsame & Hst').
    destruct (IH (off + t) st' Hrest Hrem Hst') as (outs & Eouts & Hall).
    exists ((mean, var) :: outs). split.
    + cbn [stream_chunks]. rewrite E. cbn [bind]. rewrite Eouts. reflexivity.
    + cbn [batch_chunks]. constructor; assumption.
Qed.

End UnwindowedEquivalence.

(** ** Closed forms of the windowed streaming estimator on rank-4 inputs *)

Lemma data_reshape_same x s idx :
  shape x = s -> InRange s idx -> data (tf_reshape x s) idx = data x idx.
Proof.
  intros H Hin. apply data_reshape; [rewrite H; exact Hin|rewrite H; reflexivity].
Qed.

Lemma Qcmax_pred c : Qcmax (Qc_of_nat c - 1)%Qc 0%Qc = Qc_of_nat (c - 1).
Proof.
  destruct c as [|c].
  - reflexivity.
  - replace (Qc_of_nat (S c) - 1)%Qc with (Qc_of_nat c).
    + rewrite <- Qc_of_nat_0, Qcmax_of_nat. f_equal. lia.
    + replace (S c) with (c + 1) by lia. rewrite Qc_of_nat_add, Qc_of_nat_1. ring.
Qed.

Lemma unpadded_length_le T p : unpadded_length T p <= T.
Proof.
  induction T as [|T IH]; cbn [unpadded_length]; [lia|].
  destruct (Qcltb 0%Qc (p T)); lia.
Qed.

Lemma unpadded_length_ext T p q :
  (forall k, k < T -> Qcltb 0%Qc (p k) = Qcltb 0%Qc (q k)) ->
  unpadded_length T p = unpadded_length T q.
Proof.
  induction T as [|T IH]; intros H; cbn [unpadded_length]; [reflexivity|].
  rewrite <- (H T) by lia. rewrite IH by (intros; apply H; lia). reflexivity.
Qed.

(** Beyond the unpadded length every step is padded. *)
Lemma unpadded_length_tail T p k :
  unpadded_length T p <= k -> k < T -> Qcltb 0%Qc (p k) = true.
Proof.
  induction T as [|T IH]; intros H1 H2; [lia|]. cbn [unpadded_length] in H1.
  destruct (Qcltb 0%Qc (p T)) eqn:E.
  - destruct (Nat.eq_dec k T) as [->|Hne]; [exact E|]. apply IH; [exact H1|lia].
  - lia.
Qed.

Lemma unpadded_length_prefix T c :
  c <= T -> unpadded_length T (fun k => if k <? c then 0%Qc else 1%Qc) = c.
Proof.
  induction T as [|T IH]; intros H; cbn [unpadded_length]; [lia|].
  destruct (Nat.ltb_spec T c) as [Hlt|Hge].
  - rewrite Qcltb_irrefl. lia.
  - replace (Qcltb 0%Qc 1%Qc) with true by reflexivity. apply IH. lia.
Qed.

(** A mask that is valid before [m], and padded from [m] up to [T], has
    unpadded length [m] if step [m - 1] is valid. *)
Lemma unpadded_length_cut T m p :
  m <= T ->
  (forall k, m <= k -> k < T -> Qcltb 0%Qc (p k) = true) ->
  unpadded_length T p = unpadded_length m p.
Proof.
  intros Hm. induction T as [|T IH]; intros H.
  - replace m with 0 by lia. reflexivity.
  - destruct (Nat.eq_dec m (S T)) as [->|Hne]; [reflexivity|].
    cbn [unpadded_length]. rewrite H by lia. apply IH; [lia|].
    intros k Hk1 Hk2. apply H; lia.
Qed.

Lemma unpadded_length_all_valid m p :
  (forall k, k < m -> Qcltb 0%Qc (p k) = false) -> unpadded_length m p = m.
Proof.
  destruct m as [|m]; intros H; [reflexivity|].
  cbn [unpadded_length]. rewrite H by lia. reflexivity.
Qed.

Section TrimRank4.
Variables (b n L o : nat) (x trim_len keep_len : Tensor) (tr kp : nat -> nat).
Hypothesis Hx : shape x = [b; L; n; 1].
Hypothesis Htr : forall i, i < b -> data trim_len [i] = Qc_of_nat (tr i).
Hypothesis Hkp : forall i, i < b -> data keep_len [i] = Qc_of_nat (kp i).

Lemma TrimFromTheFront_slicing :
  0 < b -> tr 0 + o <= L ->
  shape (_TrimFromTheFront true b n x trim_len keep_len o) = [b; o; n; 1]
  /\ forall i j l, i < b -> j < o -> l < n ->
       data (_TrimFromTheFront true b n x trim_len keep_len o) [i; j; l; 0]
       = data x [i; tr 0 + j; l; 0].
Proof.
  intros Hb Hle. unfold _TrimFromTheFront. cbv beta iota zeta.
  split; [reflexivity|]. intros i j l Hi Hj Hl.
  rewrite (data_cast_nat trim_len int32 [0] (tr 0)) by (apply Htr; exact Hb).
  rewrite Qc_to_nat_of_nat.
  rewrite data_reshape_same.
  - apply (data_slice_axis1 _ _ _ _ _ _ _ _ _ Hx). lia.
  - rewrite (shape_slice_axis1 _ _ _ _ _ _ Hx) by lia. f_equal. f_equal. lia.
  - repeat constructor; assumption.
Qed.

Hypothesis Hsh_tr : shape trim_len = [b].
Hypothesis Hsh_kp : shape keep_len = [b].

Lemma TrimFromTheFront_general :
  (forall i, i < b -> tr i + kp i <= L) -> o <= L ->
  shape (_TrimFromTheFront false b n x trim_len keep_len o) = [b; o; n; 1]
  /\ forall i j l, i < b -> j < o -> l < n ->
       data (_TrimFromTheFront false b n x trim_len keep_len o) [i; j; l; 0]
       = if j <? kp i then data x [i; tr i + j; l; 0] else 0%Qc.
Proof.
  intros Hle Ho. unfold _TrimFromTheFront. cbv beta iota zeta.
  set (trim32 := tf_cast trim_len int32).
  set (keep32 := tf_cast keep_len int32).
  set (total_len := tf_add trim32 keep32).
  assert (Htot : forall i, i < b -> data total_len [i] = Qc_of_nat (tr i + kp i)).
  { intros i Hi. unfold total_len, tf_add. rewrite data_map2.
    unfold bget. cbn [shape tf_cast trim32 keep32]. rewrite Hsh_tr, Hsh_kp.
    cbn [rev app clamp]. rewrite clampi_id by exact Hi.
    unfold trim32, keep32.
    rewrite (data_cast_nat trim_len int32 [i] (tr i)) by (apply Htr; exact Hi).
    rewrite (data_cast_nat keep_len int32 [i] (kp i)) by (apply Hkp; exact Hi).
    symmetry. apply Qc_of_nat_add. }
  rewrite Hx. cbn [extent nth].
  set (rev_x := tf_reverse_sequence x total_len).
  set (tp := tf_reshape (PaddingsFromLengths keep32 L) [b; L; 1; 1]).
  assert (Htp : forall i k, i < b -> k < L ->
            data tp [i; k; 0; 0] = if k <? kp i then 0%Qc else 1%Qc).
  { intros i k Hi Hk. unfold tp.
    rewrite (data_reshape _ _ _ [i; k]).
    - unfold PaddingsFromLengths. cbn [data ix nth]. unfold keep32.
      rewrite (data_cast_nat keep_len int32 [i] (kp i)) by (apply Hkp; exact Hi).
      rewrite Qcltb_of_nat. reflexivity.
    - unfold PaddingsFromLengths, keep32. cbn [shape tf_cast]. rewrite Hsh_kp.
      cbn [extent nth]. repeat constructor; assumption.
    - unfold PaddingsFromLengths, keep32. cbn [shape tf_cast]. rewrite Hsh_kp.
      cbn [extent nth]. apply (ravel_ones [b; L] [i; k] 2). }
  set (trimmed_rev_x := ApplyPadding tp rev_x).
  assert (Hsrev : shape trimmed_rev_x = [b; L; n; 1]).
  { unfold trimmed_rev_x. rewrite shape_ApplyPadding. cbn [shape tp tf_reshape rev_x
      tf_reverse_sequence]. rewrite Hx, bshape4, !bdim_same, !bdim_one_l. reflexivity. }
  assert (Hdrev : forall i k l, i < b -> k < L -> l < n ->
            data trimmed_rev_x [i; k; l; 0]
            = if k <? kp i then data rev_x [i; k; l; 0] else 0%Qc).
  { intros i k l Hi Hk Hl. unfold trimmed_rev_x. rewrite data_ApplyPadding.
    rewrite (bget4 tp b L 1 1) by reflexivity.
    rewrite (bget4 rev_x b L n 1) by exact Hx.
    rewrite !clampi_one, !clampi_id by assumption.
    rewrite Htp by assumption. destruct (k <? kp i); [|reflexivity].
    rewrite Qcltb_irrefl. reflexivity. }
  set (trimmed_x := tf_reverse_sequence trimmed_rev_x keep32).
  assert (Hst : shape trimmed_x = [b; L; n; 1]) by exact Hsrev.
  split.
  { rewrite (shape_slice_axis1 _ _ _ _ _ _ Hst) by lia. f_equal. f_equal. lia. }
  intros i j l Hi Hj Hl.
  rewrite (data_slice_axis1 _ _ _ _ _ _ _ _ _ Hst) by lia. cbn [Nat.add].
  unfold trimmed_x, tf_reverse_sequence at 1. cbn [data ix nth upd]. unfold keep32 at 1 2.
  rewrite (data_cast_nat keep_len int32 [i] (kp i)) by (apply Hkp; exact Hi).
  rewrite Qc_to_nat_of_nat.
  pose proof (Hle i Hi) as Hlei.
  destruct (Nat.ltb_spec j (kp i)) as [Hlt|Hge].
  - rewrite Hdrev by (assumption || lia).
    replace (kp i - 1 - j <? kp i) with true by (symmetry; apply Nat.ltb_lt; lia).
    unfold rev_x, tf_reverse_sequence. cbn [data ix nth upd].
    rewrite Htot by exact Hi. rewrite Qc_to_nat_of_nat.
    replace (kp i - 1 - j <? tr i + kp i) with true by (symmetry; apply Nat.ltb_lt; lia).
    f_equal. f_equal. f_equal. lia.
  - rewrite Hdrev by (assumption || lia).
    replace (j <? kp i) with false by (symmetry; apply Nat.ltb_ge; lia). reflexivity.
Qed.

End TrimRank4.

Lemma unpadded_length_last T p m :
  unpadded_length T p = S m -> Qcltb 0%Qc (p m) = false.
Proof.
  induction T as [|T IH]; cbn [unpadded_length]; [discriminate|].
  destruct (Qcltb 0%Qc (p T)) eqn:E; [exact IH|].
  intros H. injection H as <-. exact E.
Qed.

(** The tensors [_StreamWindowedMoments] derives from the cached count and
    from the paddings of the chunk. *)
Section WindowState.
Variables (b t W : nat) (C P : Tensor) (c : nat -> nat).
Hypothesis HC : shape C = [b; 1; 1; 1].
Hypothesis HP : shape P = [b; t; 1; 1].
Hypothesis HCd : forall i, i < b -> data C [i; 0; 0; 0] = Qc_of_nat (c i).

Let cc1 := tf_squeeze C [1; 2; 3].

Lemma squeezed_count :
  shape cc1 = [b] /\ forall i, i < b -> data cc1 [i] = Qc_of_nat (c i).
Proof.
  unfold cc1, tf_squeeze. rewrite HC. cbn [remove_axes fold_right remove_at].
  split; [reflexivity|]. intros i Hi.
  rewrite (data_reshape _ _ _ [i; 0; 0; 0]).
  - apply HCd. exact Hi.
  - rewrite HC. repeat constructor; assumption.
  - rewrite HC. symmetry. apply (ravel_ones [b] [i] 3).
Qed.

Lemma cached_paddings_rank2 :
  shape (PaddingsFromLengths cc1 W) = [b; W]
  /\ forall i k, i < b ->
       data (PaddingsFromLengths cc1 W) [i; k] = if k <? c i then 0%Qc else 1%Qc.
Proof.
  destruct squeezed_count as [Hs Hd]. unfold PaddingsFromLengths. cbn [shape data].
  rewrite Hs. cbn [extent nth ix]. split; [reflexivity|].
  intros i k Hi. rewrite Hd by exact Hi. rewrite Qcltb_of_nat. reflexivity.
Qed.

Definition last_index_of (cc : Tensor) : Tensor :=
  tf_cast (tf_expand_dims (tf_maximum (tf_sub cc (tf_scalar 1%Qc)) (tf_fill [1] 0%Qc)) 1)
          int32.

Lemma last_index_rank2 :
  forall i, i < b -> data (last_index_of cc1) [i; 0] = Qc_of_nat (c i - 1).
Proof.
  destruct squeezed_count as [Hs Hd]. intros i Hi. unfold last_index_of.
  apply data_cast_nat. unfold tf_expand_dims, tf_maximum, tf_sub.
  rewrite shape_map2, shape_map2. cbn [shape tf_scalar tf_fill].
  rewrite bshape_nil_r, Hs. cbn [bshape rev app bshape_rev insert_at].
  rewrite bdim_one_r.
  rewrite (data_reshape _ _ _ [i]).
  - rewrite data_map2. unfold bget at 2. cbn [shape data tf_fill].
    rewrite bget_bidx, shape_map2. cbn [shape tf_scalar tf_fill].
    rewrite bshape_nil_r, Hs, bidx_id by (repeat constructor; assumption).
    rewrite data_map2, bget_scalar, bget_in_range by (rewrite Hs; repeat constructor; assumption).
    rewrite Hd by exact Hi. apply Qcmax_pred.
  - rewrite shape_map2, shape_map2. cbn [shape tf_scalar tf_fill].
    rewrite bshape_nil_r, Hs. cbn [bshape rev app bshape_rev]. rewrite bdim_one_r.
    repeat constructor; assumption.
  - rewrite shape_map2, shape_map2. cbn [shape tf_scalar tf_fill].
    rewrite bshape_nil_r, Hs. cbn [bshape rev app bshape_rev]. rewrite bdim_one_r.
    apply (ravel_ones [b] [i] 1).
Qed.

Definition chunk_len (i : nat) : nat := unpadded_length t (fun j => data P [i; j; 0; 0]).

Definition lengths_of (paddings : Tensor) : Tensor :=
  tf_cast (LengthsFromPaddings (select_axis 2 0 (select_axis 2 0 paddings))) int32.

Lemma current_input_lengths_rank1 :
  shape (lengths_of P) = [b]
  /\ forall i, i < b -> data (lengths_of P) [i] = Qc_of_nat (chunk_len i).
Proof.
  unfold lengths_of, LengthsFromPaddings, select_axis.
  cbn [shape data tf_cast]. rewrite HP. cbn [remove_at extent nth ix insert_at].
  split; [reflexivity|]. intros i Hi. apply trunc_of_nat.
Qed.

End WindowState.

Lemma shape_concat2_axis1 x y d0 Tx rest d0' Ty rest' :
  shape x = d0 :: Tx :: rest -> shape y = d0' :: Ty :: rest' ->
  shape (concat2 1 x y) = d0 :: (Tx + Ty) :: rest.
Proof. intros Hx Hy. unfold concat2. cbn [shape]. rewrite Hx, Hy. reflexivity. Qed.

Lemma data_concat2_axis1 x y d0 Tx rest i k r :
  shape x = d0 :: Tx :: rest ->
  data (concat2 1 x y) (i :: k :: r)
  = if k <? Tx then data x (i :: k :: r) else data y (i :: k - Tx :: r).
Proof. intros Hx. unfold concat2. cbn [data]. rewrite Hx. reflexivity. Qed.

Lemma cumsum_rank4 v b t m f :
  shape v = [b; t; m; 1] ->
  (forall i j l, i < b -> j < t -> l < m -> data v [i; j; l; 0] = f i l j) ->
  forall i j l, i < b -> j < t -> l < m ->
    data (tf_cumsum v 1) [i; j; l; 0] = sum_n (S j) (f i l).
Proof.
  intros Hv Hd i j l Hi Hj Hl. unfold tf_cumsum. cbn [data ix nth upd].
  apply sum_n_ext. intros s Hs. apply Hd; lia.
Qed.

(** The masked, reduced and accumulated chunk on the rank-4 branch. *)
Lemma masked_cumsum_rank4 (P Y : Tensor) (b t n g : nat) (cellf : nat -> nat -> nat -> Qc) :
  shape P = [b; t; 1; 1] -> shape Y = [b; t; n; g] ->
  (forall i l s, i < b -> l < n -> s < t -> cell_sum Y P g i l s = cellf i l s) ->
  shape (tf_cumsum (tf_reduce_sum (ApplyPadding P Y) [3]) 1) = [b; t; n; 1]
  /\ forall i j l, i < b -> j < t -> l < n ->
       data (tf_cumsum (tf_reduce_sum (ApplyPadding P Y) [3]) 1) [i; j; l; 0]
       = sum_n (S j) (cellf i l).
Proof.
  intros HP HY Hcell.
  destruct (masked_sum_rank4 P b t n g HP Y HY) as [Hs Hd].
  split; [exact Hs|]. apply cumsum_rank4; [exact Hs|].
  intros i j l Hi Hj Hl. rewrite Hd by assumption. apply Hcell; assumption.
Qed.

Section ComputeWindowedCumSumRank4.
Variables (b t n W : nat) (rank5 : bool).
Variables (cc1 li lens Y P K CP : Tensor) (c : nat -> nat).
Variable cellf : nat -> nat -> nat -> Qc.
Hypothesis Hb : 0 < b.
Hypothesis Hcc1 : forall i, i < b -> data cc1 [i] = Qc_of_nat (c i).
Hypothesis Hli : forall i, i < b -> data li [i; 0] = Qc_of_nat (c i - 1).
Hypothesis Hlens_s : shape lens = [b].
Hypothesis Hcc1_s : shape cc1 = [b].
Hypothesis Hlens : forall i, i < b -> data lens [i] = Qc_of_nat (chunk_len t P i).
Hypothesis HP : shape P = [b; t; 1; 1].
Hypothesis HK : shape K = [b; W; n; 1].
Hypothesis HCP : shape CP = [b; W].
Hypothesis HCPd : forall i k, i < b -> data CP [i; k] = if k <? c i then 0%Qc else 1%Qc.
Hypothesis HcW : forall i, i < b -> c i <= W.

(** The chunk [Y], masked, summed over its cells and accumulated along the
    time axis; [cellf] gives the sum of each cell. *)
Let cur0 :=
  let current_input :=
    if rank5 then ApplyPadding (tf_expand_dims P 4) Y else ApplyPadding P Y in
  let current_input := tf_reduce_sum current_input (if rank5 then [2; 4] else [3]) in
  let current_input := if rank5 then tf_squeeze current_input [2] else current_input in
  tf_cumsum current_input 1.

Hypothesis Hcur0 :
  shape cur0 = [b; t; n; 1]
  /\ forall i j l, i < b -> j < t -> l < n ->
       data cur0 [i; j; l; 0] = sum_n (S j) (cellf i l).

Let len := chunk_len t P.

Definition cur_sum (i l j : nat) : Qc :=
  (sum_n (S j) (cellf i l) + data K [i; c i - 1; l; 0]%nat)%Qc.

(** The concatenation of the cached steps with the steps of the chunk. *)
Definition concat_at (i l k : nat) : Qc :=
  if k <? c i then data K [i; k; l; 0] else cur_sum i l (k - c i).

Definition concat_pad_at (i k : nat) : bool :=
  if k <? c i then false else if k - c i <? t then pad_at P i (k - c i) else true.

(** The sliding-window sum at step [j] of the chunk. *)
Definition window_out (i l j : nat) : Qc :=
  if j <? len i then
    (cur_sum i l j
     - (if pad_at P i j || (c i + j <? W)%nat then 0 else concat_at i l (c i + j - W)%nat))%Qc
  else 0%Qc.

Lemma cur0_rank4 :
  shape cur0 = [b; t; n; 1]
  /\ forall i j l, i < b -> j < t -> l < n ->
       data cur0 [i; j; l; 0] = sum_n (S j) (cellf i l).
Proof. exact Hcur0. Qed.

Let P2 := tf_squeeze P [2; 3].

Lemma P2_rank2 :
  shape P2 = [b; t] /\ forall i j, i < b -> j < t -> data P2 [i; j] = data P [i; j; 0; 0].
Proof.
  unfold P2, tf_squeeze. rewrite HP. cbn [remove_axes fold_right remove_at].
  split; [reflexivity|]. intros i j Hi Hj.
  rewrite (data_reshape _ _ _ [i; j; 0; 0]).
  - reflexivity.
  - rewrite HP. repeat constructor; assumption.
  - rewrite HP. symmetry. apply (ravel_ones [b; t] [i; j] 2).
Qed.

Lemma len_le i : len i <= t.
Proof. apply unpadded_length_le. Qed.

Lemma pad_beyond_len i j : len i <= j -> j < t -> pad_at P i j = true.
Proof.
  intros H1 H2. unfold pad_at.
  apply (unpadded_length_tail t (fun j => data P [i; j; 0; 0])); assumption.
Qed.

(** *** The direct-slicing branch *)

Section Slicing.
Hypothesis Hunif : forall i, i < b -> c i = c 0 /\ len i = len 0.

Let last := tf_reshape (select_axis 1 (Qc_to_nat (data li [0; 0])) K) [b; 1; n; 1].
Let cur := tf_add cur0 last.

Lemma cur_slicing :
  shape cur = [b; t; n; 1]
  /\ forall i j l, i < b -> j < t -> l < n -> data cur [i; j; l; 0] = cur_sum i l j.
Proof.
  destruct cur0_rank4 as [Hs Hd]. unfold cur, tf_add. rewrite shape_map2, Hs.
  cbn [shape last tf_reshape]. rewrite bshape4, !bdim_same, bdim_one_r.
  split; [reflexivity|]. intros i j l Hi Hj Hl.
  rewrite data_map2, (bget4 cur0 _ _ _ _ _ _ _ _ Hs), (bget4 last b 1 n 1) by reflexivity.
  rewrite !clampi_one, !clampi_id by assumption.
  rewrite Hd by assumption. unfold cur_sum. f_equal.
  unfold last. rewrite Hli by exact Hb. rewrite Qc_to_nat_of_nat.
  rewrite (data_reshape _ _ _ [i; l; 0]).
  - unfold select_axis. cbn [data insert_at]. rewrite (proj1 (Hunif i Hi)). reflexivity.
  - unfold select_axis. cbn [shape]. rewrite HK. cbn [remove_at].
    repeat constructor; assumption.
  - unfold select_axis. cbn [shape]. rewrite HK. cbn [remove_at].
    cbn [ravel rev app ravel_rev]. lia.
Qed.

Let cc0 := Qc_to_nat (data (tf_cast cc1 int32) [0]).
Let len0 := Qc_to_nat (data lens [0]).

Lemma cc0_eq : cc0 = c 0.
Proof.
  unfold cc0. rewrite (data_cast_nat cc1 int32 [0] (c 0)) by (apply Hcc1; exact Hb).
  apply Qc_to_nat_of_nat.
Qed.

Lemma len0_eq : len0 = len 0.
Proof. unfold len0. rewrite Hlens by exact Hb. apply Qc_to_nat_of_nat. Qed.

Let concat :=
  tf_reshape
    (tf_concat [slice_axis 1 0 cc0 K; slice_axis 1 0 len0 cur;
                tf_cast (tf_zeros [b; W + t - cc0 - len0; n; 1]) (dtype K)] 1)
    [b; W + t; n; 1].

Lemma concat_slicing :
  shape concat = [b; W + t; n; 1]
  /\ forall i k l, i < b -> k < W + t -> l < n ->
       data concat [i; k; l; 0]
       = if k <? c i + len i then concat_at i l k else 0%Qc.
Proof.
  split; [reflexivity|]. intros i k l Hi Hk Hl.
  destruct cur_slicing as [Hcs Hcd].
  pose proof (HcW 0 Hb) as Hc0. pose proof (len_le 0) as Hl0.
  destruct (Hunif i Hi) as [Eci Eli].
  unfold concat. cbn [tf_concat].
  assert (HA : shape (slice_axis 1 0 cc0 K) = [b; c 0; n; 1]).
  { rewrite (shape_slice_axis1 _ _ _ _ _ _ HK), cc0_eq by (rewrite ?cc0_eq; lia).
    f_equal. f_equal. lia. }
  assert (HB : shape (slice_axis 1 0 len0 cur) = [b; len 0; n; 1]).
  { rewrite (shape_slice_axis1 _ _ _ _ _ _ Hcs), len0_eq by (rewrite ?len0_eq; lia).
    f_equal. f_equal. lia. }
  rewrite data_reshape_same.
  - rewrite (data_concat2_axis1 _ _ _ _ _ _ _ _ HA).
    rewrite (data_concat2_axis1 _ _ _ _ _ _ _ _ HB).
    unfold concat_at. rewrite Eci, Eli.
    destruct (Nat.ltb_spec k (c 0)) as [H1|H1].
    + replace (k <? c 0 + len 0) with true by (symmetry; apply Nat.ltb_lt; lia).
      rewrite (data_slice_axis1 _ _ _ _ _ _ _ _ _ HK) by lia. reflexivity.
    + destruct (Nat.ltb_spec (k - c 0) (len 0)) as [H2|H2].
      * replace (k <? c 0 + len 0) with true by (symmetry; apply Nat.ltb_lt; lia).
        rewrite (data_slice_axis1 _ _ _ _ _ _ _ _ _ Hcs) by lia. cbn [Nat.add].
        rewrite Hcd by (assumption || lia). unfold cur_sum. rewrite Eci. reflexivity.
      * replace (k <? c 0 + len 0) with false by (symmetry; apply Nat.ltb_ge; lia).
        destruct (dtype K); reflexivity.
  - assert (HZ : shape (tf_cast (tf_zeros [b; W + t - cc0 - len0; n; 1]) (dtype K))
                 = [b; W + t - cc0 - len0; n; 1]) by reflexivity.
    rewrite (shape_concat2_axis1 _ _ _ _ _ _ _ _ HA
               (shape_concat2_axis1 _ _ _ _ _ _ _ _ HB HZ)).
    rewrite cc0_eq, len0_eq. f_equal. f_equal. lia.
  - repeat constructor; assumption.
Qed.


Let concat_paddings :=
  tf_reshape
    (tf_concat [slice_axis 1 0 cc0 CP; slice_axis 1 0 len0 P2;
                tf_cast (tf_ones [b; W + t - cc0 - len0]) (dtype CP)] 1)
    [b; W + t].

Lemma concat_paddings_slicing :
  shape concat_paddings = [b; W + t]
  /\ forall i k, i < b -> k < W + t ->
       Qcltb 0%Qc (data concat_paddings [i; k]) = concat_pad_at i k.
Proof.
  split; [reflexivity|]. intros i k Hi Hk.
  destruct P2_rank2 as [Hps Hpd].
  pose proof (HcW 0 Hb) as Hc0. pose proof (len_le 0) as Hl0.
  destruct (Hunif i Hi) as [Eci Eli].
  unfold concat_paddings. cbn [tf_concat].
  assert (HA : shape (slice_axis 1 0 cc0 CP) = [b; c 0]).
  { rewrite (shape_slice_axis1 _ _ _ _ _ _ HCP), cc0_eq by (rewrite ?cc0_eq; lia).
    f_equal. f_equal. lia. }
  assert (HB : shape (slice_axis 1 0 len0 P2) = [b; len 0]).
  { rewrite (shape_slice_axis1 _ _ _ _ _ _ Hps), len0_eq by (rewrite ?len0_eq; lia).
    f_equal. f_equal. lia. }
  assert (HZ : shape (tf_cast (tf_ones [b; W + t - cc0 - len0]) (dtype CP))
               = [b; W + t - cc0 - len0]) by reflexivity.
  rewrite data_reshape_same.
  - rewrite (data_concat2_axis1 _ _ _ _ _ _ _ _ HA).
    rewrite (data_concat2_axis1 _ _ _ _ _ _ _ _ HB).
    unfold concat_pad_at. rewrite Eci.
    destruct (Nat.ltb_spec k (c 0)) as [H1|H1].
    + rewrite (data_slice_axis1 _ _ _ _ _ _ _ _ _ HCP) by lia. cbn [Nat.add].
      rewrite HCPd by exact Hi. rewrite Eci.
      replace (k <? c 0) with true by (symmetry; apply Nat.ltb_lt; lia).
      apply Qcltb_irrefl.
    + destruct (Nat.ltb_spec (k - c 0) (len 0)) as [H2|H2].
      * replace (k - c 0 <? t) with true by (symmetry; apply Nat.ltb_lt; lia).
        rewrite (data_slice_axis1 _ _ _ _ _ _ _ _ _ Hps) by lia. cbn [Nat.add].
        rewrite Hpd by (assumption || lia). reflexivity.
      * replace (Qcltb 0%Qc (data (tf_cast (tf_ones [b; W + t - cc0 - len0]) (dtype CP))
                               [i; k - c 0 - len 0])) with true
          by (destruct (dtype CP); reflexivity).
        destruct (Nat.ltb_spec (k - c 0) t) as [H3|H3]; [|reflexivity].
        symmetry. apply pad_beyond_len; [rewrite Eli; exact H2|exact H3].
  - rewrite (shape_concat2_axis1 _ _ _ _ _ _ _ _ HA
               (shape_concat2_axis1 _ _ _ _ _ _ _ _ HB HZ)).
    rewrite cc0_eq, len0_eq. f_equal. f_equal. lia.
  - repeat constructor; assumption.
Qed.

End Slicing.

(** *** The general branch *)

Section General.
Variable tail_fill : Tensor -> Tensor -> Index -> Qc.

Let last := tf_reshape (tf_gather_nd K li) [b; 1; n; 1].
Let cur := tf_add cur0 last.

Lemma cur_general :
  shape cur = [b; t; n; 1]
  /\ forall i j l, i < b -> j < t -> l < n -> data cur [i; j; l; 0] = cur_sum i l j.
Proof.
  destruct cur0_rank4 as [Hs Hd]. unfold cur, tf_add. rewrite shape_map2, Hs.
  cbn [shape last tf_reshape]. rewrite bshape4, !bdim_same, bdim_one_r.
  split; [reflexivity|]. intros i j l Hi Hj Hl.
  rewrite data_map2, (bget4 cur0 _ _ _ _ _ _ _ _ Hs), (bget4 last b 1 n 1) by reflexivity.
  rewrite !clampi_one, !clampi_id by assumption.
  rewrite Hd by assumption. unfold cur_sum. f_equal.
  unfold last.
  rewrite (data_reshape _ _ _ [i; l; 0]).
  - unfold tf_gather_nd. cbn [data insert_at ix nth]. rewrite Hli by exact Hi.
    rewrite Qc_to_nat_of_nat. reflexivity.
  - unfold tf_gather_nd. cbn [shape]. rewrite HK. cbn [remove_at].
    repeat constructor; assumption.
  - unfold tf_gather_nd. cbn [shape]. rewrite HK. cbn [remove_at].
    cbn [ravel rev app ravel_rev]. lia.
Qed.

Lemma cached_length i : i < b ->
  unpadded_length W (fun j => data CP [i; j]) = c i.
Proof.
  intros Hi. rewrite <- (unpadded_length_prefix W (c i)) by (apply HcW; exact Hi).
  apply unpadded_length_ext. intros k _. rewrite HCPd by exact Hi. reflexivity.
Qed.

Let cps := ConcatenatePaddedSequences tail_fill K cur CP P2.

Lemma concat_general :
  shape (fst cps) = [b; W + t; n; 1]
  /\ forall i k l, i < b -> k < c i + len i -> l < n ->
       data (fst cps) [i; k; l; 0] = concat_at i l k.
Proof.
  destruct cur_general as [Hcs Hcd].
  unfold cps, ConcatenatePaddedSequences. cbn [fst shape data].
  rewrite HK, Hcs. cbn [extent nth upd]. split; [reflexivity|].
  intros i k l Hi Hk Hl. unfold LengthsFromPaddings. cbn [data ix nth]. rewrite HCP.
  cbn [extent nth]. rewrite cached_length by exact Hi. rewrite Qc_to_nat_of_nat.
  pose proof (len_le i). unfold concat_at.
  destruct (Nat.ltb_spec k (c i)) as [H1|H1]; [reflexivity|].
  replace (k <? c i + t) with true by (symmetry; apply Nat.ltb_lt; lia).
  apply Hcd; (assumption || lia).
Qed.

Lemma concat_paddings_general :
  shape (snd cps) = [b; W + t]
  /\ forall i k, i < b -> k < W + t ->
       Qcltb 0%Qc (data (snd cps) [i; k]) = concat_pad_at i k.
Proof.
  destruct cur_general as [Hcs Hcd]. destruct P2_rank2 as [Hps Hpd].
  unfold cps, ConcatenatePaddedSequences. cbn [snd shape data].
  rewrite HK, Hcs, HCP. cbn [extent nth upd]. split; [reflexivity|].
  intros i k Hi Hk. unfold LengthsFromPaddings. cbn [data ix nth]. rewrite HCP.
  cbn [extent nth]. rewrite cached_length by exact Hi. rewrite Qc_to_nat_of_nat.
  unfold concat_pad_at.
  destruct (Nat.ltb_spec k (c i)) as [H1|H1].
  - rewrite HCPd by exact Hi.
    replace (k <? c i) with true by (symmetry; apply Nat.ltb_lt; lia).
    apply Qcltb_irrefl.
  - destruct (Nat.ltb_spec k (c i + t)) as [H2|H2].
    + replace (k - c i <? t) with true by (symmetry; apply Nat.ltb_lt; lia).
      rewrite Hpd by (assumption || lia). reflexivity.
    + replace (k - c i <? t) with false by (symmetry; apply Nat.ltb_ge; lia).
      reflexivity.
Qed.

End General.

(** *** Windowing, trimming and the new cache, on either branch *)

Definition new_count (i : nat) : nat := Nat.min (c i + len i) W.

Definition new_cache_at (i l k : nat) : Qc :=
  if k <? new_count i then concat_at i l (c i + len i - new_count i + k) else 0%Qc.

Section Windowing.
Variables (slicing : bool) (concat cpads : Tensor).
Hypothesis Hcat_s : shape concat = [b; W + t; n; 1].
Hypothesis Hcat : forall i k l, i < b -> k < c i + len i -> l < n ->
  data concat [i; k; l; 0] = concat_at i l k.
Hypothesis Hcat0 : slicing = true ->
  forall i k l, i < b -> c i + len i <= k -> k < W + t -> l < n ->
    data concat [i; k; l; 0] = 0%Qc.
Hypothesis Hunif : slicing = true -> forall i, i < b -> c i = c 0 /\ len i = len 0.
Hypothesis Hpd_s : shape cpads = [b; W + t].
Hypothesis Hpd : forall i k, i < b -> k < W + t ->
  Qcltb 0%Qc (data cpads [i; k]) = concat_pad_at i k.

Let cp' := tf_reshape cpads [b; prod_list (shape cpads) / b; 1; 1].

Lemma cp'_rank4 :
  shape cp' = [b; W + t; 1; 1]
  /\ forall i k, i < b -> k < W + t -> data cp' [i; k; 0; 0] = data cpads [i; k].
Proof.
  assert (E : prod_list (shape cpads) / b = W + t).
  { rewrite Hpd_s. cbn [prod_list]. rewrite Nat.mul_1_r, Nat.mul_comm.
    apply Nat.div_mul. lia. }
  unfold cp'. rewrite E. split; [reflexivity|]. intros i k Hi Hk.
  rewrite (data_reshape _ _ _ [i; k]).
  - reflexivity.
  - rewrite Hpd_s. repeat constructor; assumption.
  - rewrite Hpd_s. apply (ravel_ones [b; W + t] [i; k] 2).
Qed.

Let windowed := _WindowedCumSum concat cp' W 1.

Lemma windowed_rank4 :
  shape windowed = [b; W + t; n; 1]
  /\ forall i k l, i < b -> k < W + t -> l < n ->
       data windowed [i; k; l; 0]
       = (data concat [i; k; l; 0]%nat
          - data concat [i; (k + (W + t - W mod (W + t))) mod (W + t); l; 0]%nat
            * (if concat_pad_at i k then 0 else if (k <? W)%nat then 0 else 1))%Qc.
Proof.
  destruct cp'_rank4 as [Hs Hd].
  assert (Hx1 : shape concat = b :: (W + t) :: [n; 1]) by exact Hcat_s.
  assert (Hp1 : shape cp' = b :: (W + t) :: repeat 1 (length [n; 1])) by exact Hs.
  split.
  - unfold windowed. rewrite (shape_WindowedCumSum _ _ _ _ _ _ Hx1 Hp1). exact Hcat_s.
  - intros i k l Hi Hk Hl. unfold windowed.
    rewrite (data_WindowedCumSum _ _ _ _ _ _ Hx1 Hp1)
      by (rewrite Hx1; repeat constructor; assumption).
    cbn [length repeat]. rewrite Hd, Hpd by assumption. reflexivity.
Qed.

Lemma out_rank4 :
  shape (_TrimFromTheFront slicing b n windowed cc1 lens t) = [b; t; n; 1]
  /\ forall i j l, i < b -> j < t -> l < n ->
       data (_TrimFromTheFront slicing b n windowed cc1 lens t) [i; j; l; 0]
       = window_out i l j.
Proof.
  destruct windowed_rank4 as [Hws Hwd].
  assert (Hval : forall i j l, i < b -> j < t -> l < n -> j < len i ->
            data windowed [i; c i + j; l; 0]%nat
            = (cur_sum i l j
               - (if pad_at P i j || (c i + j <? W)%nat then 0
                  else concat_at i l (c i + j - W)%nat))%Qc).
  { intros i j l Hi Hj Hl Hlen. pose proof (HcW i Hi).
    rewrite Hwd by (assumption || lia).
    rewrite Hcat by (assumption || lia).
    unfold concat_at at 1.
    replace (c i + j <? c i) with false by (symmetry; apply Nat.ltb_ge; lia).
    replace (c i + j - c i) with j by lia.
    unfold concat_pad_at.
    replace (c i + j <? c i) with false by (symmetry; apply Nat.ltb_ge; lia).
    replace (c i + j - c i) with j by lia.
    replace (j <? t) with true by (symmetry; apply Nat.ltb_lt; lia).
    destruct (pad_at P i j); cbn [orb]; [ring|].
    destruct (Nat.ltb_spec (c i + j) W) as [H1|H1]; [ring|].
    rewrite roll_back_index by lia.
    rewrite Hcat by (assumption || lia). ring. }
  destruct slicing eqn:Es.
  - destruct (TrimFromTheFront_slicing b n (W + t) t windowed cc1 lens c Hws Hcc1 Hb)
      as [Hos Hod]; [pose proof (HcW 0 Hb); lia|].
    split; [exact Hos|]. intros i j l Hi Hj Hl. rewrite Hod by assumption.
    destruct (Hunif eq_refl i Hi) as [Eci Eli]. rewrite <- Eci.
    unfold window_out. destruct (Nat.ltb_spec j (len i)) as [H1|H1].
    + apply Hval; assumption.
    + pose proof (HcW i Hi). rewrite Hwd by (assumption || lia).
      rewrite (Hcat0 eq_refl) by (assumption || lia).
      unfold concat_pad_at.
      replace (c i + j <? c i) with false by (symmetry; apply Nat.ltb_ge; lia).
      replace (c i + j - c i) with j by lia.
      replace (j <? t) with true by (symmetry; apply Nat.ltb_lt; lia).
      rewrite pad_beyond_len by assumption. ring.
  - destruct (TrimFromTheFront_general b n (W + t) t windowed cc1 lens c len Hws Hcc1 Hlens
                Hcc1_s Hlens_s) as [Hos Hod].
    + intros i Hi. pose proof (HcW i Hi). pose proof (len_le i). lia.
    + lia.
    + split; [exact Hos|]. intros i j l Hi Hj Hl. rewrite Hod by assumption.
      unfold window_out. destruct (Nat.ltb_spec j (len i)) as [H1|H1]; [|reflexivity].
      apply Hval; assumption.
Qed.

Lemma concat_input_length i : i < b ->
  unpadded_length (W + t) (fun k => data cp' [i; k; 0; 0]) = c i + len i.
Proof.
  intros Hi. destruct cp'_rank4 as [_ Hd]. pose proof (HcW i Hi). pose proof (len_le i).
  rewrite (unpadded_length_ext _ _ (fun k => if concat_pad_at i k then 1%Qc else 0%Qc)).
  2:{ intros k Hk. rewrite Hd, Hpd by assumption.
      destruct (concat_pad_at i k); [reflexivity|symmetry; apply Qcltb_irrefl]. }
  rewrite (unpadded_length_cut _ (c i + len i)); [|lia|].
  2:{ intros k H1 H2. unfold concat_pad_at.
      replace (k <? c i) with false by (symmetry; apply Nat.ltb_ge; lia).
      destruct (Nat.ltb_spec (k - c i) t) as [H3|H3]; [|reflexivity].
      rewrite pad_beyond_len by lia. reflexivity. }
  destruct (len i) as [|m] eqn:El.
  - rewrite Nat.add_0_r. apply unpadded_length_all_valid. intros k Hk.
    unfold concat_pad_at.
    replace (k <? c i) with true by (symmetry; apply Nat.ltb_lt; lia).
    apply Qcltb_irrefl.
  - rewrite Nat.add_succ_r. cbn [unpadded_length]. unfold concat_pad_at.
    replace (c i + m <? c i) with false by (symmetry; apply Nat.ltb_ge; lia).
    replace (c i + m - c i) with m by lia.
    replace (m <? t) with true by (symmetry; apply Nat.ltb_lt; lia).
    unfold pad_at. rewrite (unpadded_length_last t _ m El).
    rewrite Qcltb_irrefl. reflexivity.
Qed.

Let input_len :=
  tf_cast (LengthsFromPaddings (select_axis 2 0 (select_axis 2 0 cp'))) float32.
Let ncc := tf_minimum input_len (tf_scalar (Qc_of_nat W)).

Lemma input_len_rank1 :
  shape input_len = [b]
  /\ forall i, i < b -> data input_len [i] = Qc_of_nat (c i + len i).
Proof.
  destruct cp'_rank4 as [Hs _].
  unfold input_len, LengthsFromPaddings, select_axis.
  cbn [shape data tf_cast]. rewrite Hs. cbn [remove_at extent nth ix insert_at].
  split; [reflexivity|]. intros i Hi. rewrite concat_input_length by exact Hi. reflexivity.
Qed.

Lemma ncc_rank1 :
  shape ncc = [b] /\ forall i, i < b -> data ncc [i] = Qc_of_nat (new_count i).
Proof.
  destruct input_len_rank1 as [Hs Hd]. unfold ncc, tf_minimum.
  rewrite shape_map2, Hs. cbn [shape tf_scalar tf_fill]. rewrite bshape_nil_r.
  split; [reflexivity|]. intros i Hi.
  rewrite data_map2, bget_scalar, bget_in_range by (rewrite Hs; repeat constructor; assumption).
  rewrite Hd by exact Hi. apply Qcmin_of_nat.
Qed.

Lemma trim_len_rank1 :
  shape (tf_sub input_len ncc) = [b]
  /\ forall i, i < b ->
       data (tf_sub input_len ncc) [i] = Qc_of_nat (c i + len i - new_count i).
Proof.
  destruct input_len_rank1 as [Hs Hd]. destruct ncc_rank1 as [Hs' Hd'].
  unfold tf_sub. rewrite shape_map2, Hs, Hs'. cbn [bshape rev app bshape_rev].
  rewrite bdim_same. split; [reflexivity|]. intros i Hi.
  rewrite data_map2, !bget_in_range by (rewrite ?Hs, ?Hs'; repeat constructor; assumption).
  rewrite Hd, Hd' by exact Hi. symmetry. apply Qc_of_nat_sub. unfold new_count. lia.
Qed.

Lemma new_cache_rank4 :
  shape (_TrimFromTheFront slicing b n concat (tf_sub input_len ncc) ncc W) = [b; W; n; 1]
  /\ forall i k l, i < b -> k < W -> l < n ->
       data (_TrimFromTheFront slicing b n concat (tf_sub input_len ncc) ncc W) [i; k; l; 0]
       = new_cache_at i l k.
Proof.
  destruct ncc_rank1 as [Hns Hnd]. destruct trim_len_rank1 as [Hts Htd].
  assert (Hbound : forall i, i < b -> c i + len i - new_count i + W <= W + t).
  { intros i Hi. pose proof (HcW i Hi). pose proof (len_le i). unfold new_count. lia. }
  destruct slicing eqn:Es.
  - destruct (TrimFromTheFront_slicing b n (W + t) W concat (tf_sub input_len ncc) ncc
                (fun i => c i + len i - new_count i) Hcat_s Htd Hb (Hbound 0 Hb))
      as [Hos Hod].
    split; [exact Hos|]. intros i k l Hi Hk Hl. rewrite Hod by assumption.
    destruct (Hunif eq_refl i Hi) as [Eci Eli].
    assert (En : new_count i = new_count 0) by (unfold new_count; rewrite Eci, Eli; reflexivity).
    rewrite <- Eci, <- Eli, <- En. unfold new_cache_at.
    pose proof (HcW i Hi). pose proof (len_le i).
    destruct (Nat.ltb_spec k (new_count i)) as [H1|H1].
    + apply Hcat; (assumption || (unfold new_count in *; lia)).
    + apply (Hcat0 eq_refl); (assumption || (unfold new_count in *; lia)).
  - destruct (TrimFromTheFront_general b n (W + t) W concat (tf_sub input_len ncc) ncc
                (fun i => c i + len i - new_count i) new_count Hcat_s Htd Hnd Hts Hns)
      as [Hos Hod].
    + intros i Hi. pose proof (HcW i Hi). pose proof (len_le i). unfold new_count. lia.
    + lia.
    + split; [exact Hos|]. intros i k l Hi Hk Hl. rewrite Hod by assumption.
      unfold new_cache_at.
      destruct (Nat.ltb_spec k (new_count i)) as [H1|H1]; [|reflexivity].
      pose proof (HcW i Hi). pose proof (len_le i).
      apply Hcat; (assumption || (unfold new_count in *; lia)).
Qed.

Lemma new_count_rank4 :
  shape (tf_reshape ncc [b; 1; 1; 1]) = [b; 1; 1; 1]
  /\ forall i, i < b ->
       data (tf_reshape ncc [b; 1; 1; 1]) [i; 0; 0; 0] = Qc_of_nat (new_count i).
Proof.
  destruct ncc_rank1 as [Hns Hnd]. split; [reflexivity|]. intros i Hi.
  rewrite (data_reshape _ _ _ [i]).
  - apply Hnd. exact Hi.
  - rewrite Hns. repeat constructor; assumption.
  - rewrite Hns. apply (ravel_ones [b] [i] 3).
Qed.

End Windowing.

(** *** The helper as a whole *)

Lemma ComputeWindowedCumSum_rank4 tail_fill (slicing : bool) :
  (slicing = true -> forall i, i < b -> c i = c 0 /\ len i = len 0) ->
  exists cumsum concat cpads,
    _ComputeWindowedCumSum tail_fill slicing rank5 b t n W cc1 li lens Y P K CP
    = (cumsum, concat, tf_reshape cpads [b; prod_list (shape cpads) / b; 1; 1])
    /\ shape cumsum = [b; t; n; 1]
    /\ (forall i j l, i < b -> j < t -> l < n ->
          data cumsum [i; j; l; 0] = window_out i l j)
    /\ shape concat = [b; W + t; n; 1]
    /\ (forall i k l, i < b -> k < c i + len i -> l < n ->
          data concat [i; k; l; 0] = concat_at i l k)
    /\ (slicing = true ->
        forall i k l, i < b -> c i + len i <= k -> k < W + t -> l < n ->
          data concat [i; k; l; 0] = 0%Qc)
    /\ shape cpads = [b; W + t]
    /\ (forall i k, i < b -> k < W + t ->
          Qcltb 0%Qc (data cpads [i; k]) = concat_pad_at i k).
Proof.
  intros Hunif.
  assert (Hparts : exists concat cpads,
            _ComputeWindowedCumSum tail_fill slicing rank5 b t n W cc1 li lens Y P K CP
            = (_TrimFromTheFront slicing b n
                 (_WindowedCumSum concat
                    (tf_reshape cpads [b; prod_list (shape cpads) / b; 1; 1]) W 1)
                 cc1 lens t,
               concat, tf_reshape cpads [b; prod_list (shape cpads) / b; 1; 1])
            /\ shape concat = [b; W + t; n; 1]
            /\ (forall i k l, i < b -> k < c i + len i -> l < n ->
                  data concat [i; k; l; 0] = concat_at i l k)
            /\ (slicing = true ->
                forall i k l, i < b -> c i + len i <= k -> k < W + t -> l < n ->
                  data concat [i; k; l; 0] = 0%Qc)
            /\ shape cpads = [b; W + t]
            /\ (forall i k, i < b -> k < W + t ->
                  Qcltb 0%Qc (data cpads [i; k]) = concat_pad_at i k)).
  { unfold _ComputeWindowedCumSum. destruct slicing.
    - cbv beta iota zeta.
      pose proof (concat_slicing (Hunif eq_refl)) as [H1 H2].
      pose proof (concat_paddings_slicing (Hunif eq_refl)) as [H3 H4].
      eexists _, _. split; [reflexivity|]. split; [exact H1|].
      split.
      { intros i k l Hi Hk Hl. pose proof (HcW i Hi). pose proof (len_le i).
        rewrite H2 by (assumption || lia).
        replace (k <? c i + len i) with true by (symmetry; apply Nat.ltb_lt; lia).
        reflexivity. }
      split.
      { intros _ i k l Hi Hk1 Hk2 Hl. rewrite H2 by assumption.
        replace (k <? c i + len i) with false by (symmetry; apply Nat.ltb_ge; lia).
        reflexivity. }
      split; [exact H3|exact H4].
    - cbv beta iota zeta.
      pose proof (concat_general tail_fill) as [H1 H2].
      pose proof (concat_paddings_general tail_fill) as [H3 H4].
      destruct (ConcatenatePaddedSequences tail_fill K _ CP _) as [cg pg].
      cbn [fst snd] in *.
      exists cg, pg. split; [reflexivity|]. split; [exact H1|]. split; [exact H2|].
      split; [discriminate|]. split; [exact H3|exact H4]. }
  destruct Hparts as (concat & cpads & Er & Hcs & Hcd & Hc0 & Hps & Hpd).
  destruct (out_rank4 slicing concat cpads Hcs Hcd Hc0 Hunif Hps Hpd) as [Ho1 Ho2].
  eexists _, concat, cpads. split; [exact Er|].
  repeat split; assumption.
Qed.

End ComputeWindowedCumSumRank4.

(** ** One step of the windowed streaming estimator *)

Lemma bget_cast_scalar_one dt idx : bget (tf_cast (tf_scalar 1%Qc) dt) idx = 1%Qc.
Proof.
  rewrite <- Qc_of_nat_1. apply bget_cast_scalar_nat.
Qed.

Section WindowedStepRank4.
Variable tail_fill : Tensor -> Tensor -> Index -> Qc.
Variables (slicing : bool) (p : Params) (X P : Tensor) (st : CachedWindow).
Variables (b t n g W : nat) (c : nat -> nat).
Hypothesis HX : shape X = [b; t; n; g].
Hypothesis HP : shape P = [b; t; 1; 1].
Hypothesis HKs : shape (cached_sums st) = [b; W; n; 1].
Hypothesis HKv : shape (cached_vars st) = [b; W; n; 1].
Hypothesis HC : shape (cached_count_w st) = [b; 1; 1; 1].
Hypothesis HCd : forall i, i < b -> data (cached_count_w st) [i; 0; 0; 0] = Qc_of_nat (c i).
Hypothesis HcW : forall i, i < b -> c i <= W.
Hypothesis Hb : 0 < b.
Hypothesis HW : Z.to_nat (p_window_size p) = W.
Hypothesis Hunif :
  slicing = true -> forall i, i < b -> c i = c 0 /\ chunk_len t P i = chunk_len t P 0.

Definition w_count (i j : nat) : Qc :=
  Qcmin (sum_n (S j) (cell_cnt P i) + Qc_of_nat (c i))%Qc (Qc_of_nat W).

Definition w_denom (i j : nat) : Qc := Qcmax (w_count i j * Qc_of_nat g)%Qc 1%Qc.

Definition w_mean (i l j : nat) : Qc :=
  (window_out t W P (cached_sums st) c (cell_sum X P g) i l j / w_denom i j)%Qc.

Definition w_sq (i l s : nat) : Qc :=
  sum_n g (fun k => if pad_at P i s then 0%Qc
                    else sqr (data X [i; s; l; k] - w_mean i l s)%Qc).

Definition w_var (i l j : nat) : Qc :=
  (window_out t W P (cached_vars st) c w_sq i l j / w_denom i j)%Qc.

Let cc1 := tf_squeeze (cached_count_w st) [1; 2; 3].

Lemma GetUpdatedCount_rank4 dt :
  shape (_GetUpdatedCount dt b W cc1 P) = [b; t; 1; 1]
  /\ forall i j, i < b -> j < t ->
       data (_GetUpdatedCount dt b W cc1 P) [i; j; 0; 0] = w_count i j.
Proof.
  destruct (squeezed_count b _ c HC HCd) as [Hs Hd]. fold cc1 in Hs, Hd.
  unfold _GetUpdatedCount. cbv beta iota zeta.
  set (cnt0 := tf_reduce_sum (ApplyPadding P (tf_cast (tf_scalar 1%Qc) dt)) [3]).
  assert (H0 : shape cnt0 = [b; t; 1; 1]
               /\ forall i j l, i < b -> j < t -> l < 1 ->
                    data cnt0 [i; j; l; 0] = (fun i (_ : nat) s => cell_cnt P i s) i l j).
  { unfold cnt0. cbn [tf_reduce_sum fold_right]. unfold reduce_axis. cbn [shape data].
    rewrite shape_ApplyPadding. cbn [shape tf_cast tf_scalar tf_fill].
    rewrite bshape_nil_r, HP. cbn [upd extent nth]. split; [reflexivity|].
    intros i j l Hi Hj Hl. rewrite sum_n_one.
    rewrite data_ApplyPadding, (bget4 P _ _ _ _ _ _ _ _ HP).
    rewrite bget_cast_scalar_one.
    rewrite !clampi_one, !clampi_id by assumption. reflexivity. }
  destruct H0 as [H0s H0d].
  pose proof (cumsum_rank4 cnt0 b t 1 _ H0s H0d) as H1d.
  unfold tf_minimum, tf_add. rewrite !shape_map2. cbn [shape tf_cumsum tf_reshape tf_scalar tf_fill].
  rewrite H0s, bshape_nil_r, bshape4, !bdim_same, bdim_one_r.
  split; [reflexivity|]. intros i j Hi Hj.
  rewrite data_map2, bget_scalar.
  rewrite bget_bidx, shape_map2. cbn [shape tf_cumsum tf_reshape].
  rewrite H0s, bshape4, !bdim_same, bdim_one_r, bidx_id by (repeat constructor; assumption).
  rewrite data_map2, (bget4 (tf_cumsum cnt0 1) b t 1 1) by exact H0s.
  rewrite (bget4 (tf_reshape cc1 [b; 1; 1; 1]) b 1 1 1) by reflexivity.
  rewrite !clampi_one, !clampi_id by assumption.
  rewrite H1d by (assumption || lia).
  unfold w_count. f_equal. f_equal.
  rewrite (data_reshape _ _ _ [i]).
  - apply Hd. exact Hi.
  - rewrite Hs. repeat constructor; assumption.
  - rewrite Hs. apply (ravel_ones [b] [i] 3).
Qed.

Lemma StreamWindowedMoments_rank4 :
  exists mean var st',
    _StreamWindowedMoments_path tail_fill slicing p X (Some P) st = Ok (mean, var, st')
    /\ shape mean = [b; t; n; 1] /\ shape var = [b; t; n; 1]
    /\ (forall i j l, i < b -> j < t -> l < n ->
          data mean [i; j; l; 0] = w_mean i l j /\ data var [i; j; l; 0] = w_var i l j)
    /\ shape (cached_sums st') = [b; W; n; 1]
    /\ shape (cached_vars st') = [b; W; n; 1]
    /\ shape (cached_count_w st') = [b; 1; 1; 1]
    /\ (forall i k l, i < b -> k < W -> l < n ->
          data (cached_sums st') [i; k; l; 0]
          = new_cache_at t W P (cached_sums st) c (cell_sum X P g) i l k
          /\ data (cached_vars st') [i; k; l; 0]
             = new_cache_at t W P (cached_vars st) c w_sq i l k)
    /\ (forall i, i < b ->
          data (cached_count_w st') [i; 0; 0; 0] = Qc_of_nat (new_count t W P c i)).
Proof.
  destruct (squeezed_count b _ c HC HCd) as [Hs1 Hd1]. fold cc1 in Hs1, Hd1.
  destruct (cached_paddings_rank2 b W _ c HC HCd) as [Hcp_s Hcp_d]. fold cc1 in Hcp_s, Hcp_d.
  pose proof (last_index_rank2 b _ c HC HCd) as Hli. fold cc1 in Hli.
  destruct (current_input_lengths_rank1 b t P HP) as [Hl_s Hl_d].
  unfold _StreamWindowedMoments_path. rewrite HX, HW.
  cbn [length Nat.eqb orb assert bind negb extent nth].
  cbv beta iota zeta. fold cc1.
  change (tf_cast (tf_expand_dims
            (tf_maximum (tf_sub cc1 (tf_scalar 1%Qc)) (tf_fill [1] 0%Qc)) 1) int32)
    with (last_index_of cc1).
  change (tf_cast (LengthsFromPaddings (select_axis 2 0 (select_axis 2 0 P))) int32)
    with (lengths_of P).
  destruct (ComputeWindowedCumSum_rank4 b t n W false cc1 (last_index_of cc1) (lengths_of P)
              X P (cached_sums st) (PaddingsFromLengths cc1 W) c (cell_sum X P g)
              Hb Hd1 Hli Hl_s Hs1 Hl_d HP HKs Hcp_s Hcp_d HcW
              (masked_cumsum_rank4 P X b t n g _ HP HX (fun i l s _ _ _ => eq_refl))
              tail_fill slicing Hunif)
    as (sum_v & concat_sum_v & cpads & E1 & Ho_s & Ho_d & Hcs & Hcd & Hc0 & Hps & Hpd).
  rewrite E1.
  destruct (GetUpdatedCount_rank4 (dtype X)) as [Hg_s Hg_d].
  set (count_v := _GetUpdatedCount (dtype X) b W cc1 P) in *.
  set (denom := tf_maximum (tf_mul count_v (tf_scalar (Qc_of_nat g))) (tf_scalar 1%Qc)).
  assert (Hden : shape denom = [b; t; 1; 1]
                 /\ forall i j, i < b -> j < t -> data denom [i; j; 0; 0] = w_denom i j).
  { unfold denom, tf_maximum, tf_mul. rewrite !shape_map2. cbn [shape tf_scalar tf_fill].
    rewrite !bshape_nil_r. split; [exact Hg_s|].
    intros i j Hi Hj. rewrite !data_map2, !bget_scalar.
    rewrite bget_bidx, shape_map2. cbn [shape tf_scalar tf_fill].
    rewrite bshape_nil_r, Hg_s, bidx_id by (repeat constructor; assumption).
    rewrite data_map2, bget_scalar, bget_in_range
      by (rewrite Hg_s; repeat constructor; assumption).
    rewrite Hg_d by assumption. reflexivity. }
  destruct Hden as [Hds Hdd].
  set (mean := tf_div sum_v denom).
  assert (Hmean : shape mean = [b; t; n; 1]
                  /\ forall i j l, i < b -> j < t -> l < n ->
                       data mean [i; j; l; 0] = w_mean i l j).
  { unfold mean, tf_div. rewrite shape_map2, Ho_s, Hds, bshape4, !bdim_same, bdim_one_r.
    split; [reflexivity|]. intros i j l Hi Hj Hl.
    rewrite data_map2, (bget4 sum_v _ _ _ _ _ _ _ _ Ho_s), (bget4 denom _ _ _ _ _ _ _ _ Hds).
    rewrite !clampi_one, !clampi_id by assumption.
    rewrite Ho_d, Hdd by assumption. reflexivity. }
  destruct Hmean as [Hms Hmd].
  set (sqd := tf_squared_difference X mean).
  assert (Hsq : shape sqd = [b; t; n; g]).
  { unfold sqd, tf_squared_difference.
    rewrite shape_map2, HX, Hms, bshape4, !bdim_same, bdim_one_r. reflexivity. }
  assert (Hcell2 : forall i l s, i < b -> l < n -> s < t ->
            cell_sum sqd P g i l s = w_sq i l s).
  { intros i l s Hi Hl Hs. unfold cell_sum, w_sq. apply sum_n_ext. intros k Hk.
    destruct (pad_at P i s); [reflexivity|].
    unfold sqd, tf_squared_difference.
    rewrite data_map2, (bget4 X _ _ _ _ _ _ _ _ HX), (bget4 mean _ _ _ _ _ _ _ _ Hms).
    rewrite !clampi_one, !clampi_id by assumption.
    rewrite Hmd by assumption. reflexivity. }
  destruct (ComputeWindowedCumSum_rank4 b t n W false cc1 (last_index_of cc1) (lengths_of P)
              sqd P (cached_vars st) (PaddingsFromLengths cc1 W) c w_sq
              Hb Hd1 Hli Hl_s Hs1 Hl_d HP HKv Hcp_s Hcp_d HcW
              (masked_cumsum_rank4 P sqd b t n g _ HP Hsq Hcell2)
              tail_fill slicing Hunif)
    as (sum_vv & concat_sum_vv & cpads2 & E2 & Hv_s & Hv_d & Hcs2 & Hcd2 & Hc02 & _ & _).
  rewrite E2.
  destruct (new_cache_rank4 b t n W P (cached_sums st) c (cell_sum X P g) Hb HcW slicing
              concat_sum_v cpads Hcs Hcd Hc0 Hunif Hps Hpd) as [Hn1 Hn2].
  destruct (new_cache_rank4 b t n W P (cached_vars st) c w_sq Hb HcW slicing
              concat_sum_vv cpads Hcs2 Hcd2 Hc02 Hunif Hps Hpd) as [Hn3 Hn4].
  destruct (new_count_rank4 b t W P c Hb HcW cpads Hps Hpd) as [Hn5 Hn6].
  eexists _, _, _. split; [reflexivity|]. cbn [cached_sums cached_vars cached_count_w].
  split; [exact Hms|].
  split.
  { unfold tf_div. rewrite shape_map2, Hv_s, Hds, bshape4, !bdim_same, bdim_one_r.
    reflexivity. }
  split.
  { intros i j l Hi Hj Hl. split; [apply Hmd; assumption|].
    unfold tf_div.
    rewrite data_map2, (bget4 sum_vv _ _ _ _ _ _ _ _ Hv_s), (bget4 denom _ _ _ _ _ _ _ _ Hds).
    rewrite !clampi_one, !clampi_id by assumption.
    rewrite Hv_d, Hdd by assumption. reflexivity. }
  split; [exact Hn1|]. split; [exact Hn3|]. split; [exact Hn5|].
  split.
  - intros i k l Hi Hk Hl. split; [apply Hn2|apply Hn4]; assumption.
  - exact Hn6.
Qed.

End WindowedStepRank4.

(** ** Windowed streaming in chunks against the windowed batch estimator *)

Fixpoint stream_window_chunks (tail_fill : Tensor -> Tensor -> Index -> Qc) (p : Params)
    (X P : Tensor) (off : nat) (chunks : list nat) (st : CachedWindow)
  : Result (list (Tensor * Tensor)) :=
  match chunks with
  | [] => Ok []
  | t :: rest =>
      r <- _StreamWindowedMoments tail_fill p (slice_axis 1 off (off + t) X)
                                  (Some (slice_axis 1 off (off + t) P)) st ;;
      let '(mean, var, st') := r in
      outs <- stream_window_chunks tail_fill p X P (off + t) rest st' ;;
      Ok ((mean, var) :: outs)
  end.

Section WindowedEquivalence.
Variable tail_fill : Tensor -> Tensor -> Index -> Qc.
Variables (use_tpu crs : bool) (p : Params) (X P : Tensor) (b T n g W : nat).
Hypothesis HX : shape X = [b; T; n; g].
Hypothesis HP : shape P = [b; T; 1; 1].
Hypothesis Hvalid : forall i j, i < b -> j < T -> pad_at P i j = false.
Hypothesis HW : Z.to_nat (p_window_size p) = W.
Hypothesis HW0 : 0 < W.
Hypothesis Hb : 0 < b.

Let CM := ComputeMoments use_tpu X P [3] (Some 1) crs true W.

(** The rows of a window cache after [off] unpadded steps of the
    per-step sequence [f]: the last [min off W] running sums. *)
Definition window_rows (off : nat) (K : Tensor) (f : nat -> nat -> nat -> Qc) : Prop :=
  forall i k l, i < b -> k < W -> l < n ->
    data K [i; k; l; 0]
    = if k <? Nat.min off W then sum_n (off - Nat.min off W + k + 1) (f i l) else 0%Qc.

Definition window_carries (off : nat) (st : CachedWindow) : Prop :=
  shape (cached_sums st) = [b; W; n; 1]
  /\ shape (cached_vars st) = [b; W; n; 1]
  /\ shape (cached_count_w st) = [b; 1; 1; 1]
  /\ (forall i, i < b -> data (cached_count_w st) [i; 0; 0; 0] = Qc_of_nat (Nat.min off W))
  /\ window_rows off (cached_sums st) (cell_sum X P g)
  /\ window_rows off (cached_vars st) (batch_sq X P T g W).

(** The windowed accumulation of the batch estimator on unpadded steps. *)
Lemma acc_unpadded i f q : i < b -> q < T ->
  acc W T P i f q
  = (sum_n (S q) f - (if q <? W then 0 else sum_n (S (q - W)) f))%Qc.
Proof.
  intros Hi Hq. unfold acc. destruct (Nat.eqb_spec W 0) as [E|_]; [lia|].
  unfold win. rewrite (Hvalid i q Hi Hq).
  destruct (Nat.ltb_spec q (Nat.min W T)) as [Hlt|Hge].
  - destruct (Nat.ltb_spec q W) as [_|Hc]; [ring|lia].
  - assert (HWT : Nat.min W T = W) by lia. rewrite HWT in *.
    destruct (Nat.ltb_spec q W) as [Hc|_]; [lia|].
    rewrite (Nat.mod_small W T) by lia.
    replace (q + (T - W)) with ((q - W) + 1 * T) by lia.
    rewrite Nat.Div0.mod_add, Nat.mod_small by lia. ring.
Qed.

Lemma count_unpadded i q : i < b -> q < T ->
  acc W T P i (cell_cnt P i) q = Qc_of_nat (Nat.min (S q) W).
Proof.
  intros Hi Hq. rewrite acc_unpadded by assumption.
  assert (Hc : forall m, m <= T -> sum_n m (cell_cnt P i) = Qc_of_nat m).
  { intros m Hm. rewrite (sum_n_ext m _ (fun _ => 1%Qc)).
    - rewrite sum_n_const. ring.
    - intros k Hk. unfold cell_cnt. rewrite Hvalid by lia. reflexivity. }
  destruct (Nat.ltb_spec q W) as [Hlt|Hge].
  - rewrite Hc by lia. replace (Nat.min (S q) W) with (S q) by lia. ring.
  - rewrite !Hc by lia. rewrite <- Qc_of_nat_sub by lia. f_equal. lia.
Qed.

Section Step.
Variables (off t : nat) (st : CachedWindow).
Hypothesis Ht : 0 < t.
Hypothesis Hoff : off + t <= T.
Hypothesis Hst : window_carries off st.

Let Xc := slice_axis 1 off (off + t) X.
Let Pc := slice_axis 1 off (off + t) P.
Let c := fun _ : nat => Nat.min off W.

Lemma shape_Xw : shape Xc = [b; t; n; g].
Proof.
  unfold Xc. rewrite (shape_slice_axis1 _ _ _ _ _ _ HX) by lia.
  f_equal. f_equal. lia.
Qed.

Lemma shape_Pw : shape Pc = [b; t; 1; 1].
Proof.
  unfold Pc. rewrite (shape_slice_axis1 _ _ _ _ _ _ HP) by lia.
  f_equal. f_equal. lia.
Qed.

Lemma pad_at_window_chunk i s : pad_at Pc i s = pad_at P i (off + s).
Proof.
  unfold pad_at, Pc. rewrite (data_slice_axis1 _ _ _ _ _ _ _ _ _ HP) by lia. reflexivity.
Qed.

Lemma chunk_valid i s : i < b -> s < t -> pad_at Pc i s = false.
Proof. intros Hi Hs. rewrite pad_at_window_chunk. apply Hvalid; lia. Qed.

Lemma chunk_len_unpadded i : i < b -> chunk_len t Pc i = t.
Proof.
  intros Hi. unfold chunk_len. apply unpadded_length_all_valid.
  intros k Hk. apply (chunk_valid i k Hi Hk).
Qed.

Lemma cell_sum_window_chunk i l s :
  cell_sum Xc Pc g i l s = cell_sum X P g i l (off + s).
Proof.
  unfold cell_sum. rewrite pad_at_window_chunk. apply sum_n_ext. intros k _.
  unfold Xc. rewrite (data_slice_axis1 _ _ _ _ _ _ _ _ _ HX) by lia. reflexivity.
Qed.

(** The lanes of one cache, against the per-step sequence [F] of the whole
    input and its restriction [cellf] to the chunk. *)
Section Lane.
Variables (K : Tensor) (F cellf : nat -> nat -> nat -> Qc).
Hypothesis HK : window_rows off K F.
Hypothesis Hcell : forall i l s, i < b -> l < n -> s < t -> cellf i l s = F i l (off + s).

Lemma cur_sum_unpadded i l j : i < b -> l < n -> j < t ->
  cur_sum K c cellf i l j = sum_n (off + S j) (F i l).
Proof.
  intros Hi Hl Hj. unfold cur_sum, c.
  rewrite (HK i (Nat.min off W - 1) l Hi ltac:(lia) Hl).
  rewrite (sum_n_app off (S j)).
  rewrite (sum_n_ext (S j) (cellf i l) (fun k => F i l (off + k)))
    by (intros k Hk; apply Hcell; lia).
  destruct (Nat.ltb_spec (Nat.min off W - 1) (Nat.min off W)) as [Hlt|Hge].
  - replace (off - Nat.min off W + (Nat.min off W - 1) + 1) with off by lia. ring.
  - assert (off = 0) by lia. subst off. cbn [sum_n]. ring.
Qed.

Lemma concat_at_unpadded i l k : i < b -> l < n -> k < Nat.min off W + t ->
  concat_at K c cellf i l k = sum_n (off - Nat.min off W + k + 1) (F i l).
Proof.
  intros Hi Hl Hk. unfold concat_at. unfold c at 1.
  destruct (Nat.ltb_spec k (Nat.min off W)) as [Hlt|Hge].
  - rewrite (HK i k l Hi ltac:(lia) Hl).
    destruct (Nat.ltb_spec k (Nat.min off W)) as [_|Hc]; [reflexivity|lia].
  - rewrite cur_sum_unpadded by (unfold c; lia || assumption).
    f_equal. unfold c. lia.
Qed.

Lemma window_out_unpadded i l j : i < b -> l < n -> j < t ->
  window_out t W Pc K c cellf i l j = acc W T P i (F i l) (off + j).
Proof.
  intros Hi Hl Hj. rewrite acc_unpadded by lia.
  unfold window_out. rewrite chunk_len_unpadded by assumption.
  destruct (Nat.ltb_spec j t) as [_|Hc]; [|lia].
  rewrite (chunk_valid i j Hi Hj). cbn [orb].
  rewrite cur_sum_unpadded by assumption.
  rewrite Nat.add_succ_r. f_equal. f_equal.
  unfold c at 1.
  destruct (Nat.ltb_spec (Nat.min off W + j) W) as [H1|H1];
    destruct (Nat.ltb_spec (off + j) W) as [H2|H2]; try lia; [reflexivity|].
  rewrite concat_at_unpadded by (unfold c; lia || assumption).
  f_equal. unfold c. lia.
Qed.

Lemma new_count_unpadded i : i < b ->
  new_count t W Pc c i = Nat.min (off + t) W.
Proof.
  intros Hi. unfold new_count. rewrite chunk_len_unpadded by assumption. unfold c. lia.
Qed.

Lemma new_cache_unpadded i l k : i < b -> k < W -> l < n ->
  new_cache_at t W Pc K c cellf i l k
  = if k <? Nat.min (off + t) W
    then sum_n (off + t - Nat.min (off + t) W + k + 1) (F i l) else 0%Qc.
Proof.
  intros Hi Hk Hl. unfold new_cache_at. rewrite new_count_unpadded by assumption.
  destruct (Nat.ltb_spec k (Nat.min (off + t) W)) as [Hlt|Hge]; [|reflexivity].
  rewrite chunk_len_unpadded by assumption.
  rewrite concat_at_unpadded by (unfold c; lia || assumption).
  f_equal. unfold c. lia.
Qed.

End Lane.

Lemma w_denom_unpadded i j : i < b -> j < t ->
  w_denom Pc g W c i j = batch_denom P T g W i (off + j).
Proof.
  intros Hi Hj. unfold w_denom, batch_denom, w_count.
  rewrite mask_multiplier_rank4, count_unpadded by lia.
  rewrite (sum_n_ext (S j) (cell_cnt Pc i) (fun _ => 1%Qc)).
  2:{ intros k Hk. unfold cell_cnt. rewrite chunk_valid by lia. reflexivity. }
  rewrite sum_n_const. unfold c.
  replace (Qc_of_nat (S j) * 1 + Qc_of_nat (Nat.min off W))%Qc
    with (Qc_of_nat (S j + Nat.min off W)) by (rewrite Qc_of_nat_add; ring).
  rewrite Qcmin_of_nat. do 3 f_equal. lia.
Qed.

Lemma w_mean_unpadded i l j : i < b -> l < n -> j < t ->
  w_mean Xc Pc st t g W c i l j = batch_mean X P T g W i l (off + j).
Proof.
  intros Hi Hl Hj. unfold w_mean, batch_mean.
  rewrite w_denom_unpadded by assumption. f_equal.
  destruct Hst as (_ & _ & _ & _ & Hrows & _).
  apply (window_out_unpadded _ _ _ Hrows); try assumption.
  intros. apply cell_sum_window_chunk.
Qed.

Lemma w_sq_unpadded i l s : i < b -> l < n -> s < t ->
  w_sq Xc Pc st t g W c i l s = batch_sq X P T g W i l (off + s).
Proof.
  intros Hi Hl Hs. unfold w_sq, batch_sq. rewrite pad_at_window_chunk.
  apply sum_n_ext. intros k _. rewrite w_mean_unpadded by assumption.
  unfold Xc. rewrite (data_slice_axis1 _ _ _ _ _ _ _ _ _ HX) by lia. reflexivity.
Qed.

Lemma w_var_unpadded i l j : i < b -> l < n -> j < t ->
  w_var Xc Pc st t g W c i l j = batch_var X P T g W i l (off + j).
Proof.
  intros Hi Hl Hj. unfold w_var, batch_var.
  rewrite w_denom_unpadded by assumption. f_equal.
  destruct Hst as (_ & _ & _ & _ & _ & Hrows).
  apply (window_out_unpadded _ _ _ Hrows); try assumption.
  intros. apply w_sq_unpadded; assumption.
Qed.

Lemma window_step_matches_batch :
  exists mean var st',
    _StreamWindowedMoments tail_fill p Xc (Some Pc) st = Ok (mean, var, st')
    /\ same_moments (mean, var)
         (slice_axis 1 off (off + t) (fst CM), slice_axis 1 off (off + t) (snd CM))
    /\ window_carries (off + t) st'.
Proof.
  destruct Hst as (Hks & Hkv & Hcs & Hcd & Hrs & Hrv).
  assert (HcW : forall i, i < b -> c i <= W) by (intros; unfold c; lia).
  assert (Hunif : forall s : bool, s = true ->
            forall i, i < b -> c i = c 0 /\ chunk_len t Pc i = chunk_len t Pc 0).
  { intros _ _ i Hi. split; [reflexivity|].
    rewrite !chunk_len_unpadded by lia. reflexivity. }
  unfold _StreamWindowedMoments.
  destruct (StreamWindowedMoments_rank4 tail_fill (extent 0 (shape Xc) =? 1) p Xc Pc st
              b t n g W c shape_Xw shape_Pw Hks Hkv Hcs Hcd HcW Hb HW (Hunif _))
    as (mean & var & st' & E & Hms & Hvs & Hd & Hs1 & Hs2 & Hs3 & Hd1 & Hd2).
  destruct (ComputeMoments_rank4 use_tpu crs X P b T n g W HX HP) as (Hbm & Hbv & Hbd).
  fold CM in Hbm, Hbv, Hbd.
  exists mean, var, st'. split; [exact E|]. split.
  - split; cbn [fst snd].
    + split.
      * rewrite Hms, (shape_slice_axis1 _ _ _ _ _ _ Hbm) by lia. f_equal. f_equal. lia.
      * intros idx Hin. rewrite Hms in Hin.
        destruct (InRange4 _ _ _ _ _ Hin) as (i & j & l & k & -> & Hi & Hj & Hl & Hk).
        assert (k = 0) by lia. subst k.
        rewrite (data_slice_axis1 _ _ _ _ _ _ _ _ _ Hbm) by lia.
        rewrite (proj1 (Hd i j l Hi Hj Hl)), (proj1 (Hbd i (off + j) l Hi ltac:(lia) Hl)).
        apply w_mean_unpadded; assumption.
    + split.
      * rewrite Hvs, (shape_slice_axis1 _ _ _ _ _ _ Hbv) by lia. f_equal. f_equal. lia.
      * intros idx Hin. rewrite Hvs in Hin.
        destruct (InRange4 _ _ _ _ _ Hin) as (i & j & l & k & -> & Hi & Hj & Hl & Hk).
        assert (k = 0) by lia. subst k.
        rewrite (data_slice_axis1 _ _ _ _ _ _ _ _ _ Hbv) by lia.
        rewrite (proj2 (Hd i j l Hi Hj Hl)), (proj2 (Hbd i (off + j) l Hi ltac:(lia) Hl)).
        apply w_var_unpadded; assumption.
  - unfold window_carries. repeat split; try assumption.
    + intros i Hi. rewrite (Hd2 i Hi), new_count_unpadded by assumption. reflexivity.
    + intros i k l Hi Hk Hl. rewrite (proj1 (Hd1 i k l Hi Hk Hl)).
      apply (new_cache_unpadded _ _ _ Hrs); try assumption.
      intros. apply cell_sum_window_chunk.
    + intros i k l Hi Hk Hl. rewrite (proj2 (Hd1 i k l Hi Hk Hl)).
      apply (new_cache_unpadded _ _ _ Hrv); try assumption.
      intros. apply w_sq_unpadded; assumption.
Qed.

End Step.

Lemma window_chunks_match_batch (chunks : list nat) : forall off st,
  Forall (lt 0) chunks -> off + list_sum chunks <= T -> window_carries off st ->
  exists outs,
    stream_window_chunks tail_fill p X P off chunks st = Ok outs
    /\ Forall2 same_moments outs (batch_chunks (fst CM) (snd CM) off chunks).
Proof.
  induction chunks as [|t rest IH]; intros off st Hpos Hsum Hst.
  - exists []. split; [reflexivity|constructor].
  - inversion Hpos as [|? ? Ht Hrest]; subst.
    unfold list_sum in *. cbn [fold_right] in Hsum.
    assert (Hoff : off + t <= T) by lia.
    assert (Hrem : off + t + fold_right Nat.add 0 rest <= T) by lia.
    destruct (window_step_matches_batch off t st Ht Hoff Hst)
      as (mean & var & st' & E & Hsame & Hst').
    destruct (IH (off + t) st' Hrest Hrem Hst') as (outs & Eouts & Hall).
    exists ((mean, var) :: outs). split.
    + cbn [stream_window_chunks]. rewrite E. cbn [bind]. rewrite Eouts. reflexivity.
    + cbn [batch_chunks]. constructor; assumption.
Qed.

End WindowedEquivalence.

(** ** Streaming from [zero_state] *)

Lemma data_cast_zeros s dt idx : data (tf_cast (tf_zeros s) dt) idx = 0%Qc.
Proof. destruct dt; reflexivity. Qed.

Lemma zero_state_running (p : Params) (X P : Tensor) (b T n g : nat) (st : Cached) :
  num_groups p = Ok (Z.of_nat n) ->
  zero_state p b = Ok (Running st) ->
  carries X P b T n g 0 st.
Proof.
  intros Hn Hz. unfold zero_state in Hz. rewrite Hn in Hz. cbn [bind] in Hz.
  destruct (negb (p_cumulative p)); [discriminate|].
  destruct (1 <? p_window_size p)%Z; [discriminate|].
  injection Hz as <-. rewrite Nat2Z.id. unfold carries. cbn [cached_sum cached_count cached_var].
  repeat split; intros; rewrite data_cast_zeros; reflexivity.
Qed.

Lemma zero_state_windowed (p : Params) (X P : Tensor) (b T n g : nat) (st : CachedWindow) :
  num_groups p = Ok (Z.of_nat n) ->
  zero_state p b = Ok (Windowed st) ->
  window_carries X P b T n g (Z.to_nat (p_window_size p)) 0 st
  /\ 0 < Z.to_nat (p_window_size p).
Proof.
  intros Hn Hz. unfold zero_state in Hz. rewrite Hn in Hz. cbn [bind] in Hz.
  destruct (negb (p_cumulative p)); [discriminate|].
  destruct (Z.ltb_spec 1 (p_window_size p)) as [HW|]; [|discriminate].
  injection Hz as <-. rewrite Nat2Z.id. split; [|lia].
  unfold window_carries, window_rows. cbn [cached_sums cached_vars cached_count_w].
  repeat split; intros; rewrite data_cast_zeros; reflexivity.
Qed.

(** The mean a chunked run reports at index [idx] of its [k]-th chunk. *)
Definition mean_at (r : Result (list (Tensor * Tensor))) (k : nat) (idx : Index)
  : option Qc :=
  match r with
  | Ok outs => option_map (fun o => data (fst o) idx) (nth_error outs k)
  | Raise _ => None
  end.

Lemma option_Qc_eq (a b : option Qc) : option_map this a = option_map this b -> a = b.
Proof.
  destruct a as [x|], b as [y|]; cbn; intros H; try discriminate; [|reflexivity].
  injection H as H. f_equal. apply Qc_is_canon. rewrite H. reflexivity.
Qed.

(** A window of two steps over the sequence 1, (padded) 5, 3. *)
Definition window_two_params : Params :=
  mkParams "gn" 1 1 1 true 2 false 3 (Q2Qc (1 # 1000)) float32.
Definition gapped_inputs : Tensor := of_flat [1; 3; 1; 1] [frac 1 1; frac 5 1; frac 3 1].
Definition gapped_paddings : Tensor := of_flat [1; 3; 1; 1] [frac 0 1; frac 1 1; frac 0 1].
Definition window_two_zero_state : CachedWindow :=
  mkCachedWindow (tf_cast (tf_zeros [1; 2; 1; 1]) float32)
                 (tf_cast (tf_zeros [1; 2; 1; 1]) float32)
                 (tf_cast (tf_zeros [1; 1; 1; 1]) float32).
Definition no_tail : Tensor -> Tensor -> Index -> Qc := fun _ _ _ => 0%Qc.



Definition running_params : Params :=
  mkParams "gn" 2 1 1 true 0 false 3 (Q2Qc (1 # 1000)) float32.
Definition window_pair_params : Params :=
  mkParams "gn" 2 1 1 true 2 false 3 (Q2Qc (1 # 1000)) float32.
Definition three_steps : Tensor :=
  of_flat [1; 3; 1; 2] [frac 1 1; frac 2 1; frac 3 1; frac 4 1; frac 5 1; frac 6 1].
Definition last_step_padded : Tensor :=
  of_flat [1; 3; 1; 1] [frac 0 1; frac 0 1; frac 1 1].


(** ** The two branches of the windowed streaming estimator at batch size 1 *)

Lemma teq_rank4 (x y : Tensor) (b t n : nat) :
  shape x = [b; t; n; 1] -> shape y = [b; t; n; 1] ->
  (forall i j l, i < b -> j < t -> l < n -> data x [i; j; l; 0] = data y [i; j; l; 0]) ->
  teq x y.
Proof.
  intros Hx Hy H. split; [congruence|].
  intros idx Hin. rewrite Hx in Hin.
  destruct (InRange4 _ _ _ _ _ Hin) as (i & j & l & k & -> & Hi & Hj & Hl & Hk).
  assert (k = 0) by lia. subst k. apply H; assumption.
Qed.

Lemma StreamWindowedMoments_no_paddings tail_fill slicing p X st b t n g :
  shape X = [b; t; n; g] ->
  _StreamWindowedMoments_path tail_fill slicing p X None st
  = _StreamWindowedMoments_path tail_fill slicing p X (Some (tf_zeros [b; t; 1; 1])) st.
Proof. intros HX. unfold _StreamWindowedMoments_path. rewrite HX. reflexivity. Qed.


Definition window_three_params : Params :=
  mkParams "gn" 2 1 1 true 3 false 3 (Q2Qc (1 # 1000)) float32.
Definition one_example : Tensor :=
  of_flat [1; 3; 1; 2] [frac 1 1; frac 2 1; frac 3 1; frac 4 1; frac 5 1; frac 6 1].
Definition middle_step_padded : Tensor :=
  of_flat [1; 3; 1; 1] [frac 0 1; frac 1 1; frac 0 1].
Definition one_cached_step : CachedWindow :=
  mkCachedWindow (of_flat [1; 3; 1; 1] [frac 7 1; frac 0 1; frac 0 1])
                 (of_flat [1; 3; 1; 1] [frac 1 2; frac 0 1; frac 0 1])
                 (of_flat [1; 1; 1; 1] [frac 1 1]).


(** ** All-padded chunks in the streaming estimators *)

Lemma is_zero_rank4 (x : Tensor) (b t n : nat) :
  shape x = [b; t; n; 1] ->
  (forall i j l, i < b -> j < t -> l < n -> data x [i; j; l; 0] = 0%Qc) ->
  is_zero x.
Proof.
  intros Hx H idx Hin. rewrite Hx in Hin.
  destruct (InRange4 _ _ _ _ _ Hin) as (i & j & l & k & -> & Hi & Hj & Hl & Hk).
  assert (k = 0) by lia. subst k. apply H; assumption.
Qed.

Lemma all_padded_rank4 (P : Tensor) (b t : nat) :
  shape P = [b; t; 1; 1] -> all_padded P ->
  forall i j, i < b -> j < t -> pad_at P i j = true.
Proof.
  intros HP H i j Hi Hj. unfold pad_at. apply H. rewrite HP.
  apply InRange4_intro; lia.
Qed.

Lemma cell_sum_padded X P g i l s : pad_at P i s = true -> cell_sum X P g i l s = 0%Qc.
Proof.
  intros H. unfold cell_sum. rewrite H. apply sum_n_zero. reflexivity.
Qed.

Section AllPaddedChunk.
Variables (X P : Tensor) (b t n g : nat).
Hypothesis HX : shape X = [b; t; n; g].
Hypothesis HP : shape P = [b; t; 1; 1].
Hypothesis Hpad : all_padded P.

Lemma StreamMoments_all_padded (st : Cached) :
  0 < t ->
  shape (cached_sum st) = [b; 1; n; 1] ->
  shape (cached_count st) = [b; 1; 1; 1] ->
  shape (cached_var st) = [b; 1; n; 1] ->
  is_zero (cached_sum st) -> is_zero (cached_var st) ->
  exists mean var st',
    _StreamMoments X (Some P) st = Ok (mean, var, st')
    /\ is_zero mean /\ is_zero var
    /\ is_zero (cached_sum st') /\ is_zero (cached_var st').
Proof.
  intros Ht Hcs Hcc Hcv Hzs Hzv.
  destruct (StreamMoments_rank4 X P st b t n g HX HP Hcs Hcc Hcv Ht)
    as (mean & var & st' & E & Hms & Hvs & Hd & Hs1 & Hs2 & Hs3 & Hd1 & Hd2).
  pose proof (all_padded_rank4 P b t HP Hpad) as Hp.
  assert (Hsum : forall i l j, i < b -> l < n -> j < t -> stream_sum X P st g i l j = 0%Qc).
  { intros i l j Hi Hl Hj. unfold stream_sum.
    rewrite sum_n_zero by (intros k Hk; apply cell_sum_padded, Hp; lia).
    rewrite Hzs by (rewrite Hcs; apply InRange4_intro; lia). ring. }
  assert (Hsq : forall i l j, i < b -> l < n -> j < t -> stream_sqsum X P st g i l j = 0%Qc).
  { intros i l j Hi Hl Hj. unfold stream_sqsum.
    rewrite sum_n_zero.
    - rewrite Hzv by (rewrite Hcv; apply InRange4_intro; lia). ring.
    - intros k Hk. unfold stream_sq. rewrite Hp by lia. apply sum_n_zero. reflexivity. }
  exists mean, var, st'. split; [exact E|].
  split; [|split; [|split]].
  - apply (is_zero_rank4 _ b t n Hms). intros i j l Hi Hj Hl.
    rewrite (proj1 (Hd i j l Hi Hj Hl)). unfold stream_mean.
    rewrite Hsum by assumption. apply Qcdiv_0_l.
  - apply (is_zero_rank4 _ b t n Hvs). intros i j l Hi Hj Hl.
    rewrite (proj2 (Hd i j l Hi Hj Hl)). unfold stream_var.
    rewrite Hsq by assumption. apply Qcdiv_0_l.
  - apply (is_zero_rank4 _ b 1 n Hs1). intros i j l Hi Hj Hl.
    assert (j = 0) by lia. subst j.
    rewrite (proj1 (Hd1 i l Hi Hl)). apply Hsum; lia.
  - apply (is_zero_rank4 _ b 1 n Hs3). intros i j l Hi Hj Hl.
    assert (j = 0) by lia. subst j.
    rewrite (proj2 (Hd1 i l Hi Hl)). apply Hsq; lia.
Qed.

Lemma chunk_len_all_padded i : i < b -> chunk_len t P i = 0.
Proof.
  intros Hi. unfold chunk_len.
  pose proof (all_padded_rank4 P b t HP Hpad) as Hp.
  assert (H : forall m, m <= t -> unpadded_length m (fun j => data P [i; j; 0; 0]) = 0).
  { induction m as [|m IH]; intros Hm; [reflexivity|].
    cbn [unpadded_length]. specialize (Hp i m Hi ltac:(lia)). unfold pad_at in Hp.
    rewrite Hp. apply IH. lia. }
  apply H. lia.
Qed.

Lemma StreamWindowedMoments_all_padded (tail_fill : Tensor -> Tensor -> Index -> Qc)
    (p : Params) (st : CachedWindow) (W : nat) (c : nat -> nat) :
  0 < b ->
  shape (cached_sums st) = [b; W; n; 1] ->
  shape (cached_vars st) = [b; W; n; 1] ->
  shape (cached_count_w st) = [b; 1; 1; 1] ->
  (forall i, i < b -> data (cached_count_w st) [i; 0; 0; 0] = Qc_of_nat (c i)) ->
  (forall i, i < b -> c i <= W) ->
  Z.to_nat (p_window_size p) = W ->
  exists mean var st',
    _StreamWindowedMoments tail_fill p X (Some P) st = Ok (mean, var, st')
    /\ is_zero mean /\ is_zero var.
Proof.
  intros Hb Hks Hkv Hcs Hcd HcW HW.
  assert (Hunif : (extent 0 (shape X) =? 1) = true ->
            forall i, i < b -> c i = c 0 /\ chunk_len t P i = chunk_len t P 0).
  { rewrite HX. cbn [extent nth]. intros E i Hi. apply Nat.eqb_eq in E.
    replace i with 0 by lia. split; reflexivity. }
  unfold _StreamWindowedMoments.
  destruct (StreamWindowedMoments_rank4 tail_fill (extent 0 (shape X) =? 1) p X P st
              b t n g W c HX HP Hks Hkv Hcs Hcd HcW Hb HW Hunif)
    as (mean & var & st' & E & Hms & Hvs & Hd & _).
  assert (Hout : forall K cellf i l j, i < b -> window_out t W P K c cellf i l j = 0%Qc).
  { intros K cellf i l j Hi. unfold window_out. rewrite chunk_len_all_padded by assumption.
    reflexivity. }
  exists mean, var, st'. split; [exact E|]. split.
  - apply (is_zero_rank4 _ b t n Hms). intros i j l Hi Hj Hl.
    rewrite (proj1 (Hd i j l Hi Hj Hl)). unfold w_mean.
    rewrite Hout by assumption. apply Qcdiv_0_l.
  - apply (is_zero_rank4 _ b t n Hvs). intros i j l Hi Hj Hl.
    rewrite (proj2 (Hd i j l Hi Hj Hl)). unfold w_var.
    rewrite Hout by assumption. apply Qcdiv_0_l.
Qed.

End AllPaddedChunk.



Definition two_padded_steps : Tensor := tf_ones [1; 2; 1; 1].
Definition two_values : Tensor := of_flat [1; 2; 1; 1] [frac 3 1; frac 4 1].
Definition running_zero_state : Cached :=
  mkCached (tf_zeros [1; 1; 1; 1]) (tf_zeros [1; 1; 1; 1]) (tf_zeros [1; 1; 1; 1]).


(** ** Normalization, scale and shift *)

Lemma ravel_rev_lt rs : forall ridx,
  Forall2 lt ridx rs -> ravel_rev rs ridx < prod_list rs.
Proof.
  induction rs as [|d rs IH]; intros ridx H; inversion H; subst; cbn [ravel_rev prod_list];
    [lia|].
  specialize (IH _ H4). nia.
Qed.

Lemma prod_list_app l1 l2 : prod_list (l1 ++ l2) = prod_list l1 * prod_list l2.
Proof. induction l1 as [|d r IH]; cbn [app prod_list]; [lia|]. rewrite IH. lia. Qed.

Lemma prod_list_rev l : prod_list (rev l) = prod_list l.
Proof.
  induction l as [|d r IH]; [reflexivity|]. cbn [rev]. rewrite prod_list_app, IH.
  cbn [prod_list]. lia.
Qed.

Lemma ravel_lt s idx : InRange s idx -> ravel s idx < prod_list s.
Proof.
  intros H. unfold ravel. rewrite <- prod_list_rev. apply ravel_rev_lt, Forall2_rev. exact H.
Qed.

Lemma unravel_rev_in_range rs : forall flat,
  flat < prod_list rs -> Forall2 lt (unravel_rev rs flat) rs.
Proof.
  induction rs as [|d rs IH]; intros flat H; cbn [unravel_rev prod_list] in *; [constructor|].
  assert (Hd : 0 < d) by (destruct d; lia).
  constructor.
  - apply Nat.mod_upper_bound. lia.
  - apply IH. apply Nat.Div0.div_lt_upper_bound. exact H.
Qed.

Lemma unravel_in_range s flat : flat < prod_list s -> InRange s (unravel s flat).
Proof.
  intros H. unfold unravel. apply InRange_rev. rewrite rev_involutive.
  apply unravel_rev_in_range. rewrite prod_list_rev. exact H.
Qed.

Lemma clamp_idem s : forall idx, clamp s (clamp s idx) = clamp s idx.
Proof.
  induction s as [|d s IH]; intros [|i idx]; cbn [clamp]; try reflexivity.
  rewrite clampi_idem, IH. reflexivity.
Qed.

Lemma bidx_idem s idx : bidx s (bidx s idx) = bidx s idx.
Proof. unfold bidx. rewrite rev_involutive, clamp_idem. reflexivity. Qed.

Lemma InRange_app_last s0 d idx :
  InRange (s0 ++ [d]) idx ->
  exists idx0 c, idx = idx0 ++ [c] /\ InRange s0 idx0 /\ c < d.
Proof.
  unfold InRange. intros H. apply Forall2_app_inv_r in H.
  destruct H as (idx0 & l & H0 & H1 & ->).
  inversion H1 as [|c ? r ? Hc Hr]; subst. inversion Hr; subst.
  exists idx0, c. auto.
Qed.

Lemma bshape_last s0 d : bshape (s0 ++ [d]) [d] = s0 ++ [d].
Proof.
  unfold bshape. rewrite rev_app_distr. cbn [rev app bshape_rev].
  rewrite bdim_same, bshape_rev_nil_r. cbn [rev]. rewrite rev_involutive. reflexivity.
Qed.

Lemma bidx_last d idx0 c : c < d -> bidx [d] (idx0 ++ [c]) = [c].
Proof.
  intros H. unfold bidx. rewrite rev_app_distr. cbn [rev app clamp].
  rewrite clampi_id by exact H. destruct (rev idx0); reflexivity.
Qed.

Lemma last_snoc (l : list nat) c : last (l ++ [c]) 0 = c.
Proof. apply last_last. Qed.

Section Normalization.
Variable tf_sqrt : Qc -> Qc.
Variables (p : Params) (theta : Theta) (X m v : Tensor).
Hypothesis Hm : broadcasts_into (shape m) (shape X).
Hypothesis Hv : broadcasts_into (shape v) (shape X).
Hypothesis HdX : dtype X <> int32.
Hypothesis Hdm : dtype m <> int32.
Hypothesis Hdv : dtype v <> int32.

Lemma Normalize_formula :
  exists o,
    _Normalize tf_sqrt p X m v = Ok o
    /\ shape o = shape X
    /\ dtype o = dtype X
    /\ forall gidx, InRange (shape X) gidx ->
         data o gidx
         = ((data X gidx - bget m gidx) / tf_sqrt (bget v gidx + p_epsilon p))%Qc.
Proof.
  unfold _Normalize.
  assert (Hinv : exists inv,
            (if dtype_eqb (dtype v) bfloat16
             then r <- tf_rsqrt tf_sqrt
                         (tf_cast (tf_add v (tf_scalar (p_epsilon p))) float32) ;;
                  Ok (tf_cast r (dtype m))
             else tf_rsqrt tf_sqrt (tf_add v (tf_scalar (p_epsilon p)))) = Ok inv
            /\ shape inv = shape v
            /\ forall j, data inv j = (/ tf_sqrt (bget v j + p_epsilon p))%Qc).
  { destruct (dtype v) eqn:E; try congruence; cbn [dtype_eqb].
    - unfold tf_rsqrt. unfold tf_add at 1. cbn [dtype tf_map2]. rewrite E.
      eexists. split; [reflexivity|]. cbn [shape data]. split.
      + unfold tf_add. rewrite shape_map2. apply bshape_nil_r.
      + intros j. unfold tf_add. rewrite data_map2, bget_scalar. reflexivity.
    - unfold tf_rsqrt. cbn [tf_cast dtype bind].
      eexists. split; [reflexivity|]. split.
      + cbn [shape tf_cast]. unfold tf_add. rewrite shape_map2. apply bshape_nil_r.
      + intros j. rewrite data_cast_float by exact Hdm. cbn [data].
        rewrite data_cast_float by discriminate.
        unfold tf_add. rewrite data_map2, bget_scalar. reflexivity. }
  destruct Hinv as (inv & E & Hs & Hd). rewrite E. cbn [bind].
  eexists. split; [reflexivity|].
  assert (Hsub : shape (tf_sub X m) = shape X).
  { unfold tf_sub. rewrite shape_map2. apply bshape_into_r. exact Hm. }
  assert (Hshape : shape (tf_mul (tf_sub X m) inv) = shape X).
  { unfold tf_mul. rewrite shape_map2, Hsub, Hs. apply bshape_into_r. exact Hv. }
  split; [exact Hshape|]. split; [reflexivity|].
  intros gidx Hin. unfold tf_mul. rewrite data_map2.
  rewrite (bget_in_range (tf_sub X m)) by (rewrite Hsub; exact Hin).
  unfold tf_sub. rewrite data_map2, (bget_in_range X) by exact Hin.
  rewrite (bget_bidx inv), Hd, Hs. rewrite (bget_bidx v (bidx _ _)), bidx_idem.
  rewrite <- bget_bidx. reflexivity.
Qed.

End Normalization.


(** A square root that is exact on the squares of rationals. *)
Definition sqrt_on_squares (q : Qc) : Qc :=
  Q2Qc (Z.sqrt (Qnum q) # Pos.sqrt (Qden q)).

Definition output_at (r : Result Tensor) (idx : Index) : option Qc :=
  match r with
  | Ok t => Some (data t idx)
  | Raise _ => None
  end.

Definition unit_epsilon_params : Params :=
  mkParams "gn" 1 1 1 false 0 false 3 (frac 1 1) float32.
Definition zero_gamma_beta : Theta := mkTheta (of_flat [1] [frac 0 1]) (of_flat [1] [frac 0 1]).
Definition one_value (q : Qc) : Tensor := of_flat [1; 1; 1; 1] [q].



(** ** What the layer returns: paddings and shape *)

Lemma dtype_reduce_sum x dims : dtype (tf_reduce_sum x dims) = dtype x.
Proof. induction dims as [|a r IH]; cbn; [reflexivity|exact IH]. Qed.

Lemma dtype_drop_axes_below n dims : forall x, dtype (drop_axes_below n dims x) = dtype x.
Proof.
  induction n as [|a IH]; intros x; cbn [drop_axes_below]; [reflexivity|].
  rewrite IH. destruct (existsb (Nat.eqb a) dims); reflexivity.
Qed.

Lemma dtype_reduce_sum_keepdims x dims k : dtype (tf_reduce_sum_keepdims x dims k) = dtype x.
Proof.
  unfold tf_reduce_sum_keepdims. cbv zeta. destruct k.
  - apply dtype_reduce_sum.
  - rewrite dtype_drop_axes_below. apply dtype_reduce_sum.
Qed.

Lemma dtype_ComputeMoments_variance use_tpu inputs padding dims ca crs keepdims W :
  dtype (snd (ComputeMoments use_tpu inputs padding dims ca crs keepdims W)) = dtype inputs.
Proof.
  unfold ComputeMoments, cross_replica_sum. cbv zeta. cbn [snd]. rewrite !if_same.
  unfold tf_div at 1. cbn [tf_map2 dtype].
  destruct ca as [ax|]; [destruct (negb (W =? 0))|]; cbn [_WindowedCumSum tf_sub tf_map2 dtype tf_cumsum];
    rewrite dtype_reduce_sum_keepdims; reflexivity.
Qed.

Lemma Normalize_returns tf_sqrt p X m v :
  dtype v <> int32 -> exists o, _Normalize tf_sqrt p X m v = Ok o.
Proof.
  intros H. unfold _Normalize, tf_rsqrt.
  destruct (dtype v) eqn:E; try congruence; cbn [dtype_eqb].
  - unfold tf_add at 1. cbn [tf_map2 dtype]. rewrite E. cbn [bind]. eexists. reflexivity.
  - cbn [tf_cast dtype bind]. eexists. reflexivity.
Qed.

Lemma shape_ApplyGammaBeta p theta outputs S0 :
  shape outputs = S0 ++ [Z.to_nat (p_dim p)] ->
  shape (_ApplyGammaBeta p theta outputs) = shape outputs.
Proof.
  intros H. unfold _ApplyGammaBeta. cbv zeta. unfold tf_add at 1, tf_mul.
  rewrite !shape_map2. cbn [tf_cast tf_reshape shape]. rewrite H, !bshape_last. reflexivity.
Qed.

Lemma StreamMoments_returns X paddings st :
  length (shape X) = 4 \/ length (shape X) = 5 ->
  exists m v st', _StreamMoments X paddings st = Ok (m, v, st') /\ dtype v = dtype X.
Proof.
  intros H. unfold _StreamMoments.
  assert (E : (length (shape X) =? 4) || (length (shape X) =? 5) = true)
    by (destruct H as [-> | ->]; reflexivity).
  rewrite E. cbn [assert bind]. cbv zeta.
  do 3 eexists. split; [reflexivity|].
  unfold tf_div. cbn [tf_map2 dtype]. unfold tf_add at 1. cbn [tf_map2 dtype tf_cumsum].
  rewrite dtype_reduce_sum. destruct paddings; reflexivity.
Qed.

Lemma dtype_TrimFromTheFront slicing b n x trim keep out :
  dtype (_TrimFromTheFront slicing b n x trim keep out) = dtype x.
Proof. unfold _TrimFromTheFront. destruct slicing; reflexivity. Qed.

Lemma StreamWindowedMoments_returns tail_fill slicing p X paddings st :
  length (shape X) = 4 \/ length (shape X) = 5 ->
  exists m v st',
    _StreamWindowedMoments_path tail_fill slicing p X paddings st = Ok (m, v, st')
    /\ dtype v = dtype (cached_vars st).
Proof.
  intros H. unfold _StreamWindowedMoments_path.
  assert (E : (length (shape X) =? 4) || (length (shape X) =? 5) = true)
    by (destruct H as [-> | ->]; reflexivity).
  rewrite E. cbn [assert bind]. cbv zeta.
  unfold _ComputeWindowedCumSum. cbv zeta.
  destruct slicing.
  - cbv beta iota. do 3 eexists. split; [reflexivity|].
    destruct (negb (length (shape X) =? 4)); reflexivity.
  - unfold ConcatenatePaddedSequences. cbv beta iota zeta.
    do 3 eexists. split; [reflexivity|].
    destruct (negb (length (shape X) =? 4)); reflexivity.
Qed.

Lemma shape_CastToFPropDtype p x : shape (_CastToFPropDtype p x) = shape x.
Proof. unfold _CastToFPropDtype. destruct (dtype x); reflexivity. Qed.

Lemma dtype_CastToFPropDtype p x :
  dtype x <> int32 -> dtype (_CastToFPropDtype p x) = FPropDtype p.
Proof. unfold _CastToFPropDtype. destruct (dtype x); try reflexivity. congruence. Qed.

Lemma teq_CastToFPropDtype p x : FPropDtype p <> int32 -> teq (_CastToFPropDtype p x) x.
Proof.
  intros H. unfold _CastToFPropDtype.
  destruct (dtype x); try apply teq_refl;
    (split; [reflexivity|]; intros idx _; apply data_cast_float; exact H).
Qed.

Lemma num_groups_returns p gs : group_size p = Ok gs -> num_groups p = Ok (p_dim p / gs)%Z.
Proof. intros H. unfold num_groups. rewrite H. reflexivity. Qed.

Lemma rank_3_or_4 (S0 : list nat) (d : nat) :
  length S0 = 2 \/ length S0 = 3 ->
  (length (S0 ++ [d]) =? 3) || (length (S0 ++ [d]) =? 4) = true.
Proof. intros [H|H]; rewrite length_app, H; reflexivity. Qed.


Definition two_channels : Tensor :=
  of_flat [1; 2; 2] [frac 1 1; frac 2 1; frac 3 1; frac 4 1].
Definition two_valid_steps : Tensor := of_flat [1; 2] [frac 0 1; frac 0 1].
Definition unit_theta : Theta :=
  mkTheta (of_flat [2] [frac 0 1; frac 0 1]) (of_flat [2] [frac 0 1; frac 0 1]).


(** * The estimators on grouped inputs of either rank

    The layer hands its estimators a grouped input [[b, t, n, g]] (layer
    inputs [[b, t, c]]) or [[b, t, f, n, g]] (layer inputs [[b, t, f, c]]).
    The closed forms of the rank-4 branch carry over to the rank-5 branch,
    where a cell gathers the axes [f] and [g]. *)

(** ** Closed forms on rank-5 inputs *)

Lemma bget5 x d0 d1 d2 d3 d4 i j a l k :
  shape x = [d0; d1; d2; d3; d4] ->
  bget x [i; j; a; l; k]
  = data x [clampi d0 i; clampi d1 j; clampi d2 a; clampi d3 l; clampi d4 k].
Proof. intros H. unfold bget. rewrite H. reflexivity. Qed.

Lemma bshape5 a0 a1 a2 a3 a4 b0 b1 b2 b3 b4 :
  bshape [a0; a1; a2; a3; a4] [b0; b1; b2; b3; b4]
  = [bdim a0 b0; bdim a1 b1; bdim a2 b2; bdim a3 b3; bdim a4 b4].
Proof. reflexivity. Qed.

Lemma InRange5 d0 d1 d2 d3 d4 idx :
  InRange [d0; d1; d2; d3; d4] idx ->
  exists i j a l k,
    idx = [i; j; a; l; k] /\ i < d0 /\ j < d1 /\ a < d2 /\ l < d3 /\ k < d4.
Proof.
  intros H. inversion H as [|i ? r0 ? Hi H0]; subst.
  inversion H0 as [|j ? r1 ? Hj H1]; subst.
  inversion H1 as [|a ? r2 ? Ha H2]; subst.
  inversion H2 as [|l ? r3 ? Hl H3]; subst.
  inversion H3 as [|k ? r4 ? Hk H4]; subst.
  inversion H4; subst. exists i, j, a, l, k. auto 6.
Qed.

Lemma InRange5_intro d0 d1 d2 d3 d4 i j a l k :
  i < d0 -> j < d1 -> a < d2 -> l < d3 -> k < d4 ->
  InRange [d0; d1; d2; d3; d4] [i; j; a; l; k].
Proof. intros. repeat constructor; assumption. Qed.

(** Removing and inserting the unit axis 2. *)
Lemma squeeze2_rank5 x b t n m :
  shape x = [b; t; 1; n; m] ->
  shape (tf_squeeze x [2]) = [b; t; n; m]
  /\ forall i j l k, i < b -> j < t -> l < n -> k < m ->
       data (tf_squeeze x [2]) [i; j; l; k] = data x [i; j; 0; l; k].
Proof.
  intros Hx. unfold tf_squeeze. rewrite Hx. cbn [remove_axes fold_right remove_at].
  split; [reflexivity|]. intros i j l k Hi Hj Hl Hk.
  apply data_reshape.
  - rewrite Hx. apply InRange5_intro; lia.
  - rewrite Hx. unfold ravel. cbn [rev app ravel_rev]. ring.
Qed.

Lemma expand2_rank4 x b t n m :
  shape x = [b; t; n; m] ->
  shape (tf_expand_dims x 2) = [b; t; 1; n; m]
  /\ forall i j l k, i < b -> j < t -> l < n -> k < m ->
       data (tf_expand_dims x 2) [i; j; 0; l; k] = data x [i; j; l; k].
Proof.
  intros Hx. unfold tf_expand_dims. rewrite Hx. cbn [insert_at].
  split; [reflexivity|]. intros i j l k Hi Hj Hl Hk.
  apply data_reshape.
  - rewrite Hx. apply InRange4_intro; lia.
  - rewrite Hx. unfold ravel. cbn [rev app ravel_rev]. ring.
Qed.

Lemma expand4_rank4 x b t :
  shape x = [b; t; 1; 1] ->
  shape (tf_expand_dims x 4) = [b; t; 1; 1; 1]
  /\ forall i j, i < b -> j < t ->
       data (tf_expand_dims x 4) [i; j; 0; 0; 0] = data x [i; j; 0; 0].
Proof.
  intros Hx. unfold tf_expand_dims. rewrite Hx. cbn [insert_at].
  split; [reflexivity|]. intros i j Hi Hj.
  apply data_reshape.
  - rewrite Hx. apply InRange4_intro; lia.
  - rewrite Hx. unfold ravel. cbn [rev app ravel_rev]. ring.
Qed.

(** The sum over the two reduced axes of the masked values of one step. *)
Definition cell_sum5 (X P : Tensor) (f g i l s : nat) : Qc :=
  sum_n f (fun a => sum_n g (fun k =>
    if pad_at P i s then 0%Qc else data X [i; s; a; l; k])).

(** The masked sum over the axes 2 and 4 of a rank-5 tensor, for a mask
    [[b, t, 1, 1, 1]] that reads as [P] of shape [[b, t, 1, 1]]. *)
Lemma masked_sum_rank5 (P5 P Y : Tensor) (b t f n g : nat) :
  shape P5 = [b; t; 1; 1; 1] ->
  (forall i j, i < b -> j < t -> data P5 [i; j; 0; 0; 0] = data P [i; j; 0; 0]) ->
  shape Y = [b; t; f; n; g] ->
  shape (tf_reduce_sum (ApplyPadding P5 Y) [2; 4]) = [b; t; 1; n; 1]
  /\ forall i j l, i < b -> j < t -> l < n ->
       data (tf_reduce_sum (ApplyPadding P5 Y) [2; 4]) [i; j; 0; l; 0]
       = cell_sum5 Y P f g i l j.
Proof.
  intros HP5 HPd HY. cbn [tf_reduce_sum fold_right]. unfold reduce_axis. cbn [shape data].
  rewrite shape_ApplyPadding, HY, HP5, bshape5, !bdim_same, !bdim_one_l.
  cbn [upd extent nth]. split; [reflexivity|].
  intros i j l Hi Hj Hl. unfold cell_sum5. apply sum_n_ext. intros a Ha.
  apply sum_n_ext. intros k Hk.
  rewrite data_ApplyPadding, (bget5 P5 _ _ _ _ _ _ _ _ _ _ HP5),
    (bget5 Y _ _ _ _ _ _ _ _ _ _ HY).
  rewrite !clampi_one, !clampi_id by assumption.
  unfold pad_at. rewrite HPd by assumption. reflexivity.
Qed.

Lemma masked_cumsum_rank5 (P Y : Tensor) (b t f n g : nat)
    (cellf : nat -> nat -> nat -> Qc) :
  shape P = [b; t; 1; 1] -> shape Y = [b; t; f; n; g] ->
  (forall i l s, i < b -> l < n -> s < t -> cell_sum5 Y P f g i l s = cellf i l s) ->
  shape (tf_cumsum
           (tf_squeeze (tf_reduce_sum (ApplyPadding (tf_expand_dims P 4) Y) [2; 4]) [2]) 1)
  = [b; t; n; 1]
  /\ forall i j l, i < b -> j < t -> l < n ->
       data (tf_cumsum
               (tf_squeeze (tf_reduce_sum (ApplyPadding (tf_expand_dims P 4) Y) [2; 4]) [2])
               1) [i; j; l; 0]
       = sum_n (S j) (cellf i l).
Proof.
  intros HP HY Hcell.
  destruct (expand4_rank4 P b t HP) as [He_s He_d].
  destruct (masked_sum_rank5 (tf_expand_dims P 4) P Y b t f n g He_s He_d HY) as [Hs Hd].
  destruct (squeeze2_rank5 _ b t n 1 Hs) as [Hq_s Hq_d].
  split; [exact Hq_s|]. apply cumsum_rank4; [exact Hq_s|].
  intros i j l Hi Hj Hl. rewrite Hq_d, Hd by (assumption || lia). apply Hcell; assumption.
Qed.

(** ** One step of the windowed streaming estimator on rank-5 inputs *)

Section WindowedStepRank5.
Variable tail_fill : Tensor -> Tensor -> Index -> Qc.
Variables (slicing : bool) (p : Params) (X P5 : Tensor) (st : CachedWindow).
Variables (b t f n g W : nat) (c : nat -> nat).
Hypothesis HX : shape X = [b; t; f; n; g].
Hypothesis HP5 : shape P5 = [b; t; 1; 1; 1].
Hypothesis HKs : shape (cached_sums st) = [b; W; n; 1].
Hypothesis HKv : shape (cached_vars st) = [b; W; n; 1].
Hypothesis HC : shape (cached_count_w st) = [b; 1; 1; 1].
Hypothesis HCd : forall i, i < b -> data (cached_count_w st) [i; 0; 0; 0] = Qc_of_nat (c i).
Hypothesis HcW : forall i, i < b -> c i <= W.
Hypothesis Hb : 0 < b.
Hypothesis HW : Z.to_nat (p_window_size p) = W.

(** The mask as the rank-4 part of the estimator reads it. *)
Let P := tf_squeeze P5 [2].

Hypothesis Hunif :
  slicing = true -> forall i, i < b -> c i = c 0 /\ chunk_len t P i = chunk_len t P 0.

Lemma squeezed_paddings_rank4 :
  shape P = [b; t; 1; 1]
  /\ forall i j, i < b -> j < t -> data P [i; j; 0; 0] = data P5 [i; j; 0; 0; 0].
Proof.
  destruct (squeeze2_rank5 P5 b t 1 1 HP5) as [Hs Hd]. split; [exact Hs|].
  intros i j Hi Hj. apply Hd; lia.
Qed.

Definition w_mean5 (i l j : nat) : Qc :=
  (window_out t W P (cached_sums st) c (cell_sum5 X P f g) i l j
   / w_denom P (f * g) W c i j)%Qc.

Definition w_sq5 (i l s : nat) : Qc :=
  sum_n f (fun a => sum_n g (fun k =>
    if pad_at P i s then 0%Qc else sqr (data X [i; s; a; l; k] - w_mean5 i l s)%Qc)).

Definition w_var5 (i l j : nat) : Qc :=
  (window_out t W P (cached_vars st) c w_sq5 i l j / w_denom P (f * g) W c i j)%Qc.

Let cc1 := tf_squeeze (cached_count_w st) [1; 2; 3].

Lemma StreamWindowedMoments_rank5 :
  exists mean var st',
    _StreamWindowedMoments_path tail_fill slicing p X (Some P5) st = Ok (mean, var, st')
    /\ shape mean = [b; t; 1; n; 1] /\ shape var = [b; t; 1; n; 1]
    /\ (forall i j l, i < b -> j < t -> l < n ->
          data mean [i; j; 0; l; 0] = w_mean5 i l j
          /\ data var [i; j; 0; l; 0] = w_var5 i l j)
    /\ shape (cached_sums st') = [b; W; n; 1]
    /\ shape (cached_vars st') = [b; W; n; 1]
    /\ shape (cached_count_w st') = [b; 1; 1; 1]
    /\ (forall i k l, i < b -> k < W -> l < n ->
          data (cached_sums st') [i; k; l; 0]
          = new_cache_at t W P (cached_sums st) c (cell_sum5 X P f g) i l k
          /\ data (cached_vars st') [i; k; l; 0]
             = new_cache_at t W P (cached_vars st) c w_sq5 i l k)
    /\ (forall i, i < b ->
          data (cached_count_w st') [i; 0; 0; 0] = Qc_of_nat (new_count t W P c i)).
Proof.
  destruct squeezed_paddings_rank4 as [HP HPd].
  destruct (squeezed_count b _ c HC HCd) as [Hs1 Hd1]. fold cc1 in Hs1, Hd1.
  destruct (cached_paddings_rank2 b W _ c HC HCd) as [Hcp_s Hcp_d]. fold cc1 in Hcp_s, Hcp_d.
  pose proof (last_index_rank2 b _ c HC HCd) as Hli. fold cc1 in Hli.
  destruct (current_input_lengths_rank1 b t P HP) as [Hl_s Hl_d].
  unfold _StreamWindowedMoments_path. rewrite HX, HW.
  cbn [length Nat.eqb orb assert bind negb extent nth].
  cbv beta iota zeta. fold P. fold cc1.
  change (tf_cast (tf_expand_dims
            (tf_maximum (tf_sub cc1 (tf_scalar 1%Qc)) (tf_fill [1] 0%Qc)) 1) int32)
    with (last_index_of cc1).
  change (tf_cast (LengthsFromPaddings (select_axis 2 0 (select_axis 2 0 P))) int32)
    with (lengths_of P).
  destruct (ComputeWindowedCumSum_rank4 b t n W true cc1 (last_index_of cc1) (lengths_of P)
              X P (cached_sums st) (PaddingsFromLengths cc1 W) c (cell_sum5 X P f g)
              Hb Hd1 Hli Hl_s Hs1 Hl_d HP HKs Hcp_s Hcp_d HcW
              (masked_cumsum_rank5 P X b t f n g _ HP HX (fun i l s _ _ _ => eq_refl))
              tail_fill slicing Hunif)
    as (sum_v & concat_sum_v & cpads & E1 & Ho_s & Ho_d & Hcs & Hcd & Hc0 & Hps & Hpd).
  rewrite E1.
  destruct (GetUpdatedCount_rank4 p P st b t W c HP HC HCd Hb HW (dtype X)) as [Hg_s Hg_d].
  fold cc1 in Hg_s, Hg_d.
  set (count_v := _GetUpdatedCount (dtype X) b W cc1 P) in *.
  set (denom := tf_maximum (tf_mul count_v (tf_scalar (Qc_of_nat (f * g))))
                           (tf_scalar 1%Qc)).
  assert (Hden : shape denom = [b; t; 1; 1]
                 /\ forall i j, i < b -> j < t ->
                      data denom [i; j; 0; 0] = w_denom P (f * g) W c i j).
  { unfold denom, tf_maximum, tf_mul. rewrite !shape_map2. cbn [shape tf_scalar tf_fill].
    rewrite !bshape_nil_r. split; [exact Hg_s|].
    intros i j Hi Hj. rewrite data_map2, bget_scalar.
    rewrite bget_in_range by (rewrite shape_map2; cbn [shape tf_scalar tf_fill];
                              rewrite bshape_nil_r, Hg_s; apply InRange4_intro; lia).
    rewrite data_map2, bget_scalar.
    rewrite bget_in_range by (rewrite Hg_s; apply InRange4_intro; lia).
    rewrite Hg_d by assumption. reflexivity. }
  destruct Hden as [Hds Hdd].
  set (mean4 := tf_div sum_v denom).
  assert (Hmean : shape mean4 = [b; t; n; 1]
                  /\ forall i j l, i < b -> j < t -> l < n ->
                       data mean4 [i; j; l; 0] = w_mean5 i l j).
  { unfold mean4, tf_div. rewrite shape_map2, Ho_s, Hds, bshape4, !bdim_same, bdim_one_r.
    split; [reflexivity|]. intros i j l Hi Hj Hl.
    rewrite data_map2, (bget4 sum_v _ _ _ _ _ _ _ _ Ho_s), (bget4 denom _ _ _ _ _ _ _ _ Hds).
    rewrite !clampi_one, !clampi_id by assumption.
    rewrite Ho_d, Hdd by assumption. reflexivity. }
  destruct Hmean as [Hms Hmd].
  destruct (expand2_rank4 mean4 b t n 1 Hms) as [Hm5s Hm5d].
  set (mean := tf_expand_dims mean4 2) in *.
  set (sqd := tf_squared_difference X mean).
  assert (Hsq : shape sqd = [b; t; f; n; g]).
  { unfold sqd, tf_squared_difference.
    rewrite shape_map2, HX, Hm5s, bshape5, !bdim_same, !bdim_one_r. reflexivity. }
  assert (Hcell2 : forall i l s, i < b -> l < n -> s < t ->
            cell_sum5 sqd P f g i l s = w_sq5 i l s).
  { intros i l s Hi Hl Hs. unfold cell_sum5, w_sq5. apply sum_n_ext. intros a Ha.
    apply sum_n_ext. intros k Hk.
    destruct (pad_at P i s); [reflexivity|].
    unfold sqd, tf_squared_difference.
    rewrite data_map2, (bget5 X _ _ _ _ _ _ _ _ _ _ HX), (bget5 mean _ _ _ _ _ _ _ _ _ _ Hm5s).
    rewrite !clampi_one, !clampi_id by assumption.
    rewrite Hm5d, Hmd by (assumption || lia). reflexivity. }
  destruct (ComputeWindowedCumSum_rank4 b t n W true cc1 (last_index_of cc1) (lengths_of P)
              sqd P (cached_vars st) (PaddingsFromLengths cc1 W) c w_sq5
              Hb Hd1 Hli Hl_s Hs1 Hl_d HP HKv Hcp_s Hcp_d HcW
              (masked_cumsum_rank5 P sqd b t f n g _ HP Hsq Hcell2)
              tail_fill slicing Hunif)
    as (sum_vv & concat_sum_vv & cpads2 & E2 & Hv_s & Hv_d & Hcs2 & Hcd2 & Hc02 & _ & _).
  rewrite E2.
  destruct (new_cache_rank4 b t n W P (cached_sums st) c (cell_sum5 X P f g) Hb HcW slicing
              concat_sum_v cpads Hcs Hcd Hc0 Hunif Hps Hpd) as [Hn1 Hn2].
  destruct (new_cache_rank4 b t n W P (cached_vars st) c w_sq5 Hb HcW slicing
              concat_sum_vv cpads Hcs2 Hcd2 Hc02 Hunif Hps Hpd) as [Hn3 Hn4].
  destruct (new_count_rank4 b t W P c Hb HcW cpads Hps Hpd) as [Hn5 Hn6].
  set (var4 := tf_div sum_vv denom).
  assert (Hvar : shape var4 = [b; t; n; 1]
                 /\ forall i j l, i < b -> j < t -> l < n ->
                      data var4 [i; j; l; 0] = w_var5 i l j).
  { unfold var4, tf_div. rewrite shape_map2, Hv_s, Hds, bshape4, !bdim_same, bdim_one_r.
    split; [reflexivity|]. intros i j l Hi Hj Hl.
    rewrite data_map2, (bget4 sum_vv _ _ _ _ _ _ _ _ Hv_s), (bget4 denom _ _ _ _ _ _ _ _ Hds).
    rewrite !clampi_one, !clampi_id by assumption.
    rewrite Hv_d, Hdd by assumption. reflexivity. }
  destruct Hvar as [Hvs Hvd].
  destruct (expand2_rank4 var4 b t n 1 Hvs) as [Hv5s Hv5d].
  eexists _, _, _. split; [reflexivity|]. cbn [cached_sums cached_vars cached_count_w].
  split; [exact Hm5s|]. split; [exact Hv5s|].
  split.
  { intros i j l Hi Hj Hl. split.
    - rewrite Hm5d by (assumption || lia). apply Hmd; assumption.
    - rewrite Hv5d by (assumption || lia). apply Hvd; assumption. }
  split; [exact Hn1|]. split; [exact Hn3|]. split; [exact Hn5|].
  split.
  - intros i k l Hi Hk Hl. split; [apply Hn2|apply Hn4]; assumption.
  - exact Hn6.
Qed.

End WindowedStepRank5.

(** ** Moments per lane *)

(** The moments of one lane [(i, l)] as the batch estimator computes them,
    from the sums of the cells ([csum]) and the sums of their squared
    deviations from a given mean ([csq]); [G] is the size of a cell. *)
Section BatchLanes.
Variables (P : Tensor) (G T Wc : nat).
Variable csum : nat -> nat -> nat -> Qc.
Variable csq : Qc -> nat -> nat -> nat -> Qc.

Definition lane_denom (i j : nat) : Qc :=
  Qcmax (acc Wc T P i (cell_cnt P i) j * Qc_of_nat G)%Qc 1%Qc.

Definition lane_mean (i l j : nat) : Qc :=
  (acc Wc T P i (csum i l) j / lane_denom i j)%Qc.

Definition lane_sq (i l s : nat) : Qc := csq (lane_mean i l s) i l s.

Definition lane_var (i l j : nat) : Qc :=
  (acc Wc T P i (lane_sq i l) j / lane_denom i j)%Qc.

End BatchLanes.

Definition cell_sq (X P : Tensor) (g : nat) (mu : Qc) (i l s : nat) : Qc :=
  sum_n g (fun k => if pad_at P i s then 0%Qc else sqr (data X [i; s; l; k] - mu)%Qc).

Definition cell_sq5 (X P : Tensor) (f g : nat) (mu : Qc) (i l s : nat) : Qc :=
  sum_n f (fun a => sum_n g (fun k =>
    if pad_at P i s then 0%Qc else sqr (data X [i; s; a; l; k] - mu)%Qc)).

Lemma batch_denom_lane P T g Wc i j : batch_denom P T g Wc i j = lane_denom P g T Wc i j.
Proof. unfold batch_denom, lane_denom. rewrite mask_multiplier_rank4. reflexivity. Qed.

Lemma batch_mean_lane X P T g Wc i l j :
  batch_mean X P T g Wc i l j = lane_mean P g T Wc (cell_sum X P g) i l j.
Proof. unfold batch_mean, lane_mean. rewrite batch_denom_lane. reflexivity. Qed.

Lemma batch_sq_lane X P T g Wc i l s :
  batch_sq X P T g Wc i l s = lane_sq P g T Wc (cell_sum X P g) (cell_sq X P g) i l s.
Proof.
  unfold batch_sq, lane_sq, cell_sq. apply sum_n_ext. intros k _.
  rewrite batch_mean_lane. reflexivity.
Qed.

Lemma acc_ext Wc T P i f f' j :
  j < T -> (forall s, s < T -> f s = f' s) -> acc Wc T P i f j = acc Wc T P i f' j.
Proof.
  intros Hj H. unfold acc, win.
  assert (E : forall q, q < T -> sum_n (S q) f = sum_n (S q) f').
  { intros q Hq. apply sum_n_ext. intros s Hs. apply H. lia. }
  destruct (Wc =? 0); [apply E; exact Hj|].
  rewrite (E j Hj), (E ((j + (T - Nat.min Wc T mod T)) mod T)); [reflexivity|].
  apply Nat.mod_upper_bound. lia.
Qed.

Lemma batch_var_lane X P T g Wc i l j : j < T ->
  batch_var X P T g Wc i l j
  = lane_var P g T Wc (cell_sum X P g) (cell_sq X P g) i l j.
Proof.
  intros Hj. unfold batch_var, lane_var. rewrite batch_denom_lane. f_equal.
  apply acc_ext; [exact Hj|]. intros s _. apply batch_sq_lane.
Qed.

(** ** The batch estimator on rank-5 inputs *)

Section BatchRank5.
Variables (use_tpu crs : bool) (X P5 P : Tensor) (b T f n g Wc : nat).
Hypothesis HX : shape X = [b; T; f; n; g].
Hypothesis HP5 : shape P5 = [b; T; 1; 1; 1].
Hypothesis HPd : forall i j, i < b -> j < T -> data P5 [i; j; 0; 0; 0] = data P [i; j; 0; 0].

Let CM := ComputeMoments use_tpu X P5 [2; 4] (Some 1) crs true Wc.

Lemma accumulate_rank5 (v : Tensor) (m : nat) (h : nat -> nat -> nat -> Qc) :
  shape v = [b; T; 1; m; 1] ->
  (forall i j l, i < b -> j < T -> l < m -> data v [i; j; 0; l; 0] = h i l j) ->
  let r := (let v1 := tf_cumsum v 1 in
            if negb (Wc =? 0) then _WindowedCumSum v1 P5 (Nat.min Wc (extent 1 (shape X))) 1
            else v1) in
  shape r = [b; T; 1; m; 1]
  /\ forall i j l, i < b -> j < T -> l < m ->
       data r [i; j; 0; l; 0] = acc Wc T P i (h i l) j.
Proof.
  intros Hv Hd. cbv zeta.
  assert (Hc : forall i j l, i < b -> j < T -> l < m ->
             data (tf_cumsum v 1) [i; j; 0; l; 0] = sum_n (S j) (h i l)).
  { intros i j l Hi Hj Hl. unfold tf_cumsum. cbn [data ix nth upd].
    apply sum_n_ext. intros s Hs. apply Hd; lia. }
  unfold acc. destruct (Nat.eqb_spec Wc 0) as [E|E]; cbn [negb].
  - split; [exact Hv|exact Hc].
  - assert (Hs1 : shape (tf_cumsum v 1) = b :: T :: [1; m; 1]) by exact Hv.
    assert (Hp1 : shape P5 = b :: T :: repeat 1 (length [1; m; 1])) by exact HP5.
    split.
    + rewrite (shape_WindowedCumSum _ _ _ _ _ _ Hs1 Hp1). exact Hv.
    + intros i j l Hi Hj Hl.
      rewrite (data_WindowedCumSum _ _ _ _ _ _ Hs1 Hp1)
        by (rewrite Hs1; repeat constructor; assumption || lia).
      rewrite HX. cbn [extent nth length repeat].
      unfold win, pad_at. rewrite !Hc, HPd; try assumption; [reflexivity|].
      apply Nat.mod_upper_bound. lia.
Qed.

Lemma mask_count_rank5 :
  shape (tf_reduce_sum (ApplyPadding P5 (tf_ones [])) [2; 4]) = [b; T; 1; 1; 1]
  /\ forall i j l, i < b -> j < T -> l < 1 ->
       data (tf_reduce_sum (ApplyPadding P5 (tf_ones [])) [2; 4]) [i; j; 0; l; 0]
       = cell_cnt P i j.
Proof.
  cbn [tf_reduce_sum fold_right]. unfold reduce_axis. cbn [shape data].
  rewrite shape_ApplyPadding. cbn [shape tf_ones tf_fill]. rewrite bshape_nil_r, HP5.
  cbn [upd extent nth]. split; [reflexivity|].
  intros i j l Hi Hj Hl. rewrite !sum_n_one. cbn [upd].
  rewrite data_ApplyPadding, (bget5 P5 _ _ _ _ _ _ _ _ _ _ HP5).
  rewrite !clampi_one, !clampi_id by assumption.
  unfold cell_cnt, pad_at. rewrite HPd by assumption. reflexivity.
Qed.

Lemma ComputeMoments_rank5 :
  shape (fst CM) = [b; T; 1; n; 1] /\ shape (snd CM) = [b; T; 1; n; 1]
  /\ forall i j l, i < b -> j < T -> l < n ->
       data (fst CM) [i; j; 0; l; 0]
       = lane_mean P (f * g) T Wc (cell_sum5 X P f g) i l j
       /\ data (snd CM) [i; j; 0; l; 0]
          = lane_var P (f * g) T Wc (cell_sum5 X P f g) (cell_sq5 X P f g) i l j.
Proof.
  unfold CM, ComputeMoments, cross_replica_sum, tf_reduce_sum_keepdims.
  cbv beta iota zeta. cbn [fst snd].
  rewrite !if_same.
  destruct (masked_sum_rank5 P5 P X b T f n g HP5 HPd HX) as [Hs0 Hd0].
  destruct mask_count_rank5 as [Hc0 Hcd0].
  destruct (accumulate_rank5 _ n (fun i l j => cell_sum5 X P f g i l j) Hs0 Hd0) as [Hs1 Hd1].
  destruct (accumulate_rank5 _ 1 (fun i l j => cell_cnt P i j) Hc0 Hcd0) as [Hc1 Hcd1].
  cbv zeta in Hs1, Hd1, Hc1, Hcd1.
  set (sum_v := if negb (Wc =? 0)
                then _WindowedCumSum
                       (tf_cumsum (tf_reduce_sum (ApplyPadding P5 X) [2; 4]) 1) P5 _ 1
                else _) in *.
  set (cnt := if negb (Wc =? 0)
              then _WindowedCumSum
                     (tf_cumsum (tf_reduce_sum (ApplyPadding P5 (tf_ones [])) [2; 4]) 1) P5 _ 1
              else _) in *.
  assert (Hmm : (Qc_of_nat (prod_list (map (fun a : nat => extent a (shape X)) [2; 4]))
                 / Qc_of_nat (prod_list
                      (map (fun a : nat => extent a (shape (ApplyPadding P5 (tf_ones []))))
                           [2; 4])))%Qc
                = Qc_of_nat (f * g)).
  { rewrite shape_ApplyPadding. cbn [shape tf_ones tf_fill]. rewrite bshape_nil_r, HX, HP5.
    cbn [map extent nth prod_list]. rewrite !Nat.mul_1_r. cbn [Nat.mul Nat.add].
    rewrite Qc_of_nat_1. field. intros H. discriminate H. }
  rewrite Hmm. clear Hmm.
  set (denom := tf_maximum (tf_mul cnt (tf_scalar _)) (tf_scalar 1%Qc)).
  assert (Hden : shape denom = [b; T; 1; 1; 1]
                 /\ forall i j, i < b -> j < T ->
                      data denom [i; j; 0; 0; 0] = lane_denom P (f * g) T Wc i j).
  { unfold denom, tf_maximum, tf_mul. rewrite !shape_map2. cbn [shape tf_scalar tf_fill].
    rewrite !bshape_nil_r. split; [exact Hc1|].
    intros i j Hi Hj. rewrite !data_map2, !bget_scalar.
    rewrite bget_bidx, shape_map2. cbn [shape tf_scalar tf_fill].
    rewrite bshape_nil_r, Hc1, bidx_id by (repeat constructor; assumption || lia).
    rewrite data_map2, bget_scalar, bget_in_range
      by (rewrite Hc1; repeat constructor; assumption || lia).
    rewrite Hcd1 by (assumption || lia). reflexivity. }
  destruct Hden as [Hds Hdd].
  set (mean := tf_div sum_v denom).
  assert (Hmean : shape mean = [b; T; 1; n; 1]
                  /\ forall i j l, i < b -> j < T -> l < n ->
                       data mean [i; j; 0; l; 0]
                       = lane_mean P (f * g) T Wc (cell_sum5 X P f g) i l j).
  { unfold mean, tf_div. rewrite shape_map2, Hs1, Hds, bshape5, !bdim_same, bdim_one_r.
    split; [reflexivity|]. intros i j l Hi Hj Hl.
    rewrite data_map2, (bget5 sum_v _ _ _ _ _ _ _ _ _ _ Hs1),
      (bget5 denom _ _ _ _ _ _ _ _ _ _ Hds).
    rewrite !clampi_one, !clampi_id by assumption.
    rewrite Hd1, Hdd by assumption. reflexivity. }
  destruct Hmean as [Hms Hmd].
  split; [exact Hms|].
  set (sqd := tf_squared_difference X mean).
  assert (Hsq : shape sqd = [b; T; f; n; g]).
  { unfold sqd, tf_squared_difference.
    rewrite shape_map2, HX, Hms, bshape5, !bdim_same, !bdim_one_r. reflexivity. }
  destruct (masked_sum_rank5 P5 P sqd b T f n g HP5 HPd Hsq) as [Hv0 Hvd0].
  assert (Hvd0' : forall i j l, i < b -> j < T -> l < n ->
            data (tf_reduce_sum (ApplyPadding P5 sqd) [2; 4]) [i; j; 0; l; 0]
            = lane_sq P (f * g) T Wc (cell_sum5 X P f g) (cell_sq5 X P f g) i l j).
  { intros i j l Hi Hj Hl. rewrite Hvd0 by assumption. unfold lane_sq, cell_sum5 at 1, cell_sq5.
    apply sum_n_ext. intros a Ha. apply sum_n_ext. intros k Hk.
    destruct (pad_at P i j); [reflexivity|].
    unfold sqd, tf_squared_difference.
    rewrite data_map2, (bget5 X _ _ _ _ _ _ _ _ _ _ HX), (bget5 mean _ _ _ _ _ _ _ _ _ _ Hms).
    rewrite !clampi_one, !clampi_id by assumption.
    rewrite Hmd by assumption. reflexivity. }
  destruct (accumulate_rank5 _ n _ Hv0 Hvd0') as [Hv1 Hvd1].
  cbv zeta in Hv1, Hvd1.
  set (sum_vv := if negb (Wc =? 0)
                 then _WindowedCumSum
                        (tf_cumsum (tf_reduce_sum (ApplyPadding P5 sqd) [2; 4]) 1) P5 _ 1
                 else _) in *.
  assert (Hvar : shape (tf_div sum_vv denom) = [b; T; 1; n; 1]
                 /\ forall i j l, i < b -> j < T -> l < n ->
                      data (tf_div sum_vv denom) [i; j; 0; l; 0]
                      = lane_var P (f * g) T Wc (cell_sum5 X P f g) (cell_sq5 X P f g)
                          i l j).
  { unfold tf_div. rewrite shape_map2, Hv1, Hds, bshape5, !bdim_same, bdim_one_r.
    split; [reflexivity|]. intros i j l Hi Hj Hl.
    rewrite data_map2, (bget5 sum_vv _ _ _ _ _ _ _ _ _ _ Hv1),
      (bget5 denom _ _ _ _ _ _ _ _ _ _ Hds).
    rewrite !clampi_one, !clampi_id by assumption.
    rewrite Hvd1, Hdd by assumption. reflexivity. }
  destruct Hvar as [Hvs Hvd].
  split; [exact Hvs|]. intros i j l Hi Hj Hl. split; [apply Hmd|apply Hvd]; assumption.
Qed.

End BatchRank5.

(** The moments of one lane as the running streaming estimator computes
    them from a chunk and the cached sums. *)
Section StreamLanes.
Variables (P : Tensor) (G : nat) (st : Cached).
Variable csum : nat -> nat -> nat -> Qc.
Variable csq : Qc -> nat -> nat -> nat -> Qc.

Definition lane_stream_sum (i l j : nat) : Qc :=
  (sum_n (S j) (csum i l) + data (cached_sum st) [i; 0; l; 0]%nat)%Qc.

Definition lane_stream_count (i j : nat) : Qc :=
  (sum_n (S j) (fun s => if pad_at P i s then 0 else Qc_of_nat G)
   + data (cached_count st) [i; 0; 0; 0]%nat)%Qc.

Definition lane_stream_mean (i l j : nat) : Qc :=
  (lane_stream_sum i l j / Qcmax (lane_stream_count i j) 1)%Qc.

Definition lane_stream_sq (i l s : nat) : Qc := csq (lane_stream_mean i l s) i l s.

Definition lane_stream_sqsum (i l j : nat) : Qc :=
  (sum_n (S j) (lane_stream_sq i l) + data (cached_var st) [i; 0; l; 0]%nat)%Qc.

Definition lane_stream_var (i l j : nat) : Qc :=
  (lane_stream_sqsum i l j / Qcmax (lane_stream_count i j) 1)%Qc.

End StreamLanes.

Lemma stream_mean_lane X P st g i l j :
  stream_mean X P st g i l j = lane_stream_mean P g st (cell_sum X P g) i l j.
Proof. reflexivity. Qed.

Lemma stream_sum_lane X P st g i l j :
  stream_sum X P st g i l j = lane_stream_sum st (cell_sum X P g) i l j.
Proof. reflexivity. Qed.

Lemma stream_count_lane P st g i j :
  stream_count P st g i j = lane_stream_count P g st i j.
Proof. reflexivity. Qed.

Lemma stream_sqsum_lane X P st g i l j :
  stream_sqsum X P st g i l j
  = lane_stream_sqsum P g st (cell_sum X P g) (cell_sq X P g) i l j.
Proof. reflexivity. Qed.

Lemma stream_var_lane X P st g i l j :
  stream_var X P st g i l j
  = lane_stream_var P g st (cell_sum X P g) (cell_sq X P g) i l j.
Proof. reflexivity. Qed.

(** ** The running streaming estimator on rank-5 inputs *)

Section StreamRank5.
Variables (Xc P5 P : Tensor) (st : Cached) (b t f n g : nat).
Hypothesis HX : shape Xc = [b; t; f; n; g].
Hypothesis HP5 : shape P5 = [b; t; 1; 1; 1].
Hypothesis HPd : forall i j, i < b -> j < t -> data P5 [i; j; 0; 0; 0] = data P [i; j; 0; 0].
Hypothesis Hcs : shape (cached_sum st) = [b; 1; n; 1].
Hypothesis Hcc : shape (cached_count st) = [b; 1; 1; 1].
Hypothesis Hcv : shape (cached_var st) = [b; 1; n; 1].
Hypothesis Ht : 0 < t.

(** [cumsum(x, axis=1) + expand_dims(cached, 2)] on a tensor
    [[b, t, 1, m, 1]]. *)
Lemma carry_rank5 (v c : Tensor) (m : nat) (h : nat -> nat -> nat -> Qc) :
  shape v = [b; t; 1; m; 1] -> shape c = [b; 1; m; 1] ->
  (forall i j l, i < b -> j < t -> l < m -> data v [i; j; 0; l; 0] = h i l j) ->
  shape (tf_add (tf_cumsum v 1) (tf_expand_dims c 2)) = [b; t; 1; m; 1]
  /\ forall i j l, i < b -> j < t -> l < m ->
       data (tf_add (tf_cumsum v 1) (tf_expand_dims c 2)) [i; j; 0; l; 0]
       = (sum_n (S j) (h i l) + data c [i; 0; l; 0]%nat)%Qc.
Proof.
  intros Hv Hc Hd. destruct (expand2_rank4 c b 1 m 1 Hc) as [He_s He_d].
  unfold tf_add. rewrite shape_map2. cbn [shape tf_cumsum].
  rewrite Hv, He_s, bshape5, !bdim_same, bdim_one_r. split; [reflexivity|].
  intros i j l Hi Hj Hl.
  rewrite data_map2, (bget5 _ b t 1 m 1), (bget5 _ _ _ _ _ _ _ _ _ _ _ He_s) by exact Hv.
  rewrite !clampi_one, !clampi_id by assumption.
  rewrite He_d by (assumption || lia).
  unfold tf_cumsum. cbn [data ix nth upd]. f_equal.
  apply sum_n_ext. intros s Hs. apply Hd; lia.
Qed.

Lemma last_step_rank5 (v : Tensor) (m : nat) :
  shape v = [b; t; 1; m; 1] ->
  shape (tf_squeeze (slice_axis 1 (t - 1) t v) [2]) = [b; 1; m; 1]
  /\ forall i l, i < b -> l < m ->
       data (tf_squeeze (slice_axis 1 (t - 1) t v) [2]) [i; 0; l; 0]
       = data v [i; t - 1; 0; l; 0].
Proof.
  intros Hv.
  assert (Hs : shape (slice_axis 1 (t - 1) t v) = [b; 1; 1; m; 1]).
  { rewrite (shape_slice_axis1 _ _ _ _ _ _ Hv) by lia. f_equal. f_equal. lia. }
  destruct (squeeze2_rank5 _ b 1 m 1 Hs) as [Hq_s Hq_d].
  split; [exact Hq_s|]. intros i l Hi Hl.
  rewrite Hq_d by (assumption || lia).
  rewrite (data_slice_axis1 _ _ _ _ _ _ _ _ _ Hv) by lia.
  rewrite Nat.add_0_r. reflexivity.
Qed.

Lemma StreamMoments_rank5 :
  exists mean var st',
    _StreamMoments Xc (Some P5) st = Ok (mean, var, st')
    /\ shape mean = [b; t; 1; n; 1] /\ shape var = [b; t; 1; n; 1]
    /\ (forall i j l, i < b -> j < t -> l < n ->
          data mean [i; j; 0; l; 0]
          = lane_stream_mean P (f * g) st (cell_sum5 Xc P f g) i l j
          /\ data var [i; j; 0; l; 0]
             = lane_stream_var P (f * g) st (cell_sum5 Xc P f g) (cell_sq5 Xc P f g) i l j)
    /\ shape (cached_sum st') = [b; 1; n; 1]
    /\ shape (cached_count st') = [b; 1; 1; 1]
    /\ shape (cached_var st') = [b; 1; n; 1]
    /\ (forall i l, i < b -> l < n ->
          data (cached_sum st') [i; 0; l; 0]
          = lane_stream_sum st (cell_sum5 Xc P f g) i l (t - 1)
          /\ data (cached_var st') [i; 0; l; 0]
             = lane_stream_sqsum P (f * g) st (cell_sum5 Xc P f g) (cell_sq5 Xc P f g)
                 i l (t - 1))
    /\ (forall i, i < b ->
          data (cached_count st') [i; 0; 0; 0] = lane_stream_count P (f * g) st i (t - 1)).
Proof.
  unfold _StreamMoments. rewrite HX. cbn [length Nat.eqb orb assert bind negb extent nth].
  cbv beta iota zeta.
  destruct (masked_sum_rank5 P5 P Xc b t f n g HP5 HPd HX) as [Hs0 Hd0].
  destruct (carry_rank5 _ (cached_sum st) n (cell_sum5 Xc P f g) Hs0 Hcs Hd0) as [Hs1 Hd1].
  set (sum_v := tf_add (tf_cumsum (tf_reduce_sum (ApplyPadding P5 Xc) [2; 4]) 1)
                       (tf_expand_dims (cached_sum st) 2)) in *.
  assert (Hc0 : shape (tf_reduce_sum
                         (ApplyPadding P5 (tf_cast (tf_scalar (Qc_of_nat (f * g)))
                                                   (dtype Xc))) [2; 4])
                = [b; t; 1; 1; 1]
                /\ forall i j l, i < b -> j < t -> l < 1 ->
                     data (tf_reduce_sum
                             (ApplyPadding P5 (tf_cast (tf_scalar (Qc_of_nat (f * g)))
                                                       (dtype Xc)))
                             [2; 4]) [i; j; 0; l; 0]
                     = (fun i (_ : nat) s =>
                          if pad_at P i s then 0%Qc else Qc_of_nat (f * g)) i l j).
  { cbn [tf_reduce_sum fold_right]. unfold reduce_axis. cbn [shape data].
    rewrite shape_ApplyPadding. cbn [shape tf_cast tf_scalar tf_fill].
    rewrite bshape_nil_r, HP5. cbn [upd extent nth]. split; [reflexivity|].
    intros i j l Hi Hj Hl. rewrite !sum_n_one. cbn [upd].
    rewrite data_ApplyPadding, (bget5 P5 _ _ _ _ _ _ _ _ _ _ HP5), bget_cast_scalar_nat.
    rewrite !clampi_one, !clampi_id by assumption.
    unfold pad_at. rewrite HPd by assumption. reflexivity. }
  destruct Hc0 as [Hc0 Hcd0].
  destruct (carry_rank5 _ (cached_count st) 1 _ Hc0 Hcc Hcd0) as [Hc1 Hcd1].
  set (count_v := tf_add (tf_cumsum (tf_reduce_sum (ApplyPadding P5 _) [2; 4]) 1)
                         (tf_expand_dims (cached_count st) 2)) in *.
  set (denom := tf_maximum count_v (tf_scalar 1%Qc)).
  assert (Hden : shape denom = [b; t; 1; 1; 1]
                 /\ forall i j, i < b -> j < t ->
                      data denom [i; j; 0; 0; 0]
                      = Qcmax (lane_stream_count P (f * g) st i j) 1%Qc).
  { unfold denom, tf_maximum. rewrite shape_map2. cbn [shape tf_scalar tf_fill].
    rewrite bshape_nil_r. split; [exact Hc1|].
    intros i j Hi Hj. rewrite data_map2, bget_scalar, bget_in_range
      by (rewrite Hc1; repeat constructor; assumption || lia).
    rewrite Hcd1 by (assumption || lia). reflexivity. }
  destruct Hden as [Hds Hdd].
  set (mean := tf_div sum_v denom).
  assert (Hmean : shape mean = [b; t; 1; n; 1]
                  /\ forall i j l, i < b -> j < t -> l < n ->
                       data mean [i; j; 0; l; 0]
                       = lane_stream_mean P (f * g) st (cell_sum5 Xc P f g) i l j).
  { unfold mean, tf_div. rewrite shape_map2, Hs1, Hds, bshape5, !bdim_same, bdim_one_r.
    split; [reflexivity|]. intros i j l Hi Hj Hl.
    rewrite data_map2, (bget5 sum_v _ _ _ _ _ _ _ _ _ _ Hs1),
      (bget5 denom _ _ _ _ _ _ _ _ _ _ Hds).
    rewrite !clampi_one, !clampi_id by assumption.
    rewrite Hd1, Hdd by assumption. reflexivity. }
  destruct Hmean as [Hms Hmd].
  set (sqd := tf_squared_difference Xc mean).
  assert (Hsq : shape sqd = [b; t; f; n; g]).
  { unfold sqd, tf_squared_difference.
    rewrite shape_map2, HX, Hms, bshape5, !bdim_same, !bdim_one_r. reflexivity. }
  destruct (masked_sum_rank5 P5 P sqd b t f n g HP5 HPd Hsq) as [Hv0 Hvd0].
  assert (Hvd0' : forall i j l, i < b -> j < t -> l < n ->
            data (tf_reduce_sum (ApplyPadding P5 sqd) [2; 4]) [i; j; 0; l; 0]
            = lane_stream_sq P (f * g) st (cell_sum5 Xc P f g) (cell_sq5 Xc P f g) i l j).
  { intros i j l Hi Hj Hl. rewrite Hvd0 by assumption.
    unfold lane_stream_sq, cell_sum5 at 1, cell_sq5.
    apply sum_n_ext. intros a Ha. apply sum_n_ext. intros k Hk.
    destruct (pad_at P i j); [reflexivity|].
    unfold sqd, tf_squared_difference.
    rewrite data_map2, (bget5 Xc _ _ _ _ _ _ _ _ _ _ HX), (bget5 mean _ _ _ _ _ _ _ _ _ _ Hms).
    rewrite !clampi_one, !clampi_id by assumption.
    rewrite Hmd by assumption. reflexivity. }
  destruct (carry_rank5 _ (cached_var st) n _ Hv0 Hcv Hvd0') as [Hv1 Hvd1].
  set (sum_vv := tf_add (tf_cumsum (tf_reduce_sum (ApplyPadding P5 sqd) [2; 4]) 1)
                        (tf_expand_dims (cached_var st) 2)) in *.
  destruct (last_step_rank5 sum_v n Hs1) as [Hn1 Hn2].
  destruct (last_step_rank5 count_v 1 Hc1) as [Hn3 Hn4].
  destruct (last_step_rank5 sum_vv n Hv1) as [Hn5 Hn6].
  eexists _, _, _. split; [reflexivity|]. cbn [cached_sum cached_count cached_var].
  split; [exact Hms|].
  split.
  { unfold tf_div. rewrite shape_map2, Hv1, Hds, bshape5, !bdim_same, bdim_one_r.
    reflexivity. }
  split.
  { intros i j l Hi Hj Hl. split; [apply Hmd; assumption|].
    unfold tf_div.
    rewrite data_map2, (bget5 sum_vv _ _ _ _ _ _ _ _ _ _ Hv1),
      (bget5 denom _ _ _ _ _ _ _ _ _ _ Hds).
    rewrite !clampi_one, !clampi_id by assumption.
    rewrite Hvd1, Hdd by assumption. reflexivity. }
  split; [exact Hn1|]. split; [exact Hn3|]. split; [exact Hn5|].
  split.
  - intros i l Hi Hl. rewrite Hn2, Hn6, Hd1, Hvd1 by (assumption || lia).
    split; reflexivity.
  - intros i Hi. rewrite Hn4, Hcd1 by (assumption || lia). reflexivity.
Qed.

End StreamRank5.

(** ** The two ranks of grouped inputs *)

(** The estimators take a grouped input [[b, t, n, g]] with a mask
    [[b, t, 1, 1]], or [[b, t, f, n, g]] with a mask [[b, t, 1, 1, 1]]
    ([rank5]); a lane is a pair (example [i], group [l]). *)
Definition grouped_shape (rank5 : bool) (b t f n g : nat) : list nat :=
  if rank5 then [b; t; f; n; g] else [b; t; n; g].
Definition mask_shape (rank5 : bool) (b t : nat) : list nat :=
  if rank5 then [b; t; 1; 1; 1] else [b; t; 1; 1].
Definition moment_shape (rank5 : bool) (b t n : nat) : list nat :=
  if rank5 then [b; t; 1; n; 1] else [b; t; n; 1].
Definition moment_index (rank5 : bool) (i j l : nat) : Index :=
  if rank5 then [i; j; 0; l; 0] else [i; j; l; 0].
Definition reduce_dims (rank5 : bool) : list nat := if rank5 then [2; 4] else [3].
Definition mask4 (rank5 : bool) (P : Tensor) : Tensor :=
  if rank5 then tf_squeeze P [2] else P.
Definition cells (rank5 : bool) (X P4 : Tensor) (f g : nat) : nat -> nat -> nat -> Qc :=
  if rank5 then cell_sum5 X P4 f g else cell_sum X P4 g.
Definition cells_sq (rank5 : bool) (X P4 : Tensor) (f g : nat)
  : Qc -> nat -> nat -> nat -> Qc :=
  if rank5 then cell_sq5 X P4 f g else cell_sq X P4 g.
Definition cell_size (rank5 : bool) (f g : nat) : nat := if rank5 then f * g else g.

(** The tensor [x] of moments holds [h i l j] for lane [(i, l)] at step [j]. *)
Definition lanes (rank5 : bool) (x : Tensor) (b t n : nat) (h : nat -> nat -> nat -> Qc)
  : Prop :=
  shape x = moment_shape rank5 b t n
  /\ forall i j l, i < b -> j < t -> l < n -> data x (moment_index rank5 i j l) = h i l j.

Lemma moment_index_inv rank5 b t n idx :
  InRange (moment_shape rank5 b t n) idx ->
  exists i j l, idx = moment_index rank5 i j l /\ i < b /\ j < t /\ l < n.
Proof.
  destruct rank5; cbn [moment_shape moment_index]; intros H.
  - destruct (InRange5 _ _ _ _ _ _ H) as (i & j & a & l & k & -> & Hi & Hj & Ha & Hl & Hk).
    assert (a = 0) by lia. assert (k = 0) by lia. subst. exists i, j, l. auto.
  - destruct (InRange4 _ _ _ _ _ H) as (i & j & l & k & -> & Hi & Hj & Hl & Hk).
    assert (k = 0) by lia. subst. exists i, j, l. auto.
Qed.

Lemma lanes_teq rank5 x y b t n h h' :
  lanes rank5 x b t n h -> lanes rank5 y b t n h' ->
  (forall i j l, i < b -> j < t -> l < n -> h i l j = h' i l j) ->
  teq x y.
Proof.
  intros [Hxs Hxd] [Hys Hyd] E. split; [congruence|].
  intros idx Hin. rewrite Hxs in Hin.
  destruct (moment_index_inv _ _ _ _ _ Hin) as (i & j & l & -> & Hi & Hj & Hl).
  rewrite Hxd, Hyd by assumption. apply E; assumption.
Qed.

Lemma lanes_slice rank5 x b T n h off t :
  lanes rank5 x b T n h -> off + t <= T ->
  lanes rank5 (slice_axis 1 off (off + t) x) b t n (fun i l j => h i l (off + j)).
Proof.
  intros [Hs Hd] Hoff. split.
  - destruct rank5; cbn [moment_shape] in *;
      rewrite (shape_slice_axis1 _ _ _ _ _ _ Hs) by lia; f_equal; f_equal; lia.
  - intros i j l Hi Hj Hl.
    destruct rank5; cbn [moment_shape moment_index] in *;
      rewrite (data_slice_axis1 _ _ _ _ _ _ _ _ _ Hs) by lia; apply Hd; lia.
Qed.

(** The mask as the rank-4 part of the estimators reads it. *)
Lemma shape_mask4 (rank5 : bool) (b : nat) (Q : Tensor) (t' : nat) :
  shape Q = mask_shape rank5 b t' -> shape (mask4 rank5 Q) = [b; t'; 1; 1].
Proof.
  destruct rank5; cbn [mask_shape mask4]; intros H; [|exact H].
  apply (squeeze2_rank5 Q b t' 1 1 H).
Qed.

Lemma data_mask4 (rank5 : bool) (b : nat) (Q : Tensor) (t' i j : nat) :
  shape Q = mask_shape rank5 b t' -> i < b -> j < t' ->
  data (mask4 rank5 Q) [i; j; 0; 0] = data Q (i :: j :: repeat 0 (length (shape Q) - 2)).
Proof.
  destruct rank5; cbn [mask_shape mask4]; intros H Hi Hj; rewrite H; cbn [length Nat.sub repeat].
  - apply (squeeze2_rank5 Q b t' 1 1 H); lia.
  - reflexivity.
Qed.

(** Cutting a chunk out of the input and its mask. *)
Section Chunk.
Variables (rank5 : bool) (X P : Tensor) (b T f n g off t : nat).
Hypothesis HX : shape X = grouped_shape rank5 b T f n g.
Hypothesis HP : shape P = mask_shape rank5 b T.
Hypothesis Hoff : off + t <= T.

Let Xc := slice_axis 1 off (off + t) X.
Let Pc := slice_axis 1 off (off + t) P.

Lemma shape_chunk : shape Xc = grouped_shape rank5 b t f n g.
Proof.
  unfold Xc. destruct rank5; cbn [grouped_shape] in *;
    rewrite (shape_slice_axis1 _ _ _ _ _ _ HX) by lia; f_equal; f_equal; lia.
Qed.

Lemma shape_chunk_mask : shape Pc = mask_shape rank5 b t.
Proof.
  unfold Pc. destruct rank5; cbn [mask_shape] in *;
    rewrite (shape_slice_axis1 _ _ _ _ _ _ HP) by lia; f_equal; f_equal; lia.
Qed.

Lemma pad_at_chunk_mask i s : i < b -> s < t ->
  pad_at (mask4 rank5 Pc) i s = pad_at (mask4 rank5 P) i (off + s).
Proof.
  intros Hi Hs. unfold pad_at.
  rewrite (data_mask4 rank5 b Pc t i s shape_chunk_mask Hi Hs).
  rewrite (data_mask4 rank5 b P T i (off + s) HP Hi) by lia.
  rewrite shape_chunk_mask, HP.
  unfold Pc. destruct rank5; cbn [mask_shape length Nat.sub repeat] in *;
    rewrite (data_slice_axis1 _ _ _ _ _ _ _ _ _ HP) by lia; reflexivity.
Qed.

Lemma cells_chunk i l s : i < b -> s < t ->
  cells rank5 Xc (mask4 rank5 Pc) f g i l s = cells rank5 X (mask4 rank5 P) f g i l (off + s).
Proof.
  intros Hi Hs. pose proof (pad_at_chunk_mask i s Hi Hs) as E.
  unfold cells, Xc. destruct rank5; cbn [grouped_shape] in *.
  - unfold cell_sum5. rewrite E. apply sum_n_ext. intros a _. apply sum_n_ext. intros k _.
    rewrite (data_slice_axis1 _ _ _ _ _ _ _ _ _ HX) by lia. reflexivity.
  - unfold cell_sum. rewrite E. apply sum_n_ext. intros k _.
    rewrite (data_slice_axis1 _ _ _ _ _ _ _ _ _ HX) by lia. reflexivity.
Qed.

Lemma cells_sq_chunk mu i l s : i < b -> s < t ->
  cells_sq rank5 Xc (mask4 rank5 Pc) f g mu i l s
  = cells_sq rank5 X (mask4 rank5 P) f g mu i l (off + s).
Proof.
  intros Hi Hs. pose proof (pad_at_chunk_mask i s Hi Hs) as E.
  unfold cells_sq, Xc. destruct rank5; cbn [grouped_shape] in *.
  - unfold cell_sq5. rewrite E. apply sum_n_ext. intros a _. apply sum_n_ext. intros k _.
    rewrite (data_slice_axis1 _ _ _ _ _ _ _ _ _ HX) by lia. reflexivity.
  - unfold cell_sq. rewrite E. apply sum_n_ext. intros k _.
    rewrite (data_slice_axis1 _ _ _ _ _ _ _ _ _ HX) by lia. reflexivity.
Qed.

End Chunk.

(** The batch estimator, lane by lane, on either rank. *)
Lemma batch_view (rank5 use_tpu crs : bool) (X P : Tensor) (b T f n g Wc : nat) :
  shape X = grouped_shape rank5 b T f n g ->
  shape P = mask_shape rank5 b T ->
  let P4 := mask4 rank5 P in
  let G := cell_size rank5 f g in
  let CM := ComputeMoments use_tpu X P (reduce_dims rank5) (Some 1) crs true Wc in
  lanes rank5 (fst CM) b T n (lane_mean P4 G T Wc (cells rank5 X P4 f g))
  /\ lanes rank5 (snd CM) b T n
       (lane_var P4 G T Wc (cells rank5 X P4 f g) (cells_sq rank5 X P4 f g)).
Proof.
  intros HX HP. destruct rank5; cbn [grouped_shape mask_shape mask4 cell_size reduce_dims
                                     cells cells_sq] in *; cbv zeta.
  - destruct (squeeze2_rank5 P b T 1 1 HP) as [_ Hd].
    assert (HPd : forall i j, i < b -> j < T ->
              data P [i; j; 0; 0; 0] = data (tf_squeeze P [2]) [i; j; 0; 0])
      by (intros; symmetry; apply Hd; lia).
    destruct (ComputeMoments_rank5 use_tpu crs X P (tf_squeeze P [2]) b T f n g Wc HX HP HPd)
      as (Hm & Hv & Hd').
    split; (split; [assumption|]); intros i j l Hi Hj Hl; apply (Hd' i j l Hi Hj Hl).
  - destruct (ComputeMoments_rank4 use_tpu crs X P b T n g Wc HX HP) as (Hm & Hv & Hd').
    split; (split; [assumption|]); intros i j l Hi Hj Hl; cbn [moment_index].
    + rewrite (proj1 (Hd' i j l Hi Hj Hl)). apply batch_mean_lane.
    + rewrite (proj2 (Hd' i j l Hi Hj Hl)). apply batch_var_lane. exact Hj.
Qed.

(** The running streaming estimator, lane by lane, on either rank. *)
Lemma stream_view (rank5 : bool) (X P : Tensor) (st : Cached) (b t f n g : nat) :
  shape X = grouped_shape rank5 b t f n g ->
  shape P = mask_shape rank5 b t ->
  shape (cached_sum st) = [b; 1; n; 1] ->
  shape (cached_count st) = [b; 1; 1; 1] ->
  shape (cached_var st) = [b; 1; n; 1] ->
  0 < t ->
  let P4 := mask4 rank5 P in
  let G := cell_size rank5 f g in
  let cs := cells rank5 X P4 f g in
  let cq := cells_sq rank5 X P4 f g in
  exists mean var st',
    _StreamMoments X (Some P) st = Ok (mean, var, st')
    /\ lanes rank5 mean b t n (lane_stream_mean P4 G st cs)
    /\ lanes rank5 var b t n (lane_stream_var P4 G st cs cq)
    /\ shape (cached_sum st') = [b; 1; n; 1]
    /\ shape (cached_count st') = [b; 1; 1; 1]
    /\ shape (cached_var st') = [b; 1; n; 1]
    /\ (forall i l, i < b -> l < n ->
          data (cached_sum st') [i; 0; l; 0] = lane_stream_sum st cs i l (t - 1)
          /\ data (cached_var st') [i; 0; l; 0] = lane_stream_sqsum P4 G st cs cq i l (t - 1))
    /\ (forall i, i < b ->
          data (cached_count st') [i; 0; 0; 0] = lane_stream_count P4 G st i (t - 1)).
Proof.
  intros HX HP Hcs Hcc Hcv Ht.
  destruct rank5; cbn [grouped_shape mask_shape mask4 cell_size cells cells_sq] in *; cbv zeta.
  - destruct (squeeze2_rank5 P b t 1 1 HP) as [_ Hd].
    assert (HPd : forall i j, i < b -> j < t ->
              data P [i; j; 0; 0; 0] = data (tf_squeeze P [2]) [i; j; 0; 0])
      by (intros; symmetry; apply Hd; lia).
    destruct (StreamMoments_rank5 X P (tf_squeeze P [2]) st b t f n g HX HP HPd Hcs Hcc Hcv Ht)
      as (mean & var & st' & E & Hms & Hvs & Hmd & H1 & H2 & H3 & H4 & H5).
    exists mean, var, st'. split; [exact E|].
    split; [split; [exact Hms|]; intros i j l Hi Hj Hl; apply (Hmd i j l Hi Hj Hl)|].
    split; [split; [exact Hvs|]; intros i j l Hi Hj Hl; apply (Hmd i j l Hi Hj Hl)|].
    auto.
  - destruct (StreamMoments_rank4 X P st b t n g HX HP Hcs Hcc Hcv Ht)
      as (mean & var & st' & E & Hms & Hvs & Hmd & H1 & H2 & H3 & H4 & H5).
    exists mean, var, st'. split; [exact E|].
    split; [split; [exact Hms|]; intros i j l Hi Hj Hl; apply (Hmd i j l Hi Hj Hl)|].
    split; [split; [exact Hvs|]; intros i j l Hi Hj Hl; apply (Hmd i j l Hi Hj Hl)|].
    auto.
Qed.

(** ** The running streaming estimator against the batch estimator *)

Section RunningEquivalence.
Variables (rank5 use_tpu crs : bool) (X P : Tensor) (b T f n g : nat).
Hypothesis HX : shape X = grouped_shape rank5 b T f n g.
Hypothesis HP : shape P = mask_shape rank5 b T.

Let P4 := mask4 rank5 P.
Let G := cell_size rank5 f g.
Let cs := cells rank5 X P4 f g.
Let cq := cells_sq rank5 X P4 f g.
Let CM := ComputeMoments use_tpu X P (reduce_dims rank5) (Some 1) crs true 0.

Definition lane_count (i s : nat) : Qc := if pad_at P4 i s then 0%Qc else Qc_of_nat G.

(** The state after the first [off] steps holds the running sums of the
    batch estimator. *)
Definition running_carries (off : nat) (st : Cached) : Prop :=
  shape (cached_sum st) = [b; 1; n; 1]
  /\ shape (cached_count st) = [b; 1; 1; 1]
  /\ shape (cached_var st) = [b; 1; n; 1]
  /\ (forall i l, i < b -> l < n ->
        data (cached_sum st) [i; 0; l; 0] = sum_n off (cs i l)
        /\ data (cached_var st) [i; 0; l; 0] = sum_n off (lane_sq P4 G T 0 cs cq i l))
  /\ (forall i, i < b -> data (cached_count st) [i; 0; 0; 0] = sum_n off (lane_count i)).

Section Step.
Variables (off t : nat) (st : Cached).
Hypothesis Ht : 0 < t.
Hypothesis Hoff : off + t <= T.
Hypothesis Hst : running_carries off st.

Let Xc := slice_axis 1 off (off + t) X.
Let Pc := slice_axis 1 off (off + t) P.
Let Pc4 := mask4 rank5 Pc.
Let csc := cells rank5 Xc Pc4 f g.
Let cqc := cells_sq rank5 Xc Pc4 f g.

Lemma running_sum_chunk i l j : i < b -> l < n -> j < t ->
  lane_stream_sum st csc i l j = sum_n (off + S j) (cs i l).
Proof.
  intros Hi Hl Hj. destruct Hst as (_ & _ & _ & Hd & _).
  unfold lane_stream_sum. rewrite (proj1 (Hd i l Hi Hl)), (sum_n_app off (S j)).
  rewrite Qcplus_comm. f_equal. apply sum_n_ext. intros s Hs.
  apply (cells_chunk rank5 X P b T f n g off t HX HP Hoff); lia.
Qed.

Lemma running_count_chunk i j : i < b -> j < t ->
  lane_stream_count Pc4 G st i j = sum_n (off + S j) (lane_count i).
Proof.
  intros Hi Hj. destruct Hst as (_ & _ & _ & _ & Hd).
  unfold lane_stream_count. rewrite (Hd i Hi), (sum_n_app off (S j)).
  rewrite Qcplus_comm. f_equal. apply sum_n_ext. intros s Hs.
  unfold lane_count, Pc4, P4.
  rewrite (pad_at_chunk_mask rank5 X P b T f n g off t HX HP Hoff) by lia. reflexivity.
Qed.

Lemma lane_denom_unwindowed i q :
  lane_denom P4 G T 0 i q = Qcmax (sum_n (S q) (lane_count i)) 1%Qc.
Proof.
  unfold lane_denom, acc, lane_count, cell_cnt. cbn [Nat.eqb].
  rewrite <- sum_n_scale. reflexivity.
Qed.

Lemma running_mean_chunk i l j : i < b -> l < n -> j < t ->
  lane_stream_mean Pc4 G st csc i l j = lane_mean P4 G T 0 cs i l (off + j).
Proof.
  intros Hi Hl Hj. unfold lane_stream_mean, lane_mean.
  rewrite running_sum_chunk, running_count_chunk, lane_denom_unwindowed by assumption.
  unfold acc. cbn [Nat.eqb]. rewrite Nat.add_succ_r. reflexivity.
Qed.

Lemma running_sq_chunk i l s : i < b -> l < n -> s < t ->
  lane_stream_sq Pc4 G st csc cqc i l s = lane_sq P4 G T 0 cs cq i l (off + s).
Proof.
  intros Hi Hl Hs. unfold lane_stream_sq, lane_sq.
  rewrite running_mean_chunk by assumption.
  apply (cells_sq_chunk rank5 X P b T f n g off t HX HP Hoff); lia.
Qed.

Lemma running_sqsum_chunk i l j : i < b -> l < n -> j < t ->
  lane_stream_sqsum Pc4 G st csc cqc i l j = sum_n (off + S j) (lane_sq P4 G T 0 cs cq i l).
Proof.
  intros Hi Hl Hj. destruct Hst as (_ & _ & _ & Hd & _).
  unfold lane_stream_sqsum. rewrite (proj2 (Hd i l Hi Hl)), (sum_n_app off (S j)).
  rewrite Qcplus_comm. f_equal. apply sum_n_ext. intros s Hs.
  apply running_sq_chunk; assumption || lia.
Qed.

Lemma running_var_chunk i l j : i < b -> l < n -> j < t ->
  lane_stream_var Pc4 G st csc cqc i l j = lane_var P4 G T 0 cs cq i l (off + j).
Proof.
  intros Hi Hl Hj. unfold lane_stream_var, lane_var.
  rewrite running_sqsum_chunk, running_count_chunk, lane_denom_unwindowed by assumption.
  unfold acc. cbn [Nat.eqb]. rewrite Nat.add_succ_r. reflexivity.
Qed.

Lemma running_step_matches_batch :
  exists mean var st',
    _StreamMoments Xc (Some Pc) st = Ok (mean, var, st')
    /\ same_moments (mean, var)
         (slice_axis 1 off (off + t) (fst CM), slice_axis 1 off (off + t) (snd CM))
    /\ running_carries (off + t) st'.
Proof.
  destruct Hst as (Hcs & Hcc & Hcv & _).
  destruct (stream_view rank5 Xc Pc st b t f n g
              (shape_chunk rank5 X P b T f n g off t HX HP Hoff)
              (shape_chunk_mask rank5 X P b T f n g off t HX HP Hoff) Hcs Hcc Hcv Ht)
    as (mean & var & st' & E & Hm & Hv & Hs1 & Hs2 & Hs3 & Hd1 & Hd2).
  destruct (batch_view rank5 use_tpu crs X P b T f n g 0 HX HP) as [Hbm Hbv].
  fold CM in Hbm, Hbv.
  exists mean, var, st'. split; [exact E|]. split.
  - split; cbn [fst snd].
    + apply (lanes_teq rank5 _ _ b t n _ _ Hm (lanes_slice rank5 _ b T n _ off t Hbm Hoff)).
      intros i j l Hi Hj Hl. apply running_mean_chunk; assumption.
    + apply (lanes_teq rank5 _ _ b t n _ _ Hv (lanes_slice rank5 _ b T n _ off t Hbv Hoff)).
      intros i j l Hi Hj Hl. apply running_var_chunk; assumption.
  - unfold running_carries. split; [exact Hs1|]. split; [exact Hs2|]. split; [exact Hs3|].
    split.
    + intros i l Hi Hl. destruct (Hd1 i l Hi Hl) as [E1 E2]. split.
      * rewrite E1. fold Pc4 csc. rewrite running_sum_chunk by (assumption || lia).
        f_equal. lia.
      * rewrite E2. fold Pc4 csc cqc. rewrite running_sqsum_chunk by (assumption || lia).
        f_equal. lia.
    + intros i Hi. rewrite (Hd2 i Hi). fold Pc4.
      rewrite running_count_chunk by (assumption || lia). f_equal. lia.
Qed.

End Step.

Lemma running_chunks_match_batch (chunks : list nat) : forall off st,
  Forall (lt 0) chunks -> off + list_sum chunks <= T -> running_carries off st ->
  exists outs,
    stream_chunks X P off chunks st = Ok outs
    /\ Forall2 same_moments outs (batch_chunks (fst CM) (snd CM) off chunks).
Proof.
  induction chunks as [|t rest IH]; intros off st Hpos Hsum Hst.
  - exists []. split; [reflexivity|constructor].
  - inversion Hpos as [|? ? Ht Hrest]; subst.
    unfold list_sum in *. cbn [fold_right] in Hsum.
    assert (Hoff : off + t <= T) by lia.
    assert (Hrem : off + t + fold_right Nat.add 0 rest <= T) by lia.
    destruct (running_step_matches_batch off t st Ht Hoff Hst)
      as (mean & var & st' & E & Hsame & Hst').
    destruct (IH (off + t) st' Hrest Hrem Hst') as (outs & Eouts & Hall).
    exists ((mean, var) :: outs). split.
    + cbn [stream_chunks]. rewrite E. cbn [bind]. rewrite Eouts. reflexivity.
    + cbn [batch_chunks]. constructor; assumption.
Qed.

End RunningEquivalence.

(** ** The windowed streaming estimator, lane by lane *)

Section WindowLanes.
Variables (P : Tensor) (G : nat) (st : CachedWindow) (t W : nat) (c : nat -> nat).
Variable csum : nat -> nat -> nat -> Qc.
Variable csq : Qc -> nat -> nat -> nat -> Qc.

Definition lane_window_mean (i l j : nat) : Qc :=
  (window_out t W P (cached_sums st) c csum i l j / w_denom P G W c i j)%Qc.

Definition lane_window_sq (i l s : nat) : Qc := csq (lane_window_mean i l s) i l s.

Definition lane_window_var (i l j : nat) : Qc :=
  (window_out t W P (cached_vars st) c lane_window_sq i l j / w_denom P G W c i j)%Qc.

End WindowLanes.

Lemma window_view (tail_fill : Tensor -> Tensor -> Index -> Qc) (rank5 slicing : bool)
    (p : Params) (X P : Tensor) (st : CachedWindow) (b t f n g W : nat) (c : nat -> nat) :
  shape X = grouped_shape rank5 b t f n g ->
  shape P = mask_shape rank5 b t ->
  shape (cached_sums st) = [b; W; n; 1] ->
  shape (cached_vars st) = [b; W; n; 1] ->
  shape (cached_count_w st) = [b; 1; 1; 1] ->
  (forall i, i < b -> data (cached_count_w st) [i; 0; 0; 0] = Qc_of_nat (c i)) ->
  (forall i, i < b -> c i <= W) ->
  0 < b ->
  Z.to_nat (p_window_size p) = W ->
  let P4 := mask4 rank5 P in
  let G := cell_size rank5 f g in
  let cs := cells rank5 X P4 f g in
  let cq := cells_sq rank5 X P4 f g in
  (slicing = true ->
   forall i, i < b -> c i = c 0 /\ chunk_len t P4 i = chunk_len t P4 0) ->
  exists mean var st',
    _StreamWindowedMoments_path tail_fill slicing p X (Some P) st = Ok (mean, var, st')
    /\ lanes rank5 mean b t n (lane_window_mean P4 G st t W c cs)
    /\ lanes rank5 var b t n (lane_window_var P4 G st t W c cs cq)
    /\ shape (cached_sums st') = [b; W; n; 1]
    /\ shape (cached_vars st') = [b; W; n; 1]
    /\ shape (cached_count_w st') = [b; 1; 1; 1]
    /\ (forall i k l, i < b -> k < W -> l < n ->
          data (cached_sums st') [i; k; l; 0]
          = new_cache_at t W P4 (cached_sums st) c cs i l k
          /\ data (cached_vars st') [i; k; l; 0]
             = new_cache_at t W P4 (cached_vars st) c
                 (lane_window_sq P4 G st t W c cs cq) i l k)
    /\ (forall i, i < b ->
          data (cached_count_w st') [i; 0; 0; 0] = Qc_of_nat (new_count t W P4 c i)).
Proof.
  intros HX HP Hks Hkv Hcs Hcd HcW Hb HW.
  destruct rank5; cbn [grouped_shape mask_shape mask4 cell_size cells cells_sq] in *;
    cbv zeta; intros Hunif.
  - destruct (StreamWindowedMoments_rank5 tail_fill slicing p X P st b t f n g W c
                HX HP Hks Hkv Hcs Hcd HcW Hb HW Hunif)
      as (mean & var & st' & E & Hms & Hvs & Hd & H1 & H2 & H3 & H4 & H5).
    exists mean, var, st'. split; [exact E|].
    split; [split; [exact Hms|]; intros i j l Hi Hj Hl; apply (Hd i j l Hi Hj Hl)|].
    split; [split; [exact Hvs|]; intros i j l Hi Hj Hl; apply (Hd i j l Hi Hj Hl)|].
    split; [exact H1|]. split; [exact H2|]. split; [exact H3|]. split; [exact H4|exact H5].
  - destruct (StreamWindowedMoments_rank4 tail_fill slicing p X P st b t n g W c
                HX HP Hks Hkv Hcs Hcd HcW Hb HW Hunif)
      as (mean & var & st' & E & Hms & Hvs & Hd & H1 & H2 & H3 & H4 & H5).
    exists mean, var, st'. split; [exact E|].
    split; [split; [exact Hms|]; intros i j l Hi Hj Hl; apply (Hd i j l Hi Hj Hl)|].
    split; [split; [exact Hvs|]; intros i j l Hi Hj Hl; apply (Hd i j l Hi Hj Hl)|].
    split; [exact H1|]. split; [exact H2|]. split; [exact H3|]. split; [exact H4|exact H5].
Qed.

(** ** The windowed streaming estimator against the windowed batch estimator *)

Lemma unpadded_length_threshold T m p :
  m <= T -> (forall k, k < T -> Qcltb 0%Qc (p k) = negb (k <? m)) ->
  unpadded_length T p = m.
Proof.
  intros Hm H. rewrite <- (unpadded_length_prefix T m Hm).
  apply unpadded_length_ext. intros k Hk. rewrite (H k Hk).
  destruct (k <? m); reflexivity.
Qed.

(** The chunk outputs [o] agree with the expected moments [e] at the valid
    steps; [off] is the position of the chunk in the sequence. *)
Definition agree_where_valid (P4 : Tensor) (off : nat) (o e : Tensor * Tensor) : Prop :=
  shape (fst o) = shape (fst e) /\ shape (snd o) = shape (snd e)
  /\ forall idx, InRange (shape (fst o)) idx ->
       pad_at P4 (ix 0 idx) (off + ix 1 idx) = false ->
       data (fst o) idx = data (fst e) idx /\ data (snd o) idx = data (snd e) idx.

Fixpoint agree_chunks (P4 : Tensor) (off : nat) (chunks : list nat)
    (outs expected : list (Tensor * Tensor)) : Prop :=
  match chunks, outs, expected with
  | [], [], [] => True
  | t :: rest, o :: outs', e :: expected' =>
      agree_where_valid P4 off o e /\ agree_chunks P4 (off + t) rest outs' expected'
  | _, _, _ => False
  end.

(** Feeding the chunks of [X] through [_StreamWindowedMoments]. *)
Fixpoint window_chunks (tail_fill : Tensor -> Tensor -> Index -> Qc) (p : Params)
    (X P : Tensor) (off : nat) (chunks : list nat) (st : CachedWindow)
  : Result (list (Tensor * Tensor)) :=
  match chunks with
  | [] => Ok []
  | t :: rest =>
      r <- _StreamWindowedMoments tail_fill p (slice_axis 1 off (off + t) X)
                                  (Some (slice_axis 1 off (off + t) P)) st ;;
      let '(mean, var, st') := r in
      outs <- window_chunks tail_fill p X P (off + t) rest st' ;;
      Ok ((mean, var) :: outs)
  end.

Lemma extent0_grouped rank5 b t f n g : extent 0 (grouped_shape rank5 b t f n g) = b.
Proof. destruct rank5; reflexivity. Qed.

Lemma ix_moment_index rank5 i j l :
  ix 0 (moment_index rank5 i j l) = i /\ ix 1 (moment_index rank5 i j l) = j.
Proof. destruct rank5; split; reflexivity. Qed.

(** No padded step is followed by a valid one. *)
Definition trailing_padding (rank5 : bool) (P : Tensor) (b T : nat) : Prop :=
  forall i j, i < b -> j < chunk_len T (mask4 rank5 P) i ->
    pad_at (mask4 rank5 P) i j = false.

Section WindowEquivalence.
Variable tail_fill : Tensor -> Tensor -> Index -> Qc.
Variables (rank5 use_tpu crs : bool) (p : Params) (X P : Tensor) (b T f n g W : nat).
Hypothesis HX : shape X = grouped_shape rank5 b T f n g.
Hypothesis HP : shape P = mask_shape rank5 b T.
Hypothesis Htrail : trailing_padding rank5 P b T.
Hypothesis HW : Z.to_nat (p_window_size p) = W.
Hypothesis HW0 : 0 < W.
Hypothesis Hb : 0 < b.

Let P4 := mask4 rank5 P.
Let G := cell_size rank5 f g.
Let cs := cells rank5 X P4 f g.
Let cq := cells_sq rank5 X P4 f g.
Let CM := ComputeMoments use_tpu X P (reduce_dims rank5) (Some 1) crs true W.
Let L := chunk_len T P4.

(** The valid steps among the first [off]. *)
Definition seen (off i : nat) : nat := Nat.min off (L i).

Lemma L_le i : L i <= T.
Proof. apply unpadded_length_le. Qed.

Lemma padded_iff i j : i < b -> j < T -> pad_at P4 i j = negb (j <? L i).
Proof.
  intros Hi Hj. destruct (Nat.ltb_spec j (L i)) as [Hlt|Hge]; cbn [negb].
  - apply Htrail; assumption.
  - unfold pad_at. apply (unpadded_length_tail T (fun j => data P4 [i; j; 0; 0])); assumption.
Qed.

(** The rows of a window cache after [off] steps of the per-step sequence
    [F]: the last [min (seen off) W] running sums over the valid steps. *)
Definition cache_rows (off : nat) (K : Tensor) (F : nat -> nat -> nat -> Qc) : Prop :=
  forall i k l, i < b -> k < W -> l < n ->
    data K [i; k; l; 0]
    = if k <? Nat.min (seen off i) W
      then sum_n (seen off i - Nat.min (seen off i) W + k + 1) (F i l) else 0%Qc.

Definition cache_carries (off : nat) (st : CachedWindow) : Prop :=
  shape (cached_sums st) = [b; W; n; 1]
  /\ shape (cached_vars st) = [b; W; n; 1]
  /\ shape (cached_count_w st) = [b; 1; 1; 1]
  /\ (forall i, i < b ->
        data (cached_count_w st) [i; 0; 0; 0] = Qc_of_nat (Nat.min (seen off i) W))
  /\ cache_rows off (cached_sums st) cs
  /\ cache_rows off (cached_vars st) (lane_sq P4 G T W cs cq).

(** The windowed accumulation of the batch estimator at a valid step. *)
Lemma acc_valid i F q : i < b -> q < L i ->
  acc W T P4 i F q
  = (sum_n (S q) F - (if q <? W then 0 else sum_n (S (q - W)) F))%Qc.
Proof.
  intros Hi Hq. pose proof (L_le i) as HL. unfold acc.
  destruct (Nat.eqb_spec W 0) as [E|_]; [lia|].
  unfold win. rewrite padded_iff by (assumption || lia).
  replace (q <? L i) with true by (symmetry; apply Nat.ltb_lt; exact Hq). cbn [negb].
  destruct (Nat.ltb_spec q (Nat.min W T)) as [Hlt|Hge].
  - destruct (Nat.ltb_spec q W) as [_|Hc]; [ring|lia].
  - assert (HWT : Nat.min W T = W) by lia. rewrite HWT in *.
    destruct (Nat.ltb_spec q W) as [Hc|_]; [lia|].
    rewrite (Nat.mod_small W T) by lia.
    replace (q + (T - W)) with ((q - W) + 1 * T) by lia.
    rewrite Nat.Div0.mod_add, Nat.mod_small by lia. ring.
Qed.

Lemma count_valid i q : i < b -> q < L i ->
  acc W T P4 i (cell_cnt P4 i) q = Qc_of_nat (Nat.min (S q) W).
Proof.
  intros Hi Hq. pose proof (L_le i) as HL. rewrite acc_valid by assumption.
  assert (Hc : forall m, m <= L i -> sum_n m (cell_cnt P4 i) = Qc_of_nat m).
  { intros m Hm. rewrite (sum_n_ext m _ (fun _ => 1%Qc)).
    - rewrite sum_n_const. ring.
    - intros k Hk. unfold cell_cnt.
      assert (E : pad_at P4 i k = false)
        by (apply Htrail; [exact Hi|change (k < L i); lia]).
      rewrite E. reflexivity. }
  destruct (Nat.ltb_spec q W) as [Hlt|Hge].
  - rewrite Hc by lia. replace (Nat.min (S q) W) with (S q) by lia. ring.
  - rewrite !Hc by lia. rewrite <- Qc_of_nat_sub by lia. f_equal. lia.
Qed.

Section Step.
Variables (off t : nat) (st : CachedWindow).
Hypothesis Ht : 0 < t.
Hypothesis Hoff : off + t <= T.
Hypothesis Hst : cache_carries off st.

Let Xc := slice_axis 1 off (off + t) X.
Let Pc := slice_axis 1 off (off + t) P.
Let Pc4 := mask4 rank5 Pc.
Let csc := cells rank5 Xc Pc4 f g.
Let cqc := cells_sq rank5 Xc Pc4 f g.
Let c := fun i : nat => Nat.min (seen off i) W.
Let len := fun i : nat => seen (off + t) i - seen off i.

Lemma pad_chunk i s : i < b -> s < t -> pad_at Pc4 i s = negb (s <? len i).
Proof.
  intros Hi Hs. unfold Pc4, Pc.
  rewrite (pad_at_chunk_mask rank5 X P b T f n g off t HX HP Hoff) by assumption.
  fold P4. rewrite padded_iff by (assumption || lia). f_equal.
  unfold len, seen. pose proof (L_le i).
  destruct (Nat.ltb_spec (off + s) (L i)); destruct (Nat.ltb_spec s
    (Nat.min (off + t) (L i) - Nat.min off (L i))); lia.
Qed.

Lemma chunk_len_trailing i : i < b -> chunk_len t Pc4 i = len i.
Proof.
  intros Hi. unfold chunk_len. apply unpadded_length_threshold.
  - unfold len, seen. lia.
  - intros k Hk. apply (pad_chunk i k Hi Hk).
Qed.

Lemma valid_in_chunk i j : i < b -> j < len i ->
  seen off i = off /\ off + j < L i /\ j < t.
Proof. unfold len, seen. lia. Qed.

(** The lanes of one cache, against the per-step sequence [F] of the whole
    input and its restriction [cellf] to the valid steps of the chunk. *)
Section Lane.
Variables (K : Tensor) (F cellf : nat -> nat -> nat -> Qc).
Hypothesis HK : cache_rows off K F.
Hypothesis Hcell : forall i l s, i < b -> l < n -> s < len i -> cellf i l s = F i l (off + s).

Lemma cur_sum_valid i l j : i < b -> l < n -> j < len i ->
  cur_sum K c cellf i l j = sum_n (off + S j) (F i l).
Proof.
  intros Hi Hl Hj. destruct (valid_in_chunk i j Hi Hj) as (Hs & Hq & Hjt).
  unfold cur_sum, c.
  rewrite (HK i (Nat.min (seen off i) W - 1) l Hi ltac:(lia) Hl).
  rewrite (sum_n_app off (S j)).
  rewrite (sum_n_ext (S j) (cellf i l) (fun k => F i l (off + k)))
    by (intros k Hk; apply Hcell; lia).
  rewrite Hs.
  destruct (Nat.ltb_spec (Nat.min off W - 1) (Nat.min off W)) as [Hlt|Hge].
  - replace (off - Nat.min off W + (Nat.min off W - 1) + 1) with off by lia. ring.
  - assert (off = 0) by lia. subst off. cbn [sum_n]. ring.
Qed.

Lemma concat_at_valid i l k : i < b -> l < n -> k < c i + len i ->
  concat_at K c cellf i l k = sum_n (seen off i - c i + k + 1) (F i l).
Proof.
  intros Hi Hl Hk. unfold concat_at.
  destruct (Nat.ltb_spec k (c i)) as [Hlt|Hge].
  - unfold c in *. rewrite (HK i k l Hi ltac:(lia) Hl).
    destruct (Nat.ltb_spec k (Nat.min (seen off i) W)) as [_|Hc]; [reflexivity|lia].
  - assert (Hj : k - c i < len i) by lia.
    destruct (valid_in_chunk i _ Hi Hj) as (Hs & _ & _).
    rewrite cur_sum_valid by assumption. f_equal. unfold c in *. lia.
Qed.

Lemma window_out_valid i l j : i < b -> l < n -> j < len i ->
  window_out t W Pc4 K c cellf i l j = acc W T P4 i (F i l) (off + j).
Proof.
  intros Hi Hl Hj. destruct (valid_in_chunk i j Hi Hj) as (Hs & Hq & Hjt).
  rewrite acc_valid by assumption.
  unfold window_out. rewrite chunk_len_trailing by assumption.
  replace (j <? len i) with true by (symmetry; apply Nat.ltb_lt; exact Hj).
  rewrite pad_chunk by assumption.
  replace (j <? len i) with true by (symmetry; apply Nat.ltb_lt; exact Hj).
  cbn [negb orb].
  rewrite cur_sum_valid by assumption.
  rewrite Nat.add_succ_r. f_equal. f_equal.
  destruct (Nat.ltb_spec (c i + j) W) as [H1|H1];
    destruct (Nat.ltb_spec (off + j) W) as [H2|H2]; unfold c in *; try lia; [reflexivity|].
  rewrite concat_at_valid by (unfold c; lia || assumption).
  f_equal. unfold c. lia.
Qed.

Lemma new_count_trailing i : i < b ->
  new_count t W Pc4 c i = Nat.min (seen (off + t) i) W.
Proof.
  intros Hi. unfold new_count. rewrite chunk_len_trailing by assumption.
  unfold c, len, seen. lia.
Qed.

Lemma new_cache_trailing i l k : i < b -> k < W -> l < n ->
  new_cache_at t W Pc4 K c cellf i l k
  = if k <? Nat.min (seen (off + t) i) W
    then sum_n (seen (off + t) i - Nat.min (seen (off + t) i) W + k + 1) (F i l)
    else 0%Qc.
Proof.
  intros Hi Hk Hl. unfold new_cache_at. rewrite new_count_trailing by assumption.
  destruct (Nat.ltb_spec k (Nat.min (seen (off + t) i) W)) as [Hlt|Hge]; [|reflexivity].
  rewrite chunk_len_trailing by assumption.
  rewrite concat_at_valid by (unfold c, len, seen in *; lia || assumption).
  f_equal. unfold c, len, seen in *. lia.
Qed.

End Lane.

Lemma w_denom_valid i j : i < b -> j < len i ->
  w_denom Pc4 G W c i j = lane_denom P4 G T W i (off + j).
Proof.
  intros Hi Hj. destruct (valid_in_chunk i j Hi Hj) as (Hs & Hq & Hjt).
  unfold w_denom, lane_denom, w_count.
  rewrite count_valid by assumption.
  rewrite (sum_n_ext (S j) (cell_cnt Pc4 i) (fun _ => 1%Qc)).
  2:{ intros k Hk. unfold cell_cnt. rewrite pad_chunk by lia.
      replace (k <? len i) with true by (symmetry; apply Nat.ltb_lt; lia). reflexivity. }
  rewrite sum_n_const.
  replace (Qc_of_nat (S j) * 1 + Qc_of_nat (c i))%Qc
    with (Qc_of_nat (S j + c i)) by (rewrite Qc_of_nat_add; ring).
  rewrite Qcmin_of_nat. do 3 f_equal. unfold c. lia.
Qed.

Lemma window_mean_valid i l j : i < b -> l < n -> j < len i ->
  lane_window_mean Pc4 G st t W c csc i l j = lane_mean P4 G T W cs i l (off + j).
Proof.
  intros Hi Hl Hj. unfold lane_window_mean, lane_mean.
  rewrite w_denom_valid by assumption. f_equal.
  destruct Hst as (_ & _ & _ & _ & Hrows & _).
  apply (window_out_valid _ _ _ Hrows); try assumption.
  intros i' l' s Hi' Hl' Hs. destruct (valid_in_chunk i' s Hi' Hs) as (_ & _ & Hst').
  apply (cells_chunk rank5 X P b T f n g off t HX HP Hoff); assumption.
Qed.

Lemma window_sq_valid i l s : i < b -> l < n -> s < len i ->
  lane_window_sq Pc4 G st t W c csc cqc i l s = lane_sq P4 G T W cs cq i l (off + s).
Proof.
  intros Hi Hl Hs. destruct (valid_in_chunk i s Hi Hs) as (_ & _ & Hst').
  unfold lane_window_sq, lane_sq. rewrite window_mean_valid by assumption.
  apply (cells_sq_chunk rank5 X P b T f n g off t HX HP Hoff); assumption.
Qed.

Lemma window_var_valid i l j : i < b -> l < n -> j < len i ->
  lane_window_var Pc4 G st t W c csc cqc i l j = lane_var P4 G T W cs cq i l (off + j).
Proof.
  intros Hi Hl Hj. unfold lane_window_var, lane_var.
  rewrite w_denom_valid by assumption. f_equal.
  destruct Hst as (_ & _ & _ & _ & _ & Hrows).
  apply (window_out_valid _ _ _ Hrows); try assumption.
  intros i' l' s Hi' Hl' Hs. apply window_sq_valid; assumption.
Qed.

Lemma window_step_agrees :
  exists mean var st',
    _StreamWindowedMoments tail_fill p Xc (Some Pc) st = Ok (mean, var, st')
    /\ agree_where_valid P4 off (mean, var)
         (slice_axis 1 off (off + t) (fst CM), slice_axis 1 off (off + t) (snd CM))
    /\ cache_carries (off + t) st'.
Proof.
  destruct Hst as (Hks & Hkv & Hcs & Hcd & Hrs & Hrv).
  assert (HcW : forall i, i < b -> c i <= W) by (intros; unfold c; lia).
  pose proof (shape_chunk rank5 X P b T f n g off t HX HP Hoff) as HXc. fold Xc in HXc.
  pose proof (shape_chunk_mask rank5 X P b T f n g off t HX HP Hoff) as HPc. fold Pc in HPc.
  assert (Hunif : (extent 0 (shape Xc) =? 1) = true ->
            forall i, i < b -> c i = c 0 /\ chunk_len t Pc4 i = chunk_len t Pc4 0).
  { intros E i Hi. rewrite HXc, extent0_grouped in E. apply Nat.eqb_eq in E.
    replace i with 0 by lia. split; reflexivity. }
  unfold _StreamWindowedMoments.
  destruct (window_view tail_fill rank5 (extent 0 (shape Xc) =? 1) p Xc Pc st
              b t f n g W c HXc HPc Hks Hkv Hcs Hcd HcW Hb HW Hunif)
    as (mean & var & st' & E & Hm & Hv & Hs1 & Hs2 & Hs3 & Hd1 & Hd2).
  fold Pc4 G csc cqc in Hm, Hv, Hd1, Hd2.
  destruct (batch_view rank5 use_tpu crs X P b T f n g W HX HP) as [Hbm Hbv].
  fold CM P4 G cs cq in Hbm, Hbv.
  pose proof (lanes_slice rank5 _ b T n _ off t Hbm Hoff) as Hbm'.
  pose proof (lanes_slice rank5 _ b T n _ off t Hbv Hoff) as Hbv'.
  exists mean, var, st'. split; [exact E|]. split.
  - split; [|split]; cbn [fst snd].
    + rewrite (proj1 Hm), (proj1 Hbm'). reflexivity.
    + rewrite (proj1 Hv), (proj1 Hbv'). reflexivity.
    + intros idx Hin Hvalid. rewrite (proj1 Hm) in Hin.
      destruct (moment_index_inv _ _ _ _ _ Hin) as (i & j & l & -> & Hi & Hj & Hl).
      destruct (ix_moment_index rank5 i j l) as [E0 E1]. rewrite E0, E1 in Hvalid.
      rewrite padded_iff in Hvalid by (assumption || lia).
      assert (Hlen : j < len i).
      { destruct (Nat.ltb_spec (off + j) (L i)) as [Hq|Hq]; [|discriminate Hvalid].
        unfold len, seen. lia. }
      rewrite (proj2 Hm), (proj2 Hv), (proj2 Hbm'), (proj2 Hbv') by assumption.
      split; [apply window_mean_valid|apply window_var_valid]; assumption.
  - unfold cache_carries. split; [exact Hs1|]. split; [exact Hs2|]. split; [exact Hs3|].
    split; [|split].
    + intros i Hi. rewrite (Hd2 i Hi), new_count_trailing by assumption. reflexivity.
    + intros i k l Hi Hk Hl. rewrite (proj1 (Hd1 i k l Hi Hk Hl)).
      apply (new_cache_trailing _ _ _ Hrs); try assumption.
      intros i' l' s Hi' Hl' Hs. destruct (valid_in_chunk i' s Hi' Hs) as (_ & _ & Hst').
      apply (cells_chunk rank5 X P b T f n g off t HX HP Hoff); assumption.
    + intros i k l Hi Hk Hl. rewrite (proj2 (Hd1 i k l Hi Hk Hl)).
      apply (new_cache_trailing _ _ _ Hrv); try assumption.
      intros i' l' s Hi' Hl' Hs. apply window_sq_valid; assumption.
Qed.

End Step.

Lemma window_chunks_agree (chunks : list nat) : forall off st,
  Forall (lt 0) chunks -> off + list_sum chunks <= T -> cache_carries off st ->
  exists outs,
    window_chunks tail_fill p X P off chunks st = Ok outs
    /\ agree_chunks P4 off chunks outs (batch_chunks (fst CM) (snd CM) off chunks).
Proof.
  induction chunks as [|t rest IH]; intros off st Hpos Hsum Hst.
  - exists []. split; [reflexivity|exact I].
  - apply Forall_cons_iff in Hpos. destruct Hpos as [Ht Hrest].
    unfold list_sum in Hsum. cbn [fold_right] in Hsum.
    assert (Hoff : off + t <= T) by lia.
    assert (Hrem : off + t + list_sum rest <= T) by (unfold list_sum; lia).
    destruct (window_step_agrees off t st Ht Hoff Hst)
      as (mean & var & st' & E & Hsame & Hst').
    destruct (IH (off + t) st' Hrest Hrem Hst') as (outs & Eouts & Hall).
    exists ((mean, var) :: outs). split.
    + cbn [window_chunks]. rewrite E. cbn [bind]. rewrite Eouts. reflexivity.
    + cbn [batch_chunks agree_chunks]. split; assumption.
Qed.

End WindowEquivalence.

(** ** Streaming from [zero_state], on either rank *)

Lemma zero_state_running_carries (rank5 : bool) (p : Params) (X P : Tensor)
    (b T f n g : nat) (st : Cached) :
  num_groups p = Ok (Z.of_nat n) ->
  zero_state p b = Ok (Running st) ->
  running_carries rank5 X P b T f n g 0 st.
Proof.
  intros Hn Hz. unfold zero_state in Hz. rewrite Hn in Hz. cbn [bind] in Hz.
  destruct (negb (p_cumulative p)); [discriminate|].
  destruct (1 <? p_window_size p)%Z; [discriminate|].
  injection Hz as <-. rewrite Nat2Z.id. unfold running_carries.
  cbn [cached_sum cached_count cached_var].
  repeat split; intros; rewrite data_cast_zeros; reflexivity.
Qed.

Lemma zero_state_cache_carries (rank5 : bool) (p : Params) (X P : Tensor)
    (b T f n g : nat) (st : CachedWindow) :
  num_groups p = Ok (Z.of_nat n) ->
  zero_state p b = Ok (Windowed st) ->
  cache_carries rank5 X P b T f n g (Z.to_nat (p_window_size p)) 0 st
  /\ 0 < Z.to_nat (p_window_size p).
Proof.
  intros Hn Hz. unfold zero_state in Hz. rewrite Hn in Hz. cbn [bind] in Hz.
  destruct (negb (p_cumulative p)); [discriminate|].
  destruct (Z.ltb_spec 1 (p_window_size p)) as [HW|]; [|discriminate].
  injection Hz as <-. rewrite Nat2Z.id. split; [|lia].
  unfold cache_carries, cache_rows, seen. cbn [cached_sums cached_vars cached_count_w].
  repeat split; intros; rewrite data_cast_zeros; reflexivity.
Qed.


Definition three_frames : Tensor :=
  of_flat [1; 3; 2; 1; 2]
    [frac 1 1; frac 2 1; frac 3 1; frac 4 1; frac 5 1; frac 6 1;
     frac 7 1; frac 8 1; frac 9 1; frac 10 1; frac 11 1; frac 12 1].
Definition middle_frame_padded : Tensor :=
  of_flat [1; 3; 1; 1; 1] [frac 0 1; frac 1 1; frac 0 1].
Definition last_frame_padded : Tensor :=
  of_flat [1; 3; 1; 1; 1] [frac 0 1; frac 0 1; frac 1 1].



Lemma last_frame_padded_is_trailing : trailing_padding true last_frame_padded 1 3.
Proof.
  intros i j Hi Hj. replace i with 0 in * by lia.
  vm_compute in Hj. destruct j as [|[|j]]; [reflexivity|reflexivity|lia].
Defined.


(** ** What one streaming step does to the carried state *)

Lemma all_padded_mask4 (rank5 : bool) (P : Tensor) (b t : nat) :
  shape P = mask_shape rank5 b t -> all_padded P ->
  forall i j, i < b -> j < t -> pad_at (mask4 rank5 P) i j = true.
Proof.
  intros HP H i j Hi Hj. unfold pad_at. rewrite (data_mask4 rank5 b P t i j HP Hi Hj).
  apply H. rewrite HP. destruct rank5; cbn [mask_shape length Nat.sub repeat];
    repeat constructor; assumption || lia.
Qed.

Lemma cells_padded rank5 X P4 f g i l s :
  pad_at P4 i s = true -> cells rank5 X P4 f g i l s = 0%Qc.
Proof.
  intros H. destruct rank5; cbn [cells]; [unfold cell_sum5|unfold cell_sum]; rewrite H.
  - apply sum_n_zero. intros a _. apply sum_n_zero. reflexivity.
  - apply sum_n_zero. reflexivity.
Qed.

Lemma cells_sq_padded rank5 X P4 f g mu i l s :
  pad_at P4 i s = true -> cells_sq rank5 X P4 f g mu i l s = 0%Qc.
Proof.
  intros H. destruct rank5; cbn [cells_sq]; [unfold cell_sq5|unfold cell_sq]; rewrite H.
  - apply sum_n_zero. intros a _. apply sum_n_zero. reflexivity.
  - apply sum_n_zero. reflexivity.
Qed.

Lemma chunk_len_padded (P4 : Tensor) (t i : nat) :
  (forall j, j < t -> pad_at P4 i j = true) -> chunk_len t P4 i = 0.
Proof.
  unfold chunk_len, pad_at. induction t as [|t IH]; intros H; [reflexivity|].
  cbn [unpadded_length]. rewrite (H t) by lia. apply IH. intros j Hj. apply H. lia.
Qed.

(** A chunk whose every step is padded leaves the state of the running
    streaming estimator as it was: the cached sum, count and sum of squares
    that [_StreamMoments] returns are the ones it was given, on grouped
    inputs of either rank. *)
Theorem all_padded_chunk_keeps_the_running_state
    (rank5 : bool) (X P : Tensor) (st : Cached) (b t f n g : nat) :
  shape X = grouped_shape rank5 b t f n g ->
  shape P = mask_shape rank5 b t ->
  shape (cached_sum st) = [b; 1; n; 1] ->
  shape (cached_count st) = [b; 1; 1; 1] ->
  shape (cached_var st) = [b; 1; n; 1] ->
  0 < t ->
  all_padded P ->
  exists mean var st',
    _StreamMoments X (Some P) st = Ok (mean, var, st')
    /\ teq (cached_sum st') (cached_sum st)
    /\ teq (cached_count st') (cached_count st)
    /\ teq (cached_var st') (cached_var st).
Proof.
  intros HX HP Hcs Hcc Hcv Ht Hpad.
  destruct (stream_view rank5 X P st b t f n g HX HP Hcs Hcc Hcv Ht)
    as (mean & var & st' & E & _ & _ & Hs1 & Hs2 & Hs3 & Hd1 & Hd2).
  pose proof (all_padded_mask4 rank5 P b t HP Hpad) as Hp.
  exists mean, var, st'. split; [exact E|]. split; [|split].
  - apply (teq_rank4 _ _ b 1 n Hs1 Hcs). intros i j l Hi Hj Hl.
    assert (j = 0) by lia. subst j. rewrite (proj1 (Hd1 i l Hi Hl)).
    unfold lane_stream_sum.
    rewrite sum_n_zero by (intros k Hk; apply cells_padded, Hp; lia). ring.
  - apply (teq_rank4 _ _ b 1 1 Hs2 Hcc). intros i j l Hi Hj Hl.
    assert (j = 0) by lia. assert (l = 0) by lia. subst j l. rewrite (Hd2 i Hi).
    unfold lane_stream_count.
    rewrite sum_n_zero by (intros k Hk; rewrite Hp by lia; reflexivity). ring.
  - apply (teq_rank4 _ _ b 1 n Hs3 Hcv). intros i j l Hi Hj Hl.
    assert (j = 0) by lia. subst j. rewrite (proj2 (Hd1 i l Hi Hl)).
    unfold lane_stream_sqsum.
    rewrite sum_n_zero
      by (intros k Hk; unfold lane_stream_sq; apply cells_sq_padded, Hp; lia).
    ring.
Qed.

Definition two_padded_frames : Tensor := tf_ones [1; 2; 1; 1; 1].
Definition two_frames : Tensor :=
  of_flat [1; 2; 2; 1; 2]
    [frac 1 1; frac 2 1; frac 3 1; frac 4 1; frac 5 1; frac 6 1; frac 7 1; frac 8 1].
Definition carried_state : Cached :=
  mkCached (of_flat [1; 1; 1; 1] [frac 10 1]) (of_flat [1; 1; 1; 1] [frac 4 1])
           (of_flat [1; 1; 1; 1] [frac 5 1]).

Lemma all_padded_chunk_keeps_the_running_state_witness :
  exists mean var st',
    _StreamMoments two_frames (Some two_padded_frames) carried_state = Ok (mean, var, st')
    /\ teq (cached_sum st') (cached_sum carried_state)
    /\ teq (cached_count st') (cached_count carried_state)
    /\ teq (cached_var st') (cached_var carried_state).
Proof.
  apply (all_padded_chunk_keeps_the_running_state true two_frames two_padded_frames
           carried_state 1 2 2 1 2);
    try reflexivity; try lia;
    first [ intros i Hi; replace i with 0 by lia; reflexivity | intros idx _; reflexivity ].
Defined.


Definition one_cached_frame : CachedWindow :=
  mkCachedWindow (of_flat [1; 2; 1; 1] [frac 7 1; frac 0 1])
                 (of_flat [1; 2; 1; 1] [frac 1 2; frac 0 1])
                 (of_flat [1; 1; 1; 1] [frac 1 1]).


(** A chunk whose every step is padded does not advance the window: the
    count that [_StreamWindowedMoments] returns is the count it was given,
    and the cached rows below the count are kept; on grouped inputs of
    either rank. *)
Theorem all_padded_chunk_keeps_the_window
    (tail_fill : Tensor -> Tensor -> Index -> Qc) (rank5 : bool) (p : Params)
    (X P : Tensor) (st : CachedWindow) (b t f n g W : nat) (c : nat -> nat) :
  shape X = grouped_shape rank5 b t f n g ->
  shape P = mask_shape rank5 b t ->
  shape (cached_sums st) = [b; W; n; 1] ->
  shape (cached_vars st) = [b; W; n; 1] ->
  shape (cached_count_w st) = [b; 1; 1; 1] ->
  (forall i, i < b -> data (cached_count_w st) [i; 0; 0; 0] = Qc_of_nat (c i)) ->
  (forall i, i < b -> c i <= W) ->
  0 < b ->
  Z.to_nat (p_window_size p) = W ->
  all_padded P ->
  exists mean var st',
    _StreamWindowedMoments tail_fill p X (Some P) st = Ok (mean, var, st')
    /\ teq (cached_count_w st') (cached_count_w st)
    /\ (forall i k l, i < b -> k < c i -> l < n ->
          data (cached_sums st') [i; k; l; 0] = data (cached_sums st) [i; k; l; 0]
          /\ data (cached_vars st') [i; k; l; 0] = data (cached_vars st) [i; k; l; 0]).
Proof.
  intros HX HP Hks Hkv Hcs Hcd HcW Hb HW Hpad.
  assert (Hunif : (extent 0 (shape X) =? 1) = true ->
            forall i, i < b ->
              c i = c 0 /\ chunk_len t (mask4 rank5 P) i = chunk_len t (mask4 rank5 P) 0).
  { rewrite HX, extent0_grouped. intros E i Hi. apply Nat.eqb_eq in E.
    replace i with 0 by lia. split; reflexivity. }
  unfold _StreamWindowedMoments.
  destruct (window_view tail_fill rank5 (extent 0 (shape X) =? 1) p X P st
              b t f n g W c HX HP Hks Hkv Hcs Hcd HcW Hb HW Hunif)
    as (mean & var & st' & E & _ & _ & Hs1 & Hs2 & Hs3 & Hc & Hn).
  assert (Hlen : forall i, i < b -> chunk_len t (mask4 rank5 P) i = 0).
  { intros i Hi. apply chunk_len_padded. intros j Hj.
    apply (all_padded_mask4 rank5 P b t HP Hpad); assumption. }
  assert (Hcount : forall i, i < b -> new_count t W (mask4 rank5 P) c i = c i).
  { intros i Hi. unfold new_count. rewrite (Hlen i Hi). specialize (HcW i Hi). lia. }
  assert (Hrow : forall K cellf i k l, i < b -> k < c i ->
            new_cache_at t W (mask4 rank5 P) K c cellf i l k = data K [i; k; l; 0]).
  { intros K cellf i k l Hi Hk. unfold new_cache_at. rewrite (Hcount i Hi), (Hlen i Hi).
    replace (k <? c i) with true by (symmetry; apply Nat.ltb_lt; exact Hk).
    unfold concat_at. replace (c i + 0 - c i + k) with k by lia.
    replace (k <? c i) with true by (symmetry; apply Nat.ltb_lt; exact Hk).
    reflexivity. }
  exists mean, var, st'. split; [exact E|]. split.
  - apply (teq_rank4 _ _ b 1 1 Hs3 Hcs). intros i j l Hi Hj Hl.
    assert (j = 0) by lia. assert (l = 0) by lia. subst j l.
    rewrite (Hn i Hi), (Hcount i Hi), (Hcd i Hi). reflexivity.
  - intros i k l Hi Hk Hl. specialize (HcW i Hi).
    destruct (Hc i k l Hi ltac:(lia) Hl) as [E1 E2].
    rewrite E1, E2, !Hrow by assumption. split; reflexivity.
Qed.

Lemma all_padded_chunk_keeps_the_window_witness :
  exists mean var st',
    _StreamWindowedMoments no_tail window_pair_params two_frames
      (Some two_padded_frames) one_cached_frame = Ok (mean, var, st')
    /\ teq (cached_count_w st') (cached_count_w one_cached_frame)
    /\ (forall i k l, i < 1 -> k < 1 -> l < 1 ->
          data (cached_sums st') [i; k; l; 0] = data (cached_sums one_cached_frame) [i; k; l; 0]
          /\ data (cached_vars st') [i; k; l; 0]
             = data (cached_vars one_cached_frame) [i; k; l; 0]).
Proof.
  apply (all_padded_chunk_keeps_the_window no_tail true window_pair_params
           two_frames two_padded_frames one_cached_frame 1 2 2 1 2 2 (fun _ => 1));
    try reflexivity; try lia;
    first [ intros i Hi; replace i with 0 by lia; reflexivity | intros idx _; reflexivity ].
Defined.

(** ** Which configurations the constructor accepts *)


(** ** Signs *)

Lemma Qc_mult_nonneg (a b : Qc) : (0 <= a)%Qc -> (0 <= b)%Qc -> (0 <= a * b)%Qc.
Proof.
  unfold Qcle. intros Ha Hb. change (0 <= Qred (this a * this b))%Q.
  rewrite Qred_correct. apply Qmult_le_0_compat; assumption.
Qed.

Lemma sqr_nonneg (a : Qc) : (0 <= sqr a)%Qc.
Proof.
  unfold sqr, Qcle. change (0 <= Qred (this a * this a))%Q. rewrite Qred_correct.
  destruct a as [[n d] Hc]. cbn [this]. unfold Qle, Qmult. cbn [Qnum Qden]. nia.
Qed.

Lemma Qc_div_nonneg (a b : Qc) : (0 <= a)%Qc -> (0 < b)%Qc -> (0 <= a / b)%Qc.
Proof.
  intros Ha Hb. unfold Qcdiv. apply Qc_mult_nonneg; [exact Ha|].
  unfold Qcle, Qclt in *. change (0 <= Qred (/ this b))%Q. rewrite Qred_correct.
  apply Qinv_le_0_compat. apply Qlt_le_weak. exact Hb.
Qed.

Lemma sum_n_nonneg n (f : nat -> Qc) :
  (forall k, k < n -> (0 <= f k)%Qc) -> (0 <= sum_n n f)%Qc.
Proof.
  induction n as [|n IH]; intros H; cbn [sum_n]; [apply Qcle_refl|].
  replace 0%Qc with (0 + 0)%Qc by ring.
  apply Qcplus_le_compat; [apply IH; intros; apply H; lia|apply H; lia].
Qed.

Lemma sum_n_mono n m (f : nat -> Qc) :
  n <= m -> (forall k, k < m -> (0 <= f k)%Qc) -> (sum_n n f <= sum_n m f)%Qc.
Proof.
  intros Hnm H. replace m with (n + (m - n)) by lia. rewrite sum_n_app.
  replace (sum_n n f) with (sum_n n f + 0)%Qc at 1 by ring.
  apply Qcplus_le_compat; [apply Qcle_refl|].
  apply sum_n_nonneg. intros k Hk. apply H. lia.
Qed.

Lemma Qcmax_one_pos (x : Qc) : (0 < Qcmax x 1)%Qc.
Proof.
  apply Qclt_le_trans with 1%Qc; [reflexivity|apply Qcmax_ge_r].
Qed.

(** A tensor none of whose values is negative (inside its shape or not). *)
Definition nonneg (x : Tensor) : Prop := forall idx, (0 <= data x idx)%Qc.

Lemma nonneg_bget x idx : nonneg x -> (0 <= bget x idx)%Qc.
Proof. intros H. unfold bget. apply H. Qed.

Lemma nonneg_ApplyPadding padding x : nonneg x -> nonneg (ApplyPadding padding x).
Proof.
  intros H idx. unfold ApplyPadding. cbn [data].
  destruct (Qcltb 0%Qc (bget padding idx)); [apply Qcle_refl|apply nonneg_bget, H].
Qed.

Lemma nonneg_squared_difference x y : nonneg (tf_squared_difference x y).
Proof. intros idx. unfold tf_squared_difference. rewrite data_map2. apply sqr_nonneg. Qed.

Lemma nonneg_reduce_axis a x : nonneg x -> nonneg (reduce_axis a x).
Proof. intros H idx. unfold reduce_axis. cbn [data]. apply sum_n_nonneg. intros. apply H. Qed.

Lemma nonneg_reduce_sum dims x : nonneg x -> nonneg (tf_reduce_sum x dims).
Proof.
  intros H. unfold tf_reduce_sum. induction dims as [|a dims IH]; cbn [fold_right];
    [exact H|apply nonneg_reduce_axis, IH].
Qed.

Lemma nonneg_drop_axes_below n dims : forall x, nonneg x -> nonneg (drop_axes_below n dims x).
Proof.
  induction n as [|n IH]; intros x H; cbn [drop_axes_below]; [exact H|].
  apply IH. destruct (existsb (Nat.eqb n) dims); [|exact H].
  intros idx. unfold squeeze_axis. cbn [data]. apply H.
Qed.

Lemma nonneg_reduce_sum_keepdims dims k x :
  nonneg x -> nonneg (tf_reduce_sum_keepdims x dims k).
Proof.
  intros H. unfold tf_reduce_sum_keepdims. cbv zeta.
  destruct k; [apply nonneg_reduce_sum, H|apply nonneg_drop_axes_below, nonneg_reduce_sum, H].
Qed.

Lemma nonneg_cumsum a x : nonneg x -> nonneg (tf_cumsum x a).
Proof. intros H idx. unfold tf_cumsum. cbn [data]. apply sum_n_nonneg. intros. apply H. Qed.

Lemma nonneg_div_maximum_one s c : nonneg s -> nonneg (tf_div s (tf_maximum c (tf_scalar 1%Qc))).
Proof.
  intros H idx. unfold tf_div. rewrite data_map2. apply Qc_div_nonneg.
  - apply nonneg_bget, H.
  - unfold bget. unfold tf_maximum. rewrite data_map2, bget_scalar. apply Qcmax_one_pos.
Qed.

Lemma acc_nonneg Wc T P i (f : nat -> Qc) j :
  j < T -> (forall s, s < T -> (0 <= f s)%Qc) -> (0 <= acc Wc T P i f j)%Qc.
Proof.
  intros Hj H. unfold acc.
  destruct (Nat.eqb_spec Wc 0) as [_|HW]; [apply sum_n_nonneg; intros; apply H; lia|].
  unfold win. set (W := Nat.min Wc T).
  assert (H0 : (0 <= sum_n (S j) f)%Qc) by (apply sum_n_nonneg; intros; apply H; lia).
  destruct (pad_at P i j).
  { replace (sum_n (S j) f - _ * 0)%Qc with (sum_n (S j) f) by ring. exact H0. }
  destruct (Nat.ltb_spec j W) as [Hlt|Hge].
  { replace (sum_n (S j) f - _ * 0)%Qc with (sum_n (S j) f) by ring. exact H0. }
  rewrite roll_back_index by (assumption || lia).
  assert (Hm : (sum_n (S (j - W)) f <= sum_n (S j) f)%Qc)
    by (apply sum_n_mono; [lia|intros; apply H; lia]).
  apply Qcle_minus_iff in Hm.
  replace (sum_n (S j) f - sum_n (S (j - W)) f * 1)%Qc
    with (sum_n (S j) f + - sum_n (S (j - W)) f)%Qc by ring.
  exact Hm.
Qed.

Lemma cells_sq_nonneg rank5 X P4 f g mu i l s : (0 <= cells_sq rank5 X P4 f g mu i l s)%Qc.
Proof.
  destruct rank5; cbn [cells_sq]; [unfold cell_sq5|unfold cell_sq].
  - apply sum_n_nonneg. intros a _. apply sum_n_nonneg. intros k _.
    destruct (pad_at P4 i s); [apply Qcle_refl|apply sqr_nonneg].
  - apply sum_n_nonneg. intros k _.
    destruct (pad_at P4 i s); [apply Qcle_refl|apply sqr_nonneg].
Qed.

(** ** A window that covers the sequence *)

Lemma acc_covering Wc T P i f j : T <= Wc -> j < T -> acc Wc T P i f j = acc 0 T P i f j.
Proof.
  intros HW Hj. unfold acc. destruct (Nat.eqb_spec Wc 0) as [_|_]; [reflexivity|].
  cbn [Nat.eqb]. unfold win. replace (Nat.min Wc T) with T by lia.
  replace (j <? T) with true by (symmetry; apply Nat.ltb_lt; exact Hj).
  destruct (pad_at P i j); ring.
Qed.

(** A window at least as long as the sequence is no window: on grouped
    inputs of either rank, [ComputeMoments] with [cumulative_axis=1] and
    [cumsum_window_size >= T] returns the mean and the variance it returns
    with no window. *)
Theorem window_covering_the_sequence_is_no_window
    (rank5 use_tpu crs : bool) (X P : Tensor) (b T f n g Wc : nat) :
  shape X = grouped_shape rank5 b T f n g ->
  shape P = mask_shape rank5 b T ->
  T <= Wc ->
  teq (fst (ComputeMoments use_tpu X P (reduce_dims rank5) (Some 1) crs true Wc))
      (fst (ComputeMoments use_tpu X P (reduce_dims rank5) (Some 1) crs true 0))
  /\ teq (snd (ComputeMoments use_tpu X P (reduce_dims rank5) (Some 1) crs true Wc))
         (snd (ComputeMoments use_tpu X P (reduce_dims rank5) (Some 1) crs true 0)).
Proof.
  intros HX HP HW.
  destruct (batch_view rank5 use_tpu crs X P b T f n g Wc HX HP) as [Hm Hv].
  destruct (batch_view rank5 use_tpu crs X P b T f n g 0 HX HP) as [Hm0 Hv0].
  cbv zeta in *.
  assert (Hmean : forall i l j, j < T ->
            lane_mean (mask4 rank5 P) (cell_size rank5 f g) T Wc
              (cells rank5 X (mask4 rank5 P) f g) i l j
            = lane_mean (mask4 rank5 P) (cell_size rank5 f g) T 0
                (cells rank5 X (mask4 rank5 P) f g) i l j).
  { intros i l j Hj. unfold lane_mean, lane_denom. rewrite !(acc_covering Wc) by assumption.
    reflexivity. }
  split.
  - apply (lanes_teq rank5 _ _ b T n _ _ Hm Hm0). intros i j l _ Hj _. apply Hmean, Hj.
  - apply (lanes_teq rank5 _ _ b T n _ _ Hv Hv0). intros i j l _ Hj _.
    unfold lane_var, lane_denom. rewrite !(acc_covering Wc) by assumption.
    f_equal. apply acc_ext; [exact Hj|]. intros s Hs. unfold lane_sq.
    rewrite Hmean by exact Hs. reflexivity.
Qed.

Lemma window_covering_the_sequence_is_no_window_witness :
  teq (fst (ComputeMoments false three_frames middle_frame_padded [2; 4] (Some 1) false true 5))
      (fst (ComputeMoments false three_frames middle_frame_padded [2; 4] (Some 1) false true 0))
  /\ teq (snd (ComputeMoments false three_frames middle_frame_padded [2; 4] (Some 1) false
                 true 5))
         (snd (ComputeMoments false three_frames middle_frame_padded [2; 4] (Some 1) false
                 true 0)).
Proof.
  apply (window_covering_the_sequence_is_no_window true false false
           three_frames middle_frame_padded 1 3 2 1 2 5); try reflexivity; lia.
Defined.

(** ** The variance is never negative *)

(** In exact arithmetic the assertion of [ComputeMoments] on the sum of
    squared deviations cannot fail, and the variance is not negative:
    without a window, for every input, padding, set of reduction axes and
    cumulative axis, at every index; with a window, on grouped inputs of
    either rank, at every index of the result. *)
Theorem variance_is_never_negative :
  (forall (use_tpu : bool) (inputs padding : Tensor) (reduce_over_dims : list nat)
          (cumulative_axis : option nat) (crs keepdims : bool) (idx : Index),
     Qcle 0%Qc (data (snd (ComputeMoments use_tpu inputs padding reduce_over_dims
                              cumulative_axis crs keepdims 0)) idx))
  /\ (forall (rank5 use_tpu crs : bool) (X P : Tensor) (b T f n g Wc : nat) (idx : Index),
        shape X = grouped_shape rank5 b T f n g ->
        shape P = mask_shape rank5 b T ->
        InRange (moment_shape rank5 b T n) idx ->
        Qcle 0%Qc (data (snd (ComputeMoments use_tpu X P (reduce_dims rank5) (Some 1) crs
                                 true Wc)) idx)).
Proof.
  split.
  - intros use_tpu inputs padding dims ca crs keepdims idx.
    unfold ComputeMoments. cbv zeta. cbn [Nat.eqb negb snd].
    unfold cross_replica_sum.
    match goal with
    | |- Qcle _ (data (tf_div ?s (tf_maximum ?c (tf_scalar 1%Qc))) idx) =>
        apply (nonneg_div_maximum_one s c)
    end.
    assert (H : forall m,
              nonneg (tf_reduce_sum_keepdims
                        (ApplyPadding padding (tf_squared_difference inputs m)) dims keepdims))
      by (intros m; apply nonneg_reduce_sum_keepdims, nonneg_ApplyPadding,
                     nonneg_squared_difference).
    destruct (use_tpu && crs); destruct ca; try apply nonneg_cumsum; apply H.
  - intros rank5 use_tpu crs X P b T f n g Wc idx HX HP Hin.
    destruct (batch_view rank5 use_tpu crs X P b T f n g Wc HX HP) as [_ [Hs Hd]].
    destruct (moment_index_inv _ _ _ _ _ Hin) as (i & j & l & -> & Hi & Hj & Hl).
    cbv zeta in Hd. rewrite (Hd i j l Hi Hj Hl). unfold lane_var.
    apply Qc_div_nonneg; [|apply Qcmax_one_pos].
    apply acc_nonneg; [exact Hj|]. intros s _. apply cells_sq_nonneg.
Qed.

Lemma variance_is_never_negative_witness :
  Qcle 0%Qc (data (snd (ComputeMoments false three_frames middle_frame_padded [2; 4]
                          (Some 1) false true 2)) [0; 2; 0; 0; 0]).
Proof.
  apply (proj2 variance_is_never_negative true false false three_frames
           middle_frame_padded 1 3 2 1 2 2 [0; 2; 0; 0; 0]); try reflexivity.
  repeat constructor.
Defined.

(** * The layer on a sequence and on its chunks *)

(** ** Layer inputs and their grouping *)

(** A layer input is [[b, t, d]] or [[b, t, f, d]] ([rank5], after the
    rank of its grouped form); [frames] is the extent of the axis between
    the time axis and the channels. *)
Definition layer_shape (rank5 : bool) (b t f d : nat) : list nat :=
  if rank5 then [b; t; f; d] else [b; t; d].
Definition layer_index (rank5 : bool) (i j a c : nat) : Index :=
  if rank5 then [i; j; a; c] else [i; j; c].
Definition grouped_index (rank5 : bool) (i j a l k : nat) : Index :=
  if rank5 then [i; j; a; l; k] else [i; j; l; k].
Definition frames (rank5 : bool) (f : nat) : nat := if rank5 then f else 1.

Lemma layer_index_inv rank5 b t f d idx :
  InRange (layer_shape rank5 b t f d) idx ->
  exists i j a c, idx = layer_index rank5 i j a c
                  /\ i < b /\ j < t /\ a < frames rank5 f /\ c < d.
Proof.
  destruct rank5; cbn [layer_shape layer_index frames]; intros H.
  - destruct (InRange4 _ _ _ _ _ H) as (i & j & a & c & -> & Hi & Hj & Ha & Hc).
    exists i, j, a, c. repeat split; assumption.
  - inversion H as [|i ? r0 ? Hi H0]; subst.
    inversion H0 as [|j ? r1 ? Hj H1]; subst.
    inversion H1 as [|c ? r2 ? Hc H2]; subst. inversion H2; subst.
    exists i, j, 0, c. repeat split; assumption || lia.
Qed.

Lemma layer_index_in_range rank5 b t f d i j a c :
  i < b -> j < t -> a < frames rank5 f -> c < d ->
  InRange (layer_shape rank5 b t f d) (layer_index rank5 i j a c).
Proof.
  destruct rank5; cbn [layer_shape layer_index frames]; intros; repeat constructor; assumption.
Qed.

Lemma grouped_index_in_range rank5 b t f n g i j a l k :
  i < b -> j < t -> a < frames rank5 f -> l < n -> k < g ->
  InRange (grouped_shape rank5 b t f n g) (grouped_index rank5 i j a l k).
Proof.
  destruct rank5; cbn [grouped_shape grouped_index frames]; intros;
    repeat constructor; assumption.
Qed.

Lemma grouped_index_inv rank5 b t f n g idx :
  InRange (grouped_shape rank5 b t f n g) idx ->
  exists i j a l k, idx = grouped_index rank5 i j a l k
                    /\ i < b /\ j < t /\ a < frames rank5 f /\ l < n /\ k < g.
Proof.
  destruct rank5; cbn [grouped_shape grouped_index frames]; intros H.
  - destruct (InRange5 _ _ _ _ _ _ H) as (i & j & a & l & k & -> & ?).
    exists i, j, a, l, k. tauto.
  - destruct (InRange4 _ _ _ _ _ H) as (i & j & l & k & -> & ?).
    exists i, j, 0, l, k. repeat split; tauto || lia.
Qed.

Lemma teq_layer rank5 x y b t f d :
  shape x = layer_shape rank5 b t f d -> shape y = layer_shape rank5 b t f d ->
  (forall i j a c, i < b -> j < t -> a < frames rank5 f -> c < d ->
     data x (layer_index rank5 i j a c) = data y (layer_index rank5 i j a c)) ->
  teq x y.
Proof.
  intros Hx Hy H. split; [congruence|]. intros idx Hin. rewrite Hx in Hin.
  destruct (layer_index_inv _ _ _ _ _ _ Hin) as (i & j & a & c & -> & Hi & Hj & Ha & Hc).
  apply H; assumption.
Qed.

Lemma teq_grouped rank5 x y b t f n g :
  shape x = grouped_shape rank5 b t f n g -> shape y = grouped_shape rank5 b t f n g ->
  (forall i j a l k, i < b -> j < t -> a < frames rank5 f -> l < n -> k < g ->
     data x (grouped_index rank5 i j a l k) = data y (grouped_index rank5 i j a l k)) ->
  teq x y.
Proof.
  intros Hx Hy H. split; [congruence|]. intros idx Hin. rewrite Hx in Hin.
  destruct (grouped_index_inv _ _ _ _ _ _ _ Hin)
    as (i & j & a & l & k & -> & Hi & Hj & Ha & Hl & Hk).
  apply H; assumption.
Qed.

(** Splitting the channels into [n] groups of [g], and merging them back. *)
Lemma group_data rank5 Y b t f n g i j a l k :
  shape Y = layer_shape rank5 b t f (n * g) ->
  i < b -> j < t -> a < frames rank5 f -> l < n -> k < g ->
  data (tf_reshape Y (grouped_shape rank5 b t f n g)) (grouped_index rank5 i j a l k)
  = data Y (layer_index rank5 i j a (l * g + k)).
Proof.
  intros HY Hi Hj Ha Hl Hk.
  assert (Hc : l * g + k < n * g) by nia.
  apply data_reshape.
  - rewrite HY. apply layer_index_in_range; assumption.
  - rewrite HY. destruct rank5; unfold ravel;
      cbn [grouped_shape grouped_index layer_shape layer_index rev app ravel_rev]; ring.
Qed.

Lemma ungroup_data rank5 O b t f n g i j a c :
  shape O = grouped_shape rank5 b t f n g ->
  i < b -> j < t -> a < frames rank5 f -> c < n * g ->
  data (tf_reshape O (layer_shape rank5 b t f (n * g))) (layer_index rank5 i j a c)
  = data O (grouped_index rank5 i j a (c / g) (c mod g)).
Proof.
  intros HO Hi Hj Ha Hc.
  assert (Hg : 0 < g) by (destruct g; [lia|lia]).
  assert (Hl : c / g < n) by (apply Nat.Div0.div_lt_upper_bound; lia).
  assert (Hk : c mod g < g) by (apply Nat.mod_upper_bound; lia).
  pose proof (Nat.div_mod_eq c g) as E.
  apply data_reshape.
  - rewrite HO. apply grouped_index_in_range; assumption.
  - rewrite HO. destruct rank5; unfold ravel;
      cbn [grouped_shape grouped_index layer_shape layer_index rev app ravel_rev];
      rewrite E at 1; ring.
Qed.

Lemma mask_data rank5 P b t i j :
  shape P = [b; t] -> i < b -> j < t ->
  data (tf_reshape P (mask_shape rank5 b t)) (i :: j :: repeat 0 (if rank5 then 3 else 2))
  = data P [i; j].
Proof.
  intros HP Hi Hj. apply data_reshape.
  - rewrite HP. repeat constructor; assumption.
  - rewrite HP.
    replace (mask_shape rank5 b t) with ([b; t] ++ repeat 1 (if rank5 then 3 else 2))
      by (destruct rank5; reflexivity).
    apply (ravel_ones [b; t] [i; j]).
Qed.

(** ** Scale and offset *)

Lemma InRange_leading_ones k d c : c < d -> InRange (repeat 1 k ++ [d]) (repeat 0 k ++ [c]).
Proof.
  intros Hc. induction k as [|k IH]; cbn [repeat app].
  - repeat constructor. exact Hc.
  - constructor; [lia|exact IH].
Qed.

Lemma ravel_leading_ones k d c : ravel [d] [c] = ravel (repeat 1 k ++ [d]) (repeat 0 k ++ [c]).
Proof.
  unfold ravel. rewrite !rev_app_distr, !rev_repeat. cbn [rev app ravel_rev].
  pose proof (ravel_rev_ones k [] []) as E. rewrite !app_nil_r in E. rewrite E.
  cbn [ravel_rev]. reflexivity.
Qed.

(** [_ApplyGammaBeta] on an output whose last axis is [dim]; the variables
    have the shape [[1, ..., 1, dim]]. *)
Lemma ApplyGammaBeta_formula (p : Params) (theta : Theta) (R : Tensor)
    (S0 : list nat) (kg kb : nat) (idx0 : Index) (c : nat) :
  shape R = S0 ++ [Z.to_nat (p_dim p)] ->
  dtype R <> int32 ->
  shape (gamma theta) = repeat 1 kg ++ [Z.to_nat (p_dim p)] ->
  shape (beta theta) = repeat 1 kb ++ [Z.to_nat (p_dim p)] ->
  InRange S0 idx0 -> c < Z.to_nat (p_dim p) ->
  data (_ApplyGammaBeta p theta R) (idx0 ++ [c])
  = Qcplus (Qcmult (data R (idx0 ++ [c]))
                   (Qcplus (data (gamma theta) (repeat 0 kg ++ [c])) 1%Qc))
           (data (beta theta) (repeat 0 kb ++ [c])).
Proof.
  intros HR HdR Hg Hb Hin0 Hc. set (d := Z.to_nat (p_dim p)) in *.
  assert (Hin : InRange (S0 ++ [d]) (idx0 ++ [c])).
  { apply Forall2_app; [exact Hin0|repeat constructor; exact Hc]. }
  unfold _ApplyGammaBeta. fold d.
  set (G := tf_cast (tf_reshape (tf_add (gamma theta) (tf_scalar 1%Qc)) [d]) (dtype R)).
  set (B := tf_cast (tf_reshape (beta theta) [d]) (dtype R)).
  assert (HGs : shape G = [d]) by reflexivity.
  assert (HBs : shape B = [d]) by reflexivity.
  assert (Hmul : shape (tf_mul R G) = S0 ++ [d]).
  { unfold tf_mul. rewrite shape_map2, HR, HGs. apply bshape_last. }
  assert (HGd : data G [c] = Qcplus (data (gamma theta) (repeat 0 kg ++ [c])) 1%Qc).
  { unfold G. rewrite data_cast_float by exact HdR.
    rewrite (data_reshape _ [d] [c] (repeat 0 kg ++ [c])).
    - unfold tf_add. rewrite data_map2, bget_scalar, bget_in_range
        by (rewrite Hg; apply InRange_leading_ones; exact Hc).
      reflexivity.
    - unfold tf_add. rewrite shape_map2, Hg, bshape_nil_r.
      apply InRange_leading_ones; exact Hc.
    - unfold tf_add. rewrite shape_map2, Hg, bshape_nil_r. apply ravel_leading_ones. }
  assert (HBd : data B [c] = data (beta theta) (repeat 0 kb ++ [c])).
  { unfold B. rewrite data_cast_float by exact HdR.
    apply data_reshape.
    - rewrite Hb. apply InRange_leading_ones; exact Hc.
    - rewrite Hb. apply ravel_leading_ones. }
  unfold tf_add at 1. rewrite data_map2.
  rewrite (bget_in_range (tf_mul R G)) by (rewrite Hmul; exact Hin).
  unfold tf_mul. rewrite data_map2.
  rewrite (bget_in_range R) by (rewrite HR; exact Hin).
  rewrite (bget_bidx G), HGs, (bget_bidx B), HBs, !bidx_last by exact Hc.
  rewrite HGd, HBd. reflexivity.
Qed.

(** ** Normalizing a layer input with given moments *)

Lemma bget_moment rank5 m b t n i j a l k :
  shape m = moment_shape rank5 b t n ->
  i < b -> j < t -> l < n ->
  bget m (grouped_index rank5 i j a l k) = data m (moment_index rank5 i j l).
Proof.
  intros Hm Hi Hj Hl. destruct rank5; cbn [moment_shape grouped_index moment_index] in *.
  - rewrite (bget5 m _ _ _ _ _ _ _ _ _ _ Hm), !clampi_one, !clampi_id by assumption.
    reflexivity.
  - rewrite (bget4 m _ _ _ _ _ _ _ _ Hm), !clampi_one, !clampi_id by assumption.
    reflexivity.
Qed.

Lemma moments_broadcast rank5 b t f n g :
  broadcasts_into (moment_shape rank5 b t n) (grouped_shape rank5 b t f n g).
Proof.
  unfold broadcasts_into.
  destruct rank5; cbn [moment_shape grouped_shape];
    repeat (apply Forall2_cons || apply Forall2_nil); auto.
Qed.

Lemma layer_shape_snoc rank5 b t f d :
  layer_shape rank5 b t f d = (if rank5 then [b; t; f] else [b; t]) ++ [d].
Proof. destruct rank5; reflexivity. Qed.

Lemma layer_index_snoc rank5 i j a c :
  layer_index rank5 i j a c = (if rank5 then [i; j; a] else [i; j]) ++ [c].
Proof. destruct rank5; reflexivity. Qed.

(** The value the layer gives channel [c] of a position, from the input
    value [x], the moments [mu] and [var] of its group and the variables
    of the channel. *)
Definition normalized (tf_sqrt : Qc -> Qc) (eps x mu var gam bet : Qc) : Qc :=
  ((x - mu) / tf_sqrt (var + eps) * (gam + 1) + bet)%Qc.

(** [_Normalize] on the grouped input, the reshape to the input's shape
    and [_ApplyGammaBeta], index by index. *)
Lemma layer_view (tf_sqrt : Qc -> Qc) (rank5 : bool) (p : Params) (theta : Theta)
    (Y m v : Tensor) (b t f n g kg kb : nat) :
  Z.to_nat (p_dim p) = n * g ->
  shape Y = layer_shape rank5 b t f (n * g) ->
  dtype Y <> int32 -> dtype m <> int32 -> dtype v <> int32 ->
  shape m = moment_shape rank5 b t n ->
  shape v = moment_shape rank5 b t n ->
  shape (gamma theta) = repeat 1 kg ++ [n * g] ->
  shape (beta theta) = repeat 1 kb ++ [n * g] ->
  exists o,
    _Normalize tf_sqrt p (tf_reshape Y (grouped_shape rank5 b t f n g)) m v = Ok o
    /\ shape (_ApplyGammaBeta p theta (tf_reshape o (layer_shape rank5 b t f (n * g))))
       = layer_shape rank5 b t f (n * g)
    /\ forall i j a c, i < b -> j < t -> a < frames rank5 f -> c < n * g ->
         data (_ApplyGammaBeta p theta (tf_reshape o (layer_shape rank5 b t f (n * g))))
              (layer_index rank5 i j a c)
         = normalized tf_sqrt (p_epsilon p)
             (data Y (layer_index rank5 i j a c))
             (data m (moment_index rank5 i j (c / g)))
             (data v (moment_index rank5 i j (c / g)))
             (data (gamma theta) (repeat 0 kg ++ [c]))
             (data (beta theta) (repeat 0 kb ++ [c])).
Proof.
  intros Hd HY HdY Hdm Hdv Hm Hv Hg Hb.
  set (XG := tf_reshape Y (grouped_shape rank5 b t f n g)).
  assert (HXG : shape XG = grouped_shape rank5 b t f n g) by reflexivity.
  assert (Hbm : broadcasts_into (shape m) (shape XG))
    by (rewrite Hm, HXG; apply moments_broadcast).
  assert (Hbv : broadcasts_into (shape v) (shape XG))
    by (rewrite Hv, HXG; apply moments_broadcast).
  destruct (Normalize_formula tf_sqrt p XG m v Hbm Hbv Hdm Hdv)
    as (o & E & Hos & Hod & Hdata).
  exists o. split; [exact E|].
  set (R := tf_reshape o (layer_shape rank5 b t f (n * g))).
  assert (HR : shape R = (if rank5 then [b; t; f] else [b; t]) ++ [Z.to_nat (p_dim p)]).
  { rewrite Hd. unfold R. cbn [tf_reshape shape]. apply layer_shape_snoc. }
  assert (HdR : dtype R <> int32).
  { unfold R. cbn [tf_reshape dtype]. rewrite Hod. exact HdY. }
  split.
  - rewrite (shape_ApplyGammaBeta p theta R _ HR). rewrite HR, Hd. symmetry.
    apply layer_shape_snoc.
  - intros i j a c Hi Hj Ha Hc.
    assert (Hg0 : 0 < g) by (destruct g; lia).
    assert (Hl : c / g < n) by (apply Nat.Div0.div_lt_upper_bound; lia).
    assert (Hk : c mod g < g) by (apply Nat.mod_upper_bound; lia).
    rewrite layer_index_snoc.
    rewrite (ApplyGammaBeta_formula p theta R _ kg kb _ c HR HdR).
    + rewrite <- layer_index_snoc. unfold R.
      rewrite (ungroup_data rank5 o b t f n g i j a c) by (assumption || congruence).
      rewrite Hdata by (rewrite HXG; apply grouped_index_in_range; assumption).
      unfold XG at 1. rewrite (group_data rank5 Y b t f n g) by assumption.
      rewrite !(bget_moment rank5 _ b t n) by assumption.
      replace (c / g * g + c mod g) with c
        by (rewrite (Nat.div_mod_eq c g) at 1; ring).
      unfold normalized. reflexivity.
    + rewrite Hd. exact Hg.
    + rewrite Hd. exact Hb.
    + destruct rank5; cbn [frames] in Ha; repeat constructor; assumption.
    + rewrite Hd. exact Hc.
Qed.

(** ** The running estimator depends on the values inside the shapes only *)

Lemma pad_at_mask4_teq rank5 P P' b t i j :
  shape P = mask_shape rank5 b t -> teq P P' -> i < b -> j < t ->
  pad_at (mask4 rank5 P) i j = pad_at (mask4 rank5 P') i j.
Proof.
  intros HP [Hs Hd] Hi Hj. unfold pad_at.
  rewrite (data_mask4 rank5 b P t i j HP Hi Hj).
  rewrite (data_mask4 rank5 b P' t i j) by (assumption || congruence).
  rewrite <- Hs. f_equal. apply Hd.
  rewrite HP. destruct rank5; cbn [mask_shape length Nat.sub repeat];
    repeat constructor; assumption || lia.
Qed.

Lemma cells_teq rank5 X X' P4 P4' b t f n g i l s :
  shape X = grouped_shape rank5 b t f n g -> teq X X' ->
  pad_at P4 i s = pad_at P4' i s -> i < b -> s < t -> l < n ->
  cells rank5 X P4 f g i l s = cells rank5 X' P4' f g i l s
  /\ forall mu, cells_sq rank5 X P4 f g mu i l s = cells_sq rank5 X' P4' f g mu i l s.
Proof.
  intros HX [_ Hd] Hp Hi Hs Hl. rewrite HX in Hd.
  destruct rank5; cbn [cells cells_sq grouped_shape] in *.
  - split; [|intros mu]; unfold cell_sum5, cell_sq5; rewrite Hp;
      apply sum_n_ext; intros a Ha; apply sum_n_ext; intros k Hk;
      rewrite (Hd [i; s; a; l; k]) by (apply InRange5_intro; assumption); reflexivity.
  - split; [|intros mu]; unfold cell_sum, cell_sq; rewrite Hp;
      apply sum_n_ext; intros k Hk;
      rewrite (Hd [i; s; l; k]) by (apply InRange4_intro; assumption); reflexivity.
Qed.

Lemma lane_stream_ext (P P' : Tensor) (G : nat) (st : Cached)
    (cs cs' : nat -> nat -> nat -> Qc) (cq cq' : Qc -> nat -> nat -> nat -> Qc)
    (i l j : nat) :
  (forall s, s <= j -> pad_at P i s = pad_at P' i s) ->
  (forall s, s <= j -> cs i l s = cs' i l s) ->
  (forall mu s, s <= j -> cq mu i l s = cq' mu i l s) ->
  lane_stream_sum st cs i l j = lane_stream_sum st cs' i l j
  /\ lane_stream_count P G st i j = lane_stream_count P' G st i j
  /\ lane_stream_mean P G st cs i l j = lane_stream_mean P' G st cs' i l j
  /\ lane_stream_sqsum P G st cs cq i l j = lane_stream_sqsum P' G st cs' cq' i l j
  /\ lane_stream_var P G st cs cq i l j = lane_stream_var P' G st cs' cq' i l j.
Proof.
  intros Hp Hcs Hcq.
  assert (Hsum : forall q, q <= j -> lane_stream_sum st cs i l q = lane_stream_sum st cs' i l q).
  { intros q Hq. unfold lane_stream_sum. f_equal. apply sum_n_ext. intros s Hs.
    apply Hcs. lia. }
  assert (Hcnt : forall q, q <= j ->
            lane_stream_count P G st i q = lane_stream_count P' G st i q).
  { intros q Hq. unfold lane_stream_count. f_equal. apply sum_n_ext. intros s Hs.
    rewrite Hp by lia. reflexivity. }
  assert (Hmean : forall q, q <= j ->
            lane_stream_mean P G st cs i l q = lane_stream_mean P' G st cs' i l q).
  { intros q Hq. unfold lane_stream_mean. rewrite Hsum, Hcnt by exact Hq. reflexivity. }
  assert (Hsq : lane_stream_sqsum P G st cs cq i l j
                = lane_stream_sqsum P' G st cs' cq' i l j).
  { unfold lane_stream_sqsum. f_equal. apply sum_n_ext. intros s Hs.
    unfold lane_stream_sq. rewrite Hmean by lia. apply Hcq. lia. }
  split; [apply Hsum; lia|]. split; [apply Hcnt; lia|]. split; [apply Hmean; lia|].
  split; [exact Hsq|].
  unfold lane_stream_var. rewrite Hsq, Hcnt by lia. reflexivity.
Qed.

Lemma StreamMoments_teq (rank5 : bool) (X X' P P' : Tensor) (st : Cached)
    (b t f n g : nat) :
  shape X = grouped_shape rank5 b t f n g -> teq X X' ->
  shape P = mask_shape rank5 b t -> teq P P' ->
  shape (cached_sum st) = [b; 1; n; 1] ->
  shape (cached_count st) = [b; 1; 1; 1] ->
  shape (cached_var st) = [b; 1; n; 1] ->
  0 < t ->
  exists m v s m' v' s',
    _StreamMoments X (Some P) st = Ok (m, v, s)
    /\ _StreamMoments X' (Some P') st = Ok (m', v', s')
    /\ teq m' m /\ teq v' v
    /\ teq (cached_sum s') (cached_sum s)
    /\ teq (cached_count s') (cached_count s)
    /\ teq (cached_var s') (cached_var s).
Proof.
  intros HX HXt HP HPt Hcs Hcc Hcv Ht.
  assert (HX' : shape X' = grouped_shape rank5 b t f n g) by (destruct HXt; congruence).
  assert (HP' : shape P' = mask_shape rank5 b t) by (destruct HPt; congruence).
  destruct (stream_view rank5 X P st b t f n g HX HP Hcs Hcc Hcv Ht)
    as (m & v & s & E & Hm & Hv & Hs1 & Hs2 & Hs3 & Hd1 & Hd2).
  destruct (stream_view rank5 X' P' st b t f n g HX' HP' Hcs Hcc Hcv Ht)
    as (m' & v' & s' & E' & Hm' & Hv' & Hs1' & Hs2' & Hs3' & Hd1' & Hd2').
  cbv zeta in *.
  assert (Hext : forall i l j, i < b -> l < n -> j < t ->
    lane_stream_sum st (cells rank5 X' (mask4 rank5 P') f g) i l j
    = lane_stream_sum st (cells rank5 X (mask4 rank5 P) f g) i l j
    /\ lane_stream_count (mask4 rank5 P') (cell_size rank5 f g) st i j
       = lane_stream_count (mask4 rank5 P) (cell_size rank5 f g) st i j
    /\ lane_stream_mean (mask4 rank5 P') (cell_size rank5 f g) st
         (cells rank5 X' (mask4 rank5 P') f g) i l j
       = lane_stream_mean (mask4 rank5 P) (cell_size rank5 f g) st
           (cells rank5 X (mask4 rank5 P) f g) i l j
    /\ lane_stream_sqsum (mask4 rank5 P') (cell_size rank5 f g) st
         (cells rank5 X' (mask4 rank5 P') f g) (cells_sq rank5 X' (mask4 rank5 P') f g) i l j
       = lane_stream_sqsum (mask4 rank5 P) (cell_size rank5 f g) st
           (cells rank5 X (mask4 rank5 P) f g) (cells_sq rank5 X (mask4 rank5 P) f g) i l j
    /\ lane_stream_var (mask4 rank5 P') (cell_size rank5 f g) st
         (cells rank5 X' (mask4 rank5 P') f g) (cells_sq rank5 X' (mask4 rank5 P') f g) i l j
       = lane_stream_var (mask4 rank5 P) (cell_size rank5 f g) st
           (cells rank5 X (mask4 rank5 P) f g) (cells_sq rank5 X (mask4 rank5 P) f g) i l j).
  { intros i l j Hi Hl Hj.
    assert (Hp : forall q, q <= j ->
              pad_at (mask4 rank5 P') i q = pad_at (mask4 rank5 P) i q).
    { intros q Hq. symmetry. apply (pad_at_mask4_teq rank5 P P' b t); assumption || lia. }
    apply lane_stream_ext.
    - exact Hp.
    - intros q Hq. symmetry.
      apply (cells_teq rank5 X X' _ _ b t f n g i l q HX HXt); try assumption; try lia.
      symmetry. apply Hp, Hq.
    - intros mu q Hq. symmetry.
      apply (cells_teq rank5 X X' _ _ b t f n g i l q HX HXt); try assumption; try lia.
      symmetry. apply Hp, Hq. }
  exists m, v, s, m', v', s'. split; [exact E|]. split; [exact E'|].
  split; [|split; [|split; [|split]]].
  - apply (lanes_teq rank5 _ _ b t n _ _ Hm' Hm). intros i j l Hi Hj Hl.
    apply (Hext i l j Hi Hl Hj).
  - apply (lanes_teq rank5 _ _ b t n _ _ Hv' Hv). intros i j l Hi Hj Hl.
    apply (Hext i l j Hi Hl Hj).
  - apply (teq_rank4 _ _ b 1 n Hs1' Hs1). intros i j l Hi Hj Hl.
    assert (j = 0) by lia. subst j.
    rewrite (proj1 (Hd1 i l Hi Hl)), (proj1 (Hd1' i l Hi Hl)).
    apply (Hext i l (t - 1) Hi Hl). lia.
  - apply (teq_rank4 _ _ b 1 1 Hs2' Hs2). intros i j l Hi Hj Hl.
    assert (j = 0) by lia. assert (l = 0) by lia. subst j l.
    rewrite (Hd2 i Hi), (Hd2' i Hi).
    destruct n as [|n'].
    + unfold lane_stream_count. f_equal. apply sum_n_ext. intros q Hq.
      rewrite (pad_at_mask4_teq rank5 P P' b t i q) by (assumption || lia). reflexivity.
    + apply (Hext i 0 (t - 1) Hi); lia.
  - apply (teq_rank4 _ _ b 1 n Hs3' Hs3). intros i j l Hi Hj Hl.
    assert (j = 0) by lia. subst j.
    rewrite (proj2 (Hd1 i l Hi Hl)), (proj2 (Hd1' i l Hi Hl)).
    apply (Hext i l (t - 1) Hi Hl). lia.
Qed.

Lemma running_carries_teq (rank5 : bool) (X P : Tensor) (b T f n g off : nat)
    (st st' : Cached) :
  running_carries rank5 X P b T f n g off st ->
  teq (cached_sum st') (cached_sum st) ->
  teq (cached_count st') (cached_count st) ->
  teq (cached_var st') (cached_var st) ->
  running_carries rank5 X P b T f n g off st'.
Proof.
  intros (H1 & H2 & H3 & Hd & Hc) [Es Ds] [Ec Dc] [Ev Dv].
  unfold running_carries.
  split; [congruence|]. split; [congruence|]. split; [congruence|]. split.
  - intros i l Hi Hl. destruct (Hd i l Hi Hl) as [E1 E2]. split.
    + rewrite Ds; [exact E1|]. rewrite Es, H1. apply InRange4_intro; lia.
    + rewrite Dv; [exact E2|]. rewrite Ev, H3. apply InRange4_intro; lia.
  - intros i Hi. rewrite Dc; [apply Hc; exact Hi|].
    rewrite Ec, H2. apply InRange4_intro; lia.
Qed.

(** ** [FProp] and [StreamStep] on grouped inputs *)

Lemma dtype_ComputeMoments_mean use_tpu inputs padding dims ca crs keepdims W :
  dtype (fst (ComputeMoments use_tpu inputs padding dims ca crs keepdims W)) = dtype inputs.
Proof.
  unfold ComputeMoments, cross_replica_sum. cbv zeta. cbn [fst]. rewrite !if_same.
  unfold tf_div at 1. cbn [tf_map2 dtype].
  destruct ca as [ax|]; [destruct (negb (W =? 0))|];
    cbn [_WindowedCumSum tf_sub tf_map2 dtype tf_cumsum];
    rewrite dtype_reduce_sum_keepdims; reflexivity.
Qed.

Lemma StreamMoments_dtypes X P st m v s :
  _StreamMoments X (Some P) st = Ok (m, v, s) -> dtype m = dtype X /\ dtype v = dtype X.
Proof.
  unfold _StreamMoments.
  destruct ((length (shape X) =? 4) || (length (shape X) =? 5)); [|discriminate].
  cbn [assert bind]. cbv zeta. intros H. injection H as <- <- _.
  split; unfold tf_div, tf_add; cbn [tf_map2 dtype tf_cumsum];
    rewrite dtype_reduce_sum; reflexivity.
Qed.

Lemma FProp_grouped (use_tpu : bool) (tf_sqrt : Qc -> Qc) (rank5 : bool) (p : Params)
    (theta : Theta) (X P : Tensor) (b T f n g : nat) :
  group_size p = Ok (Z.of_nat g) ->
  num_groups p = Ok (Z.of_nat n) ->
  shape X = layer_shape rank5 b T f (n * g) ->
  FProp use_tpu false tf_sqrt p theta X (Some P)
  = (let X1 := _CastToFPropDtype p X in
     let P1 := _CastToFPropDtype p P in
     let XG := tf_reshape X1 (grouped_shape rank5 b T f n g) in
     let PG := tf_reshape P1 (mask_shape rank5 b T) in
     let CM := ComputeMoments use_tpu XG PG
                 (if p_cumulative p then reduce_dims rank5
                  else if rank5 then [1; 2; 4] else [1; 3])
                 (Some 1) (p_enable_cross_replica_sum_on_tpu p) true
                 (Z.to_nat (p_window_size p)) in
     o <- _Normalize tf_sqrt p XG (fst CM) (snd CM) ;;
     Ok (_ApplyGammaBeta p theta (tf_reshape o (layer_shape rank5 b T f (n * g))),
         Some P1)).
Proof.
  intros Hg Hn HX. unfold FProp. cbv zeta.
  rewrite !shape_CastToFPropDtype, HX, Hn, Hg.
  destruct rank5, (p_cumulative p);
    cbn [layer_shape length Nat.eqb orb assert bind option_map removelast app firstn
         repeat Nat.add Nat.sub seq py_slice skipn negb grouped_shape mask_shape
         reduce_dims];
    rewrite !Nat2Z.id;
    match goal with
    | |- context [ComputeMoments ?u ?x ?pd ?dims ?ca ?crs ?k ?w] =>
        destruct (ComputeMoments u x pd dims ca crs k w) as [gm gv]
    end; reflexivity.
Qed.

Lemma StreamStep_grouped (tf_sqrt : Qc -> Qc) (tail_fill : Tensor -> Tensor -> Index -> Qc)
    (rank5 : bool) (p : Params) (theta : Theta) (X P : Tensor) (st : Cached)
    (b t f n g : nat) :
  p_cumulative p = true ->
  p_window_size p = 0%Z ->
  group_size p = Ok (Z.of_nat g) ->
  num_groups p = Ok (Z.of_nat n) ->
  shape X = layer_shape rank5 b t f (n * g) ->
  StreamStep false tf_sqrt tail_fill p theta X (Some P) (Running st)
  = (let XG := tf_reshape X (grouped_shape rank5 b t f n g) in
     let PG := tf_reshape P (mask_shape rank5 b t) in
     r <- _StreamMoments XG (Some PG) st ;;
     o <- _Normalize tf_sqrt p XG (fst (fst r)) (snd (fst r)) ;;
     Ok (_ApplyGammaBeta p theta (tf_reshape o (layer_shape rank5 b t f (n * g))),
         Some P, Running (snd r))).
Proof.
  intros Hc Hw Hg Hn HX. unfold StreamStep. cbv zeta.
  rewrite Hc, Hw, HX, Hn, Hg.
  destruct rank5;
    cbn [layer_shape length Nat.eqb orb assert bind option_map removelast app firstn
         repeat Nat.add Nat.sub negb Z.eqb grouped_shape mask_shape];
    rewrite !Nat2Z.id;
    match goal with
    | |- context [_StreamMoments ?x ?pd ?s] =>
        destruct (_StreamMoments x pd s) as [[[m v] s1]|e]
    end; reflexivity.
Qed.

(** ** The layer on the chunks of a sequence *)

(** Feeding the chunks of the layer input [X] (lengths [chunks], from step
    [off] on) through [StreamStep], each with its part of the paddings and
    the state the previous step returned; the per-chunk outputs. *)
Fixpoint stream_steps (skip : bool) (tf_sqrt : Qc -> Qc)
    (tail_fill : Tensor -> Tensor -> Index -> Qc) (p : Params) (theta : Theta)
    (X P : Tensor) (off : nat) (chunks : list nat) (state : NestedMap)
  : Result (list Tensor) :=
  match chunks with
  | [] => Ok []
  | t :: rest =>
      r <- StreamStep skip tf_sqrt tail_fill p theta
             (slice_axis 1 off (off + t) X) (Some (slice_axis 1 off (off + t) P)) state ;;
      outs <- stream_steps skip tf_sqrt tail_fill p theta X P (off + t) rest (snd r) ;;
      Ok (fst (fst r) :: outs)
  end.

(** An output cut at the same chunk boundaries. *)
Fixpoint output_chunks (out : Tensor) (off : nat) (chunks : list nat) : list Tensor :=
  match chunks with
  | [] => []
  | t :: rest => slice_axis 1 off (off + t) out :: output_chunks out (off + t) rest
  end.

Lemma shape_layer_chunk rank5 X b T f d off t :
  shape X = layer_shape rank5 b T f d -> off + t <= T ->
  shape (slice_axis 1 off (off + t) X) = layer_shape rank5 b t f d.
Proof.
  intros HX Hoff. destruct rank5; cbn [layer_shape] in *;
    rewrite (shape_slice_axis1 _ _ _ _ _ _ HX) by lia; f_equal; f_equal; lia.
Qed.

Lemma data_layer_chunk rank5 X b T f d off t i j a c :
  shape X = layer_shape rank5 b T f d -> off + t <= T ->
  data (slice_axis 1 off (off + t) X) (layer_index rank5 i j a c)
  = data X (layer_index rank5 i (off + j) a c).
Proof.
  intros HX Hoff. destruct rank5; cbn [layer_shape layer_index] in *;
    rewrite (data_slice_axis1 _ _ _ _ _ _ _ _ _ HX) by lia; reflexivity.
Qed.

Lemma data_grouped_chunk rank5 X b T f n g off t i j a l k :
  shape X = grouped_shape rank5 b T f n g -> off + t <= T ->
  data (slice_axis 1 off (off + t) X) (grouped_index rank5 i j a l k)
  = data X (grouped_index rank5 i (off + j) a l k).
Proof.
  intros HX Hoff. destruct rank5; cbn [grouped_shape grouped_index] in *;
    rewrite (data_slice_axis1 _ _ _ _ _ _ _ _ _ HX) by lia; reflexivity.
Qed.

Lemma data_moment_chunk rank5 M b T n off t i j l :
  shape M = moment_shape rank5 b T n -> off + t <= T ->
  data (slice_axis 1 off (off + t) M) (moment_index rank5 i j l)
  = data M (moment_index rank5 i (off + j) l).
Proof.
  intros HM Hoff. destruct rank5; cbn [moment_shape moment_index] in *;
    rewrite (data_slice_axis1 _ _ _ _ _ _ _ _ _ HM) by lia; reflexivity.
Qed.

Lemma teq_mask rank5 x y b t :
  shape x = mask_shape rank5 b t -> shape y = mask_shape rank5 b t ->
  (forall i j, i < b -> j < t ->
     data x (i :: j :: repeat 0 (if rank5 then 3 else 2))
     = data y (i :: j :: repeat 0 (if rank5 then 3 else 2))) ->
  teq x y.
Proof.
  intros Hx Hy H. split; [congruence|]. intros idx Hin. rewrite Hx in Hin.
  destruct rank5; cbn [mask_shape repeat] in *.
  - destruct (InRange5 _ _ _ _ _ _ Hin) as (i & j & a & l & k & -> & Hi & Hj & Ha & Hl & Hk).
    assert (a = 0) by lia. assert (l = 0) by lia. assert (k = 0) by lia. subst.
    apply H; assumption.
  - destruct (InRange4 _ _ _ _ _ Hin) as (i & j & l & k & -> & Hi & Hj & Hl & Hk).
    assert (l = 0) by lia. assert (k = 0) by lia. subst. apply H; assumption.
Qed.

Lemma data_mask_chunk rank5 P b T off t i j :
  shape P = mask_shape rank5 b T -> off + t <= T ->
  data (slice_axis 1 off (off + t) P) (i :: j :: repeat 0 (if rank5 then 3 else 2))
  = data P (i :: off + j :: repeat 0 (if rank5 then 3 else 2)).
Proof.
  intros HP Hoff. destruct rank5; cbn [mask_shape repeat] in *;
    rewrite (data_slice_axis1 _ _ _ _ _ _ _ _ _ HP) by lia; reflexivity.
Qed.

Section LayerStreaming.
Variables (use_tpu : bool) (tf_sqrt : Qc -> Qc).
Variable tail_fill : Tensor -> Tensor -> Index -> Qc.
Variables (rank5 : bool) (p : Params) (theta : Theta) (X P : Tensor).
Variables (b T f n g kg kb : nat).
Hypothesis Hcum : p_cumulative p = true.
Hypothesis Hwin : p_window_size p = 0%Z.
Hypothesis Hgs : group_size p = Ok (Z.of_nat g).
Hypothesis Hng : num_groups p = Ok (Z.of_nat n).
Hypothesis Hdim : Z.to_nat (p_dim p) = n * g.
Hypothesis Hfp : FPropDtype p <> int32.
Hypothesis HdX : dtype X <> int32.
Hypothesis HX : shape X = layer_shape rank5 b T f (n * g).
Hypothesis HP : shape P = [b; T].
Hypothesis Hgam : shape (gamma theta) = repeat 1 kg ++ [n * g].
Hypothesis Hbet : shape (beta theta) = repeat 1 kb ++ [n * g].

Let X1 := _CastToFPropDtype p X.
Let P1 := _CastToFPropDtype p P.
Let XG := tf_reshape X1 (grouped_shape rank5 b T f n g).
Let PG := tf_reshape P1 (mask_shape rank5 b T).
Let CM := ComputeMoments use_tpu XG PG (reduce_dims rank5) (Some 1)
            (p_enable_cross_replica_sum_on_tpu p) true 0.

Lemma data_X1 idx : data X1 idx = data X idx.
Proof.
  unfold X1, _CastToFPropDtype. destruct (dtype X); try reflexivity;
    apply data_cast_float; exact Hfp.
Qed.

Lemma data_P1 idx : data P1 idx = data P idx.
Proof.
  unfold P1, _CastToFPropDtype. destruct (dtype P); try reflexivity;
    apply data_cast_float; exact Hfp.
Qed.

Lemma shape_X1 : shape X1 = layer_shape rank5 b T f (n * g).
Proof. unfold X1. rewrite shape_CastToFPropDtype. exact HX. Qed.

Lemma shape_P1 : shape P1 = [b; T].
Proof. unfold P1. rewrite shape_CastToFPropDtype. exact HP. Qed.

(** The output of [FProp] on the whole sequence. *)
Lemma FProp_view :
  exists out,
    FProp use_tpu false tf_sqrt p theta X (Some P) = Ok (out, Some P1)
    /\ shape out = layer_shape rank5 b T f (n * g)
    /\ forall i j a c, i < b -> j < T -> a < frames rank5 f -> c < n * g ->
         data out (layer_index rank5 i j a c)
         = normalized tf_sqrt (p_epsilon p)
             (data X (layer_index rank5 i j a c))
             (data (fst CM) (moment_index rank5 i j (c / g)))
             (data (snd CM) (moment_index rank5 i j (c / g)))
             (data (gamma theta) (repeat 0 kg ++ [c]))
             (data (beta theta) (repeat 0 kb ++ [c])).
Proof.
  rewrite (FProp_grouped use_tpu tf_sqrt rank5 p theta X P b T f n g Hgs Hng HX).
  cbv zeta. rewrite Hcum, Hwin. change (Z.to_nat 0) with 0. fold X1 P1 XG PG CM.
  assert (HXG : shape XG = grouped_shape rank5 b T f n g) by reflexivity.
  assert (HPG : shape PG = mask_shape rank5 b T) by reflexivity.
  destruct (batch_view rank5 use_tpu (p_enable_cross_replica_sum_on_tpu p) XG PG
              b T f n g 0 HXG HPG) as [[Hms _] [Hvs _]].
  fold CM in Hms, Hvs.
  assert (HdX1 : dtype X1 <> int32).
  { unfold X1. rewrite dtype_CastToFPropDtype by exact HdX. exact Hfp. }
  assert (Hdm : dtype (fst CM) <> int32).
  { unfold CM. rewrite dtype_ComputeMoments_mean. exact HdX1. }
  assert (Hdv : dtype (snd CM) <> int32).
  { unfold CM. rewrite dtype_ComputeMoments_variance. exact HdX1. }
  destruct (layer_view tf_sqrt rank5 p theta X1 (fst CM) (snd CM) b T f n g kg kb
              Hdim shape_X1 HdX1 Hdm Hdv Hms Hvs Hgam Hbet) as (o & E & Hos & Hod).
  fold XG in E. rewrite E. cbn [bind]. eexists. split; [reflexivity|].
  split; [exact Hos|]. intros i j a c Hi Hj Ha Hc.
  rewrite (Hod i j a c Hi Hj Ha Hc), data_X1. reflexivity.
Qed.

Section Step.
Variables (out : Tensor) (off t : nat) (st : Cached).
Hypothesis Hout_s : shape out = layer_shape rank5 b T f (n * g).
Hypothesis Hout : forall i j a c, i < b -> j < T -> a < frames rank5 f -> c < n * g ->
  data out (layer_index rank5 i j a c)
  = normalized tf_sqrt (p_epsilon p)
      (data X (layer_index rank5 i j a c))
      (data (fst CM) (moment_index rank5 i j (c / g)))
      (data (snd CM) (moment_index rank5 i j (c / g)))
      (data (gamma theta) (repeat 0 kg ++ [c]))
      (data (beta theta) (repeat 0 kb ++ [c])).
Hypothesis Ht : 0 < t.
Hypothesis Hoff : off + t <= T.
Hypothesis Hst : running_carries rank5 XG PG b T f n g off st.

Let Xc := slice_axis 1 off (off + t) X.
Let Pc := slice_axis 1 off (off + t) P.

Lemma shape_Pc_raw : shape Pc = [b; t].
Proof.
  unfold Pc. rewrite (shape_slice_axis1 _ _ _ _ _ _ HP) by lia. f_equal. f_equal. lia.
Qed.

Lemma grouped_chunk_teq :
  teq (slice_axis 1 off (off + t) XG) (tf_reshape Xc (grouped_shape rank5 b t f n g)).
Proof.
  assert (HXG : shape XG = grouped_shape rank5 b T f n g) by reflexivity.
  apply (teq_grouped rank5 _ _ b t f n g).
  - apply (shape_chunk rank5 XG PG b T f n g off t HXG eq_refl Hoff).
  - reflexivity.
  - intros i j a l k Hi Hj Ha Hl Hk.
    rewrite (data_grouped_chunk rank5 XG b T f n g off t) by assumption.
    unfold XG. rewrite (group_data rank5 X1 b T f n g) by (assumption || lia || apply shape_X1).
    rewrite (group_data rank5 Xc b t f n g)
      by (assumption || apply (shape_layer_chunk rank5 X b T f (n * g) off t HX Hoff)).
    unfold Xc. rewrite (data_layer_chunk rank5 X b T f (n * g) off t) by assumption.
    apply data_X1.
Qed.

Lemma mask_chunk_teq :
  teq (slice_axis 1 off (off + t) PG) (tf_reshape Pc (mask_shape rank5 b t)).
Proof.
  assert (HXG : shape XG = grouped_shape rank5 b T f n g) by reflexivity.
  assert (HPG : shape PG = mask_shape rank5 b T) by reflexivity.
  apply (teq_mask rank5 _ _ b t).
  - apply (shape_chunk_mask rank5 XG PG b T f n g off t HXG HPG Hoff).
  - reflexivity.
  - intros i j Hi Hj.
    rewrite (data_mask_chunk rank5 PG b T off t) by assumption.
    unfold PG. rewrite (mask_data rank5 P1 b T) by (assumption || lia || apply shape_P1).
    rewrite (mask_data rank5 Pc b t) by (assumption || apply shape_Pc_raw).
    unfold Pc. rewrite (data_slice_axis1 _ _ _ _ _ _ _ _ _ HP) by lia.
    apply data_P1.
Qed.

Lemma layer_step_matches_FProp :
  exists o st',
    StreamStep false tf_sqrt tail_fill p theta Xc (Some Pc) (Running st)
    = Ok (o, Some Pc, Running st')
    /\ teq o (slice_axis 1 off (off + t) out)
    /\ running_carries rank5 XG PG b T f n g (off + t) st'.
Proof.
  assert (HXG : shape XG = grouped_shape rank5 b T f n g) by reflexivity.
  assert (HPG : shape PG = mask_shape rank5 b T) by reflexivity.
  assert (HXc : shape Xc = layer_shape rank5 b t f (n * g))
    by apply (shape_layer_chunk rank5 X b T f (n * g) off t HX Hoff).
  rewrite (StreamStep_grouped tf_sqrt tail_fill rank5 p theta Xc Pc st b t f n g
             Hcum Hwin Hgs Hng HXc).
  cbv zeta.
  destruct (running_step_matches_batch rank5 use_tpu (p_enable_cross_replica_sum_on_tpu p)
              XG PG b T f n g HXG HPG off t st Ht Hoff Hst)
    as (m & v & s & E & [Hsm Hsv] & Hcar).
  destruct Hst as (Hcs & Hcc & Hcv & _).
  destruct (StreamMoments_teq rank5 (slice_axis 1 off (off + t) XG)
              (tf_reshape Xc (grouped_shape rank5 b t f n g))
              (slice_axis 1 off (off + t) PG)
              (tf_reshape Pc (mask_shape rank5 b t)) st b t f n g
              (shape_chunk rank5 XG PG b T f n g off t HXG HPG Hoff) grouped_chunk_teq
              (shape_chunk_mask rank5 XG PG b T f n g off t HXG HPG Hoff) mask_chunk_teq
              Hcs Hcc Hcv Ht)
    as (m0 & v0 & s0 & m' & v' & s' & E0 & E' & Hm & Hv & Hs1 & Hs2 & Hs3).
  rewrite E in E0. injection E0 as <- <- <-.
  rewrite E'. cbn [bind fst snd].
  cbn [fst snd] in Hsm, Hsv. fold CM in Hsm, Hsv.
  destruct (batch_view rank5 use_tpu (p_enable_cross_replica_sum_on_tpu p) XG PG
              b T f n g 0 HXG HPG) as [[HMs _] [HVs _]].
  fold CM in HMs, HVs.
  assert (Hm's : shape m' = moment_shape rank5 b t n).
  { destruct Hm as [-> _]. destruct Hsm as [-> _].
    destruct rank5; cbn [moment_shape] in *;
      rewrite (shape_slice_axis1 _ _ _ _ _ _ HMs) by lia; f_equal; f_equal; lia. }
  assert (Hv's : shape v' = moment_shape rank5 b t n).
  { destruct Hv as [-> _]. destruct Hsv as [-> _].
    destruct rank5; cbn [moment_shape] in *;
      rewrite (shape_slice_axis1 _ _ _ _ _ _ HVs) by lia; f_equal; f_equal; lia. }
  destruct (StreamMoments_dtypes _ _ _ _ _ _ E') as [Hdm Hdv].
  cbn [tf_reshape dtype] in Hdm, Hdv.
  assert (HdXc : dtype Xc <> int32) by exact HdX.
  destruct (layer_view tf_sqrt rank5 p theta Xc m' v' b t f n g kg kb
              Hdim HXc HdXc ltac:(congruence) ltac:(congruence) Hm's Hv's Hgam Hbet)
    as (o & Eo & Hos & Hod).
  rewrite Eo. cbn [bind]. do 2 eexists. split; [reflexivity|]. split.
  - apply (teq_layer rank5 _ _ b t f (n * g)).
    + exact Hos.
    + apply (shape_layer_chunk rank5 out b T f (n * g) off t Hout_s Hoff).
    + intros i j a c Hi Hj Ha Hc.
      assert (Hl : c / g < n) by (apply Nat.Div0.div_lt_upper_bound; lia).
      rewrite (Hod i j a c Hi Hj Ha Hc).
      rewrite (data_layer_chunk rank5 out b T f (n * g) off t) by assumption.
      rewrite Hout by (assumption || lia).
      unfold Xc. rewrite (data_layer_chunk rank5 X b T f (n * g) off t) by assumption.
      assert (Em : data m' (moment_index rank5 i j (c / g))
                   = data (fst CM) (moment_index rank5 i (off + j) (c / g))).
      { destruct Hm as [Hms' Hmd]. destruct Hsm as [Hsms Hsmd].
        assert (Hin : InRange (shape m') (moment_index rank5 i j (c / g))).
        { rewrite Hm's. destruct rank5; cbn [moment_shape moment_index];
            repeat constructor; assumption || lia. }
        rewrite (Hmd _ Hin). rewrite Hsmd by (rewrite <- Hms'; exact Hin).
        apply (data_moment_chunk rank5 (fst CM) b T n off t); assumption. }
      assert (Ev : data v' (moment_index rank5 i j (c / g))
                   = data (snd CM) (moment_index rank5 i (off + j) (c / g))).
      { destruct Hv as [Hvs' Hvd]. destruct Hsv as [Hsvs Hsvd].
        assert (Hin : InRange (shape v') (moment_index rank5 i j (c / g))).
        { rewrite Hv's. destruct rank5; cbn [moment_shape moment_index];
            repeat constructor; assumption || lia. }
        rewrite (Hvd _ Hin). rewrite Hsvd by (rewrite <- Hvs'; exact Hin).
        apply (data_moment_chunk rank5 (snd CM) b T n off t); assumption. }
      rewrite Em, Ev. reflexivity.
  - apply (running_carries_teq rank5 XG PG b T f n g (off + t) s s' Hcar Hs1 Hs2 Hs3).
Qed.

End Step.

Lemma layer_steps_match_FProp (out : Tensor) (chunks : list nat) : forall off st,
  shape out = layer_shape rank5 b T f (n * g) ->
  (forall i j a c, i < b -> j < T -> a < frames rank5 f -> c < n * g ->
     data out (layer_index rank5 i j a c)
     = normalized tf_sqrt (p_epsilon p)
         (data X (layer_index rank5 i j a c))
         (data (fst CM) (moment_index rank5 i j (c / g)))
         (data (snd CM) (moment_index rank5 i j (c / g)))
         (data (gamma theta) (repeat 0 kg ++ [c]))
         (data (beta theta) (repeat 0 kb ++ [c]))) ->
  Forall (lt 0) chunks -> off + list_sum chunks <= T ->
  running_carries rank5 XG PG b T f n g off st ->
  exists outs,
    stream_steps false tf_sqrt tail_fill p theta X P off chunks (Running st) = Ok outs
    /\ Forall2 teq outs (output_chunks out off chunks).
Proof.
  induction chunks as [|t rest IH]; intros off st Hs Hd Hpos Hsum Hst.
  - exists []. split; [reflexivity|constructor].
  - apply Forall_cons_iff in Hpos. destruct Hpos as [Ht Hrest].
    unfold list_sum in *. cbn [fold_right] in Hsum.
    assert (Hoff : off + t <= T) by lia.
    assert (Hrem : off + t + fold_right Nat.add 0 rest <= T) by lia.
    destruct (layer_step_matches_FProp out off t st Hs Hd Ht Hoff Hst)
      as (o & st' & E & Ho & Hst').
    destruct (IH (off + t) st' Hs Hd Hrest Hrem Hst') as (outs & Eouts & Hall).
    exists (o :: outs). split.
    + cbn [stream_steps]. rewrite E. cbn [bind fst snd]. rewrite Eouts. reflexivity.
    + cbn [output_chunks]. constructor; assumption.
Qed.

End LayerStreaming.

Lemma stream_steps_skipped (tf_sqrt : Qc -> Qc)
    (tail_fill : Tensor -> Tensor -> Index -> Qc) (p : Params) (theta : Theta)
    (X P : Tensor) (chunks : list nat) : forall off state,
  stream_steps true tf_sqrt tail_fill p theta X P off chunks state
  = Ok (output_chunks X off chunks).
Proof.
  induction chunks as [|t rest IH]; intros off state; [reflexivity|].
  cbn [stream_steps StreamStep bind fst snd]. rewrite IH. reflexivity.
Qed.

Lemma output_chunks_teq rank5 (x y : Tensor) (b T f d : nat) (chunks : list nat) :
  forall off,
  shape x = layer_shape rank5 b T f d -> teq x y ->
  off + list_sum chunks <= T ->
  Forall2 teq (output_chunks x off chunks) (output_chunks y off chunks).
Proof.
  induction chunks as [|t rest IH]; intros off Hx Hxy Hsum; [constructor|].
  unfold list_sum in *. cbn [fold_right] in Hsum. cbn [output_chunks].
  assert (Hy : shape y = layer_shape rank5 b T f d) by (destruct Hxy; congruence).
  constructor; [|apply IH; assumption || lia].
  apply (teq_layer rank5 _ _ b t f d).
  - apply (shape_layer_chunk rank5 x b T f d off t Hx). lia.
  - apply (shape_layer_chunk rank5 y b T f d off t Hy). lia.
  - intros i j a c Hi Hj Ha Hc.
    rewrite (data_layer_chunk rank5 x b T f d off t), (data_layer_chunk rank5 y b T f d off t)
      by (assumption || lia).
    destruct Hxy as [_ Hd]. apply Hd. rewrite Hx.
    apply layer_index_in_range; assumption || lia.
Qed.


Definition three_frames_of_two_channels : Tensor :=
  of_flat [1; 3; 2; 2]
    [frac 1 1; frac 2 1; frac 3 1; frac 4 1; frac 5 1; frac 6 1;
     frac 7 1; frac 8 1; frac 9 1; frac 10 1; frac 11 1; frac 12 1].
Definition middle_step_of_three_padded : Tensor :=
  of_flat [1; 3] [frac 0 1; frac 1 1; frac 0 1].
Definition layer_variables : Theta :=
  mkTheta (of_flat [1; 1; 1; 2] [frac 1 2; frac 0 1])
          (of_flat [1; 1; 1; 2] [frac 0 1; frac 1 1]).


(** * The variables of the group-normalization layer *)

(** [GroupNormLayer._CreateLayerVariables]: after the check of the
    (deprecated) [input_rank], the variables [beta] and [gamma] are
    created with the shape [[1, 1, 1, dim]] or [[1, 1, dim]], both with
    the initializer [WeightInit.Constant(0.0)].  Modelled from the spec:
    [py_utils.WeightParams] and [CreateVariable] are not among the
    sources; a variable created with a constant initializer holds that
    constant at every index, in the element type [p.dtype]. *)
Definition _CreateLayerVariables (p : Params) : Result Theta :=
  assert ((p_input_rank p =? 3)%Z || (p_input_rank p =? 4)%Z) ;;;
  let shape :=
    if (p_input_rank p =? 4)%Z then [1; 1; 1; Z.to_nat (p_dim p)]
    else [1; 1; Z.to_nat (p_dim p)] in
  let pc := tf_cast (tf_fill shape 0%Qc) (p_dtype p) in
  Ok (mkTheta pc pc).



(** * The layer without accumulation along time *)

(** ** Operations on moments, lane by lane *)

Lemma moment_index_in_range rank5 b t n i j l :
  i < b -> j < t -> l < n -> InRange (moment_shape rank5 b t n) (moment_index rank5 i j l).
Proof.
  intros. destruct rank5; cbn [moment_shape moment_index]; repeat constructor; assumption || lia.
Qed.

Lemma lanes_of_teq rank5 x y b t n h :
  teq x y -> lanes rank5 y b t n h -> lanes rank5 x b t n h.
Proof.
  intros [Hs Hd] [Hys Hyd]. split; [congruence|]. intros i j l Hi Hj Hl.
  rewrite Hd; [apply Hyd; assumption|].
  rewrite Hs, Hys. apply moment_index_in_range; assumption.
Qed.

Lemma lanes_ext rank5 x b t n h h' :
  lanes rank5 x b t n h ->
  (forall i j l, i < b -> j < t -> l < n -> h i l j = h' i l j) ->
  lanes rank5 x b t n h'.
Proof.
  intros [Hs Hd] E. split; [exact Hs|]. intros i j l Hi Hj Hl.
  rewrite Hd by assumption. apply E; assumption.
Qed.

Lemma masked_sum_lanes rank5 PG Y b t f n g :
  shape PG = mask_shape rank5 b t ->
  shape Y = grouped_shape rank5 b t f n g ->
  lanes rank5 (tf_reduce_sum (ApplyPadding PG Y) (reduce_dims rank5)) b t n
        (cells rank5 Y (mask4 rank5 PG) f g).
Proof.
  intros HP HY. destruct rank5; cbn [mask_shape grouped_shape reduce_dims cells mask4] in *.
  - destruct (squeeze2_rank5 PG b t 1 1 HP) as [_ Hd].
    assert (HPd : forall i j, i < b -> j < t ->
              data PG [i; j; 0; 0; 0] = data (tf_squeeze PG [2]) [i; j; 0; 0])
      by (intros; symmetry; apply Hd; lia).
    destruct (masked_sum_rank5 PG (tf_squeeze PG [2]) Y b t f n g HP HPd HY) as [Hs Hdd].
    split; [exact Hs|]. intros i j l Hi Hj Hl. apply Hdd; assumption.
  - destruct (masked_sum_rank4 PG b t n g HP Y HY) as [Hs Hdd].
    split; [exact Hs|]. intros i j l Hi Hj Hl. cbn [moment_index].
    rewrite Hdd by assumption. reflexivity.
Qed.

Lemma mask_count_lanes rank5 PG b t :
  shape PG = mask_shape rank5 b t ->
  lanes rank5 (tf_reduce_sum (ApplyPadding PG (tf_ones [])) (reduce_dims rank5)) b t 1
        (fun i _ j => cell_cnt (mask4 rank5 PG) i j).
Proof.
  intros HP. destruct rank5; cbn [mask_shape reduce_dims mask4] in *.
  - destruct (squeeze2_rank5 PG b t 1 1 HP) as [_ Hd].
    assert (HPd : forall i j, i < b -> j < t ->
              data PG [i; j; 0; 0; 0] = data (tf_squeeze PG [2]) [i; j; 0; 0])
      by (intros; symmetry; apply Hd; lia).
    destruct (mask_count_rank5 PG (tf_squeeze PG [2]) b t HP HPd) as [Hs Hdd].
    split; [exact Hs|]. intros i j l Hi Hj Hl. apply Hdd; assumption.
  - destruct (mask_count_rank4 PG b t HP) as [Hs Hdd].
    split; [exact Hs|]. intros i j l Hi Hj Hl. apply Hdd; assumption.
Qed.

(** Summing over the time axis. *)
Lemma lanes_reduce_time rank5 v b T n h :
  lanes rank5 v b T n h ->
  lanes rank5 (reduce_axis 1 v) b 1 n (fun i l _ => sum_n T (h i l)).
Proof.
  intros [Hs Hd]. unfold reduce_axis. split.
  - cbn [shape]. rewrite Hs. destruct rank5; reflexivity.
  - intros i j l Hi Hj Hl. cbn [data]. rewrite Hs.
    replace (extent 1 (moment_shape rank5 b T n)) with T by (destruct rank5; reflexivity).
    apply sum_n_ext. intros k Hk.
    replace (upd 1 k (moment_index rank5 i j l)) with (moment_index rank5 i k l)
      by (destruct rank5; reflexivity).
    apply Hd; assumption.
Qed.

(** The cumulative sum along a time axis of extent 1. *)
Lemma lanes_cumsum_unit rank5 v b n h :
  lanes rank5 v b 1 n h -> lanes rank5 (tf_cumsum v 1) b 1 n h.
Proof.
  intros [Hs Hd]. split; [exact Hs|]. intros i j l Hi Hj Hl.
  assert (j = 0) by lia. subst j. unfold tf_cumsum. cbn [data].
  replace (ix 1 (moment_index rank5 i 0 l)) with 0 by (destruct rank5; reflexivity).
  rewrite sum_n_one.
  replace (upd 1 0 (moment_index rank5 i 0 l)) with (moment_index rank5 i 0 l)
    by (destruct rank5; reflexivity).
  apply Hd; assumption.
Qed.

Lemma lanes_map_scalar rank5 (op : Qc -> Qc -> Qc) v q b t n h :
  lanes rank5 v b t n h ->
  lanes rank5 (tf_map2 op v (tf_scalar q)) b t n (fun i l j => op (h i l j) q).
Proof.
  intros [Hs Hd]. split.
  - rewrite shape_map2. cbn [shape tf_scalar tf_fill]. rewrite bshape_nil_r. exact Hs.
  - intros i j l Hi Hj Hl. rewrite data_map2, bget_scalar.
    rewrite bget_in_range by (rewrite Hs; apply moment_index_in_range; assumption).
    rewrite Hd by assumption. reflexivity.
Qed.

Lemma bget_unit_lane rank5 c b t i j l hc :
  lanes rank5 c b t 1 hc -> i < b -> j < t ->
  bget c (moment_index rank5 i j l) = hc i 0 j.
Proof.
  intros [Hs Hd] Hi Hj. rewrite <- (Hd i j 0 Hi Hj Nat.lt_0_1).
  destruct rank5; cbn [moment_shape moment_index] in *.
  - rewrite (bget5 c _ _ _ _ _ _ _ _ _ _ Hs), !clampi_one, !clampi_id by assumption.
    reflexivity.
  - rewrite (bget4 c _ _ _ _ _ _ _ _ Hs), !clampi_one, !clampi_id by assumption.
    reflexivity.
Qed.

Lemma bshape_moment_unit rank5 b t n :
  bshape (moment_shape rank5 b t n) (moment_shape rank5 b t 1) = moment_shape rank5 b t n.
Proof.
  destruct rank5; cbn [moment_shape].
  - rewrite bshape5, !bdim_same, !bdim_one_r. reflexivity.
  - rewrite bshape4, !bdim_same, !bdim_one_r. reflexivity.
Qed.

Lemma lanes_div rank5 s c b t n hs hc :
  lanes rank5 s b t n hs -> lanes rank5 c b t 1 hc ->
  lanes rank5 (tf_div s c) b t n (fun i l j => Qcdiv (hs i l j) (hc i 0 j)).
Proof.
  intros [Hs Hd] Hc. split.
  - unfold tf_div. rewrite shape_map2, Hs, (proj1 Hc). apply bshape_moment_unit.
  - intros i j l Hi Hj Hl. unfold tf_div. rewrite data_map2.
    rewrite bget_in_range by (rewrite Hs; apply moment_index_in_range; assumption).
    rewrite (bget_unit_lane rank5 c b t i j l hc Hc Hi Hj), Hd by assumption.
    reflexivity.
Qed.

(** The moments have one entry per lane; the grouped input is read
    against them with the time axis broadcast. *)
Lemma bget_lane_total rank5 m b n i j a l k hm :
  lanes rank5 m b 1 n hm -> i < b -> l < n ->
  bget m (grouped_index rank5 i j a l k) = hm i l 0.
Proof.
  intros [Hs Hd] Hi Hl. rewrite <- (Hd i 0 l Hi Nat.lt_0_1 Hl).
  destruct rank5; cbn [moment_shape moment_index grouped_index] in *.
  - rewrite (bget5 m _ _ _ _ _ _ _ _ _ _ Hs), !clampi_one, !clampi_id by assumption.
    reflexivity.
  - rewrite (bget4 m _ _ _ _ _ _ _ _ Hs), !clampi_one, !clampi_id by assumption.
    reflexivity.
Qed.

Lemma bshape_grouped_total rank5 b t f n g :
  bshape (grouped_shape rank5 b t f n g) (moment_shape rank5 b 1 n)
  = grouped_shape rank5 b t f n g.
Proof.
  destruct rank5; cbn [moment_shape grouped_shape].
  - rewrite bshape5, !bdim_same, !bdim_one_r. reflexivity.
  - rewrite bshape4, !bdim_same, !bdim_one_r. reflexivity.
Qed.

Lemma cells_squared_difference rank5 Y m P4 b t f n g hm i l s :
  shape Y = grouped_shape rank5 b t f n g ->
  lanes rank5 m b 1 n hm ->
  i < b -> s < t -> l < n ->
  cells rank5 (tf_squared_difference Y m) P4 f g i l s
  = cells_sq rank5 Y P4 f g (hm i l 0) i l s.
Proof.
  intros HY Hm Hi Hs Hl.
  assert (E : forall a k, a < frames rank5 f -> k < g ->
            data (tf_squared_difference Y m) (grouped_index rank5 i s a l k)
            = sqr (Qcminus (data Y (grouped_index rank5 i s a l k)) (hm i l 0))).
  { intros a k Ha Hk. unfold tf_squared_difference. rewrite data_map2.
    rewrite bget_in_range by (rewrite HY; apply grouped_index_in_range; assumption).
    rewrite (bget_lane_total rank5 m b n i s a l k hm Hm Hi Hl). reflexivity. }
  destruct rank5; cbn [cells cells_sq frames grouped_index] in *.
  - unfold cell_sum5, cell_sq5. apply sum_n_ext. intros a Ha. apply sum_n_ext. intros k Hk.
    rewrite E by assumption. reflexivity.
  - unfold cell_sum, cell_sq. apply sum_n_ext. intros k Hk.
    rewrite (E 0 k) by (assumption || lia). reflexivity.
Qed.

(** ** [ComputeMoments] over the time axis and the cells *)

Section TotalMoments.
Variables (rank5 use_tpu crs : bool) (X P : Tensor) (b T f n g : nat).
Hypothesis HX : shape X = grouped_shape rank5 b T f n g.
Hypothesis HP : shape P = mask_shape rank5 b T.
Hypothesis HT : 0 < T.

Let P4 := mask4 rank5 P.
Let G := cell_size rank5 f g.
Let cs := cells rank5 X P4 f g.
Let cq := cells_sq rank5 X P4 f g.

(** The moments of one lane over all its valid steps. *)
Definition total_denom (i : nat) : Qc :=
  Qcmax (sum_n T (cell_cnt P4 i) * Qc_of_nat G)%Qc 1%Qc.
Definition total_mean (i l : nat) : Qc := (sum_n T (cs i l) / total_denom i)%Qc.
Definition total_var (i l : nat) : Qc :=
  (sum_n T (cq (total_mean i l) i l) / total_denom i)%Qc.

Lemma total_multiplier :
  Qcdiv (Qc_of_nat (prod_list (map (fun a => extent a (shape X)) (1 :: reduce_dims rank5))))
        (Qc_of_nat (prod_list (map (fun a => extent a (shape (ApplyPadding P (tf_ones []))))
                                   (1 :: reduce_dims rank5))))
  = Qc_of_nat G.
Proof.
  rewrite shape_ApplyPadding. cbn [shape tf_ones tf_fill]. rewrite bshape_nil_r, HX, HP.
  assert (HTq : Qc_of_nat T <> 0%Qc).
  { intros E. rewrite <- Qc_of_nat_0 in E.
    assert (H : (Qc_of_nat 0 < Qc_of_nat T)%Qc) by (apply Qc_of_nat_lt; exact HT).
    rewrite E in H. revert H. apply Qcle_not_lt, Qcle_refl. }
  unfold G. destruct rank5;
    cbn [grouped_shape mask_shape reduce_dims map extent nth prod_list cell_size];
    rewrite !Nat.mul_1_r, !Qc_of_nat_mul; field; exact HTq.
Qed.

Lemma ComputeMoments_total :
  let CM := ComputeMoments use_tpu X P (1 :: reduce_dims rank5) (Some 1) crs true 0 in
  lanes rank5 (fst CM) b 1 n (fun i l _ => total_mean i l)
  /\ lanes rank5 (snd CM) b 1 n (fun i l _ => total_var i l).
Proof.
  cbv zeta. unfold ComputeMoments, cross_replica_sum, tf_reduce_sum_keepdims.
  cbv beta iota zeta. cbn [fst snd Nat.eqb negb]. rewrite !if_same.
  rewrite total_multiplier.
  change (tf_reduce_sum ?x (1 :: reduce_dims rank5))
    with (reduce_axis 1 (tf_reduce_sum x (reduce_dims rank5))).
  pose proof (lanes_cumsum_unit rank5 _ b n _
                (lanes_reduce_time rank5 _ b T n _
                   (masked_sum_lanes rank5 P X b T f n g HP HX))) as Hsum.
  pose proof (lanes_cumsum_unit rank5 _ b 1 _
                (lanes_reduce_time rank5 _ b T 1 _ (mask_count_lanes rank5 P b T HP)))
    as Hcnt.
  fold P4 in Hsum, Hcnt. fold cs in Hsum.
  set (sum_v := tf_cumsum (reduce_axis 1 (tf_reduce_sum (ApplyPadding P X) _)) 1) in *.
  set (cnt := tf_cumsum (reduce_axis 1 (tf_reduce_sum (ApplyPadding P (tf_ones [])) _)) 1)
    in *.
  set (denom := tf_maximum (tf_mul cnt (tf_scalar (Qc_of_nat G))) (tf_scalar 1%Qc)).
  assert (Hden : lanes rank5 denom b 1 1 (fun i _ _ => total_denom i)).
  { unfold denom, tf_maximum, tf_mul.
    apply (lanes_ext rank5 _ b 1 1 _ _
             (lanes_map_scalar rank5 Qcmax _ 1%Qc b 1 1 _
                (lanes_map_scalar rank5 Qcmult _ (Qc_of_nat G) b 1 1 _ Hcnt))).
    intros i j l _ _ _. reflexivity. }
  set (mean := tf_div sum_v denom).
  assert (Hmean : lanes rank5 mean b 1 n (fun i l _ => total_mean i l)).
  { apply (lanes_ext rank5 _ b 1 n _ _ (lanes_div rank5 _ _ b 1 n _ _ Hsum Hden)).
    intros i j l _ _ _. reflexivity. }
  split; [exact Hmean|].
  assert (Hsq : shape (tf_squared_difference X mean) = grouped_shape rank5 b T f n g).
  { unfold tf_squared_difference. rewrite shape_map2, HX, (proj1 Hmean).
    apply bshape_grouped_total. }
  pose proof (lanes_cumsum_unit rank5 _ b n _
                (lanes_reduce_time rank5 _ b T n _
                   (masked_sum_lanes rank5 P _ b T f n g HP Hsq))) as Hvv.
  fold P4 in Hvv.
  apply (lanes_ext rank5 _ b 1 n _ _ (lanes_div rank5 _ _ b 1 n _ _ Hvv Hden)).
  intros i j l Hi _ Hl. unfold total_var. f_equal. apply sum_n_ext. intros s Hs.
  apply (cells_squared_difference rank5 X mean P4 b T f n g _ i l s HX Hmean Hi Hs Hl).
Qed.

End TotalMoments.

(** ** The fast path of [FProp] *)

Lemma bget_mask rank5 Z b t i j a l k :
  shape Z = mask_shape rank5 b t -> i < b -> j < t ->
  bget Z (grouped_index rank5 i j a l k) = data (mask4 rank5 Z) [i; j; 0; 0].
Proof.
  intros HZ Hi Hj. rewrite (data_mask4 rank5 b Z t i j HZ Hi Hj), HZ.
  destruct rank5; cbn [mask_shape grouped_index length Nat.sub repeat] in *.
  - rewrite (bget5 Z _ _ _ _ _ _ _ _ _ _ HZ), !clampi_one, !clampi_id by assumption.
    reflexivity.
  - rewrite (bget4 Z _ _ _ _ _ _ _ _ HZ), !clampi_one, !clampi_id by assumption.
    reflexivity.
Qed.

Lemma mask_broadcast rank5 b t f n g :
  broadcasts_into (mask_shape rank5 b t) (grouped_shape rank5 b t f n g).
Proof.
  unfold broadcasts_into.
  destruct rank5; cbn [mask_shape grouped_shape];
    repeat (apply Forall2_cons || apply Forall2_nil); auto.
Qed.

(** Masking with a mask that has no padded step changes nothing. *)
Lemma ApplyPadding_all_valid rank5 Z Y b t f n g :
  shape Z = mask_shape rank5 b t ->
  shape Y = grouped_shape rank5 b t f n g ->
  (forall i j, i < b -> j < t -> pad_at (mask4 rank5 Z) i j = false) ->
  teq (ApplyPadding Z Y) Y.
Proof.
  intros HZ HY Hv.
  assert (Hs : shape (ApplyPadding Z Y) = grouped_shape rank5 b t f n g).
  { rewrite shape_ApplyPadding, HZ, HY. apply bshape_into, mask_broadcast. }
  apply (teq_grouped rank5 _ _ b t f n g Hs HY).
  intros i j a l k Hi Hj Ha Hl Hk. rewrite data_ApplyPadding.
  rewrite (bget_mask rank5 Z b t i j a l k HZ Hi Hj).
  specialize (Hv i j Hi Hj). unfold pad_at in Hv. rewrite Hv.
  apply bget_in_range. rewrite HY. apply grouped_index_in_range; assumption.
Qed.

Section FastPath.
Variables (rank5 : bool) (X P : Tensor) (b T f n g : nat).
Hypothesis HX : shape X = grouped_shape rank5 b T f n g.
Hypothesis HP : shape P = mask_shape rank5 b T.
Hypothesis Hvalid : forall i j, i < b -> j < T -> pad_at (mask4 rank5 P) i j = false.
Hypothesis HT : 0 < T.
Hypothesis HG : 0 < cell_size rank5 f g.

Let P4 := mask4 rank5 P.
Let G := cell_size rank5 f g.

Lemma total_denom_all_valid i : i < b -> total_denom rank5 P T f g i = Qc_of_nat (T * G).
Proof.
  intros Hi. unfold total_denom. fold P4 G.
  rewrite (sum_n_ext T _ (fun _ => 1%Qc)).
  - rewrite sum_n_const, <- Qc_of_nat_1, <- !Qc_of_nat_mul, Qcmax_of_nat.
    f_equal. unfold G in *. nia.
  - intros j Hj. unfold cell_cnt, P4. rewrite Hvalid by assumption. reflexivity.
Qed.

Lemma moments_size :
  prod_list (map (fun a => extent a (shape X)) (1 :: reduce_dims rank5)) = T * G.
Proof.
  rewrite HX. unfold G.
  destruct rank5; cbn [grouped_shape reduce_dims map extent nth prod_list cell_size]; lia.
Qed.

(** [tf.nn.moments] over the time axis and the cells returns what
    [ComputeMoments] returns under a mask without padded steps. *)
Lemma nn_moments_total (use_tpu crs : bool) :
  let NM := tf_nn_moments X (1 :: reduce_dims rank5) in
  let CM := ComputeMoments use_tpu X P (1 :: reduce_dims rank5) (Some 1) crs true 0 in
  lanes rank5 (fst NM) b 1 n (fun i l _ => total_mean rank5 X P T f g i l)
  /\ lanes rank5 (snd NM) b 1 n (fun i l _ => total_var rank5 X P T f g i l)
  /\ teq (fst NM) (fst CM) /\ teq (snd NM) (snd CM).
Proof.
  cbv zeta.
  destruct (ComputeMoments_total rank5 use_tpu crs X P b T f n g HX HP HT) as [Hcm Hcv].
  cbv zeta in Hcm, Hcv.
  assert (Hraw : forall Y, shape Y = grouped_shape rank5 b T f n g ->
            lanes rank5 (tf_reduce_sum Y (1 :: reduce_dims rank5)) b 1 n
                  (fun i l _ => sum_n T (cells rank5 Y P4 f g i l))).
  { intros Y HY.
    change (tf_reduce_sum Y (1 :: reduce_dims rank5))
      with (reduce_axis 1 (tf_reduce_sum Y (reduce_dims rank5))).
    apply lanes_reduce_time.
    apply (lanes_of_teq rank5 _ (tf_reduce_sum (ApplyPadding P Y) (reduce_dims rank5))).
    - apply teq_reduce_sum, teq_sym.
      apply (ApplyPadding_all_valid rank5 P Y b T f n g HP HY Hvalid).
    - apply (masked_sum_lanes rank5 P Y b T f n g HP HY). }
  unfold tf_nn_moments. cbv zeta. cbn [fst snd]. rewrite moments_size.
  set (mean := tf_div (tf_reduce_sum X (1 :: reduce_dims rank5)) (tf_scalar (Qc_of_nat (T * G)))).
  assert (Hmean : lanes rank5 mean b 1 n (fun i l _ => total_mean rank5 X P T f g i l)).
  { apply (lanes_ext rank5 _ b 1 n _ _
             (lanes_map_scalar rank5 Qcdiv _ (Qc_of_nat (T * G)) b 1 n _ (Hraw X HX))).
    intros i j l Hi _ _. unfold total_mean. rewrite total_denom_all_valid by exact Hi.
    reflexivity. }
  assert (Hsq : shape (tf_squared_difference X mean) = grouped_shape rank5 b T f n g).
  { unfold tf_squared_difference. rewrite shape_map2, HX, (proj1 Hmean).
    apply bshape_grouped_total. }
  assert (Hvar : lanes rank5
            (tf_div (tf_reduce_sum (tf_squared_difference X mean) (1 :: reduce_dims rank5))
                    (tf_scalar (Qc_of_nat (T * G)))) b 1 n
            (fun i l _ => total_var rank5 X P T f g i l)).
  { apply (lanes_ext rank5 _ b 1 n _ _
             (lanes_map_scalar rank5 Qcdiv _ (Qc_of_nat (T * G)) b 1 n _ (Hraw _ Hsq))).
    intros i j l Hi _ Hl. unfold total_var. rewrite total_denom_all_valid by exact Hi.
    f_equal. apply sum_n_ext. intros s Hs.
    apply (cells_squared_difference rank5 X mean P4 b T f n g _ i l s HX Hmean Hi Hs Hl). }
  split; [exact Hmean|]. split; [exact Hvar|]. split.
  - apply (lanes_teq rank5 _ _ b 1 n _ _ Hmean Hcm). reflexivity.
  - apply (lanes_teq rank5 _ _ b 1 n _ _ Hvar Hcv). reflexivity.
Qed.

End FastPath.

(** ** The output of a layer that does not accumulate *)

Lemma moments_broadcast_total rank5 b t f n g :
  broadcasts_into (moment_shape rank5 b 1 n) (grouped_shape rank5 b t f n g).
Proof.
  unfold broadcasts_into.
  destruct rank5; cbn [moment_shape grouped_shape];
    repeat (apply Forall2_cons || apply Forall2_nil); auto.
Qed.

(** [_Normalize], the reshape and [_ApplyGammaBeta] with one mean and one
    variance per lane. *)
Lemma layer_view_total (tf_sqrt : Qc -> Qc) (rank5 : bool) (p : Params) (theta : Theta)
    (Y m v : Tensor) (b t f n g kg kb : nat) (hm hv : nat -> nat -> nat -> Qc) :
  Z.to_nat (p_dim p) = n * g ->
  shape Y = layer_shape rank5 b t f (n * g) ->
  dtype Y <> int32 -> dtype m <> int32 -> dtype v <> int32 ->
  lanes rank5 m b 1 n hm ->
  lanes rank5 v b 1 n hv ->
  shape (gamma theta) = repeat 1 kg ++ [n * g] ->
  shape (beta theta) = repeat 1 kb ++ [n * g] ->
  exists o,
    _Normalize tf_sqrt p (tf_reshape Y (grouped_shape rank5 b t f n g)) m v = Ok o
    /\ shape (_ApplyGammaBeta p theta (tf_reshape o (layer_shape rank5 b t f (n * g))))
       = layer_shape rank5 b t f (n * g)
    /\ forall i j a c, i < b -> j < t -> a < frames rank5 f -> c < n * g ->
         data (_ApplyGammaBeta p theta (tf_reshape o (layer_shape rank5 b t f (n * g))))
              (layer_index rank5 i j a c)
         = normalized tf_sqrt (p_epsilon p)
             (data Y (layer_index rank5 i j a c))
             (hm i (c / g) 0) (hv i (c / g) 0)
             (data (gamma theta) (repeat 0 kg ++ [c]))
             (data (beta theta) (repeat 0 kb ++ [c])).
Proof.
  intros Hd HY HdY Hdm Hdv Hm Hv Hg Hb.
  set (XG := tf_reshape Y (grouped_shape rank5 b t f n g)).
  assert (HXG : shape XG = grouped_shape rank5 b t f n g) by reflexivity.
  assert (Hbm : broadcasts_into (shape m) (shape XG))
    by (rewrite (proj1 Hm), HXG; apply moments_broadcast_total).
  assert (Hbv : broadcasts_into (shape v) (shape XG))
    by (rewrite (proj1 Hv), HXG; apply moments_broadcast_total).
  destruct (Normalize_formula tf_sqrt p XG m v Hbm Hbv Hdm Hdv)
    as (o & E & Hos & Hod & Hdata).
  exists o. split; [exact E|].
  set (R := tf_reshape o (layer_shape rank5 b t f (n * g))).
  assert (HR : shape R = (if rank5 then [b; t; f] else [b; t]) ++ [Z.to_nat (p_dim p)]).
  { rewrite Hd. unfold R. cbn [tf_reshape shape]. apply layer_shape_snoc. }
  assert (HdR : dtype R <> int32).
  { unfold R. cbn [tf_reshape dtype]. rewrite Hod. exact HdY. }
  split.
  - rewrite (shape_ApplyGammaBeta p theta R _ HR). rewrite HR, Hd. symmetry.
    apply layer_shape_snoc.
  - intros i j a c Hi Hj Ha Hc.
    assert (Hg0 : 0 < g) by (destruct g; lia).
    assert (Hl : c / g < n) by (apply Nat.Div0.div_lt_upper_bound; lia).
    assert (Hk : c mod g < g) by (apply Nat.mod_upper_bound; lia).
    rewrite layer_index_snoc.
    rewrite (ApplyGammaBeta_formula p theta R _ kg kb _ c HR HdR).
    + rewrite <- layer_index_snoc. unfold R.
      rewrite (ungroup_data rank5 o b t f n g i j a c) by (assumption || congruence).
      rewrite Hdata by (rewrite HXG; apply grouped_index_in_range; assumption).
      unfold XG at 1. rewrite (group_data rank5 Y b t f n g) by assumption.
      rewrite (bget_lane_total rank5 m b n i j a _ _ hm Hm Hi Hl).
      rewrite (bget_lane_total rank5 v b n i j a _ _ hv Hv Hi Hl).
      replace (c / g * g + c mod g) with c
        by (rewrite (Nat.div_mod_eq c g) at 1; ring).
      unfold normalized. reflexivity.
    + rewrite Hd. exact Hg.
    + rewrite Hd. exact Hb.
    + destruct rank5; cbn [frames] in Ha; repeat constructor; assumption.
    + rewrite Hd. exact Hc.
Qed.

Lemma dtype_nn_moments x axes :
  dtype (fst (tf_nn_moments x axes)) = dtype x /\ dtype (snd (tf_nn_moments x axes)) = dtype x.
Proof.
  unfold tf_nn_moments. cbv zeta. cbn [fst snd]. unfold tf_div, tf_squared_difference.
  cbn [tf_map2 dtype]. rewrite !dtype_reduce_sum. split; reflexivity.
Qed.

Lemma FProp_grouped_fast (use_tpu : bool) (tf_sqrt : Qc -> Qc) (rank5 : bool) (p : Params)
    (theta : Theta) (X : Tensor) (b T f n g : nat) :
  p_cumulative p = false ->
  group_size p = Ok (Z.of_nat g) ->
  num_groups p = Ok (Z.of_nat n) ->
  shape X = layer_shape rank5 b T f (n * g) ->
  FProp use_tpu false tf_sqrt p theta X None
  = (let X1 := _CastToFPropDtype p X in
     let XG := tf_reshape X1 (grouped_shape rank5 b T f n g) in
     let NM := tf_nn_moments XG (1 :: reduce_dims rank5) in
     o <- _Normalize tf_sqrt p XG (fst NM) (snd NM) ;;
     Ok (_ApplyGammaBeta p theta (tf_reshape o (layer_shape rank5 b T f (n * g))), None)).
Proof.
  intros Hc Hg Hn HX. unfold FProp. cbv zeta.
  rewrite !shape_CastToFPropDtype, HX, Hn, Hg, Hc.
  destruct rank5;
    cbn [layer_shape length Nat.eqb orb assert bind option_map removelast app firstn
         repeat Nat.add Nat.sub seq py_slice skipn negb grouped_shape mask_shape
         reduce_dims];
    rewrite !Nat2Z.id;
    match goal with
    | |- context [tf_nn_moments ?x ?dims] =>
        destruct (tf_nn_moments x dims) as [gm gv]
    end; reflexivity.
Qed.

(** The output of [FProp] on a layer that does not accumulate, with
    paddings. *)
Lemma FProp_total_view (use_tpu : bool) (tf_sqrt : Qc -> Qc) (rank5 : bool) (p : Params)
    (theta : Theta) (X P : Tensor) (b T f n g kg kb : nat) :
  p_cumulative p = false ->
  p_window_size p = 0%Z ->
  group_size p = Ok (Z.of_nat g) ->
  num_groups p = Ok (Z.of_nat n) ->
  Z.to_nat (p_dim p) = n * g ->
  FPropDtype p <> int32 ->
  dtype X <> int32 ->
  shape X = layer_shape rank5 b T f (n * g) ->
  shape P = [b; T] ->
  shape (gamma theta) = repeat 1 kg ++ [n * g] ->
  shape (beta theta) = repeat 1 kb ++ [n * g] ->
  0 < T ->
  let XG := tf_reshape (_CastToFPropDtype p X) (grouped_shape rank5 b T f n g) in
  let PG := tf_reshape (_CastToFPropDtype p P) (mask_shape rank5 b T) in
  exists out,
    FProp use_tpu false tf_sqrt p theta X (Some P) = Ok (out, Some (_CastToFPropDtype p P))
    /\ shape out = layer_shape rank5 b T f (n * g)
    /\ forall i j a c, i < b -> j < T -> a < frames rank5 f -> c < n * g ->
         data out (layer_index rank5 i j a c)
         = normalized tf_sqrt (p_epsilon p)
             (data X (layer_index rank5 i j a c))
             (total_mean rank5 XG PG T f g i (c / g))
             (total_var rank5 XG PG T f g i (c / g))
             (data (gamma theta) (repeat 0 kg ++ [c]))
             (data (beta theta) (repeat 0 kb ++ [c])).
Proof.
  intros Hcum Hwin Hgs Hng Hdim Hfp HdX HX HP Hgam Hbet HT. cbv zeta.
  rewrite (FProp_grouped use_tpu tf_sqrt rank5 p theta X P b T f n g Hgs Hng HX).
  cbv zeta. rewrite Hcum, Hwin. change (Z.to_nat 0) with 0.
  set (X1 := _CastToFPropDtype p X). set (P1 := _CastToFPropDtype p P).
  set (XG := tf_reshape X1 (grouped_shape rank5 b T f n g)).
  set (PG := tf_reshape P1 (mask_shape rank5 b T)).
  change (if rank5 then [1; 2; 4] else [1; 3]) with (1 :: reduce_dims rank5)
    || replace (if rank5 then [1; 2; 4] else [1; 3]) with (1 :: reduce_dims rank5)
         by (destruct rank5; reflexivity).
  assert (HXG : shape XG = grouped_shape rank5 b T f n g) by reflexivity.
  assert (HPG : shape PG = mask_shape rank5 b T) by reflexivity.
  destruct (ComputeMoments_total rank5 use_tpu (p_enable_cross_replica_sum_on_tpu p)
              XG PG b T f n g HXG HPG HT) as [Hm Hv].
  cbv zeta in Hm, Hv.
  set (CM := ComputeMoments use_tpu XG PG (1 :: reduce_dims rank5) (Some 1)
               (p_enable_cross_replica_sum_on_tpu p) true 0) in *.
  assert (HX1 : shape X1 = layer_shape rank5 b T f (n * g)).
  { unfold X1. rewrite shape_CastToFPropDtype. exact HX. }
  assert (HdX1 : dtype X1 <> int32).
  { unfold X1. rewrite dtype_CastToFPropDtype by exact HdX. exact Hfp. }
  assert (Hdm : dtype (fst CM) <> int32).
  { unfold CM. rewrite dtype_ComputeMoments_mean. exact HdX1. }
  assert (Hdv : dtype (snd CM) <> int32).
  { unfold CM. rewrite dtype_ComputeMoments_variance. exact HdX1. }
  destruct (layer_view_total tf_sqrt rank5 p theta X1 (fst CM) (snd CM) b T f n g kg kb
              _ _ Hdim HX1 HdX1 Hdm Hdv Hm Hv Hgam Hbet) as (o & E & Hos & Hod).
  fold XG in E. rewrite E. cbn [bind]. eexists. split; [reflexivity|].
  split; [exact Hos|]. intros i j a c Hi Hj Ha Hc.
  rewrite (Hod i j a c Hi Hj Ha Hc). f_equal.
  unfold X1, _CastToFPropDtype. destruct (dtype X); try reflexivity;
    apply data_cast_float; exact Hfp.
Qed.


Definition whole_sequence_params : Params :=
  mkParams "gn" 2 1 1 false 0 false 4 (Q2Qc (1 # 1000)) float32.
Definition no_step_padded : Tensor := of_flat [1; 3] [frac 0 1; frac 0 1; frac 0 1].


(** ** What normalization achieves *)

Lemma sum_n_centred n (x : nat -> Qc) (m s : Qc) :
  sum_n n (fun k => Qcplus (Qcmult (Qcdiv (Qcminus (x k) m) s) (Qcplus 0%Qc 1%Qc)) 0%Qc)
  = Qcdiv (Qcminus (sum_n n x) (Qcmult (Qc_of_nat n) m)) s.
Proof.
  unfold Qcdiv.
  induction n as [|n IH]; cbn [sum_n].
  - rewrite Qc_of_nat_0. ring.
  - rewrite IH. replace (S n) with (n + 1) by lia.
    rewrite Qc_of_nat_add, Qc_of_nat_1. ring.
Qed.

Lemma sum_n_minus_scaled n (x w : nat -> Qc) (s : Qc) :
  sum_n n (fun k => Qcdiv (Qcminus (x k) (w k)) s)
  = Qcdiv (Qcminus (sum_n n x) (sum_n n w)) s.
Proof.
  unfold Qcdiv. induction n as [|n IH]; cbn [sum_n]; [ring|]. rewrite IH. ring.
Qed.

(** The number of valid steps of an example. *)
Lemma valid_steps_counted (P4 : Tensor) (i T : nat) :
  exists v, sum_n T (cell_cnt P4 i) = Qc_of_nat v
            /\ (v = 0 -> forall j, j < T -> pad_at P4 i j = true).
Proof.
  induction T as [|T (v & E & Hall)]; cbn [sum_n].
  - exists 0. split; [rewrite Qc_of_nat_0; reflexivity|]. intros _ j Hj. lia.
  - unfold cell_cnt at 2. destruct (pad_at P4 i T) eqn:Ep.
    + exists v. split; [rewrite E; ring|]. intros Hv j Hj.
      destruct (Nat.eq_dec j T) as [->|Hne]; [exact Ep|]. apply Hall; lia.
    + exists (v + 1). split; [rewrite E, Qc_of_nat_add, Qc_of_nat_1; reflexivity|]. lia.
Qed.

Lemma cells_layer rank5 (Y P4 : Tensor) (b t f n g i l j : nat) :
  shape Y = layer_shape rank5 b t f (n * g) ->
  i < b -> j < t -> l < n ->
  cells rank5 (tf_reshape Y (grouped_shape rank5 b t f n g)) P4 f g i l j
  = if pad_at P4 i j then 0%Qc
    else sum_n (frames rank5 f) (fun a =>
           sum_n g (fun k => data Y (layer_index rank5 i j a (l * g + k)))).
Proof.
  intros HY Hi Hj Hl.
  assert (Hgd : forall a k, a < frames rank5 f -> k < g ->
            data (tf_reshape Y (grouped_shape rank5 b t f n g)) (grouped_index rank5 i j a l k)
            = data Y (layer_index rank5 i j a (l * g + k))).
  { intros a k Ha Hk. apply (group_data rank5 Y b t f n g); assumption. }
  destruct rank5; cbn [cells frames grouped_index] in *.
  - unfold cell_sum5. destruct (pad_at P4 i j).
    + apply sum_n_zero. intros a _. apply sum_n_zero. reflexivity.
    + apply sum_n_ext. intros a Ha. apply sum_n_ext. intros k Hk. apply Hgd; assumption.
  - unfold cell_sum. destruct (pad_at P4 i j).
    + apply sum_n_zero. reflexivity.
    + rewrite sum_n_one. apply sum_n_ext. intros k Hk. apply (Hgd 0 k); [lia|assumption].
Qed.

Lemma cells_without_elements rank5 (X P4 : Tensor) (f g i l j : nat) :
  cell_size rank5 f g = 0 -> cells rank5 X P4 f g i l j = 0%Qc.
Proof.
  intros HG. destruct rank5; cbn [cells cell_size] in *.
  - unfold cell_sum5. destruct f as [|f]; [reflexivity|].
    destruct g as [|g]; [|cbn in HG; lia].
    apply sum_n_zero. reflexivity.
  - subst g. reflexivity.
Qed.

(** A sum over the valid steps less its share of the mean is 0. *)
Lemma total_mean_centres rank5 (X P : Tensor) (T f g i l : nat) :
  Qcminus (sum_n T (cells rank5 X (mask4 rank5 P) f g i l))
          (Qcmult (Qcmult (sum_n T (cell_cnt (mask4 rank5 P) i))
                          (Qc_of_nat (cell_size rank5 f g)))
                  (total_mean rank5 X P T f g i l)) = 0%Qc.
Proof.
  unfold total_mean, total_denom.
  set (P4 := mask4 rank5 P). set (G := cell_size rank5 f g).
  destruct (valid_steps_counted P4 i T) as (v & Ev & Hall). rewrite Ev.
  rewrite <- Qc_of_nat_mul, <- Qc_of_nat_1, Qcmax_of_nat.
  destruct (Nat.eq_dec (v * G) 0) as [E0|E0].
  - assert (HS : sum_n T (cells rank5 X P4 f g i l) = 0%Qc).
    { apply sum_n_zero. intros j Hj.
      destruct (Nat.eq_dec G 0) as [EG|EG].
      - apply cells_without_elements. exact EG.
      - apply cells_padded. apply Hall; [nia|exact Hj]. }
    rewrite HS, E0, Qc_of_nat_0. unfold Qcdiv. ring.
  - replace (Nat.max (v * G) 1) with (v * G) by lia.
    field. intros H. apply E0.
    rewrite <- Qc_of_nat_0 in H.
    destruct (Nat.lt_trichotomy (v * G) 0) as [Hlt|[Heq|Hgt]]; [lia|exact Heq|].
    apply Qc_of_nat_lt in Hgt. rewrite H in Hgt. apply Qc_of_nat_lt in Hgt. lia.
Qed.

Lemma pad_at_layer rank5 (p : Params) (P : Tensor) (b T i j : nat) :
  FPropDtype p <> int32 ->
  shape P = [b; T] -> i < b -> j < T ->
  pad_at (mask4 rank5 (tf_reshape (_CastToFPropDtype p P) (mask_shape rank5 b T))) i j
  = Qcltb 0%Qc (data P [i; j]).
Proof.
  intros Hfp HP Hi Hj.
  set (P1 := _CastToFPropDtype p P). set (PG := tf_reshape P1 (mask_shape rank5 b T)).
  assert (HPG : shape PG = mask_shape rank5 b T) by reflexivity.
  assert (HP1 : shape P1 = [b; T]) by (unfold P1; rewrite shape_CastToFPropDtype; exact HP).
  unfold pad_at. rewrite (data_mask4 rank5 b PG T i j HPG Hi Hj), HPG.
  replace (length (mask_shape rank5 b T) - 2) with (if rank5 then 3 else 2)
    by (destruct rank5; reflexivity).
  unfold PG. rewrite (mask_data rank5 P1 b T i j HP1 Hi Hj).
  f_equal. unfold P1, _CastToFPropDtype. destruct (dtype P); try reflexivity;
    apply data_cast_float; exact Hfp.
Qed.


Definition created_centring_variables : Theta :=
  mkTheta (tf_cast (tf_fill [1; 1; 1; 2] 0%Qc) float32)
          (tf_cast (tf_fill [1; 1; 1; 2] 0%Qc) float32).


From Stdlib Require Import DecimalString.

(** * Batch normalization without paddings

    [BatchNormLayerNoPadding] and its [AddingAccumulator]s.  The layer
    runs on every replica of a distributed computation; [_Moments]
    combines the statistics of the replicas of one group, so the embedding
    gives every replica its input: [inputs q] is the input of replica [q],
    and a function of the layer is written for one replica [r]. *)

(** [tf.nn.batch_normalization(x, mean, variance, offset, scale,
    variance_epsilon)]. *)
Definition tf_nn_batch_normalization (tf_sqrt : Qc -> Qc)
    (x mean variance offset scale : Tensor) (variance_epsilon : Qc) : Result Tensor :=
  inv <- tf_rsqrt tf_sqrt (tf_add variance (tf_scalar variance_epsilon)) ;;
  let inv := tf_mul inv scale in
  Ok (tf_add (tf_mul x (tf_cast inv (dtype x)))
             (tf_cast (tf_sub offset (tf_mul mean inv)) (dtype x))).

Definition tf_square (x : Tensor) : Tensor :=
  mkTensor (dtype x) (shape x) (fun idx => sqr (data x idx)).

Definition tf_reciprocal (x : Tensor) : Tensor :=
  mkTensor (dtype x) (shape x) (fun idx => (/ data x idx)%Qc).

(** [tf.nn.sufficient_statistics(x, axes, keepdims=False)] without a
    shift: the number of elements that are summed, the sum and the sum of
    the squares. *)
Definition tf_nn_sufficient_statistics (x : Tensor) (axes : list nat)
  : Tensor * Tensor * Tensor :=
  let counts :=
    tf_cast (tf_scalar (Qc_of_nat (prod_list (map (fun a => extent a (shape x)) axes))))
            (dtype x) in
  let m_ss := tf_reduce_sum_keepdims x axes false in
  let v_ss := tf_reduce_sum_keepdims (tf_square x) axes false in
  (counts, m_ss, v_ss).

(** [tf.nn.normalize_moments(counts, mean_ss, variance_ss, None)]. *)
Definition tf_nn_normalize_moments (counts mean_ss variance_ss : Tensor)
  : Tensor * Tensor :=
  let divisor := tf_reciprocal counts in
  let shifted_mean := tf_mul mean_ss divisor in
  let mean := shifted_mean in
  let variance := tf_sub (tf_mul variance_ss divisor) (tf_square shifted_mean) in
  (mean, variance).

(** [tf.greater(x, q)], a truth value being 1 or 0, and
    [tf.where(condition, x, y)]. *)
Definition tf_greater (x : Tensor) (q : Qc) : Tensor :=
  mkTensor int32 (shape x) (fun idx => if Qcltb q (data x idx) then 1%Qc else 0%Qc).

Definition tf_where (condition x y : Tensor) : Tensor :=
  mkTensor (dtype x) (bshape (shape condition) (bshape (shape x) (shape y)))
           (fun idx => if Qcltb 0%Qc (bget condition idx) then bget x idx else bget y idx).

Definition Qc_of_Z (z : Z) : Qc := Q2Qc (inject_Z z).

(** [range(n)]. *)
Definition range (n : Z) : list Z := map Z.of_nat (seq 0 (Z.to_nat n)).

Definition string_of_Z (z : Z) : string := NilZero.string_of_int (Z.to_int z).

Module NoPadding.

Record Params : Type := mkParams {
  p_name : string;
  p_dim : Z;
  p_decay : Qc;
  p_epsilon : Qc;
  p_bn_group_size : Z;
  p_dtype : DType
}.

(** The layer's variables. *)
Record Theta : Type := mkTheta {
  beta : Tensor;
  gamma : Tensor;
  moving_mean : Tensor;
  moving_variance : Tensor
}.

(** What a call leaves: a value, one of the exceptions of the
    group-normalization layer, or a [ValueError] with its message. *)
Inductive Outcome (A : Type) : Type :=
| Returns (a : A)
| Raises (e : Exn)
| RaisesValueError (message : string).
Arguments Returns {A} a.
Arguments Raises {A} e.
Arguments RaisesValueError {A} message.

Definition then_ {A B : Type} (r : Outcome A) (k : A -> Outcome B) : Outcome B :=
  match r with
  | Returns a => k a
  | Raises e => Raises e
  | RaisesValueError m => RaisesValueError m
  end.

Definition lift {A : Type} (r : Result A) : Outcome A :=
  match r with
  | Ok a => Returns a
  | Raise e => Raises e
  end.

(** ** The accumulators *)

(** Modelled from the spec: [base_layer.Accumulator] is not among the
    sources.  By the names of its methods, an accumulator holds a value
    once one is set: [GetValue] returns it, or [DefaultValue()] when none
    is set, [SetValue] replaces it and [Reset] forgets it.  (The switch
    that disables an accumulator is not used by this file.) *)
Record AddingAccumulator : Type := mkAddingAccumulator {
  acc_shape : list nat;
  acc_dtype : DType;
  acc_value : option Tensor
}.

Definition DefaultValue (a : AddingAccumulator) : Tensor :=
  tf_cast (tf_zeros (acc_shape a)) (acc_dtype a).

Definition GetValue (a : AddingAccumulator) : Tensor :=
  match acc_value a with
  | Some v => v
  | None => DefaultValue a
  end.

Definition SetValue (a : AddingAccumulator) (value : Tensor) : AddingAccumulator :=
  mkAddingAccumulator (acc_shape a) (acc_dtype a) (Some value).

Definition Reset (a : AddingAccumulator) : AddingAccumulator :=
  mkAddingAccumulator (acc_shape a) (acc_dtype a) None.

Definition Update (a : AddingAccumulator) (value : Tensor) : AddingAccumulator :=
  SetValue a (tf_add (GetValue a) (tf_cast value (acc_dtype a))).

(** [self.accumulators]. *)
Record Accumulators : Type := mkAccumulators {
  counts : AddingAccumulator;
  mean_ss : AddingAccumulator;
  variance_ss : AddingAccumulator
}.

(** ** The layer *)

Definition __init__ (p : Params) : Result Params :=
  assert (negb (String.eqb (p_name p) EmptyString)) ;;;
  Ok p.

(** Modelled from the spec: [py_utils.WeightParams] and [CreateVariable]
    are not among the sources; a variable created with a constant
    initializer holds that constant at every index, in the element type
    [p.dtype]. *)
Definition _CreateLayerVariables (p : Params) : Theta * Accumulators :=
  let pc := tf_cast (tf_fill [Z.to_nat (p_dim p)] 0%Qc) (p_dtype p) in
  let mva := tf_cast (tf_fill [Z.to_nat (p_dim p)] 0%Qc) (p_dtype p) in
  let mvv := tf_cast (tf_fill [Z.to_nat (p_dim p)] 1%Qc) (p_dtype p) in
  let dim := extent 0 (shape pc) in
  (mkTheta pc pc mva mvv,
   mkAccumulators (mkAddingAccumulator [] (p_dtype p) None)
                  (mkAddingAccumulator [dim] (p_dtype p) None)
                  (mkAddingAccumulator [dim] (p_dtype p) None)).

(** [PostTrainingStepUpdate]: the variables after the update that the
    returned op performs, and the accumulators after their reset. *)
Definition PostTrainingStepUpdate (p : Params) (vars : Theta) (accumulators : Accumulators)
  : Theta * Accumulators :=
  let counts_v := GetValue (counts accumulators) in
  let mean_ss_v := GetValue (mean_ss accumulators) in
  let variance_ss_v := GetValue (variance_ss accumulators) in
  let '(mean, variance) := tf_nn_normalize_moments counts_v mean_ss_v variance_ss_v in
  let decay := tf_cast (tf_scalar (1 - p_decay p)%Qc) (p_dtype p) in
  let mean_update :=
    tf_sub (moving_mean vars)
           (tf_where (tf_greater counts_v (Q2Qc (1 # 2)))
                     (tf_mul (tf_sub (moving_mean vars) (tf_cast mean (p_dtype p))) decay)
                     (tf_zeros (shape (moving_mean vars)))) in
  let var_update :=
    tf_sub (moving_variance vars)
           (tf_where (tf_greater counts_v (Q2Qc (1 # 2)))
                     (tf_mul (tf_sub (moving_variance vars) (tf_cast variance (p_dtype p)))
                             decay)
                     (tf_zeros (shape (moving_variance vars)))) in
  (mkTheta (beta vars) (gamma vars) mean_update var_update,
   mkAccumulators (Reset (counts accumulators))
                  (Reset (mean_ss accumulators))
                  (Reset (variance_ss accumulators))).

Section Layer.

(** [py_utils.use_tpu()], [py_utils.testonly_skip_norm_layers()],
    [self.do_eval] and the square root of the element type. *)
Variables (use_tpu testonly_skip_norm_layers do_eval : bool) (tf_sqrt : Qc -> Qc).

(** [tpu_function.get_tpu_context().number_of_shards], and the number of
    replicas that take part in a sum across replicas. *)
Variables (number_of_shards : option Z) (num_replicas : nat).

(** [tf.tpu.cross_replica_sum(x, group_assignment)] on replica [r]: the
    sum of the values [x q] of the replicas [q] in the group of [r], or of
    all replicas without a group assignment. *)
Definition cross_replica_sum (x : nat -> Tensor) (group_assignment : option (list (list Z)))
    (r : nat) : Tensor :=
  let members :=
    match group_assignment with
    | None => range (Z.of_nat num_replicas)
    | Some groups =>
        match find (fun ids => existsb (Z.eqb (Z.of_nat r)) ids) groups with
        | Some ids => ids
        | None => []
        end
    end in
  fold_right (fun q s => tf_add (x (Z.to_nat q)) s) (tf_zeros (shape (x r))) members.

Definition _Moments (inputs : nat -> Tensor) (r : nat) (group_size : Z)
    (accumulators : Accumulators) : Outcome (Tensor * Tensor * Accumulators) :=
  let stats := fun q => tf_nn_sufficient_statistics (inputs q) [0; 1; 2] in
  let counts_of := fun q => fst (fst (stats q)) in
  let mean_ss_of := fun q => snd (fst (stats q)) in
  let variance_ss_of := fun q => snd (stats q) in
  let accumulators :=
    mkAccumulators (Update (counts accumulators) (counts_of r))
                   (Update (mean_ss accumulators) (mean_ss_of r))
                   (Update (variance_ss accumulators) (variance_ss_of r)) in
  then_
    (if use_tpu && (1 <? group_size)%Z then
       then_
         match number_of_shards with
         | Some num_shards =>
             if (num_shards <? group_size)%Z then
               RaisesValueError
                 ("TPU shards=" ++ string_of_Z num_shards ++ " less than bn_gropu_size="
                    ++ string_of_Z group_size ++ ".")
             else if negb (num_shards mod group_size =? 0)%Z then
               RaisesValueError
                 ("TPU shards=" ++ string_of_Z num_shards
                    ++ " not divisible by bn_group_size=" ++ string_of_Z group_size ++ ".")
             else
               let num_groups := (num_shards / group_size)%Z in
               let group_assignment :=
                 map (fun g => map (fun i => (g * group_size + i)%Z) (range group_size))
                     (range num_groups) in
               Returns (Some group_assignment,
                        tf_mul (counts_of r) (tf_scalar (Qc_of_Z group_size)))
         | None => Returns (None, counts_of r)
         end
         (fun '(group_assignment, counts_v) =>
            Returns (counts_v,
                     cross_replica_sum mean_ss_of group_assignment r,
                     cross_replica_sum variance_ss_of group_assignment r))
     else Returns (counts_of r, mean_ss_of r, variance_ss_of r))
    (fun '(counts_v, mean_ss_v, variance_ss_v) =>
       let '(mean, variance) := tf_nn_normalize_moments counts_v mean_ss_v variance_ss_v in
       Returns (mean, variance, accumulators)).

(** The run-time assertion on the shape of [theta.beta] and
    [py_utils.CheckNumerics] return their argument when they pass; the
    embedding is that path. *)
Definition FProp (p : Params) (theta : Theta) (inputs : nat -> Tensor) (r : nat)
    (accumulators : Accumulators) : Outcome (Tensor * Accumulators) :=
  if testonly_skip_norm_layers then Returns (inputs r, accumulators) else
  let inputs_dtype := dtype (inputs r) in
  let inputs := fun q => tf_cast (inputs q) (p_dtype p) in
  let gamma1 := tf_add (tf_cast (tf_scalar 1%Qc) (dtype (gamma theta))) (gamma theta) in
  if do_eval then
    then_ (lift (tf_nn_batch_normalization tf_sqrt (inputs r) (moving_mean theta)
                   (moving_variance theta) (beta theta) gamma1 (p_epsilon p)))
          (fun outputs => Returns (tf_cast outputs inputs_dtype, accumulators))
  else
    then_ (_Moments inputs r (p_bn_group_size p) accumulators)
          (fun '(mean, variance, accumulators) =>
             then_ (lift (tf_nn_batch_normalization tf_sqrt (inputs r) mean variance
                            (beta theta) gamma1 (p_epsilon p)))
                   (fun outputs => Returns (tf_cast outputs inputs_dtype, accumulators))).

(** The micro-batches of one training step, one call of [FProp] after
    the other on one replica. *)
Fixpoint micro_batches (p : Params) (theta : Theta) (batches : list (nat -> Tensor))
    (r : nat) (accumulators : Accumulators) : Outcome (list Tensor * Accumulators) :=
  match batches with
  | [] => Returns ([], accumulators)
  | inputs :: rest =>
      then_ (FProp p theta inputs r accumulators)
            (fun '(outputs, accumulators) =>
               then_ (micro_batches p theta rest r accumulators)
                     (fun '(outs, accumulators) => Returns (outputs :: outs, accumulators)))
  end.

End Layer.

End NoPadding.

(** ** The statistics of a replica group *)

(** The sum of channel [c] of a tensor [[N, H, W, C]] over its other
    axes, and the sum of the squares. *)
Definition channel_sum (X : Tensor) (N H W c : nat) : Qc :=
  sum_n N (fun n => sum_n H (fun h => sum_n W (fun w => data X [n; h; w; c]))).
Definition channel_sum_sq (X : Tensor) (N H W c : nat) : Qc :=
  sum_n N (fun n => sum_n H (fun h => sum_n W (fun w => sqr (data X [n; h; w; c])))).

Lemma sufficient_statistics_rank4 (X : Tensor) (N H W C : nat) :
  shape X = [N; H; W; C] ->
  let '(counts, m_ss, v_ss) := tf_nn_sufficient_statistics X [0; 1; 2] in
  shape counts = [] /\ bget counts [] = Qc_of_nat (N * H * W)
  /\ dtype counts = dtype X /\ dtype m_ss = dtype X /\ dtype v_ss = dtype X
  /\ shape m_ss = [C] /\ shape v_ss = [C]
  /\ forall c, c < C ->
       data m_ss [c] = channel_sum X N H W c /\ data v_ss [c] = channel_sum_sq X N H W c.
Proof.
  intros HX. destruct X as [dt s d]. cbn [shape] in HX. subst s.
  unfold tf_nn_sufficient_statistics. cbv zeta.
  split; [reflexivity|]. split.
  { cbn [shape map extent nth prod_list]. rewrite bget_cast_scalar_nat. f_equal. lia. }
  split; [reflexivity|]. split; [rewrite dtype_reduce_sum_keepdims; reflexivity|].
  split; [rewrite dtype_reduce_sum_keepdims; reflexivity|].
  split; [reflexivity|]. split; [reflexivity|].
  intros c Hc. split; reflexivity.
Qed.

Lemma sum_n_seq (n : nat) (f : nat -> Qc) :
  fold_right (fun q s => Qcplus (f q) s) 0%Qc (seq 0 n) = sum_n n f.
Proof.
  induction n as [|n IH]; [reflexivity|].
  rewrite seq_S, fold_right_app. cbn [fold_right Nat.add sum_n]. rewrite <- IH.
  generalize (seq 0 n). intros l. induction l as [|a l IHl]; cbn [fold_right]; [ring|].
  rewrite IHl. ring.
Qed.

(** The sum of vectors of one length, index by index. *)
Lemma sum_of_vectors (x : nat -> Tensor) (C : nat) (init : Tensor) (l : list nat) :
  shape init = [C] -> (forall c, data init [c] = 0%Qc) ->
  (forall q, In q l -> shape (x q) = [C]) ->
  let s := fold_right (fun q s => tf_add (x q) s) init l in
  shape s = [C]
  /\ forall c, c < C -> data s [c] = fold_right (fun q s => Qcplus (data (x q) [c]) s) 0%Qc l.
Proof.
  intros Hi Hz Hall. cbv zeta.
  induction l as [|q l IH]; cbn [fold_right].
  - split; [exact Hi|]. intros c _. apply Hz.
  - destruct IH as [IHs IHd]; [intros q' Hq'; apply Hall; right; exact Hq'|].
    assert (Hq : shape (x q) = [C]) by (apply Hall; left; reflexivity).
    set (rest := fold_right (fun q s => tf_add (x q) s) init l) in *.
    split.
    + unfold tf_add. rewrite shape_map2, Hq, IHs. apply bshape_same.
    + intros c Hc. unfold tf_add. cbn [tf_map2 data].
      rewrite !bget_in_range by (rewrite ?Hq, ?IHs; repeat constructor; exact Hc).
      rewrite IHd by exact Hc. reflexivity.
Qed.

Lemma fold_right_over_map {A B S : Type} (f : B -> S -> S) (h : A -> B) (init : S)
    (l : list A) :
  fold_right f init (map h l) = fold_right (fun a s => f (h a) s) init l.
Proof. induction l as [|a l IH]; cbn [map fold_right]; [reflexivity|]. rewrite IH. reflexivity. Qed.

Lemma range_of_nat (n : nat) : range (Z.of_nat n) = map Z.of_nat (seq 0 n).
Proof. unfold range. rewrite Nat2Z.id. reflexivity. Qed.

(** The replica ids of group [g], as [_Moments] lists them. *)
Lemma replica_ids_of_nat (g gs : nat) :
  map (fun i => (Z.of_nat g * Z.of_nat gs + i)%Z) (range (Z.of_nat gs))
  = map (fun i => Z.of_nat (g * gs + i)) (seq 0 gs).
Proof.
  rewrite range_of_nat, map_map. apply map_ext. intros i. lia.
Qed.

Lemma replica_in_its_group (r g gs : nat) :
  0 < gs ->
  existsb (Z.eqb (Z.of_nat r)) (map (fun i => Z.of_nat (g * gs + i)) (seq 0 gs))
  = (r / gs =? g).
Proof.
  intros Hgs. apply Bool.eq_iff_eq_true. rewrite existsb_exists, Nat.eqb_eq. split.
  - intros (z & Hin & Hz). apply in_map_iff in Hin. destruct Hin as (i & <- & Hi).
    apply in_seq in Hi. apply Z.eqb_eq in Hz. apply Nat2Z.inj in Hz. subst r.
    rewrite Nat.add_comm, Nat.div_add by lia. rewrite Nat.div_small by lia. reflexivity.
  - intros <-. exists (Z.of_nat r). split; [|apply Z.eqb_refl].
    apply in_map_iff. exists (r mod gs). split.
    + f_equal. rewrite (Nat.div_mod_eq r gs) at 3. lia.
    + apply in_seq. pose proof (Nat.mod_upper_bound r gs). lia.
Qed.

(** The group of replica [r] among the groups [_Moments] forms: the
    [r / gs]-th one. *)
Lemma group_of_replica (r gs : nat) : forall k s,
  0 < gs -> s <= r / gs < s + k ->
  find (fun ids => existsb (Z.eqb (Z.of_nat r)) ids)
       (map (fun g => map (fun i => (g * Z.of_nat gs + i)%Z) (range (Z.of_nat gs)))
            (map Z.of_nat (seq s k)))
  = Some (map (fun i => Z.of_nat (r / gs * gs + i)) (seq 0 gs)).
Proof.
  induction k as [|k IH]; intros s Hgs Hr; [lia|].
  cbn [seq map find]. rewrite replica_ids_of_nat, replica_in_its_group by exact Hgs.
  destruct (Nat.eqb_spec (r / gs) s) as [E|E].
  - rewrite E. reflexivity.
  - apply IH; [exact Hgs|lia].
Qed.

(** The sum across the replicas of a group. *)
Lemma cross_replica_sum_of_group (R : nat) (x : nat -> Tensor) (r gs C : nat) :
  0 < gs -> R mod gs = 0 -> r < R ->
  (forall q, q < R -> shape (x q) = [C]) ->
  let s := NoPadding.cross_replica_sum R x
             (Some (map (fun g => map (fun i => (g * Z.of_nat gs + i)%Z) (range (Z.of_nat gs)))
                        (range (Z.of_nat R / Z.of_nat gs)))) r in
  shape s = [C]
  /\ forall c, c < C -> data s [c] = sum_n gs (fun i => data (x (r / gs * gs + i)) [c]).
Proof.
  intros Hgs Hdiv Hr Hx. cbv zeta. unfold NoPadding.cross_replica_sum.
  rewrite <- Nat2Z.inj_div, (range_of_nat (R / gs)).
  assert (HR : R = R / gs * gs).
  { rewrite (Nat.div_mod_eq R gs) at 1. rewrite Hdiv. lia. }
  assert (Hq : r / gs < R / gs).
  { apply Nat.Div0.div_lt_upper_bound. rewrite Nat.mul_comm, <- HR. exact Hr. }
  rewrite (group_of_replica r gs (R / gs) 0 Hgs) by lia.
  rewrite fold_right_over_map.
  replace (fold_right (fun q s => tf_add (x (Z.to_nat (Z.of_nat (r / gs * gs + q)))) s)
             (tf_zeros (shape (x r))) (seq 0 gs))
    with (fold_right (fun q s => tf_add (x (r / gs * gs + q)) s)
             (tf_zeros (shape (x r))) (seq 0 gs)).
  2:{ generalize (tf_zeros (shape (x r))). intros z0. generalize (seq 0 gs). intros l.
      induction l as [|a l IHl]; cbn [fold_right]; [reflexivity|].
      rewrite IHl, Nat2Z.id. reflexivity. }
  pose proof (sum_of_vectors (fun q => x (r / gs * gs + q)) C (tf_zeros (shape (x r)))
                (seq 0 gs)) as Hsum.
  cbv zeta in Hsum. destruct Hsum as [Hs Hd].
  - cbn [tf_zeros tf_fill shape]. apply Hx. exact Hr.
  - reflexivity.
  - intros q Hin. apply in_seq in Hin. apply Hx.
    assert (r / gs * gs + gs <= R / gs * gs) by nia. lia.
  - split; [exact Hs|]. intros c Hc. rewrite (Hd c Hc).
    apply (sum_n_seq gs (fun i => data (x (r / gs * gs + i)) [c])).
Qed.

Lemma bget_rank0 (x : Tensor) (idx : Index) : shape x = [] -> bget x idx = data x [].
Proof. intros H. unfold bget. rewrite H. reflexivity. Qed.

Lemma normalize_moments_vectors (cnt m_ss v_ss : Tensor) (C : nat) (k : Qc) :
  shape cnt = [] -> data cnt [] = k -> shape m_ss = [C] -> shape v_ss = [C] ->
  let mean := fst (tf_nn_normalize_moments cnt m_ss v_ss) in
  let variance := snd (tf_nn_normalize_moments cnt m_ss v_ss) in
  shape mean = [C] /\ shape variance = [C]
  /\ dtype mean = dtype m_ss /\ dtype variance = dtype v_ss
  /\ forall c, c < C ->
       data mean [c] = Qcdiv (data m_ss [c]) k
       /\ data variance [c] = Qcminus (Qcdiv (data v_ss [c]) k) (sqr (data mean [c])).
Proof.
  intros Hc Hk Hm Hv. unfold tf_nn_normalize_moments. cbv zeta. cbn [fst snd].
  assert (Hms : shape (tf_mul m_ss (tf_reciprocal cnt)) = [C]).
  { unfold tf_mul. rewrite shape_map2. cbn [tf_reciprocal shape]. rewrite Hc, Hm.
    apply bshape_nil_r. }
  assert (Hmd : forall c, c < C ->
            data (tf_mul m_ss (tf_reciprocal cnt)) [c] = Qcdiv (data m_ss [c]) k).
  { intros c Hlt. unfold tf_mul. cbn [tf_map2 data].
    rewrite bget_in_range by (rewrite Hm; repeat constructor; exact Hlt).
    rewrite bget_rank0 by exact Hc. cbn [tf_reciprocal data]. rewrite Hk. reflexivity. }
  split; [exact Hms|]. split.
  { unfold tf_sub. rewrite shape_map2. cbn [tf_square shape]. rewrite Hms.
    unfold tf_mul. rewrite shape_map2. cbn [tf_reciprocal shape]. rewrite Hc, Hv.
    rewrite bshape_nil_r. apply bshape_same. }
  split; [reflexivity|]. split; [reflexivity|].
  intros c Hlt. split; [apply Hmd; exact Hlt|].
  unfold tf_sub at 1. cbn [tf_map2 data].
  rewrite !bget_in_range.
  - cbn [tf_square data]. rewrite (Hmd c Hlt). f_equal.
    unfold tf_mul. cbn [tf_map2 data].
    rewrite bget_in_range by (rewrite Hv; repeat constructor; exact Hlt).
    rewrite bget_rank0 by exact Hc. cbn [tf_reciprocal data]. rewrite Hk. reflexivity.
  - cbn [tf_square shape]. rewrite Hms. repeat constructor. exact Hlt.
  - unfold tf_mul. rewrite shape_map2. cbn [tf_reciprocal shape]. rewrite Hc, Hv, bshape_nil_r.
    repeat constructor. exact Hlt.
Qed.


Definition two_replica_inputs (q : nat) : Tensor :=
  of_flat [1; 1; 2; 1] [Qc_of_nat q; Qc_of_nat (q + 2)].
Definition no_padding_params : NoPadding.Params :=
  NoPadding.mkParams "bn" 1 (Q2Qc (997 # 1000)) (Q2Qc (1 # 1000)) 2 float32.


(** ** The micro-batches of a training step *)

Lemma Qcltb_half_of_nat (n : nat) : Qcltb (Q2Qc (1 # 2)) (Qc_of_nat n) = negb (n =? 0).
Proof.
  destruct n as [|n]; [reflexivity|]. cbn [Nat.eqb negb].
  apply Qcltb_lt. apply Qclt_le_trans with (y := Qc_of_nat 1).
  - reflexivity.
  - destruct n as [|n]; [apply Qcle_refl|].
    apply Qclt_le_weak. apply Qc_of_nat_lt. lia.
Qed.

(** The accumulators hold the count [K] and, per channel, the sum [M]
    and the sum of the squares [V]. *)
Definition accumulated (C : nat) (a : NoPadding.Accumulators) (K : nat) (M V : nat -> Qc)
  : Prop :=
  NoPadding.acc_shape (NoPadding.counts a) = []
  /\ NoPadding.acc_shape (NoPadding.mean_ss a) = [C]
  /\ NoPadding.acc_shape (NoPadding.variance_ss a) = [C]
  /\ NoPadding.acc_dtype (NoPadding.counts a) = float32
  /\ NoPadding.acc_dtype (NoPadding.mean_ss a) = float32
  /\ NoPadding.acc_dtype (NoPadding.variance_ss a) = float32
  /\ shape (NoPadding.GetValue (NoPadding.counts a)) = []
  /\ data (NoPadding.GetValue (NoPadding.counts a)) [] = Qc_of_nat K
  /\ shape (NoPadding.GetValue (NoPadding.mean_ss a)) = [C]
  /\ shape (NoPadding.GetValue (NoPadding.variance_ss a)) = [C]
  /\ forall c, c < C ->
       data (NoPadding.GetValue (NoPadding.mean_ss a)) [c] = M c
       /\ data (NoPadding.GetValue (NoPadding.variance_ss a)) [c] = V c.

(** The elements per channel of the micro-batches, their sum and the sum
    of their squares. *)
Fixpoint pooled_count (H W : nat) (batches : list Tensor) : nat :=
  match batches with
  | [] => 0
  | x :: rest => extent 0 (shape x) * H * W + pooled_count H W rest
  end.
Fixpoint pooled_sum (H W c : nat) (batches : list Tensor) : Qc :=
  match batches with
  | [] => 0%Qc
  | x :: rest => Qcplus (channel_sum x (extent 0 (shape x)) H W c) (pooled_sum H W c rest)
  end.
Fixpoint pooled_sum_sq (H W c : nat) (batches : list Tensor) : Qc :=
  match batches with
  | [] => 0%Qc
  | x :: rest =>
      Qcplus (channel_sum_sq x (extent 0 (shape x)) H W c) (pooled_sum_sq H W c rest)
  end.

Lemma created_accumulators (p : NoPadding.Params) (C : nat) :
  NoPadding.p_dtype p = float32 -> Z.to_nat (NoPadding.p_dim p) = C ->
  accumulated C (snd (NoPadding._CreateLayerVariables p)) 0 (fun _ => 0%Qc) (fun _ => 0%Qc).
Proof.
  intros Hd HC. unfold NoPadding._CreateLayerVariables. cbv zeta. cbn [snd].
  unfold accumulated, NoPadding.GetValue, NoPadding.DefaultValue.
  cbn [NoPadding.counts NoPadding.mean_ss NoPadding.variance_ss NoPadding.acc_dtype
       NoPadding.acc_value NoPadding.acc_shape tf_cast tf_fill tf_zeros shape extent nth].
  rewrite Hd, HC. repeat split; reflexivity.
Qed.

Section TrainingStep.
Variables (tf_sqrt : Qc -> Qc) (number_of_shards : option Z) (num_replicas : nat).
Variables (p : NoPadding.Params) (theta : NoPadding.Theta) (r H W C : nat).
Hypothesis Hdtype : NoPadding.p_dtype p = float32.

Let fprop := NoPadding.FProp false false false tf_sqrt number_of_shards num_replicas p theta.

(** One call of [FProp] in training adds the statistics of its input
    to the accumulators. *)
Lemma FProp_accumulates (x : Tensor) (N : nat) (a : NoPadding.Accumulators) (K : nat)
    (M V : nat -> Qc) :
  shape x = [N; H; W; C] ->
  accumulated C a K M V ->
  exists out a',
    fprop (fun _ => x) r a = NoPadding.Returns (out, a')
    /\ accumulated C a' (N * H * W + K)
         (fun c => Qcplus (channel_sum x N H W c) (M c))
         (fun c => Qcplus (channel_sum_sq x N H W c) (V c)).
Proof.
  intros Hx (Ha1 & Ha2 & Ha3 & Hd1 & Hd2 & Hd3 & Hcs & Hcd & Hms & Hvs & Hmv).
  unfold fprop, NoPadding.FProp. cbv beta zeta.
  unfold NoPadding._Moments. cbv beta zeta. cbn [andb NoPadding.then_].
  set (x1 := tf_cast x (NoPadding.p_dtype p)).
  assert (Hx1 : shape x1 = [N; H; W; C]) by exact Hx.
  assert (Hx1d : forall idx, data x1 idx = data x idx).
  { intros idx. unfold x1. apply data_cast_float. rewrite Hdtype. discriminate. }
  pose proof (sufficient_statistics_rank4 x1 N H W C Hx1) as Hst.
  destruct (tf_nn_sufficient_statistics x1 [0; 1; 2]) as [[cn ms] vs] eqn:Est.
  destruct Hst as (Hc1 & Hc2 & Hc3 & Hm3 & Hv3 & Hm1 & Hv1 & Hmvd).
  cbn [fst snd].
  assert (Hnmd : dtype (snd (tf_nn_normalize_moments cn ms vs)) = float32).
  { unfold tf_nn_normalize_moments. cbv zeta. cbn [snd]. unfold tf_sub, tf_mul.
    cbn [tf_map2 dtype]. rewrite Hv3. unfold x1. cbn [tf_cast dtype]. exact Hdtype. }
  destruct (tf_nn_normalize_moments cn ms vs) as [mean variance].
  cbn [snd] in Hnmd.
  cbn [NoPadding.then_]. unfold tf_nn_batch_normalization, tf_rsqrt.
  replace (dtype (tf_add variance (tf_scalar (NoPadding.p_epsilon p)))) with float32
    by (symmetry; exact Hnmd).
  cbn [bind NoPadding.lift NoPadding.then_].
  do 2 eexists. split; [reflexivity|].
  unfold accumulated, NoPadding.Update, NoPadding.SetValue, NoPadding.GetValue.
  cbn [NoPadding.counts NoPadding.mean_ss NoPadding.variance_ss NoPadding.acc_dtype
       NoPadding.acc_value NoPadding.acc_shape].
  fold (NoPadding.GetValue (NoPadding.counts a)).
  fold (NoPadding.GetValue (NoPadding.mean_ss a)).
  fold (NoPadding.GetValue (NoPadding.variance_ss a)).
  rewrite Hd1, Hd2, Hd3.
  split; [exact Ha1|]. split; [exact Ha2|]. split; [exact Ha3|].
  split; [reflexivity|]. split; [reflexivity|]. split; [reflexivity|].
  split. { unfold tf_add. rewrite shape_map2, Hcs. cbn [tf_cast shape]. rewrite Hc1. reflexivity. }
  split.
  { unfold tf_add. cbn [tf_map2 data]. rewrite (bget_rank0 _ _ Hcs), Hcd.
    rewrite bget_rank0 by (cbn [tf_cast shape]; exact Hc1).
    rewrite data_cast_float by discriminate.
    rewrite <- (bget_rank0 cn [] Hc1), Hc2, Qc_of_nat_add. ring. }
  split. { unfold tf_add. rewrite shape_map2, Hms. cbn [tf_cast shape]. rewrite Hm1.
           apply bshape_same. }
  split. { unfold tf_add. rewrite shape_map2, Hvs. cbn [tf_cast shape]. rewrite Hv1.
           apply bshape_same. }
  intros c Hc. destruct (Hmv c Hc) as [HM HV]. destruct (Hmvd c Hc) as [Hmc Hvc].
  assert (Hchan : channel_sum x1 N H W c = channel_sum x N H W c).
  { unfold channel_sum. apply sum_n_ext. intros n _. apply sum_n_ext. intros h _.
    apply sum_n_ext. intros w _. apply Hx1d. }
  assert (Hchansq : channel_sum_sq x1 N H W c = channel_sum_sq x N H W c).
  { unfold channel_sum_sq. apply sum_n_ext. intros n _. apply sum_n_ext. intros h _.
    apply sum_n_ext. intros w _. rewrite Hx1d. reflexivity. }
  split; unfold tf_add; cbn [tf_map2 data].
  - rewrite !bget_in_range
      by (cbn [tf_cast shape]; rewrite ?Hms, ?Hm1; repeat constructor; exact Hc).
    rewrite data_cast_float by discriminate. rewrite HM, Hmc, Hchan. ring.
  - rewrite !bget_in_range
      by (cbn [tf_cast shape]; rewrite ?Hvs, ?Hv1; repeat constructor; exact Hc).
    rewrite data_cast_float by discriminate. rewrite HV, Hvc, Hchansq. ring.
Qed.

Lemma micro_batches_accumulate (batches : list Tensor) :
  forall (a : NoPadding.Accumulators) (K : nat) (M V : nat -> Qc),
  Forall (fun x => exists N, shape x = [N; H; W; C]) batches ->
  accumulated C a K M V ->
  exists outs a',
    NoPadding.micro_batches false false false tf_sqrt number_of_shards num_replicas p theta
      (map (fun x _ => x) batches) r a = NoPadding.Returns (outs, a')
    /\ length outs = length batches
    /\ accumulated C a' (pooled_count H W batches + K)
         (fun c => Qcplus (pooled_sum H W c batches) (M c))
         (fun c => Qcplus (pooled_sum_sq H W c batches) (V c)).
Proof.
  induction batches as [|x rest IH]; intros a K M V Hall Hacc.
  - exists [], a. split; [reflexivity|]. split; [reflexivity|].
    destruct Hacc as (Ha1 & Ha2 & Ha3 & Hd1 & Hd2 & Hd3 & Hcs & Hcd & Hms & Hvs & Hmv).
    unfold accumulated. cbn [pooled_count pooled_sum pooled_sum_sq Nat.add].
    repeat (split; [assumption|]). intros c Hc. destruct (Hmv c Hc) as [HM HV].
    rewrite HM, HV. split; ring.
  - inversion Hall as [|x' rest' [N HN] Hrest]; subst.
    destruct (FProp_accumulates x N a K M V HN Hacc) as (out & a1 & E1 & Hacc1).
    destruct (IH a1 _ _ _ Hrest Hacc1) as (outs & a2 & E2 & Hlen & Hacc2).
    exists (out :: outs), a2. cbn [map NoPadding.micro_batches].
    unfold fprop in E1. rewrite E1. cbn [NoPadding.then_]. rewrite E2. cbn [NoPadding.then_].
    split; [reflexivity|]. split; [cbn [length]; rewrite Hlen; reflexivity|].
    destruct Hacc2 as (Ha1 & Ha2 & Ha3 & Hd1 & Hd2 & Hd3 & Hcs & Hcd & Hms & Hvs & Hmv).
    unfold accumulated. cbn [pooled_count pooled_sum pooled_sum_sq].
    rewrite HN. cbn [extent nth].
    repeat (split; [assumption|]).
    split. { rewrite Hcd. f_equal. lia. }
    repeat (split; [assumption|]).
    intros c Hc. destruct (Hmv c Hc) as [HM HV]. rewrite HM, HV. split; ring.
Qed.

End TrainingStep.

(** The moving statistics after a training step of micro-batches.  From
    the accumulators the layer was created with, [FProp] in training on
    the micro-batches of one step (each of shape [[N, H, W, C]], [N] free)
    followed by [PostTrainingStepUpdate] moves the moving mean and the
    moving variance by [1 - decay] of their distance to the mean and the
    variance over the elements of all the micro-batches together, leaves
    them as they are when the micro-batches have no element, and in both
    cases leaves the accumulators reset. *)
Theorem micro_batches_pool_into_the_moving_statistics (tf_sqrt : Qc -> Qc)
    (number_of_shards : option Z) (num_replicas : nat) (p : NoPadding.Params)
    (theta vars : NoPadding.Theta) (batches : list Tensor) (r H W C : nat) :
  NoPadding.p_dtype p = float32 ->
  Z.to_nat (NoPadding.p_dim p) = C ->
  Forall (fun x => exists N, shape x = [N; H; W; C]) batches ->
  shape (NoPadding.moving_mean vars) = [C] ->
  shape (NoPadding.moving_variance vars) = [C] ->
  exists outs accs,
    NoPadding.micro_batches false false false tf_sqrt number_of_shards num_replicas p theta
      (map (fun x _ => x) batches) r (snd (NoPadding._CreateLayerVariables p))
    = NoPadding.Returns (outs, accs)
    /\ let vars' := fst (NoPadding.PostTrainingStepUpdate p vars accs) in
       let accs' := snd (NoPadding.PostTrainingStepUpdate p vars accs) in
       let total := pooled_count H W batches in
       accumulated C accs' 0 (fun _ => 0%Qc) (fun _ => 0%Qc)
       /\ shape (NoPadding.moving_mean vars') = [C]
       /\ shape (NoPadding.moving_variance vars') = [C]
       /\ forall c, c < C ->
            let mean := Qcdiv (pooled_sum H W c batches) (Qc_of_nat total) in
            let variance :=
              Qcminus (Qcdiv (pooled_sum_sq H W c batches) (Qc_of_nat total)) (sqr mean) in
            let mm := data (NoPadding.moving_mean vars) [c] in
            let mv := data (NoPadding.moving_variance vars) [c] in
            data (NoPadding.moving_mean vars') [c]
            = (if total =? 0 then mm
               else Qcminus mm (Qcmult (Qcminus mm mean)
                                       (Qcminus 1%Qc (NoPadding.p_decay p))))
            /\ data (NoPadding.moving_variance vars') [c]
               = (if total =? 0 then mv
                  else Qcminus mv (Qcmult (Qcminus mv variance)
                                          (Qcminus 1%Qc (NoPadding.p_decay p)))).
Proof.
  intros Hdt HC Hall Hmm Hmv.
  destruct (micro_batches_accumulate tf_sqrt number_of_shards num_replicas p theta r H W C
              Hdt batches _ 0 _ _ Hall (created_accumulators p C Hdt HC))
    as (outs & accs & E & _ & Hacc).
  exists outs, accs. split; [exact E|]. cbv zeta.
  destruct Hacc as (Ha1 & Ha2 & Ha3 & Hd1 & Hd2 & Hd3 & Hcs & Hcd & Hms & Hvs & Hmvd).
  rewrite Nat.add_0_r in Hcd.
  unfold NoPadding.PostTrainingStepUpdate. cbv zeta.
  pose proof (normalize_moments_vectors _ _ _ C _ Hcs Hcd Hms Hvs) as Hnm.
  cbv zeta in Hnm.
  set (cn := NoPadding.GetValue (NoPadding.counts accs)) in *.
  set (ms := NoPadding.GetValue (NoPadding.mean_ss accs)) in *.
  set (vs := NoPadding.GetValue (NoPadding.variance_ss accs)) in *.
  set (nm := tf_nn_normalize_moments cn ms vs) in *.
  destruct Hnm as (Hs1 & Hs2 & _ & _ & Hd).
  rewrite (surjective_pairing nm). cbn [fst snd NoPadding.moving_mean NoPadding.moving_variance].
  set (cond := tf_greater cn (Q2Qc (1 # 2))).
  assert (Hcond : forall idx, bget cond idx
                    = if pooled_count H W batches =? 0 then 0%Qc else 1%Qc).
  { intros idx. rewrite bget_rank0 by exact Hcs. unfold cond. cbn [tf_greater data].
    rewrite Hcd, Qcltb_half_of_nat. destruct (pooled_count H W batches =? 0); reflexivity. }
  assert (Hupd : forall (var stat : Tensor), shape var = [C] -> shape stat = [C] ->
            let u := tf_sub var
                       (tf_where cond
                          (tf_mul (tf_sub var (tf_cast stat (NoPadding.p_dtype p)))
                                  (tf_cast (tf_scalar (Qcminus 1%Qc (NoPadding.p_decay p)))
                                           (NoPadding.p_dtype p)))
                          (tf_zeros (shape var))) in
            shape u = [C]
            /\ forall c, c < C ->
                 data u [c]
                 = if pooled_count H W batches =? 0 then data var [c]
                   else Qcminus (data var [c])
                          (Qcmult (Qcminus (data var [c]) (data stat [c]))
                                  (Qcminus 1%Qc (NoPadding.p_decay p)))).
  { intros var stat Hvar Hstat. cbv zeta. rewrite Hdt.
    assert (Hdiff : shape (tf_mul (tf_sub var (tf_cast stat float32))
                                  (tf_cast (tf_scalar (Qcminus 1%Qc (NoPadding.p_decay p)))
                                           float32)) = [C]).
    { unfold tf_mul, tf_sub. rewrite !shape_map2. cbn [tf_cast tf_scalar tf_fill shape].
      rewrite Hvar, Hstat, bshape_same. apply bshape_nil_r. }
    assert (Hw : shape (tf_where cond
                          (tf_mul (tf_sub var (tf_cast stat float32))
                                  (tf_cast (tf_scalar (Qcminus 1%Qc (NoPadding.p_decay p)))
                                           float32))
                          (tf_zeros (shape var))) = [C]).
    { cbn [tf_where shape]. rewrite Hdiff. cbn [tf_zeros tf_fill shape]. rewrite Hvar.
      unfold cond. cbn [tf_greater shape]. rewrite Hcs, bshape_same. reflexivity. }
    split.
    - unfold tf_sub at 1. rewrite shape_map2, Hw, Hvar. apply bshape_same.
    - intros c Hc. unfold tf_sub at 1. cbn [tf_map2 data].
      rewrite !bget_in_range by (rewrite ?Hw, ?Hvar; repeat constructor; exact Hc).
      cbn [tf_where data]. rewrite Hcond.
      destruct (pooled_count H W batches =? 0).
      + cbn [Qcltb]. replace (Qcltb 0%Qc 0%Qc) with false by (symmetry; apply Qcltb_irrefl).
        unfold bget. cbn [tf_zeros tf_fill data]. ring.
      + replace (Qcltb 0%Qc 1%Qc) with true by reflexivity.
        rewrite bget_in_range by (rewrite Hdiff; repeat constructor; exact Hc).
        unfold tf_mul at 1. cbn [tf_map2 data].
        rewrite bget_in_range
          by (unfold tf_sub; rewrite shape_map2; cbn [tf_cast shape];
              rewrite Hvar, Hstat, bshape_same; repeat constructor; exact Hc).
        unfold tf_sub at 1. cbn [tf_map2 data].
        rewrite !bget_in_range
          by (cbn [tf_cast shape]; rewrite ?Hvar, ?Hstat; repeat constructor; exact Hc).
        rewrite data_cast_float by discriminate.
        rewrite bget_rank0 by reflexivity. reflexivity. }
  destruct (Hupd (NoPadding.moving_mean vars) (fst nm) Hmm Hs1) as [Hu1 Hu1d].
  destruct (Hupd (NoPadding.moving_variance vars) (snd nm) Hmv Hs2) as [Hu2 Hu2d].
  split.
  { unfold accumulated, NoPadding.Reset, NoPadding.GetValue, NoPadding.DefaultValue.
    cbn [NoPadding.counts NoPadding.mean_ss NoPadding.variance_ss NoPadding.acc_dtype
         NoPadding.acc_value NoPadding.acc_shape tf_cast tf_zeros tf_fill shape data].
    rewrite Ha1, Ha2, Ha3, Hd1, Hd2, Hd3. repeat split; reflexivity. }
  split; [exact Hu1|]. split; [exact Hu2|].
  intros c Hc. destruct (Hd c Hc) as [Hm Hv]. destruct (Hmvd c Hc) as [HM HV].
  rewrite (Hu1d c Hc), (Hu2d c Hc), Hv, Hm, HM, HV.
  replace (Qcplus (pooled_sum H W c batches) 0%Qc) with (pooled_sum H W c batches) by ring.
  replace (Qcplus (pooled_sum_sq H W c batches) 0%Qc) with (pooled_sum_sq H W c batches)
    by ring.
  split; reflexivity.
Qed.

Definition first_micro_batch : Tensor := of_flat [1; 1; 2; 1] [frac 1 1; frac 3 1].
Definition second_micro_batch : Tensor :=
  of_flat [2; 1; 2; 1] [frac 5 1; frac 7 1; frac 9 1; frac 11 1].

Lemma micro_batches_pool_into_the_moving_statistics_witness :
  exists outs accs,
    NoPadding.micro_batches false false false sqrt_on_squares None 1 no_padding_params
      (fst (NoPadding._CreateLayerVariables no_padding_params))
      (map (fun x _ => x) [first_micro_batch; second_micro_batch]) 0
      (snd (NoPadding._CreateLayerVariables no_padding_params))
    = NoPadding.Returns (outs, accs)
    /\ data (NoPadding.moving_mean
               (fst (NoPadding.PostTrainingStepUpdate no_padding_params
                       (fst (NoPadding._CreateLayerVariables no_padding_params)) accs))) [0]
       = frac 18 1000.
Proof.
  destruct (micro_batches_pool_into_the_moving_statistics sqrt_on_squares None 1
              no_padding_params (fst (NoPadding._CreateLayerVariables no_padding_params))
              (fst (NoPadding._CreateLayerVariables no_padding_params))
              [first_micro_batch; second_micro_batch] 0 1 2 1)
    as (outs & accs & E & H);
    try reflexivity.
  - repeat constructor; eexists; reflexivity.
  - exists outs, accs. split; [exact E|].
    cbv zeta in H. destruct H as (_ & _ & _ & Hc). destruct (Hc 0) as [Hm _]; [lia|].
    rewrite Hm. apply Qc_is_canon. vm_compute. reflexivity.
Defined.
